(** * Tempest atmosphere core: Grid and GridPatch

    A shallow embedding of [src/atm/Grid.cpp] and [src/atm/GridPatch.cpp]:
    patch registration, round-robin distribution, connectivity
    construction, checksums, root consolidation and the data-slot
    operations of a patch.

    Conventions of the embedding.
    - A C++ [int] is a [Z]; the arithmetic of the sources is index and
      count arithmetic, far from the range of a 32-bit integer, and signed
      overflow (undefined in C++) is not part of the model.
    - A C++ [double] is a binary64 [float] of the kernel.
    - [std::vector] and the one-dimensional [DataVector] are lists; an
      index outside the vector is undefined behaviour and is raised as
      [Undefined].
    - A [GridPatch *] is an address in a store of patches; the vectors of
      the grid hold addresses, so that two vectors may name one object.
    - [_EXCEPTIONT(msg)] is [Raises (Fatal msg)]; the state at the moment
      of the throw stays observable. *)

From Stdlib Require Import ZArith Lia PrimFloat.
From stdpp Require Import base option list gmap strings.

#[local] Open Scope Z_scope.

(** ** Outcomes of a call *)

Inductive exn : Type :=
| Fatal (msg : string)      (* _EXCEPTIONT(msg) thrown by the sources *)
| External (who : string)   (* an exception raised inside a collaborator *)
| Undefined (what : string) (* undefined behaviour of C++ *)
| Blocked (who : string).   (* a blocking call that never returns *)

Inductive outcome (A : Type) : Type :=
| Returns (a : A)
| Raises (e : exn).

Arguments Returns {A} a.
Arguments Raises {A} e.

(** A computation over a state [S]: the final state is returned in every
    case, so that what was written before a throw can be inspected. *)
Definition M (S A : Type) : Type := S -> outcome A * S.

Definition ret {S A} (a : A) : M S A := fun s => (Returns a, s).

Definition bind {S A B} (m : M S A) (k : A -> M S B) : M S B :=
  fun s =>
    match m s with
    | (Returns a, s') => k a s'
    | (Raises e, s') => (Raises e, s')
    end.

Definition raise {S A} (e : exn) : M S A := fun s => (Raises e, s).

Definition get {S} : M S S := fun s => (Returns s, s).

Definition put {S} (s : S) : M S unit := fun _ => (Returns tt, s).

Definition modify {S} (f : S -> S) : M S unit := fun s => (Returns tt, f s).

(** A pure step that may fail. *)
Definition lift {S A} (o : outcome A) : M S A := fun s => (o, s).

(** A collaborator that either answers or raises. *)
Definition external {S A} (who : string) (o : option A) : M S A :=
  match o with
  | Some a => ret a
  | None => raise (External who)
  end.

Notation "x <- m ;; k" := (bind m (fun x => k))
  (at level 99, m at next level, right associativity).
Notation "m ;;; k" := (bind m (fun _ => k))
  (at level 99, right associativity).

(** [if (c) _EXCEPTIONT(msg);] *)
Definition throw_if {S} (c : bool) (msg : string) : M S unit :=
  if c then raise (Fatal msg) else ret tt.

(** Run a computation on a part of the state. *)
Definition zoom {S T A} (proj : S -> T) (inj : T -> S -> S) (m : M T A) : M S A :=
  fun s => let '(o, t) := m (proj s) in (o, inj t s).

(** ** Loops

    [for_loop n next body i a] runs [body] [n] times, with the loop
    variable starting at [i] and stepped by [next], and block-local
    variables carried in [a].  The bounds of every [for] of the sources
    are fixed before the loop, so the trip count is known on entry. *)
Fixpoint for_loop {S A} (n : nat) (next : Z -> Z)
    (body : Z -> A -> M S A) (i : Z) (a : A) : M S A :=
  match n with
  | O => ret a
  | S n' => a' <- body i a ;; for_loop n' next body (next i) a'
  end.

(** [for (i = lo; i < hi; i++)] *)
Definition for_upto {S A} (lo hi : Z) (body : Z -> A -> M S A) (a : A) : M S A :=
  for_loop (Z.to_nat (hi - lo)) Z.succ body lo a.

(** [for (i = hi; i >= lo; i--)] *)
Definition for_downto {S A} (hi lo : Z) (body : Z -> A -> M S A) (a : A) : M S A :=
  for_loop (Z.to_nat (hi - lo + 1)) Z.pred body hi a.

(** [for (n = 0; n < v.size(); n++) { ... v[n] ... }] over a vector that
    the body leaves alone: the body gets the index and the element. *)
Fixpoint for_vec_from {S A B} (n : Z) (v : list B)
    (body : Z -> B -> A -> M S A) (a : A) : M S A :=
  match v with
  | [] => ret a
  | x :: v' => a' <- body n x a ;; for_vec_from (n + 1) v' body a'
  end.

Definition for_vec {S A B} (v : list B) (body : Z -> B -> A -> M S A) (a : A) : M S A :=
  for_vec_from 0 v body a.

(** ** Vectors indexed by an [int] *)

Definition size {A} (v : list A) : Z := Z.of_nat (length v).

Definition vec_get {A} (what : string) (v : list A) (i : Z) : outcome A :=
  if i <? 0 then Raises (Undefined what)
  else match v !! Z.to_nat i with
       | Some x => Returns x
       | None => Raises (Undefined what)
       end.

Definition vec_set {A} (what : string) (v : list A) (i : Z) (x : A) : outcome (list A) :=
  if (i <? 0) || (size v <=? i) then Raises (Undefined what)
  else Returns (<[Z.to_nat i := x]> v).

(** ** Machine integers

    An [int] has 32 bits: a sum, a difference or a product is taken
    modulo 2^32 into the range from -2^31 to 2^31 - 1.  Compared with
    the unsigned [size_t] count of an array, an [int] is first converted
    to [size_t]: a negative one becomes a count no array reaches. *)

Definition INT_MAX : Z := 2 ^ 31 - 1.

Definition wrap_int (z : Z) : Z := (z + 2 ^ 31) mod 2 ^ 32 - 2 ^ 31.

Definition int_add (a b : Z) : Z := wrap_int (a + b).

Definition int_sub (a b : Z) : Z := wrap_int (a - b).

Definition int_mul (a b : Z) : Z := wrap_int (a * b).

Definition to_unsigned (z : Z) : Z := if z <? 0 then z + 2 ^ 64 else z.

(** ** Enumerations *)

Inductive Direction : Type :=
| Direction_Unreachable
| Direction_Right
| Direction_Top
| Direction_Left
| Direction_Bottom
| Direction_TopRight
| Direction_TopLeft
| Direction_BottomLeft
| Direction_BottomRight.

Inductive DataType : Type :=
| DataType_None
| DataType_State
| DataType_RefState
| DataType_Tracers
| DataType_Jacobian
| DataType_Topography
| DataType_Longitude
| DataType_Latitude
| DataType_Z
| DataType_Pressure
| DataType_Vorticity
| DataType_Divergence
| DataType_Temperature
| DataType_TopographyDeriv
| DataType_RayleighStrength.

Inductive DataLocation : Type :=
| DataLocation_None
| DataLocation_Node
| DataLocation_AEdge
| DataLocation_BEdge
| DataLocation_REdge.

Inductive ChecksumType : Type :=
| ChecksumType_Sum
| ChecksumType_L1
| ChecksumType_L2
| ChecksumType_Linf.

#[global] Instance Direction_eq_dec : EqDecision Direction.
Proof. solve_decision. Defined.
#[global] Instance DataType_eq_dec : EqDecision DataType.
Proof. solve_decision. Defined.
#[global] Instance DataLocation_eq_dec : EqDecision DataLocation.
Proof. solve_decision. Defined.
#[global] Instance ChecksumType_eq_dec : EqDecision ChecksumType.
Proof. solve_decision. Defined.

(** ** PatchBox

    [PatchBox.h] is not among the sources.  The sources read a box only
    through its accessors, so a box is the record of what they return;
    [PatchBox_wellformed] states the relations between them that the
    specification gives (the local interior range has the interior
    width, the perimeter is twice the sum of the interior widths, the
    total extent is the interior width plus two halos). *)

Record PatchBox : Type := {
  GetPanel : Z;
  GetRefinementLevel : Z;
  GetHaloElements : Z;
  GetAGlobalInteriorBegin : Z;
  GetAGlobalInteriorEnd : Z;
  GetBGlobalInteriorBegin : Z;
  GetBGlobalInteriorEnd : Z;
  GetAInteriorBegin : Z;
  GetAInteriorEnd : Z;
  GetBInteriorBegin : Z;
  GetBInteriorEnd : Z;
  GetATotalWidth : Z;
  GetBTotalWidth : Z;
  GetTotalNodes : Z;
  GetInteriorPerimeter : Z
}.

Definition GetAInteriorWidth (box : PatchBox) : Z :=
  GetAGlobalInteriorEnd box - GetAGlobalInteriorBegin box.

Definition GetBInteriorWidth (box : PatchBox) : Z :=
  GetBGlobalInteriorEnd box - GetBGlobalInteriorBegin box.

Definition PatchBox_wellformed (box : PatchBox) : bool :=
  (0 <? GetAInteriorWidth box) && (0 <? GetBInteriorWidth box)
  && (GetAInteriorEnd box - GetAInteriorBegin box =? GetAInteriorWidth box)
  && (GetBInteriorEnd box - GetBInteriorBegin box =? GetBInteriorWidth box)
  && (GetInteriorPerimeter box =? 2 * (GetAInteriorWidth box + GetBInteriorWidth box)).

(** Modelled from the spec: the constructor of PatchBox (PatchBox.h is
    missing).  The interior starts after one halo, the total extent is
    the interior width plus twice the halo width, the perimeter counts
    the interior elements along the four edges. *)
Definition PatchBox_make (ixPanel iRefinementLevel nHaloElements
    ixAGlobalInteriorBegin ixAGlobalInteriorEnd
    ixBGlobalInteriorBegin ixBGlobalInteriorEnd : Z) : PatchBox :=
  let nA := ixAGlobalInteriorEnd - ixAGlobalInteriorBegin in
  let nB := ixBGlobalInteriorEnd - ixBGlobalInteriorBegin in
  {| GetPanel := ixPanel;
     GetRefinementLevel := iRefinementLevel;
     GetHaloElements := nHaloElements;
     GetAGlobalInteriorBegin := ixAGlobalInteriorBegin;
     GetAGlobalInteriorEnd := ixAGlobalInteriorEnd;
     GetBGlobalInteriorBegin := ixBGlobalInteriorBegin;
     GetBGlobalInteriorEnd := ixBGlobalInteriorEnd;
     GetAInteriorBegin := nHaloElements;
     GetAInteriorEnd := nHaloElements + nA;
     GetBInteriorBegin := nHaloElements;
     GetBInteriorEnd := nHaloElements + nB;
     GetATotalWidth := nA + 2 * nHaloElements;
     GetBTotalWidth := nB + 2 * nHaloElements;
     GetTotalNodes := (nA + 2 * nHaloElements) * (nB + 2 * nHaloElements);
     GetInteriorPerimeter := 2 * nA + 2 * nB |}.

(** ** Model and equation set (read through accessors only) *)

Record Model : Type := {
  GetComponents : Z;               (* GetEquationSet().GetComponents() *)
  GetTracers : Z;                  (* GetEquationSet().GetTracers() *)
  Model_GetHaloElements : Z;       (* Model::GetHaloElements() *)
  GetComponentDataInstances : Z;
  GetTracerDataInstances : Z
}.

(** ** Field arrays

    A [DataMatrix], [DataMatrix3D], [GridData3D] or [GridData4D]: whether
    it holds storage, its extents, and its elements by index.  Element
    access of the sources is by indices that the patch box bounds, and is
    total here; the address of the first element, which
    ConsolidateDataToRoot takes, is [first_element] below. *)

Record DataArray : Type := {
  IsInitialized : bool;
  da_dims : list Z;
  da_elem : list Z -> float
}.

(** A member array before any allocation. *)
Definition DataArray_detached : DataArray :=
  {| IsInitialized := false; da_dims := []; da_elem := fun _ => 0%float |}.

(** ** ExteriorNeighbor and Connectivity *)

Record ExteriorNeighbor : Type := {
  m_dir : Direction;
  m_dirOpposing : Direction;
  m_ixNeighbor : Z;
  m_fReverseDirection : bool;
  m_fFlippedCoordinate : bool;
  m_nBoundarySize : Z;
  m_ixFirst : Z;
  m_ixSecond : Z;
  m_vecSendBuffer : list float;
  m_vecRecvBuffer : list float
}.

(** The connectivity of a patch: its exterior neighbours, in the order
    they were added. *)
Definition Connectivity : Type := list ExteriorNeighbor.

(** Modelled from the spec: Connectivity::AddExteriorNeighbor
    (Connectivity.cpp is missing) adds one relation to the set held by the
    patch. *)
Definition AddExteriorNeighbor (c : Connectivity) (pNeighbor : ExteriorNeighbor) : Connectivity :=
  c ++ [pNeighbor].

(** ** GridPatch *)

Record GridPatch : Type := {
  m_ixPatch : Z;
  m_iProcessor : Z;
  m_box : PatchBox;
  m_connect : Connectivity;
  m_fContainsData : bool;
  (* the member arrays that hold storage, by member name *)
  m_fields : gmap string DataArray;
  (* the data slots *)
  m_datavecStateNode : list DataArray;
  m_datavecStateREdge : list DataArray;
  m_datavecTracers : list DataArray
}.

(** The constructor [GridPatch(grid, ixPatch, box)]. *)
Definition GridPatch_new (ixPatch : Z) (box : PatchBox) : GridPatch :=
  {| m_ixPatch := ixPatch;
     m_iProcessor := 0;
     m_box := box;
     m_connect := [];
     m_fContainsData := false;
     m_fields := ∅;
     m_datavecStateNode := [];
     m_datavecStateREdge := [];
     m_datavecTracers := [] |}.

Definition set_ixPatch (v : Z) (p : GridPatch) : GridPatch :=
  {| m_ixPatch := v; m_iProcessor := m_iProcessor p; m_box := m_box p;
     m_connect := m_connect p; m_fContainsData := m_fContainsData p;
     m_fields := m_fields p; m_datavecStateNode := m_datavecStateNode p;
     m_datavecStateREdge := m_datavecStateREdge p;
     m_datavecTracers := m_datavecTracers p |}.

Definition set_iProcessor (v : Z) (p : GridPatch) : GridPatch :=
  {| m_ixPatch := m_ixPatch p; m_iProcessor := v; m_box := m_box p;
     m_connect := m_connect p; m_fContainsData := m_fContainsData p;
     m_fields := m_fields p; m_datavecStateNode := m_datavecStateNode p;
     m_datavecStateREdge := m_datavecStateREdge p;
     m_datavecTracers := m_datavecTracers p |}.

Definition set_connect (v : Connectivity) (p : GridPatch) : GridPatch :=
  {| m_ixPatch := m_ixPatch p; m_iProcessor := m_iProcessor p; m_box := m_box p;
     m_connect := v; m_fContainsData := m_fContainsData p;
     m_fields := m_fields p; m_datavecStateNode := m_datavecStateNode p;
     m_datavecStateREdge := m_datavecStateREdge p;
     m_datavecTracers := m_datavecTracers p |}.

Definition set_fContainsData (v : bool) (p : GridPatch) : GridPatch :=
  {| m_ixPatch := m_ixPatch p; m_iProcessor := m_iProcessor p; m_box := m_box p;
     m_connect := m_connect p; m_fContainsData := v;
     m_fields := m_fields p; m_datavecStateNode := m_datavecStateNode p;
     m_datavecStateREdge := m_datavecStateREdge p;
     m_datavecTracers := m_datavecTracers p |}.

Definition set_fields (v : gmap string DataArray) (p : GridPatch) : GridPatch :=
  {| m_ixPatch := m_ixPatch p; m_iProcessor := m_iProcessor p; m_box := m_box p;
     m_connect := m_connect p; m_fContainsData := m_fContainsData p;
     m_fields := v; m_datavecStateNode := m_datavecStateNode p;
     m_datavecStateREdge := m_datavecStateREdge p;
     m_datavecTracers := m_datavecTracers p |}.

Definition set_datavecStateNode (v : list DataArray) (p : GridPatch) : GridPatch :=
  {| m_ixPatch := m_ixPatch p; m_iProcessor := m_iProcessor p; m_box := m_box p;
     m_connect := m_connect p; m_fContainsData := m_fContainsData p;
     m_fields := m_fields p; m_datavecStateNode := v;
     m_datavecStateREdge := m_datavecStateREdge p;
     m_datavecTracers := m_datavecTracers p |}.

Definition set_datavecStateREdge (v : list DataArray) (p : GridPatch) : GridPatch :=
  {| m_ixPatch := m_ixPatch p; m_iProcessor := m_iProcessor p; m_box := m_box p;
     m_connect := m_connect p; m_fContainsData := m_fContainsData p;
     m_fields := m_fields p; m_datavecStateNode := m_datavecStateNode p;
     m_datavecStateREdge := v;
     m_datavecTracers := m_datavecTracers p |}.

Definition set_datavecTracers (v : list DataArray) (p : GridPatch) : GridPatch :=
  {| m_ixPatch := m_ixPatch p; m_iProcessor := m_iProcessor p; m_box := m_box p;
     m_connect := m_connect p; m_fContainsData := m_fContainsData p;
     m_fields := m_fields p; m_datavecStateNode := m_datavecStateNode p;
     m_datavecStateREdge := m_datavecStateREdge p;
     m_datavecTracers := v |}.

(** A member array of a patch, by name. *)
Definition field (p : GridPatch) (name : string) : DataArray :=
  default DataArray_detached (m_fields p !! name).

(** ** Grid *)

(** The address of a [GridPatch]; [NULL] is never the address of one. *)
Definition ptr : Type := nat.
Definition NULL : ptr := 0%nat.

Record Grid : Type := {
  (* the GridPatch objects on the free store *)
  heap : gmap ptr GridPatch;
  m_model : Model;
  m_nRElements : Z;
  m_vecVarLocation : list DataLocation;
  m_vecGridPatches : list ptr;
  m_vecActiveGridPatches : list ptr;
  m_vecCumulativePatch2DNodeIndex : list Z
}.

Definition set_heap (v : gmap ptr GridPatch) (g : Grid) : Grid :=
  {| heap := v; m_model := m_model g; m_nRElements := m_nRElements g;
     m_vecVarLocation := m_vecVarLocation g;
     m_vecGridPatches := m_vecGridPatches g;
     m_vecActiveGridPatches := m_vecActiveGridPatches g;
     m_vecCumulativePatch2DNodeIndex := m_vecCumulativePatch2DNodeIndex g |}.

Definition set_vecGridPatches (v : list ptr) (g : Grid) : Grid :=
  {| heap := heap g; m_model := m_model g; m_nRElements := m_nRElements g;
     m_vecVarLocation := m_vecVarLocation g;
     m_vecGridPatches := v;
     m_vecActiveGridPatches := m_vecActiveGridPatches g;
     m_vecCumulativePatch2DNodeIndex := m_vecCumulativePatch2DNodeIndex g |}.

Definition set_vecActiveGridPatches (v : list ptr) (g : Grid) : Grid :=
  {| heap := heap g; m_model := m_model g; m_nRElements := m_nRElements g;
     m_vecVarLocation := m_vecVarLocation g;
     m_vecGridPatches := m_vecGridPatches g;
     m_vecActiveGridPatches := v;
     m_vecCumulativePatch2DNodeIndex := m_vecCumulativePatch2DNodeIndex g |}.

Definition set_vecCumulativePatch2DNodeIndex (v : list Z) (g : Grid) : Grid :=
  {| heap := heap g; m_model := m_model g; m_nRElements := m_nRElements g;
     m_vecVarLocation := m_vecVarLocation g;
     m_vecGridPatches := m_vecGridPatches g;
     m_vecActiveGridPatches := m_vecActiveGridPatches g;
     m_vecCumulativePatch2DNodeIndex := v |}.

(** The constructor [Grid(model, ..., nRElements)]: no patch yet. *)
Definition Grid_new (h : gmap ptr GridPatch) (model : Model) (nRElements : Z)
    (vecVarLocation : list DataLocation) : Grid :=
  {| heap := h; m_model := model; m_nRElements := nRElements;
     m_vecVarLocation := vecVarLocation;
     m_vecGridPatches := [];
     m_vecActiveGridPatches := [];
     m_vecCumulativePatch2DNodeIndex := [] |}.

(** [*p] for reading. *)
Definition deref (p : ptr) : M Grid GridPatch :=
  fun g =>
    match heap g !! p with
    | Some patch => (Returns patch, g)
    | None => (Raises (Undefined "dereference of an invalid GridPatch pointer"), g)
    end.

(** Run a member function of [GridPatch] on the object at [p]. *)
Definition on_patch {A} (p : ptr) (m : M GridPatch A) : M Grid A :=
  fun g =>
    match heap g !! p with
    | Some patch =>
        let '(o, patch') := m patch in
        (o, set_heap (<[p := patch']> (heap g)) g)
    | None => (Raises (Undefined "dereference of an invalid GridPatch pointer"), g)
    end.

(** [v[i]] on a vector of the grid. *)
Definition vec_at {S A} (what : string) (v : list A) (i : Z) : M S A :=
  lift (vec_get what v i).

(** ** Messages

    A message of the transport: its envelope and the doubles it
    carries. *)

Record Message : Type := {
  MPI_SOURCE : Z;
  MPI_TAG : Z;
  msg_data : list float
}.

Inductive MPI_Op : Type := MPI_MAX | MPI_SUM.

(** ** Collaborators

    What the sources call but do not define: the virtual functions of
    [Grid] that a concrete grid supplies, the buffers of a neighbour, the
    arithmetic of [GridData4D], [ConsolidationStatus], and constants of
    headers that are not among the sources.  A collaborator that may
    throw answers with an [option]. *)

Class Collaborators : Type := {
  (* GridPatch::InvalidIndex *)
  InvalidIndex : Z;
  (* Grid::GetPatchFromCoordinateIndex(level, vecIxA, vecIxB, vecPanel,
     vecPatch, nVectorLength): the new contents of vecPatch *)
  GetPatchFromCoordinateIndex :
    Grid -> Z -> list Z -> list Z -> list Z -> list Z -> Z -> option (list Z);
  (* Grid::GetOpposingDirection(panelFirst, panelSecond, dirFirst):
     dirOpposing, fReverseDirection, fFlippedCoordinate *)
  GetOpposingDirection : Z -> Z -> Direction -> option (Direction * bool * bool);
  (* Grid::GetCumulativePatch3DNodeIndex(ix) *)
  GetCumulativePatch3DNodeIndex : Grid -> Z -> option Z;
  (* ExteriorNeighbor::InitializeBuffers(nRElements, nHaloElements, nVariables) *)
  InitializeBuffers : ExteriorNeighbor -> Z -> Z -> Z -> ExteriorNeighbor;
  (* Connectivity::Pack(data), Connectivity::Send(), Neighbor::Unpack(data) *)
  Connectivity_Pack : Connectivity -> DataArray -> Connectivity;
  Connectivity_Send : Connectivity -> Connectivity;
  Neighbor_Unpack : ExteriorNeighbor -> DataArray -> DataArray;
  (* DataMatrix::Allocate(extents), DataMatrix::Detach() *)
  Allocate : list Z -> DataArray;
  Detach : DataArray -> DataArray;
  (* GridData::Initialize(type, location, extents and halo), Deinitialize() *)
  GridData_Initialize : DataType -> DataLocation -> list Z -> DataArray;
  GridData_Deinitialize : DataArray -> DataArray;
  GridDataVector_Deinitialize : list DataArray -> list DataArray;
  (* GridData::Zero(), Scale(c), AddProduct(src, c) *)
  GridData_Zero : DataArray -> DataArray;
  GridData_Scale : DataArray -> float -> DataArray;
  GridData_AddProduct : DataArray -> DataArray -> float -> DataArray;
  (* ConsolidationStatus *)
  ConsolidationStatus : Type;
  Done : ConsolidationStatus -> bool;
  Contains : ConsolidationStatus -> DataType -> bool;
  SetReceiveStatus : ConsolidationStatus -> Z -> DataType -> option ConsolidationStatus;
  GetNextSendRequest : ConsolidationStatus -> ConsolidationStatus;
  GenerateTag : Z -> DataType -> Z;
  ParseTag : Z -> option (Z * DataType);
  (* GetTotalElements(), and the doubles stored from the first element on *)
  GetTotalElements : DataArray -> Z;
  contents : DataArray -> list float;
  (* MPI_Reduce(op): what the root receives from the send buffers of all
     processes, listed by rank; the order of combination is the
     transport's *)
  MPI_Reduce : MPI_Op -> list (list float) -> list float
}.

(** * The sources *)

Section Sources.
Context `{Collaborators}.

(** ** GridPatch.cpp: node counts *)

(** [GridPatch::GetTotalNodeCount2D] *)
Definition GridPatch_GetTotalNodeCount2D (this : GridPatch) : Z :=
  int_mul (GetATotalWidth (m_box this)) (GetBTotalWidth (m_box this)).

(** [GridPatch::GetTotalNodeCount(loc)]; [g] is the grid [m_grid] that the
    patch refers to. *)
Definition GridPatch_GetTotalNodeCount (g : Grid) (this : GridPatch)
    (loc : DataLocation) : outcome Z :=
  match loc with
  | DataLocation_Node => Returns (int_mul (GetTotalNodes (m_box this)) (m_nRElements g))
  | DataLocation_REdge =>
      Returns (int_mul (GetTotalNodes (m_box this)) (int_add (m_nRElements g) 1))
  | _ => Raises (Fatal "Invalid DataLocation")
  end.

(** ** GridPatch.cpp: allocation of the field storage *)

(** [member.Allocate(...)], [member.Initialize(...)]: the member [name]
    now holds [a]. *)
Definition store_field (name : string) (a : DataArray) : M GridPatch unit :=
  modify (fun p => set_fields (<[name := a]> (m_fields p)) p).

(** [member.Detach()], [member.Deinitialize()] *)
Definition update_field (name : string) (f : DataArray -> DataArray) : M GridPatch unit :=
  modify (fun p => set_fields (<[name := f (field p name)]> (m_fields p)) p).

(** [std::vector::resize(n)]: a negative [int] is a huge [size_t], and
    the library throws. *)
Definition vec_resize (v : list DataArray) (n : Z) : outcome (list DataArray) :=
  if n <? 0 then Raises (External "std::vector::resize")
  else Returns (take (Z.to_nat n) v
                  ++ replicate (Z.to_nat n - length v) DataArray_detached).

(** [GridPatch::DeinitializeData] *)
Definition GridPatch_DeinitializeData : M GridPatch unit :=
  this <- get ;;
  throw_if (negb (m_fContainsData this))
    "Attempting to deinitialize a stub GridPatch." ;;;
  modify (set_fContainsData false) ;;;
  update_field "m_dataJacobian2D" Detach ;;;
  update_field "m_dataContraMetric2DA" Detach ;;;
  update_field "m_dataContraMetric2DB" Detach ;;;
  update_field "m_dataCovMetric2DA" Detach ;;;
  update_field "m_dataCovMetric2DB" Detach ;;;
  update_field "m_dataJacobian" Detach ;;;
  update_field "m_dataJacobianREdge" Detach ;;;
  update_field "m_dataContraMetricA" Detach ;;;
  update_field "m_dataContraMetricB" Detach ;;;
  update_field "m_dataContraMetricXi" Detach ;;;
  update_field "m_dataCovMetricA" Detach ;;;
  update_field "m_dataCovMetricB" Detach ;;;
  update_field "m_dataCovMetricXi" Detach ;;;
  update_field "m_dataContraMetricXiREdge" Detach ;;;
  update_field "m_dataDerivRNode" Detach ;;;
  update_field "m_dataElementArea" Detach ;;;
  update_field "m_dataElementAreaREdge" Detach ;;;
  update_field "m_dataTopography" Detach ;;;
  update_field "m_dataTopographyDeriv" GridData_Deinitialize ;;;
  update_field "m_dataLon" Detach ;;;
  update_field "m_dataLat" Detach ;;;
  update_field "m_dataZLevels" Detach ;;;
  update_field "m_dataZInterfaces" Detach ;;;
  modify (fun p => set_datavecStateNode (GridDataVector_Deinitialize (m_datavecStateNode p)) p) ;;;
  modify (fun p => set_datavecStateREdge (GridDataVector_Deinitialize (m_datavecStateREdge p)) p) ;;;
  modify (fun p => set_datavecTracers (GridDataVector_Deinitialize (m_datavecTracers p)) p) ;;;
  update_field "m_dataPressure" GridData_Deinitialize ;;;
  update_field "m_dataDxPressure" GridData_Deinitialize ;;;
  update_field "m_dataVorticity" GridData_Deinitialize ;;;
  update_field "m_dataDivergence" GridData_Deinitialize ;;;
  update_field "m_dataTemperature" GridData_Deinitialize ;;;
  update_field "m_dataRayleighStrengthNode" GridData_Deinitialize ;;;
  update_field "m_dataRayleighStrengthREdge" GridData_Deinitialize.

(** [GridPatch::InitializeDataRemote(iProcessor)] *)
Definition GridPatch_InitializeDataRemote (iProcessor : Z) : M GridPatch unit :=
  this <- get ;;
  (if m_fContainsData this then GridPatch_DeinitializeData else ret tt) ;;;
  modify (set_iProcessor iProcessor).

(** The loop of [InitializeDataLocal] over the state slots:
    [m_datavecStateNode[m].Initialize(...)] and
    [m_datavecStateREdge[m].Initialize(...)] for each instance [m]. *)
Definition initialize_state_slots (nInstances : Z) (node redge : DataArray)
    : M GridPatch unit :=
  for_upto 0 nInstances (fun m _ =>
    p <- get ;;
    v <- lift (vec_set "m_datavecStateNode[m]" (m_datavecStateNode p) m node) ;;
    modify (set_datavecStateNode v) ;;;
    p <- get ;;
    v <- lift (vec_set "m_datavecStateREdge[m]" (m_datavecStateREdge p) m redge) ;;
    modify (set_datavecStateREdge v)) tt.

(** The loop over the tracer slots. *)
Definition initialize_tracer_slots (nInstances : Z) (node : DataArray)
    : M GridPatch unit :=
  for_upto 0 nInstances (fun m _ =>
    p <- get ;;
    v <- lift (vec_set "m_datavecTracers[m]" (m_datavecTracers p) m node) ;;
    modify (set_datavecTracers v)) tt.

(** [GridPatch::InitializeDataLocal]; [nRank] is what [MPI_Comm_rank]
    answers on this process, [g] the grid [m_grid]. *)
Definition GridPatch_InitializeDataLocal (nRank : Z) (g : Grid) : M GridPatch unit :=
  this <- get ;;
  throw_if (m_fContainsData this)
    "Attempting to initialize a previously initialized GridPatch." ;;;
  modify (set_fContainsData true) ;;;
  modify (set_iProcessor nRank) ;;;
  let nA := GetATotalWidth (m_box this) in
  let nB := GetBTotalWidth (m_box this) in
  let nHalo := GetHaloElements (m_box this) in
  let nR := m_nRElements g in
  store_field "m_dataJacobian2D" (Allocate [nA; nB]) ;;;
  store_field "m_dataContraMetric2DA" (Allocate [nA; nB; 2]) ;;;
  store_field "m_dataContraMetric2DB" (Allocate [nA; nB; 2]) ;;;
  store_field "m_dataCovMetric2DA" (Allocate [nA; nB; 2]) ;;;
  store_field "m_dataCovMetric2DB" (Allocate [nA; nB; 2]) ;;;
  store_field "m_dataJacobian" (Allocate [nR; nA; nB]) ;;;
  store_field "m_dataJacobianREdge" (Allocate [int_add nR 1; nA; nB]) ;;;
  store_field "m_dataContraMetricA" (Allocate [nR; nA; nB; 3]) ;;;
  store_field "m_dataContraMetricB" (Allocate [nR; nA; nB; 3]) ;;;
  store_field "m_dataContraMetricXi" (Allocate [nR; nA; nB; 3]) ;;;
  store_field "m_dataCovMetricA" (Allocate [nR; nA; nB; 3]) ;;;
  store_field "m_dataCovMetricB" (Allocate [nR; nA; nB; 3]) ;;;
  store_field "m_dataCovMetricXi" (Allocate [nR; nA; nB; 3]) ;;;
  store_field "m_dataContraMetricAREdge" (Allocate [int_add nR 1; nA; nB; 3]) ;;;
  store_field "m_dataContraMetricBREdge" (Allocate [int_add nR 1; nA; nB; 3]) ;;;
  store_field "m_dataContraMetricXiREdge" (Allocate [int_add nR 1; nA; nB; 3]) ;;;
  store_field "m_dataDerivRNode" (Allocate [nR; nA; nB; 3]) ;;;
  store_field "m_dataDerivRREdge" (Allocate [int_add nR 1; nA; nB; 3]) ;;;
  store_field "m_dataElementArea" (Allocate [nR; nA; nB]) ;;;
  store_field "m_dataElementAreaREdge" (Allocate [int_add nR 1; nA; nB]) ;;;
  store_field "m_dataTopography" (Allocate [nA; nB]) ;;;
  store_field "m_dataTopographyDeriv"
    (GridData_Initialize DataType_TopographyDeriv DataLocation_Node [2; nA; nB; nHalo]) ;;;
  store_field "m_dataLon" (Allocate [nA; nB]) ;;;
  store_field "m_dataLat" (Allocate [nA; nB]) ;;;
  store_field "m_dataCoriolisF" (Allocate [nA; nB]) ;;;
  store_field "m_dataZLevels" (Allocate [nR; nA; nB]) ;;;
  store_field "m_dataZInterfaces" (Allocate [int_add nR 1; nA; nB]) ;;;
  let model := m_model g in
  store_field "m_dataRefStateNode"
    (GridData_Initialize DataType_State DataLocation_Node
       [GetComponents model; nR; nA; nB; nHalo]) ;;;
  store_field "m_dataRefStateREdge"
    (GridData_Initialize DataType_State DataLocation_REdge
       [GetComponents model; nR; nA; nB; nHalo]) ;;;
  p <- get ;;
  v <- lift (vec_resize (m_datavecStateNode p) (GetComponentDataInstances model)) ;;
  modify (set_datavecStateNode v) ;;;
  v <- lift (vec_resize (m_datavecStateREdge p) (GetComponentDataInstances model)) ;;
  modify (set_datavecStateREdge v) ;;;
  initialize_state_slots (GetComponentDataInstances model)
    (GridData_Initialize DataType_State DataLocation_Node
       [GetComponents model; nR; nA; nB; nHalo])
    (GridData_Initialize DataType_State DataLocation_REdge
       [GetComponents model; nR; nA; nB; nHalo]) ;;;
  p <- get ;;
  v <- lift (vec_resize (m_datavecTracers p) (GetTracerDataInstances model)) ;;
  modify (set_datavecTracers v) ;;;
  (if negb (GetTracers model =? 0) then
     initialize_tracer_slots (GetTracerDataInstances model)
       (GridData_Initialize DataType_Tracers DataLocation_Node
          [GetTracers model; nR; nA; nB; nHalo])
   else ret tt) ;;;
  store_field "m_dataPressure"
    (GridData_Initialize DataType_Pressure DataLocation_Node [nR; nA; nB; nHalo]) ;;;
  store_field "m_dataDxPressure"
    (GridData_Initialize DataType_Pressure DataLocation_Node [nR; nA; nB; nHalo]) ;;;
  store_field "m_dataVorticity"
    (GridData_Initialize DataType_Vorticity DataLocation_Node [nR; nA; nB; nHalo]) ;;;
  store_field "m_dataDivergence"
    (GridData_Initialize DataType_Divergence DataLocation_Node [nR; nA; nB; nHalo]) ;;;
  store_field "m_dataTemperature"
    (GridData_Initialize DataType_Temperature DataLocation_Node [nR; nA; nB; nHalo]) ;;;
  store_field "m_dataRayleighStrengthNode"
    (GridData_Initialize DataType_None DataLocation_Node [nR; nA; nB; nHalo]) ;;;
  store_field "m_dataRayleighStrengthREdge"
    (GridData_Initialize DataType_None DataLocation_REdge [nR; nA; nB; nHalo]).

(** ** Grid.cpp: registration and distribution *)

(** [Grid::AddPatch(pPatch)].  The default argument of
    [GetTotalNodeCount] is [DataLocation_Node]. *)
Definition Grid_AddPatch (pPatch : ptr) : M Grid ptr :=
  g <- get ;;
  let ixNextPatch := size (m_vecGridPatches g) in
  modify (fun g => set_vecGridPatches (m_vecGridPatches g ++ [pPatch]) g) ;;;
  on_patch pPatch (modify (set_ixPatch ixNextPatch)) ;;;
  (if ixNextPatch =? 0 then
     modify (fun g => set_vecCumulativePatch2DNodeIndex
       (m_vecCumulativePatch2DNodeIndex g ++ [0]) g)
   else ret tt) ;;;
  g <- get ;;
  nPrevious <- vec_at "m_vecCumulativePatch2DNodeIndex[ixNextPatch]"
    (m_vecCumulativePatch2DNodeIndex g) ixNextPatch ;;
  patch <- deref pPatch ;;
  nNodes <- lift (GridPatch_GetTotalNodeCount g patch DataLocation_Node) ;;
  modify (fun g => set_vecCumulativePatch2DNodeIndex
    (m_vecCumulativePatch2DNodeIndex g ++ [int_add nPrevious nNodes]) g) ;;;
  ret pPatch.

(** A sequence of calls of [AddPatch], one for each pointer in turn. *)
Fixpoint add_patches (ps : list ptr) : M Grid unit :=
  match ps with
  | [] => ret tt
  | p :: ps' => Grid_AddPatch p ;;; add_patches ps'
  end.

(** [Grid::GetTotalNodeCount] *)
Definition Grid_GetTotalNodeCount : M Grid Z :=
  g <- get ;;
  for_vec (m_vecGridPatches g) (fun _ p nTotalNodes =>
    patch <- deref p ;;
    n <- lift (GridPatch_GetTotalNodeCount g patch DataLocation_Node) ;;
    ret (int_add nTotalNodes n)) 0.

(** [Grid::GetLongestActivePatchPerimeter] *)
Definition Grid_GetLongestActivePatchPerimeter : M Grid Z :=
  g <- get ;;
  for_vec (m_vecActiveGridPatches g) (fun _ p nLongestPerimeter =>
    patch <- deref p ;;
    let nPerimeter := GetInteriorPerimeter (m_box patch) in
    ret (if nPerimeter >? nLongestPerimeter then nPerimeter else nLongestPerimeter)) 0.

(** [Grid::DistributePatches]; [nSize] and [nRank] are what
    [MPI_Comm_size] and [MPI_Comm_rank] answer on this process.  The
    operands of [%] are not negative, so it is [Z.rem]. *)
Definition Grid_DistributePatches (nSize nRank : Z) : M Grid unit :=
  g <- get ;;
  for_vec (m_vecGridPatches g) (fun n p _ =>
    let nPatchProcessor := Z.rem n nSize in
    if nPatchProcessor =? nRank then
      g' <- get ;;
      on_patch p (GridPatch_InitializeDataLocal nRank g') ;;;
      modify (fun g => set_vecActiveGridPatches (m_vecActiveGridPatches g ++ [p]) g)
    else
      on_patch p (GridPatch_InitializeDataRemote nPatchProcessor)) tt.

(** ** GridPatch.cpp: exterior connections *)

Definition is_edge (dir : Direction) : bool :=
  match dir with
  | Direction_Right | Direction_Top | Direction_Left | Direction_Bottom => true
  | _ => false
  end.

Definition insufficient_interior_msg : string :=
  "Insufficient interior elements to build diagonal connection.".

(** [GridPatch::ExteriorConnect(dirFirst, pPatchSecond, ixFirst, ixSecond)]
    on the patch at [this]. *)
Definition GridPatch_ExteriorConnect_at (this : ptr) (dirFirst : Direction)
    (pPatchSecond : ptr) (ixFirst ixSecond : Z) : M Grid unit :=
  if bool_decide (pPatchSecond = NULL) then ret tt else
  self <- deref this ;;
  g <- get ;;
  let model := m_model g in
  let nStateTracerMaxVariables :=
    if GetComponents model >? GetTracers model
    then GetComponents model else GetTracers model in
  let nRElements := m_nRElements g in
  let nHaloElements := Model_GetHaloElements model in
  second <- deref pPatchSecond ;;
  opposing <- external "Grid::GetOpposingDirection"
    (GetOpposingDirection (GetPanel (m_box self)) (GetPanel (m_box second)) dirFirst) ;;
  let nBoundarySize :=
    if is_edge dirFirst then ixSecond - ixFirst else nHaloElements in
  let box := m_box self in
  throw_if (bool_decide (dirFirst = Direction_TopRight) &&
      ((ixFirst <? GetAInteriorBegin box + nBoundarySize - 1) ||
       (ixSecond <? GetBInteriorBegin box + nBoundarySize - 1)))
    insufficient_interior_msg ;;;
  throw_if (bool_decide (dirFirst = Direction_TopLeft) &&
      ((ixFirst >? GetAInteriorEnd box - nBoundarySize) ||
       (ixSecond <? GetBInteriorBegin box + nBoundarySize - 1)))
    insufficient_interior_msg ;;;
  throw_if (bool_decide (dirFirst = Direction_BottomLeft) &&
      ((ixFirst >? GetAInteriorEnd box - nBoundarySize) ||
       (ixSecond >? GetBInteriorEnd box - nBoundarySize)))
    insufficient_interior_msg ;;;
  throw_if (bool_decide (dirFirst = Direction_BottomRight) &&
      ((ixFirst <? GetAInteriorBegin box + nBoundarySize - 1) ||
       (ixSecond >? GetBInteriorEnd box - nBoundarySize)))
    insufficient_interior_msg ;;;
  let pNeighbor :=
    InitializeBuffers
      {| m_dir := dirFirst;
         m_dirOpposing := opposing.1.1;
         m_ixNeighbor := m_ixPatch second;
         m_fReverseDirection := opposing.1.2;
         m_fFlippedCoordinate := opposing.2;
         m_nBoundarySize := nBoundarySize;
         m_ixFirst := ixFirst;
         m_ixSecond := ixSecond;
         m_vecSendBuffer := [];
         m_vecRecvBuffer := [] |}
      nRElements nHaloElements nStateTracerMaxVariables in
  on_patch this (modify (fun p => set_connect (AddExteriorNeighbor (m_connect p) pNeighbor) p)).

(** [GridPatch::ExteriorConnect(dirFirst, pPatchSecond)] *)
Definition GridPatch_ExteriorConnect (this : ptr) (dirFirst : Direction)
    (pPatchSecond : ptr) : M Grid unit :=
  self <- deref this ;;
  let box := m_box self in
  ixs <- match dirFirst with
         | Direction_Right | Direction_Left =>
             ret (GetBInteriorBegin box, GetBInteriorEnd box)
         | Direction_Top | Direction_Bottom =>
             ret (GetAInteriorBegin box, GetAInteriorEnd box)
         | Direction_TopRight =>
             ret (GetAInteriorEnd box - 1, GetBInteriorEnd box - 1)
         | Direction_TopLeft =>
             ret (GetAInteriorBegin box, GetBInteriorEnd box - 1)
         | Direction_BottomLeft =>
             ret (GetAInteriorBegin box, GetBInteriorBegin box)
         | Direction_BottomRight =>
             ret (GetAInteriorEnd box - 1, GetBInteriorBegin box)
         | Direction_Unreachable => raise (Fatal "Invalid direction")
         end ;;
  GridPatch_ExteriorConnect_at this dirFirst pPatchSecond ixs.1 ixs.2.

(** Modelled from the spec: the static Connectivity::ExteriorConnect that
    Grid.cpp calls (Connectivity.cpp is missing) builds the relation on
    its first patch; it is the member function of GridPatch.cpp applied
    to that patch. *)
Definition Connectivity_ExteriorConnect (pPatchFirst : ptr) (dirFirst : Direction)
    (pPatchSecond : ptr) : M Grid unit :=
  GridPatch_ExteriorConnect pPatchFirst dirFirst pPatchSecond.

Definition Connectivity_ExteriorConnect_at (pPatchFirst : ptr) (dirFirst : Direction)
    (pPatchSecond : ptr) (ixFirst ixSecond : Z) : M Grid unit :=
  GridPatch_ExteriorConnect_at pPatchFirst dirFirst pPatchSecond ixFirst ixSecond.

(** ** Grid.cpp: InitializeConnectivity *)

(** The grid together with the local variables of the function. *)
Record Frame : Type := {
  fr_grid : Grid;
  vecIxA : list Z;
  vecIxB : list Z;
  vecPanel : list Z;
  vecPatch : list Z;
  ix : Z
}.

Definition set_fr_grid (g : Grid) (fr : Frame) : Frame :=
  {| fr_grid := g; vecIxA := vecIxA fr; vecIxB := vecIxB fr;
     vecPanel := vecPanel fr; vecPatch := vecPatch fr; ix := ix fr |}.

Definition set_vecPatch (v : list Z) (fr : Frame) : Frame :=
  {| fr_grid := fr_grid fr; vecIxA := vecIxA fr; vecIxB := vecIxB fr;
     vecPanel := vecPanel fr; vecPatch := v; ix := ix fr |}.

Definition set_ix (v : Z) (fr : Frame) : Frame :=
  {| fr_grid := fr_grid fr; vecIxA := vecIxA fr; vecIxB := vecIxB fr;
     vecPanel := vecPanel fr; vecPatch := vecPatch fr; ix := v |}.

(** A call on the grid from inside the function. *)
Definition in_grid {A} (m : M Grid A) : M Frame A := zoom fr_grid set_fr_grid m.

(** [ix++] *)
Definition incr_ix : M Frame unit := modify (fun fr => set_ix (ix fr + 1) fr).

(** [vecIxA[ix] = a; vecIxB[ix] = b; vecPanel[ix] = panel; ix++;] *)
Definition store_sample (a b panel : Z) : M Frame unit :=
  fr <- get ;;
  va <- lift (vec_set "vecIxA[ix]" (vecIxA fr) (ix fr) a) ;;
  vb <- lift (vec_set "vecIxB[ix]" (vecIxB fr) (ix fr) b) ;;
  vp <- lift (vec_set "vecPanel[ix]" (vecPanel fr) (ix fr) panel) ;;
  put {| fr_grid := fr_grid fr; vecIxA := va; vecIxB := vb; vecPanel := vp;
         vecPatch := vecPatch fr; ix := ix fr + 1 |}.

(** The traversal of the boundary of [box]: the first half of the loop
    body, from [int ix = 0] to the last sample of the left edge. *)
Definition sample_boundary (box : PatchBox) : M Frame unit :=
  modify (set_ix 0) ;;;
  (* Bottom-left corner *)
  store_sample (GetAGlobalInteriorBegin box - 1) (GetBGlobalInteriorBegin box - 1)
    (GetPanel box) ;;;
  (* Bottom edge *)
  for_upto (GetAGlobalInteriorBegin box) (GetAGlobalInteriorEnd box) (fun i _ =>
    store_sample i (GetBGlobalInteriorBegin box - 1) (GetPanel box)) tt ;;;
  (* Bottom-right corner *)
  store_sample (GetAGlobalInteriorEnd box) (GetBGlobalInteriorBegin box - 1)
    (GetPanel box) ;;;
  (* Right edge *)
  for_upto (GetBGlobalInteriorBegin box) (GetBGlobalInteriorEnd box) (fun j _ =>
    store_sample (GetAGlobalInteriorEnd box) j (GetPanel box)) tt ;;;
  (* Top-right corner *)
  store_sample (GetAGlobalInteriorEnd box) (GetBGlobalInteriorEnd box)
    (GetPanel box) ;;;
  (* Top edge *)
  for_downto (GetAGlobalInteriorEnd box - 1) (GetAGlobalInteriorBegin box) (fun i _ =>
    store_sample i (GetBGlobalInteriorEnd box) (GetPanel box)) tt ;;;
  (* Top-left corner *)
  store_sample (GetAGlobalInteriorBegin box - 1) (GetBGlobalInteriorEnd box)
    (GetPanel box) ;;;
  (* Left edge *)
  for_downto (GetBGlobalInteriorEnd box - 1) (GetBGlobalInteriorBegin box) (fun j _ =>
    store_sample (GetAGlobalInteriorBegin box - 1) j (GetPanel box)) tt.

(** [GetPatchFromCoordinateIndex(level, vecIxA, vecIxB, vecPanel, vecPatch, ix)] *)
Definition lookup_patches (box : PatchBox) : M Frame unit :=
  fr <- get ;;
  v <- external "Grid::GetPatchFromCoordinateIndex"
    (GetPatchFromCoordinateIndex (fr_grid fr) (GetRefinementLevel box)
       (vecIxA fr) (vecIxB fr) (vecPanel fr) (vecPatch fr) (ix fr)) ;;
  modify (set_vecPatch v).

(** [if (ix != box.GetInteriorPerimeter() + 4) _EXCEPTIONT("Index mismatch");] *)
Definition verify_index_length (box : PatchBox) : M Frame unit :=
  fr <- get ;;
  throw_if (negb (ix fr =? GetInteriorPerimeter box + 4)) "Index mismatch".

(** [m_vecGridPatches[i]] *)
Definition patch_at (i : Z) : M Frame ptr :=
  fr <- get ;;
  vec_at "m_vecGridPatches[i]" (m_vecGridPatches (fr_grid fr)) i.

(** [vecPatch[ix]] *)
Definition current_patch : M Frame Z :=
  fr <- get ;;
  vec_at "vecPatch[ix]" (vecPatch fr) (ix fr).

(** "Add connectivity to ... corner": the four blocks differ in the
    direction only. *)
Definition connect_corner (pPatch : ptr) (dir : Direction) : M Frame unit :=
  ixPatch <- current_patch ;;
  (if negb (ixPatch =? InvalidIndex) then
     pPatchSecond <- patch_at ixPatch ;;
     in_grid (Connectivity_ExteriorConnect pPatch dir pPatchSecond)
   else ret tt) ;;;
  incr_ix.

(** "Add connectivity to bottom edge" *)
Definition connect_bottom_edge (pPatch : ptr) (box : PatchBox) : M Frame unit :=
  iCurrentPatch <- current_patch ;;
  for_upto (GetAInteriorBegin box) (GetAInteriorEnd box + 1) (fun i locals =>
    let ixFirstBegin : Z := locals.1 in
    let iCurrentPatch : Z := locals.2 in
    segment_ends <-
      (if i =? GetAInteriorEnd box then ret true
       else ixPatch <- current_patch ;; ret (negb (ixPatch =? iCurrentPatch))) ;;
    locals' <-
      (if segment_ends : bool then
         pPatchBottom <- patch_at iCurrentPatch ;;
         in_grid (Connectivity_ExteriorConnect_at
           pPatch Direction_Bottom pPatchBottom ixFirstBegin i) ;;;
         (if negb (i =? GetAInteriorEnd box) then
            in_grid (Connectivity_ExteriorConnect_at
              pPatch Direction_BottomLeft pPatchBottom i (GetBInteriorBegin box)) ;;;
            iCurrentPatch' <- current_patch ;;
            pPatchBottom' <- patch_at iCurrentPatch' ;;
            in_grid (Connectivity_ExteriorConnect_at
              pPatch Direction_BottomRight pPatchBottom' (i - 1) (GetBInteriorBegin box)) ;;;
            ret (i, iCurrentPatch')
          else ret (ixFirstBegin, iCurrentPatch))
       else ret (ixFirstBegin, iCurrentPatch)) ;;
    (if negb (i =? GetAInteriorEnd box) then incr_ix else ret tt) ;;;
    ret locals') (GetAInteriorBegin box, iCurrentPatch) ;;;
  ret tt.

(** "Add connectivity to right edge" *)
Definition connect_right_edge (pPatch : ptr) (box : PatchBox) : M Frame unit :=
  iCurrentPatch <- current_patch ;;
  for_upto (GetBInteriorBegin box) (GetBInteriorEnd box + 1) (fun j locals =>
    let ixFirstBegin : Z := locals.1 in
    let iCurrentPatch : Z := locals.2 in
    segment_ends <-
      (if j =? GetBInteriorEnd box then ret true
       else ixPatch <- current_patch ;; ret (negb (ixPatch =? iCurrentPatch))) ;;
    locals' <-
      (if segment_ends : bool then
         pPatchRight <- patch_at iCurrentPatch ;;
         in_grid (Connectivity_ExteriorConnect_at
           pPatch Direction_Right pPatchRight ixFirstBegin j) ;;;
         (if negb (j =? GetBInteriorEnd box) then
            in_grid (Connectivity_ExteriorConnect_at
              pPatch Direction_BottomRight pPatchRight (GetAInteriorEnd box - 1) j) ;;;
            iCurrentPatch' <- current_patch ;;
            pPatchRight' <- patch_at iCurrentPatch' ;;
            in_grid (Connectivity_ExteriorConnect_at
              pPatch Direction_TopRight pPatchRight' (GetAInteriorEnd box - 1) (j - 1)) ;;;
            ret (j, iCurrentPatch')
          else ret (ixFirstBegin, iCurrentPatch))
       else ret (ixFirstBegin, iCurrentPatch)) ;;
    (if negb (j =? GetBInteriorEnd box) then incr_ix else ret tt) ;;;
    ret locals') (GetBInteriorBegin box, iCurrentPatch) ;;;
  ret tt.

(** "Add connectivity to top edge" *)
Definition connect_top_edge (pPatch : ptr) (box : PatchBox) : M Frame unit :=
  iCurrentPatch <- current_patch ;;
  for_downto (GetAInteriorEnd box - 1) (GetAInteriorBegin box - 1) (fun i locals =>
    let ixFirstEnd : Z := locals.1 in
    let iCurrentPatch : Z := locals.2 in
    segment_ends <-
      (if i =? GetAInteriorBegin box - 1 then ret true
       else ixPatch <- current_patch ;; ret (negb (ixPatch =? iCurrentPatch))) ;;
    locals' <-
      (if segment_ends : bool then
         pPatchTop <- patch_at iCurrentPatch ;;
         in_grid (Connectivity_ExteriorConnect_at
           pPatch Direction_Top pPatchTop (i + 1) ixFirstEnd) ;;;
         (if negb (i =? GetAInteriorBegin box - 1) then
            in_grid (Connectivity_ExteriorConnect_at
              pPatch Direction_TopRight pPatchTop i (GetBInteriorEnd box - 1)) ;;;
            iCurrentPatch' <- current_patch ;;
            pPatchTop' <- patch_at iCurrentPatch' ;;
            in_grid (Connectivity_ExteriorConnect_at
              pPatch Direction_TopLeft pPatchTop' (i + 1) (GetBInteriorEnd box - 1)) ;;;
            ret (i + 1, iCurrentPatch')
          else ret (ixFirstEnd, iCurrentPatch))
       else ret (ixFirstEnd, iCurrentPatch)) ;;
    (if negb (i =? GetAInteriorBegin box - 1) then incr_ix else ret tt) ;;;
    ret locals') (GetAInteriorEnd box, iCurrentPatch) ;;;
  ret tt.

(** The last block, for the left edge (its comment in the source reads
    "top edge"). *)
Definition connect_left_edge (pPatch : ptr) (box : PatchBox) : M Frame unit :=
  iCurrentPatch <- current_patch ;;
  for_downto (GetBInteriorEnd box - 1) (GetBInteriorBegin box - 1) (fun j locals =>
    let ixFirstEnd : Z := locals.1 in
    let iCurrentPatch : Z := locals.2 in
    segment_ends <-
      (if j =? GetBInteriorBegin box - 1 then ret true
       else ixPatch <- current_patch ;; ret (negb (ixPatch =? iCurrentPatch))) ;;
    locals' <-
      (if segment_ends : bool then
         pPatchLeft <- patch_at iCurrentPatch ;;
         in_grid (Connectivity_ExteriorConnect_at
           pPatch Direction_Left pPatchLeft (j + 1) ixFirstEnd) ;;;
         (if negb (j =? GetBInteriorBegin box - 1) then
            in_grid (Connectivity_ExteriorConnect_at
              pPatch Direction_TopLeft pPatchLeft (GetAInteriorBegin box) j) ;;;
            iCurrentPatch' <- current_patch ;;
            pPatchLeft' <- patch_at iCurrentPatch' ;;
            in_grid (Connectivity_ExteriorConnect_at
              pPatch Direction_BottomLeft pPatchLeft' (GetAInteriorBegin box) (j + 1)) ;;;
            ret (j + 1, iCurrentPatch')
          else ret (ixFirstEnd, iCurrentPatch))
       else ret (ixFirstEnd, iCurrentPatch)) ;;
    (if negb (j =? GetBInteriorBegin box - 1) then incr_ix else ret tt) ;;;
    ret locals') (GetBInteriorEnd box, iCurrentPatch) ;;;
  ret tt.

(** The second half of the loop body, from "Reset index" to the left
    edge: the samples are consumed in the order they were taken. *)
Definition connect_boundary (pPatch : ptr) (box : PatchBox) : M Frame unit :=
  modify (set_ix 0) ;;;
  connect_corner pPatch Direction_BottomLeft ;;;
  connect_bottom_edge pPatch box ;;;
  connect_corner pPatch Direction_BottomRight ;;;
  connect_right_edge pPatch box ;;;
  connect_corner pPatch Direction_TopRight ;;;
  connect_top_edge pPatch box ;;;
  connect_corner pPatch Direction_TopLeft ;;;
  connect_left_edge pPatch box.

(** The body of the loop over the active patches. *)
Definition InitializeConnectivity_patch (pPatch : ptr) : M Frame unit :=
  patch <- in_grid (deref pPatch) ;;
  let box := m_box patch in
  sample_boundary box ;;;
  lookup_patches box ;;;
  verify_index_length box ;;;
  connect_boundary pPatch box ;;;
  verify_index_length box.

(** [DataVector<int>::Initialize(n)] *)
Definition DataVector_Initialize (n : Z) : list Z := replicate (Z.to_nat n) 0.

(** The frame on entry of the loop. *)
Definition Frame_initial (g : Grid) (nLongestActivePerimeter : Z) : Frame :=
  {| fr_grid := g;
     vecIxA := DataVector_Initialize nLongestActivePerimeter;
     vecIxB := DataVector_Initialize nLongestActivePerimeter;
     vecPanel := DataVector_Initialize nLongestActivePerimeter;
     vecPatch := DataVector_Initialize nLongestActivePerimeter;
     ix := 0 |}.

(** [Grid::InitializeConnectivity] *)
Definition Grid_InitializeConnectivity : M Grid unit :=
  nLongest <- Grid_GetLongestActivePatchPerimeter ;;
  let nLongestActivePerimeter := nLongest + 4 in
  fun g =>
    let '(o, fr) :=
      for_vec (m_vecActiveGridPatches g) (fun _ pPatch _ =>
        InitializeConnectivity_patch pPatch) tt
        (Frame_initial g nLongestActivePerimeter) in
    (o, fr_grid fr).

(** ** GridPatch.cpp: Checksum *)

(** [dChecksums[var] = f(dChecksums[var])] *)
Definition accumulate (var : Z) (f : float -> float) : M (list float) unit :=
  dChecksums <- get ;;
  old <- vec_at "dChecksums[var]" dChecksums var ;;
  v <- lift (vec_set "dChecksums[var]" dChecksums var (f old)) ;;
  put v.

(** What one node adds to a checksum: the running value, the value at
    the node, the area of the element. *)
Definition update_Sum (cs value area : float) : float :=
  PrimFloat.add cs (PrimFloat.mul value area).

Definition update_L1 (cs value area : float) : float :=
  PrimFloat.add cs (PrimFloat.mul (PrimFloat.abs value) area).

Definition update_L2 (cs value area : float) : float :=
  PrimFloat.add cs (PrimFloat.mul (PrimFloat.mul value value) area).

Definition update_Linf (cs value area : float) : float :=
  if PrimFloat.ltb cs (PrimFloat.abs value) then PrimFloat.abs value else cs.

(** One nest of four loops: the variables [vars], [nLevels] levels, the
    interior of the box.  [pData] is the pointer to the data, [None] for
    a NULL pointer. *)
Definition checksum_loops (box : PatchBox) (vars : list Z) (nLevels : Z)
    (pData : option DataArray) (area : DataArray)
    (update : float -> float -> float -> float) : M (list float) unit :=
  for_vec vars (fun _ var _ =>
    for_upto 0 nLevels (fun k _ =>
      for_upto (GetAInteriorBegin box) (GetAInteriorEnd box) (fun i _ =>
        for_upto (GetBInteriorBegin box) (GetBInteriorEnd box) (fun j _ =>
          data <- match pData with
                  | Some d => ret d
                  | None => raise (Undefined "dereference of a NULL GridData4D pointer")
                  end ;;
          accumulate var (fun cs =>
            update cs (da_elem data [var; k; i; j]) (da_elem area [k; i; j]))) tt) tt) tt) tt.

(** [GridPatch::Checksum(eDataType, dChecksums, iDataIndex, eChecksumType)];
    the state is [dChecksums]. *)
Definition GridPatch_Checksum (g : Grid) (this : GridPatch) (eDataType : DataType)
    (iDataIndex : Z) (eChecksumType : ChecksumType) : M (list float) unit :=
  throw_if (negb (m_fContainsData this)) "Checksum called on uninitialized GridPatch" ;;;
  vars <-
    match eDataType with
    | DataType_State =>
        pDataNode <- vec_at "m_datavecStateNode[iDataIndex]"
          (m_datavecStateNode this) iDataIndex ;;
        pDataREdge <- vec_at "m_datavecStateREdge[iDataIndex]"
          (m_datavecStateREdge this) iDataIndex ;;
        let nComponents := GetComponents (m_model g) in
        nr <- for_upto 0 nComponents (fun c nr =>
                loc <- vec_at "m_vecVarLocation[c]" (m_vecVarLocation g) c ;;
                match loc with
                | DataLocation_Node => ret (nr.1 ++ [c], nr.2)
                | DataLocation_REdge => ret (nr.1, nr.2 ++ [c])
                | _ => raise (Fatal "Not implemented.")
                end) ([], []) ;;
        dChecksums <- get ;;
        throw_if (size dChecksums <? nComponents) "Invalid Checksum count" ;;;
        ret (pDataNode, Some pDataREdge, nr.1, nr.2)
    | DataType_Tracers =>
        pDataNode <- vec_at "m_datavecTracers[iDataIndex]"
          (m_datavecTracers this) iDataIndex ;;
        let nTracers := GetTracers (m_model g) in
        nodevars <- for_upto 0 nTracers (fun c nodevars => ret (nodevars ++ [c])) [] ;;
        dChecksums <- get ;;
        throw_if (size dChecksums <? nTracers) "Invalid Checksum count" ;;;
        ret (pDataNode, None, nodevars, [])
    | _ => raise (Fatal "Invalid DataType.")
    end ;;
  let pDataNode : DataArray := vars.1.1.1 in
  let pDataREdge : option DataArray := vars.1.1.2 in
  let nodevars : list Z := vars.1.2 in
  let redgevars : list Z := vars.2 in
  let box := m_box this in
  let nR := m_nRElements g in
  match eChecksumType with
  | ChecksumType_Sum =>
      checksum_loops box nodevars nR (Some pDataNode)
        (field this "m_dataElementArea") update_Sum ;;;
      checksum_loops box redgevars (nR + 1) pDataREdge
        (field this "m_dataElementAreaREdge") update_Sum
  | ChecksumType_L1 =>
      checksum_loops box nodevars nR (Some pDataNode)
        (field this "m_dataElementArea") update_L1 ;;;
      checksum_loops box redgevars (nR + 1) pDataREdge
        (field this "m_dataElementAreaREdge") update_L1
  | ChecksumType_L2 =>
      checksum_loops box nodevars nR (Some pDataNode)
        (field this "m_dataElementArea") update_L2 ;;;
      checksum_loops box redgevars (nR + 1) pDataREdge
        (field this "m_dataElementAreaREdge") update_L2
  | ChecksumType_Linf =>
      checksum_loops box nodevars nR (Some pDataNode)
        (field this "m_dataElementArea") update_Linf ;;;
      checksum_loops box redgevars (nR + 1) pDataREdge
        (field this "m_dataElementAreaREdge") update_Linf
  end.

(** ** Grid.cpp: Checksum *)

(** [DataVector<double>::Initialize(n)] *)
Definition DataVector_Initialize_double (n : Z) : list float :=
  replicate (Z.to_nat n) 0%float.

(** The part of [Grid::Checksum] before [MPI_Reduce]: the local
    checksums, or [None] when the function has returned. *)
Definition Grid_Checksum_local (g : Grid) (eDataType : DataType) (iDataIndex : Z)
    (eChecksumType : ChecksumType) : outcome (option (list float)) :=
  match eDataType with
  | DataType_State =>
      let '(o, dChecksumsLocal) :=
        for_vec (m_vecActiveGridPatches g) (fun _ p _ =>
          match heap g !! p with
          | Some patch => GridPatch_Checksum g patch eDataType iDataIndex eChecksumType
          | None => raise (Undefined "dereference of an invalid GridPatch pointer")
          end) tt (DataVector_Initialize_double (GetComponents (m_model g))) in
      match o with
      | Returns _ => Returns (Some dChecksumsLocal)
      | Raises e => Raises e
      end
  | DataType_Tracers =>
      if GetTracers (m_model g) =? 0 then Returns None
      else
        let '(o, dChecksumsLocal) :=
          for_vec (m_vecActiveGridPatches g) (fun _ p _ =>
            match heap g !! p with
            | Some patch => GridPatch_Checksum g patch eDataType iDataIndex eChecksumType
            | None => raise (Undefined "dereference of an invalid GridPatch pointer")
            end) tt (DataVector_Initialize_double (GetTracers (m_model g))) in
        match o with
        | Returns _ => Returns (Some dChecksumsLocal)
        | Raises e => Raises e
        end
  | _ => Raises (Fatal "Invalid DataType")
  end.

(** The operator handed to [MPI_Reduce]. *)
Definition Grid_Checksum_operator (eChecksumType : ChecksumType) : MPI_Op :=
  if bool_decide (eChecksumType = ChecksumType_Linf) then MPI_MAX else MPI_SUM.

(** [Grid::Checksum] on the process of rank [nRank]; the state is the
    output [dChecksums].  [others] are the send buffers that the other
    processes hand to the same [MPI_Reduce], by rank. *)
Definition Grid_Checksum (nRank : Z) (others : list (list float)) (g : Grid)
    (eDataType : DataType) (iDataIndex : Z) (eChecksumType : ChecksumType)
    : M (list float) unit :=
  local <- lift (Grid_Checksum_local g eDataType iDataIndex eChecksumType) ;;
  match local with
  | None => ret tt
  | Some dChecksumsLocal =>
      (if nRank =? 0 then put (DataVector_Initialize_double (size dChecksumsLocal))
       else ret tt) ;;;
      (if nRank =? 0 then
         put (MPI_Reduce (Grid_Checksum_operator eChecksumType) (dChecksumsLocal :: others))
       else ret tt) ;;;
      (if nRank =? 0 then
         if bool_decide (eChecksumType = ChecksumType_L2) then
           dChecksums <- get ;;
           for_upto 0 (size dChecksums) (fun c _ =>
             accumulate c PrimFloat.sqrt) tt
         else ret tt
       else ret tt)
  end.

(** ** Grid.cpp: consolidation at the root *)

(** The root during a round: the status, the messages on their way to
    the root in the order they arrive, and the output arguments. *)
Record RootState : Type := {
  status : ConsolidationStatus;
  arriving : list Message;
  dataRecvBuffer : list float;
  nRecvCount : Z;
  ixRecvPatch : Z;
  eRecvDataType : DataType
}.

Definition set_status (v : ConsolidationStatus) (r : RootState) : RootState :=
  {| status := v; arriving := arriving r; dataRecvBuffer := dataRecvBuffer r;
     nRecvCount := nRecvCount r; ixRecvPatch := ixRecvPatch r;
     eRecvDataType := eRecvDataType r |}.

Definition set_nRecvCount (v : Z) (r : RootState) : RootState :=
  {| status := status r; arriving := arriving r; dataRecvBuffer := dataRecvBuffer r;
     nRecvCount := v; ixRecvPatch := ixRecvPatch r;
     eRecvDataType := eRecvDataType r |}.

Definition set_parsed (v : Z * DataType) (r : RootState) : RootState :=
  {| status := status r; arriving := arriving r; dataRecvBuffer := dataRecvBuffer r;
     nRecvCount := nRecvCount r; ixRecvPatch := v.1;
     eRecvDataType := v.2 |}.

(** [MPI_Recv(buffer, buffer.GetRows(), MPI_DOUBLE, MPI_ANY_SOURCE,
    MPI_ANY_TAG, ...)]: the next message is taken and its doubles are
    stored at the start of the buffer.  With no message the call does not
    return; a message longer than the buffer is an error of the
    transport. *)
Definition MPI_Recv : M RootState Message :=
  r <- get ;;
  match arriving r with
  | [] => raise (Blocked "MPI_Recv")
  | msg :: rest =>
      if size (dataRecvBuffer r) <? size (msg_data msg) then
        raise (External "MPI_Recv")
      else
        put {| status := status r; arriving := rest;
               dataRecvBuffer := msg_data msg
                 ++ drop (length (msg_data msg)) (dataRecvBuffer r);
               nRecvCount := nRecvCount r; ixRecvPatch := ixRecvPatch r;
               eRecvDataType := eRecvDataType r |} ;;;
        ret msg
  end.

(** [Grid::ConsolidateDataAtRoot(status, dataRecvBuffer, nRecvCount,
    ixRecvPatch, eRecvDataType)] *)
Definition Grid_ConsolidateDataAtRoot (nRank : Z) (g : Grid) : M RootState unit :=
  throw_if (negb (nRank =? 0)) "Non-root process calling ConsolidateDataAtRoot" ;;;
  r <- get ;;
  throw_if (Done (status r)) "Attempting to consolidate data after completion" ;;;
  mpistatus <- MPI_Recv ;;
  parsed <- external "ConsolidationStatus::ParseTag" (ParseTag (MPI_TAG mpistatus)) ;;
  modify (set_parsed parsed) ;;;
  r <- get ;;
  throw_if ((ixRecvPatch r <? 0) || (ixRecvPatch r >=? size (m_vecGridPatches g)))
    "Panel tag index out of range" ;;;
  st <- external "ConsolidationStatus::SetReceiveStatus"
    (SetReceiveStatus (status r) (ixRecvPatch r) (eRecvDataType r)) ;;
  modify (set_status st) ;;;
  pPatch <- vec_at "m_vecGridPatches[ixRecvPatch]" (m_vecGridPatches g) (ixRecvPatch r) ;;
  modify (set_nRecvCount (size (msg_data mpistatus))) ;;;
  r <- get ;;
  match eRecvDataType r with
  | DataType_State =>
      patch <- lift (fst (deref pPatch g)) ;;
      let nExpectedRecvCount :=
        int_mul (int_mul (GetComponents (m_model g)) (m_nRElements g))
          (GetTotalNodes (m_box patch)) in
      throw_if (negb (nExpectedRecvCount =? nRecvCount r)) "State dimension mismatch"
  | DataType_Tracers =>
      patch <- lift (fst (deref pPatch g)) ;;
      let nExpectedRecvCount :=
        int_mul (int_mul (GetTracers (m_model g)) (m_nRElements g))
          (GetTotalNodes (m_box patch)) in
      throw_if (negb (nExpectedRecvCount =? nRecvCount r)) "Tracers dimension mismatch"
  | DataType_Jacobian =>
      patch <- lift (fst (deref pPatch g)) ;;
      let nExpectedRecvCount := int_mul (m_nRElements g) (GetTotalNodes (m_box patch)) in
      hi <- external "Grid::GetCumulativePatch3DNodeIndex"
        (GetCumulativePatch3DNodeIndex g (int_add (ixRecvPatch r) 1)) ;;
      lo <- external "Grid::GetCumulativePatch3DNodeIndex"
        (GetCumulativePatch3DNodeIndex g (ixRecvPatch r)) ;;
      let nDiff := int_sub hi lo in
      throw_if (negb (nExpectedRecvCount =? nRecvCount r)) "Jacobian dimension mismatch"
  | _ => ret tt
  end.

(** ** Grid.cpp: consolidation to the root *)

(** A process during a round: the status and the messages it has sent. *)
Record SenderState : Type := {
  sender_status : ConsolidationStatus;
  sent : list Message
}.

(** [data[0][0]], [data[0][0][0]]: the address of the first element of an
    array.  An array without storage, or with no element, has none: the
    chain of pointers is read through a null or past its end. *)
Definition first_element (data : DataArray) : outcome unit :=
  if IsInitialized data && (0 <? GetTotalElements data) then Returns tt
  else Raises (Undefined "data[0][0]").

(** [MPI_Isend(data, data.GetTotalElements(), MPI_DOUBLE, 0,
    GenerateTag(ixPatch, eDataType), MPI_COMM_WORLD,
    status.GetNextSendRequest())] *)
Definition MPI_Isend_to_root (nRank : Z) (data : DataArray) (ixPatch : Z)
    (eDataType : DataType) : M SenderState unit :=
  lift (first_element data) ;;;
  modify (fun s =>
    {| sender_status := GetNextSendRequest (sender_status s);
       sent := sent s ++
         [{| MPI_SOURCE := nRank;
             MPI_TAG := GenerateTag ixPatch eDataType;
             msg_data := take (Z.to_nat (GetTotalElements data)) (contents data) |}] |}).

(** [Grid::ConsolidateDataToRoot(status)].  The accessors
    [GetDataState(0)] and [GetDataTracers(0)] of GridPatch.h are taken as
    the element 0 of the slot vectors. *)
Definition Grid_ConsolidateDataToRoot (nRank : Z) (g : Grid) : M SenderState unit :=
  s <- get ;;
  throw_if (Contains (sender_status s) DataType_Tracers
            && (GetTracers (m_model g) =? 0))
    "Attempting to consolidate empty tracer data" ;;;
  for_vec (m_vecActiveGridPatches g) (fun _ p _ =>
    pPatch <- lift (fst (deref p g)) ;;
    dataState <- vec_at "m_datavecStateNode[0]" (m_datavecStateNode pPatch) 0 ;;
    dataTracers <- vec_at "m_datavecTracers[0]" (m_datavecTracers pPatch) 0 ;;
    let dataJacobian := field pPatch "m_dataJacobian" in
    let dataTopography := field pPatch "m_dataTopography" in
    let dataLongitude := field pPatch "m_dataLon" in
    let dataLatitude := field pPatch "m_dataLat" in
    let dataZLevels := field pPatch "m_dataZLevels" in
    let send (eDataType : DataType) (data : DataArray) : M SenderState unit :=
      s <- get ;;
      if Contains (sender_status s) eDataType
      then MPI_Isend_to_root nRank data (m_ixPatch pPatch) eDataType
      else ret tt in
    send DataType_State dataState ;;;
    send DataType_Tracers dataTracers ;;;
    send DataType_Jacobian dataJacobian ;;;
    send DataType_Topography dataTopography ;;;
    send DataType_Longitude dataLongitude ;;;
    send DataType_Latitude dataLatitude ;;;
    send DataType_Z dataZLevels) tt.

(** ** GridPatch.cpp: operations on the data slots *)

(** [v[ixDest] = f(v[ixDest])] on a slot vector. *)
Definition slot_update (what : string) (v : list DataArray) (i : Z)
    (f : DataArray -> DataArray) : M GridPatch (list DataArray) :=
  d <- vec_at what v i ;;
  lift (vec_set what v i (f d)).

(** [GridPatch::CopyData(ixSource, ixDest, eDataType)] *)
Definition GridPatch_CopyData (ixSource ixDest : Z) (eDataType : DataType)
    : M GridPatch unit :=
  this <- get ;;
  match eDataType with
  | DataType_State =>
      throw_if ((ixSource <? 0) || (ixSource >=? size (m_datavecStateNode this)))
        "Invalid ixSource index in CopyData." ;;;
      throw_if ((ixDest <? 0) || (ixDest >=? size (m_datavecStateNode this)))
        "Invalid ixDest index in CopyData." ;;;
      src <- vec_at "m_datavecStateNode[ixSource]" (m_datavecStateNode this) ixSource ;;
      v <- lift (vec_set "m_datavecStateNode[ixDest]" (m_datavecStateNode this) ixDest src) ;;
      modify (set_datavecStateNode v) ;;;
      src <- vec_at "m_datavecStateREdge[ixSource]" (m_datavecStateREdge this) ixSource ;;
      v <- lift (vec_set "m_datavecStateREdge[ixDest]" (m_datavecStateREdge this) ixDest src) ;;
      modify (set_datavecStateREdge v)
  | DataType_Tracers =>
      throw_if ((ixSource <? 0) || (ixSource >=? size (m_datavecTracers this)))
        "Invalid ixSource index in CopyData." ;;;
      throw_if ((ixDest <? 0) || (ixDest >=? size (m_datavecTracers this)))
        "Invalid ixDest index in CopyData." ;;;
      src <- vec_at "m_datavecTracers[ixSource]" (m_datavecTracers this) ixSource ;;
      v <- lift (vec_set "m_datavecTracers[ixDest]" (m_datavecTracers this) ixDest src) ;;
      modify (set_datavecTracers v)
  | _ => raise (Fatal "Invalid DataType specified for CopyData.")
  end.

(** [GridPatch::LinearCombineData(dCoeff, ixDest, eDataType)]; the
    message of the first check is its format string.  That check
    compares the [int] with the unsigned [GetRows()], so a negative
    [ixDest] fails it. *)
Definition GridPatch_LinearCombineData (dCoeff : list float) (ixDest : Z)
    (eDataType : DataType) : M GridPatch unit :=
  throw_if (to_unsigned ixDest >=? size dCoeff)
    "Destination index [%i] out of coefficient bounds [0,%i]" ;;;
  this <- get ;;
  match eDataType with
  | DataType_State =>
      throw_if ((ixDest <? 0) || (ixDest >=? size (m_datavecStateNode this)))
        "Invalid ixDest index in LinearCombineData." ;;;
      throw_if (size dCoeff >? size (m_datavecStateNode this))
        "Too many elements in coefficient vector." ;;;
      c <- vec_at "dCoeff[ixDest]" dCoeff ixDest ;;
      let premultiply (d : DataArray) :=
        if PrimFloat.eqb c 0%float then GridData_Zero d else GridData_Scale d c in
      v <- slot_update "m_datavecStateNode[ixDest]" (m_datavecStateNode this) ixDest premultiply ;;
      modify (set_datavecStateNode v) ;;;
      v <- slot_update "m_datavecStateREdge[ixDest]" (m_datavecStateREdge this) ixDest premultiply ;;
      modify (set_datavecStateREdge v) ;;;
      for_upto 0 (size dCoeff) (fun m _ =>
        if m =? ixDest then ret tt else
        cm <- vec_at "dCoeff[m]" dCoeff m ;;
        if PrimFloat.eqb cm 0%float then ret tt else
        this <- get ;;
        src <- vec_at "m_datavecStateNode[m]" (m_datavecStateNode this) m ;;
        v <- slot_update "m_datavecStateNode[ixDest]" (m_datavecStateNode this) ixDest
               (fun d => GridData_AddProduct d src cm) ;;
        modify (set_datavecStateNode v) ;;;
        src <- vec_at "m_datavecStateREdge[m]" (m_datavecStateREdge this) m ;;
        v <- slot_update "m_datavecStateREdge[ixDest]" (m_datavecStateREdge this) ixDest
               (fun d => GridData_AddProduct d src cm) ;;
        modify (set_datavecStateREdge v)) tt
  | DataType_Tracers =>
      throw_if ((ixDest <? 0) || (ixDest >=? size (m_datavecTracers this)))
        "Invalid ixDest index in LinearCombineData." ;;;
      throw_if (size dCoeff >? size (m_datavecTracers this))
        "Too many elements in coefficient vector." ;;;
      dest <- vec_at "m_datavecTracers[ixDest]" (m_datavecTracers this) ixDest ;;
      if negb (IsInitialized dest) then ret tt else
      c <- vec_at "dCoeff[ixDest]" dCoeff ixDest ;;
      let premultiply (d : DataArray) :=
        if PrimFloat.eqb c 0%float then GridData_Zero d else GridData_Scale d c in
      v <- slot_update "m_datavecTracers[ixDest]" (m_datavecTracers this) ixDest premultiply ;;
      modify (set_datavecTracers v) ;;;
      for_upto 0 (size dCoeff) (fun m _ =>
        if m =? ixDest then ret tt else
        cm <- vec_at "dCoeff[m]" dCoeff m ;;
        if PrimFloat.eqb cm 0%float then ret tt else
        this <- get ;;
        src <- vec_at "m_datavecTracers[m]" (m_datavecTracers this) m ;;
        v <- slot_update "m_datavecTracers[ixDest]" (m_datavecTracers this) ixDest
               (fun d => GridData_AddProduct d src cm) ;;
        modify (set_datavecTracers v)) tt
  | _ => raise (Fatal "Invalid DataType specified for LinearCombineData.")
  end.

(** [GridPatch::ZeroData(ixData, eDataType)] *)
Definition GridPatch_ZeroData (ixData : Z) (eDataType : DataType) : M GridPatch unit :=
  this <- get ;;
  match eDataType with
  | DataType_State =>
      throw_if ((ixData <? 0) || (ixData >=? size (m_datavecStateNode this)))
        "Invalid ixData index in LinearCombineData." ;;;
      v <- slot_update "m_datavecStateNode[ixData]" (m_datavecStateNode this) ixData
             GridData_Zero ;;
      modify (set_datavecStateNode v) ;;;
      v <- slot_update "m_datavecStateREdge[ixData]" (m_datavecStateREdge this) ixData
             GridData_Zero ;;
      modify (set_datavecStateREdge v)
  | DataType_Tracers =>
      throw_if ((ixData <? 0) || (ixData >=? size (m_datavecTracers this)))
        "Invalid ixData index in LinearCombineData." ;;;
      d <- vec_at "m_datavecTracers[ixData]" (m_datavecTracers this) ixData ;;
      if negb (IsInitialized d) then ret tt else
      v <- slot_update "m_datavecTracers[ixData]" (m_datavecTracers this) ixData
             GridData_Zero ;;
      modify (set_datavecTracers v)
  | _ => raise (Fatal "Invalid DataType specified for LinearCombineData.")
  end.

(** [GridPatch::AddReferenceState(ix)] *)
Definition GridPatch_AddReferenceState (ix : Z) : M GridPatch unit :=
  this <- get ;;
  throw_if ((ix <? 0) || (ix >=? size (m_datavecStateNode this)))
    "Invalid ix in AddReferenceState." ;;;
  v <- slot_update "m_datavecStateNode[ix]" (m_datavecStateNode this) ix
         (fun d => GridData_AddProduct d (field this "m_dataRefStateNode") 1%float) ;;
  modify (set_datavecStateNode v).

(** ** GridPatch.cpp: the phases of an exchange *)

(** [m_connect.Pack(data)] *)
Definition pack (data : DataArray) : M GridPatch unit :=
  modify (fun p => set_connect (Connectivity_Pack (m_connect p) data) p).

(** [m_connect.Send()] *)
Definition send : M GridPatch unit :=
  modify (fun p => set_connect (Connectivity_Send (m_connect p)) p).

(** [GridPatch::Send(eDataType, iDataIndex)] *)
Definition GridPatch_Send (eDataType : DataType) (iDataIndex : Z) : M GridPatch unit :=
  this <- get ;;
  match eDataType with
  | DataType_State =>
      throw_if ((iDataIndex <? 0) || (iDataIndex >? size (m_datavecStateNode this)))
        "Invalid state data instance." ;;;
      d <- vec_at "m_datavecStateNode[iDataIndex]" (m_datavecStateNode this) iDataIndex ;;
      pack d ;;;
      d <- vec_at "m_datavecStateREdge[iDataIndex]" (m_datavecStateREdge this) iDataIndex ;;
      pack d ;;;
      send
  | DataType_Tracers =>
      throw_if ((iDataIndex <? 0) || (iDataIndex >? size (m_datavecTracers this)))
        "Invalid tracers data instance." ;;;
      d <- vec_at "m_datavecTracers[iDataIndex]" (m_datavecTracers this) iDataIndex ;;
      pack d ;;;
      send
  | DataType_Vorticity => pack (field this "m_dataVorticity") ;;; send
  | DataType_Divergence => pack (field this "m_dataDivergence") ;;; send
  | DataType_Temperature => pack (field this "m_dataTemperature") ;;; send
  | DataType_TopographyDeriv => pack (field this "m_dataTopographyDeriv") ;;; send
  | _ => raise (Fatal "Invalid DataType")
  end.

(** [pNeighbor->Unpack(member)] for a member array. *)
Definition unpack_field (pNeighbor : ExteriorNeighbor) (name : string) : M GridPatch unit :=
  update_field name (Neighbor_Unpack pNeighbor).

(** [GridPatch::Receive(eDataType, iDataIndex)].  [received] lists the
    neighbours in the order [m_connect.WaitReceive()] hands them out,
    each by its position in the connectivity; after the last of them
    [WaitReceive] answers NULL. *)
Definition GridPatch_Receive (received : list Z) (eDataType : DataType)
    (iDataIndex : Z) : M GridPatch unit :=
  this <- get ;;
  let neighbor (n : Z) : M GridPatch ExteriorNeighbor :=
    vec_at "m_connect.WaitReceive()" (m_connect this) n in
  match eDataType with
  | DataType_State =>
      throw_if ((iDataIndex <? 0) || (iDataIndex >? size (m_datavecStateNode this)))
        "Invalid state data instance." ;;;
      for_vec received (fun _ n _ =>
        pNeighbor <- neighbor n ;;
        this <- get ;;
        v <- slot_update "m_datavecStateNode[iDataIndex]" (m_datavecStateNode this)
               iDataIndex (Neighbor_Unpack pNeighbor) ;;
        modify (set_datavecStateNode v) ;;;
        v <- slot_update "m_datavecStateREdge[iDataIndex]" (m_datavecStateREdge this)
               iDataIndex (Neighbor_Unpack pNeighbor) ;;
        modify (set_datavecStateREdge v)) tt
  | DataType_Tracers =>
      throw_if ((iDataIndex <? 0) || (iDataIndex >? size (m_datavecTracers this)))
        "Invalid tracers data instance." ;;;
      for_vec received (fun _ n _ =>
        pNeighbor <- neighbor n ;;
        this <- get ;;
        v <- slot_update "m_datavecTracers[iDataIndex]" (m_datavecTracers this)
               iDataIndex (Neighbor_Unpack pNeighbor) ;;
        modify (set_datavecTracers v)) tt
  | DataType_Vorticity =>
      for_vec received (fun _ n _ =>
        pNeighbor <- neighbor n ;; unpack_field pNeighbor "m_dataVorticity") tt
  | DataType_Divergence =>
      for_vec received (fun _ n _ =>
        pNeighbor <- neighbor n ;; unpack_field pNeighbor "m_dataDivergence") tt
  | DataType_Temperature =>
      for_vec received (fun _ n _ =>
        pNeighbor <- neighbor n ;; unpack_field pNeighbor "m_dataTemperature") tt
  | DataType_TopographyDeriv =>
      for_vec received (fun _ n _ =>
        pNeighbor <- neighbor n ;; unpack_field pNeighbor "m_dataTopographyDeriv") tt
  | _ => raise (Fatal "Invalid DataType")
  end.

End Sources.

(** * A concrete setting

    Collaborators for a grid whose patches lie on one panel, and a small
    grid: a centre patch with a strip below, a patch to the right, a
    strip above and a patch to the left.  Used to run the sources on
    concrete inputs. *)

Module Demo.

(** A patch owns the coordinates of its interior. *)
Definition covers (panel a b : Z) (patch : GridPatch) : bool :=
  let box := m_box patch in
  (GetPanel box =? panel)
  && (GetAGlobalInteriorBegin box <=? a) && (a <? GetAGlobalInteriorEnd box)
  && (GetBGlobalInteriorBegin box <=? b) && (b <? GetBGlobalInteriorEnd box).

(** The index of the first patch of the grid that covers a coordinate,
    (-1) if there is none. *)
Fixpoint find_patch (h : gmap ptr GridPatch) (ps : list ptr) (panel a b : Z) : Z :=
  match ps with
  | [] => -1
  | p :: ps' =>
      match h !! p with
      | Some patch =>
          if covers panel a b patch then m_ixPatch patch
          else find_patch h ps' panel a b
      | None => find_patch h ps' panel a b
      end
  end.

Fixpoint find_patches (g : Grid) (n : nat) (vA vB vPanel vPatch : list Z) : list Z :=
  match n, vA, vB, vPanel, vPatch with
  | S n', a :: vA', b :: vB', panel :: vPanel', _ :: vPatch' =>
      find_patch (heap g) (m_vecGridPatches g) panel a b
        :: find_patches g n' vA' vB' vPanel' vPatch'
  | _, _, _, _, _ => vPatch
  end.

Definition opposite (dir : Direction) : Direction :=
  match dir with
  | Direction_Right => Direction_Left
  | Direction_Left => Direction_Right
  | Direction_Top => Direction_Bottom
  | Direction_Bottom => Direction_Top
  | Direction_TopRight => Direction_BottomLeft
  | Direction_BottomLeft => Direction_TopRight
  | Direction_TopLeft => Direction_BottomRight
  | Direction_BottomRight => Direction_TopLeft
  | Direction_Unreachable => Direction_Unreachable
  end.

Definition allocate (dims : list Z) : DataArray :=
  {| IsInitialized := true; da_dims := dims; da_elem := fun _ => 0%float |}.

Definition pointwise (f : float -> float) (d : DataArray) : DataArray :=
  {| IsInitialized := IsInitialized d; da_dims := da_dims d;
     da_elem := fun i => f (da_elem d i) |}.

Definition total_elements (d : DataArray) : Z :=
  if IsInitialized d then foldr Z.mul 1 (da_dims d) else 0.

(** The codes of the data types in a tag. *)
Definition type_code (t : DataType) : Z :=
  match t with
  | DataType_State => 0
  | DataType_Tracers => 1
  | DataType_Jacobian => 2
  | DataType_Topography => 3
  | DataType_Longitude => 4
  | DataType_Latitude => 5
  | DataType_Z => 6
  | _ => 15
  end.

Definition type_of_code (c : Z) : option DataType :=
  match c with
  | 0 => Some DataType_State
  | 1 => Some DataType_Tracers
  | 2 => Some DataType_Jacobian
  | 3 => Some DataType_Topography
  | 4 => Some DataType_Longitude
  | 5 => Some DataType_Latitude
  | 6 => Some DataType_Z
  | _ => None
  end.

(** Modelled from the spec: ConsolidationStatus (ConsolidationStatus.h is
    missing) maps each pair of a patch index and a requested data type to
    received or not received, is terminal when every pair is received,
    and derives the pair of a message from a reversible tag. *)
Record Status : Type := {
  st_patches : Z;
  st_types : list DataType;
  st_received : list (Z * DataType)
}.

Definition status_done (s : Status) : bool :=
  forallb (fun ix =>
    forallb (fun t => bool_decide ((ix, t) ∈ st_received s)) (st_types s))
    (seqZ 0 (st_patches s)).

Definition status_receive (s : Status) (ix : Z) (t : DataType) : option Status :=
  if bool_decide ((ix, t) ∈ st_received s) then None
  else Some {| st_patches := st_patches s; st_types := st_types s;
               st_received := (ix, t) :: st_received s |}.

Definition combine (op : MPI_Op) (x y : float) : float :=
  match op with
  | MPI_SUM => PrimFloat.add x y
  | MPI_MAX => if PrimFloat.ltb x y then y else x
  end.

Definition reduce (op : MPI_Op) (buffers : list (list float)) : list float :=
  match buffers with
  | [] => []
  | b :: bs => foldl (fun acc b' => zip_with (combine op) acc b') b bs
  end.

#[local] Instance collaborators : Collaborators := {|
  InvalidIndex := -1;
  GetPatchFromCoordinateIndex g level vA vB vPanel vPatch n :=
    Some (find_patches g (Z.to_nat n) vA vB vPanel vPatch);
  GetOpposingDirection panelFirst panelSecond dir :=
    if panelFirst =? panelSecond then Some (opposite dir, false, false) else None;
  GetCumulativePatch3DNodeIndex g i :=
    if i <? 0 then None else m_vecCumulativePatch2DNodeIndex g !! Z.to_nat i;
  InitializeBuffers n _ _ _ := n;
  Connectivity_Pack c _ := c;
  Connectivity_Send c := c;
  Neighbor_Unpack _ d := d;
  Allocate := allocate;
  Detach _ := DataArray_detached;
  GridData_Initialize _ _ args := allocate (removelast args);
  GridData_Deinitialize _ := DataArray_detached;
  GridDataVector_Deinitialize v := (fun _ => DataArray_detached) <$> v;
  GridData_Zero := pointwise (fun _ => 0%float);
  GridData_Scale d c := pointwise (fun x => PrimFloat.mul x c) d;
  GridData_AddProduct d src c :=
    {| IsInitialized := IsInitialized d; da_dims := da_dims d;
       da_elem := fun i => PrimFloat.add (da_elem d i) (PrimFloat.mul (da_elem src i) c) |};
  ConsolidationStatus := Status;
  Done := status_done;
  Contains s t := bool_decide (t ∈ st_types s);
  SetReceiveStatus := status_receive;
  GetNextSendRequest s := s;
  GenerateTag ix t := ix * 16 + type_code t;
  ParseTag tag :=
    if tag <? 0 then None
    else t ← type_of_code (tag `mod` 16); Some (tag `div` 16, t);
  GetTotalElements := total_elements;
  contents d := (fun n => da_elem d [n]) <$> seqZ 0 (total_elements d);
  MPI_Reduce := reduce
|}.

(** Shallow water on levels: three components on nodes, no tracer, a
    halo of two elements, three state slots. *)
Definition model : Model :=
  {| GetComponents := 3; GetTracers := 0; Model_GetHaloElements := 2;
     GetComponentDataInstances := 3; GetTracerDataInstances := 2 |}.

Definition boxes : list PatchBox :=
  [ PatchBox_make 0 0 2 10 20 10 20;   (* centre *)
    PatchBox_make 0 0 2 0 30 0 10;     (* strip below *)
    PatchBox_make 0 0 2 20 30 10 20;   (* right *)
    PatchBox_make 0 0 2 0 30 20 30;    (* strip above *)
    PatchBox_make 0 0 2 0 10 10 20 ].  (* left *)

(** The patches as constructed, at the addresses 1, 2, ... *)
Definition store_of (bs : list PatchBox) : gmap ptr GridPatch :=
  list_to_map (imap (fun n box => (S n, GridPatch_new (Z.of_nat n) box)) bs).

Definition pointers (bs : list PatchBox) : list ptr := seq 1 (length bs).

Definition empty_grid (bs : list PatchBox) : Grid :=
  Grid_new (store_of bs) model 1
    [DataLocation_Node; DataLocation_Node; DataLocation_Node].

(** The grid of [boxes] on the process of rank [nRank] among [nSize]:
    registered, distributed, connected. *)
Definition built (nSize nRank : Z) : outcome unit * Grid :=
  (add_patches (pointers boxes) ;;;
   Grid_DistributePatches nSize nRank ;;;
   Grid_InitializeConnectivity) (empty_grid boxes).

(** The grid after registration. *)
Definition registered : Grid :=
  snd (add_patches (pointers boxes) (empty_grid boxes)).

(** The grid after registration and distribution, on the rank [nRank]. *)
Definition distributed (nSize nRank : Z) : Grid :=
  snd ((add_patches (pointers boxes) ;;; Grid_DistributePatches nSize nRank)
         (empty_grid boxes)).

(** The frame of InitializeConnectivity for the centre patch, on the
    rank that owns it, after the boundary was sampled and the patches
    were looked up, at "Reset index". *)
Definition centre_frame : Frame :=
  let box := PatchBox_make 0 0 2 10 20 10 20 in
  set_ix 0 (snd ((sample_boundary box ;;; lookup_patches box)
                   (Frame_initial (distributed 5 0) 44))).

End Demo.

(** * Reasoning about computations *)

(** [hoare P m Q E]: from a state in [P], [m] ends in [Q] when it
    returns and in [E] when it raises. *)
Definition hoare {S A} (P : S -> Prop) (m : M S A)
    (Q : A -> S -> Prop) (E : exn -> S -> Prop) : Prop :=
  forall s, P s ->
    match m s with
    | (Returns a, s') => Q a s'
    | (Raises e, s') => E e s'
    end.

(** No exception at all. *)
Definition never {S} (e : exn) (s : S) : Prop := False.

(** The exceptions other than the index check of InitializeConnectivity. *)
Definition not_index_mismatch (e : exn) : Prop := e <> Fatal "Index mismatch".

(** The partial sums of a list of counts, from [acc] on. *)
Fixpoint cumulative (acc : Z) (counts : list Z) : list Z :=
  match counts with
  | [] => [acc]
  | c :: counts' => acc :: cumulative (acc + c) counts'
  end.

Definition sum_list (l : list Z) : Z := foldr Z.add 0 l.

(** ** Registration *)

(** The node count of the patch at [p] in the store [h]. *)
Definition node_count (h : gmap ptr GridPatch) (nR : Z) (p : ptr) : Z :=
  match h !! p with
  | Some patch => GetTotalNodes (m_box patch) * nR
  | None => 0
  end.

(** The position of the last occurrence of [p] in [ps]. *)
Fixpoint last_position (p : ptr) (ps : list ptr) : option nat :=
  match ps with
  | [] => None
  | q :: ps' =>
      match last_position p ps' with
      | Some k => Some (Datatypes.S k)
      | None => if decide (q = p) then Some 0%nat else None
      end
  end.

(** The object at [p] after [AddPatch] on each pointer of [ps]: it has
    the index of the last call that named it. *)
Definition registered_patch (h : gmap ptr GridPatch) (ps : list ptr) (p : ptr)
    : option GridPatch :=
  match last_position p ps with
  | Some k => set_ixPatch (Z.of_nat k) <$> h !! p
  | None => h !! p
  end.

(** The grid after [AddPatch] on each pointer of [ps], from an empty grid
    over the store [h]. *)
Record Registered (h : gmap ptr GridPatch) (ps : list ptr) (g : Grid) : Prop := {
  reg_patches : m_vecGridPatches g = ps;
  reg_heap : forall p, heap g !! p = registered_patch h ps p;
  reg_cumulative : m_vecCumulativePatch2DNodeIndex g =
    match ps with
    | [] => []
    | _ => cumulative 0 (node_count h (m_nRElements g) <$> ps)
    end
}.
(** ** Distribution *)

(** The member arrays of a patch that [InitializeDataLocal] allocates. *)
Definition member_arrays : list string :=
  [ "m_dataJacobian2D"; "m_dataContraMetric2DA"; "m_dataContraMetric2DB";
    "m_dataCovMetric2DA"; "m_dataCovMetric2DB"; "m_dataJacobian";
    "m_dataJacobianREdge"; "m_dataContraMetricA"; "m_dataContraMetricB";
    "m_dataContraMetricXi"; "m_dataCovMetricA"; "m_dataCovMetricB";
    "m_dataCovMetricXi"; "m_dataContraMetricAREdge"; "m_dataContraMetricBREdge";
    "m_dataContraMetricXiREdge"; "m_dataDerivRNode"; "m_dataDerivRREdge";
    "m_dataElementArea"; "m_dataElementAreaREdge"; "m_dataTopography";
    "m_dataTopographyDeriv"; "m_dataLon"; "m_dataLat"; "m_dataCoriolisF";
    "m_dataZLevels"; "m_dataZInterfaces"; "m_dataRefStateNode";
    "m_dataRefStateREdge"; "m_dataPressure"; "m_dataDxPressure";
    "m_dataVorticity"; "m_dataDivergence"; "m_dataTemperature";
    "m_dataRayleighStrengthNode"; "m_dataRayleighStrengthREdge" ]%string.


(** [std::vector::resize(n)] for an [n] that is not negative: the first
    [n] elements, then new elements without storage. *)
Definition resized (v : list DataArray) (n : Z) : list DataArray :=
  take (Z.to_nat n) v ++ replicate (Z.to_nat n - length v) DataArray_detached.

(** No member of [L] has the name [name]. *)
Definition fresh (name : string) (L : list (string * DataArray)) : bool :=
  forallb (fun x => negb (String.eqb x.1 name)) L.

(** The member [x.1] of the patch holds the array [x.2]. *)
Definition holds (s : GridPatch) (x : string * DataArray) : Prop :=
  m_fields s !! x.1 = Some x.2.

(** What [InitializeDataLocal] has established so far on the patch that
    was [patch] on entry: the flags, the members of [L] with the arrays
    they hold, and [Q] of the three vectors of slots. *)
Definition local_inv (nRank : Z) (patch : GridPatch) (L : list (string * DataArray))
    (Q : list DataArray -> list DataArray -> list DataArray -> Prop)
    (s : GridPatch) : Prop :=
  m_fContainsData s = true
  /\ m_iProcessor s = nRank
  /\ m_box s = m_box patch
  /\ m_ixPatch s = m_ixPatch patch
  /\ m_connect s = m_connect patch
  /\ Forall (holds s) L
  /\ Q (m_datavecStateNode s) (m_datavecStateREdge s) (m_datavecTracers s).

Section Allocated.
Context `{Collaborators}.

(** The member arrays that InitializeDataLocal gives the patch [patch]
    in the grid [g], each with its name, in the order of the source. *)
Definition local_members (g : Grid) (patch : GridPatch) : list (string * DataArray) :=
  let nA := GetATotalWidth (m_box patch) in
  let nB := GetBTotalWidth (m_box patch) in
  let nHalo := GetHaloElements (m_box patch) in
  let nR := m_nRElements g in
  let model := m_model g in
  [
    ("m_dataJacobian2D", Allocate [nA; nB]);
    ("m_dataContraMetric2DA", Allocate [nA; nB; 2]);
    ("m_dataContraMetric2DB", Allocate [nA; nB; 2]);
    ("m_dataCovMetric2DA", Allocate [nA; nB; 2]);
    ("m_dataCovMetric2DB", Allocate [nA; nB; 2]);
    ("m_dataJacobian", Allocate [nR; nA; nB]);
    ("m_dataJacobianREdge", Allocate [int_add nR 1; nA; nB]);
    ("m_dataContraMetricA", Allocate [nR; nA; nB; 3]);
    ("m_dataContraMetricB", Allocate [nR; nA; nB; 3]);
    ("m_dataContraMetricXi", Allocate [nR; nA; nB; 3]);
    ("m_dataCovMetricA", Allocate [nR; nA; nB; 3]);
    ("m_dataCovMetricB", Allocate [nR; nA; nB; 3]);
    ("m_dataCovMetricXi", Allocate [nR; nA; nB; 3]);
    ("m_dataContraMetricAREdge", Allocate [int_add nR 1; nA; nB; 3]);
    ("m_dataContraMetricBREdge", Allocate [int_add nR 1; nA; nB; 3]);
    ("m_dataContraMetricXiREdge", Allocate [int_add nR 1; nA; nB; 3]);
    ("m_dataDerivRNode", Allocate [nR; nA; nB; 3]);
    ("m_dataDerivRREdge", Allocate [int_add nR 1; nA; nB; 3]);
    ("m_dataElementArea", Allocate [nR; nA; nB]);
    ("m_dataElementAreaREdge", Allocate [int_add nR 1; nA; nB]);
    ("m_dataTopography", Allocate [nA; nB]);
    ("m_dataTopographyDeriv", GridData_Initialize DataType_TopographyDeriv DataLocation_Node [2; nA; nB; nHalo]);
    ("m_dataLon", Allocate [nA; nB]);
    ("m_dataLat", Allocate [nA; nB]);
    ("m_dataCoriolisF", Allocate [nA; nB]);
    ("m_dataZLevels", Allocate [nR; nA; nB]);
    ("m_dataZInterfaces", Allocate [int_add nR 1; nA; nB]);
    ("m_dataRefStateNode", GridData_Initialize DataType_State DataLocation_Node [GetComponents model; nR; nA; nB; nHalo]);
    ("m_dataRefStateREdge", GridData_Initialize DataType_State DataLocation_REdge [GetComponents model; nR; nA; nB; nHalo]);
    ("m_dataPressure", GridData_Initialize DataType_Pressure DataLocation_Node [nR; nA; nB; nHalo]);
    ("m_dataDxPressure", GridData_Initialize DataType_Pressure DataLocation_Node [nR; nA; nB; nHalo]);
    ("m_dataVorticity", GridData_Initialize DataType_Vorticity DataLocation_Node [nR; nA; nB; nHalo]);
    ("m_dataDivergence", GridData_Initialize DataType_Divergence DataLocation_Node [nR; nA; nB; nHalo]);
    ("m_dataTemperature", GridData_Initialize DataType_Temperature DataLocation_Node [nR; nA; nB; nHalo]);
    ("m_dataRayleighStrengthNode", GridData_Initialize DataType_None DataLocation_Node [nR; nA; nB; nHalo]);
    ("m_dataRayleighStrengthREdge", GridData_Initialize DataType_None DataLocation_REdge [nR; nA; nB; nHalo]) ]%string.

(** The slots of [s] are those that InitializeDataLocal gives the patch
    [patch] in the grid [g]: one initialized array for each instance of
    the state, on nodes and on edges; for the tracers one for each
    instance when the model has tracers, and otherwise the vector as
    [resize] leaves it. *)
Definition allocated_slots (g : Grid) (patch s : GridPatch) : Prop :=
  let model := m_model g in
  let nA := GetATotalWidth (m_box patch) in
  let nB := GetBTotalWidth (m_box patch) in
  let nHalo := GetHaloElements (m_box patch) in
  let nR := m_nRElements g in
  m_datavecStateNode s
  = replicate (Z.to_nat (GetComponentDataInstances model))
      (GridData_Initialize DataType_State DataLocation_Node
         [GetComponents model; nR; nA; nB; nHalo])
  /\ m_datavecStateREdge s
     = replicate (Z.to_nat (GetComponentDataInstances model))
         (GridData_Initialize DataType_State DataLocation_REdge
            [GetComponents model; nR; nA; nB; nHalo])
  /\ m_datavecTracers s
     = if GetTracers model =? 0
       then resized (m_datavecTracers patch) (GetTracerDataInstances model)
       else replicate (Z.to_nat (GetTracerDataInstances model))
              (GridData_Initialize DataType_Tracers DataLocation_Node
                 [GetTracers model; nR; nA; nB; nHalo]).

End Allocated.

(** The patches of [ps] that the rank [nRank] owns, the first of them
    having the index [n]. *)
Fixpoint owned (nSize nRank : Z) (n : Z) (ps : list ptr) : list ptr :=
  match ps with
  | [] => []
  | p :: ps' =>
      if n `mod` nSize =? nRank then p :: owned nSize nRank (n + 1) ps'
      else owned nSize nRank (n + 1) ps'
  end.


(** The number of indices below [m] that the rank [nRank] owns. *)
Definition owned_below (nSize nRank m : Z) : Z := (m + nSize - 1 - nRank) / nSize.


(** A grid as the calls of [AddPatch] leave it: distinct patches, none of
    them with data, and no active patch. *)
Record AsRegistered (g : Grid) : Prop := {
  fresh_nodup : NoDup (m_vecGridPatches g);
  fresh_stubs : forall p, p ∈ m_vecGridPatches g ->
    exists patch, heap g !! p = Some patch /\ m_fContainsData patch = false;
  fresh_active : m_vecActiveGridPatches g = [];
  fresh_instances : 0 <= GetComponentDataInstances (m_model g)
    /\ 0 <= GetTracerDataInstances (m_model g)
}.


Section DistributionDefinitions.
Context `{Collaborators}.

(** What [DistributePatches] makes of the patch of index [n]. *)
Definition distributed_patch (nSize nRank : Z) (g : Grid) (n : Z) (patch : GridPatch)
    : GridPatch :=
  if n `mod` nSize =? nRank then snd (GridPatch_InitializeDataLocal nRank g patch)
  else set_iProcessor (n `mod` nSize) patch.

Record Distributed (nSize nRank : Z) (g : Grid) (done : list ptr) (g1 : Grid) : Prop := {
  dist_patches : m_vecGridPatches g1 = m_vecGridPatches g;
  dist_model : m_model g1 = m_model g;
  dist_nRElements : m_nRElements g1 = m_nRElements g;
  dist_others : forall p, p ∉ done -> heap g1 !! p = heap g !! p;
  dist_done : forall (k : nat) p, done !! k = Some p ->
    heap g1 !! p = distributed_patch nSize nRank g (Z.of_nat k) <$> heap g !! p;
  dist_active : m_vecActiveGridPatches g1 =
    m_vecActiveGridPatches g ++ owned nSize nRank 0 done
}.

End DistributionDefinitions.

(** ** Connectivity *)

(** The samples of the boundary of a box in the order of the
    specification: bottom-left corner, bottom edge from left to right,
    bottom-right corner, right edge from bottom to top, top-right corner,
    top edge from right to left, top-left corner, left edge from top to
    bottom.  A sample is the pair of global indices and the panel. *)
Definition boundary_samples (box : PatchBox) : list (Z * Z * Z) :=
  let a0 := GetAGlobalInteriorBegin box in
  let a1 := GetAGlobalInteriorEnd box in
  let b0 := GetBGlobalInteriorBegin box in
  let b1 := GetBGlobalInteriorEnd box in
  let panel := GetPanel box in
  [(a0 - 1, b0 - 1, panel)]
  ++ ((fun i => (i, b0 - 1, panel)) <$> seqZ a0 (a1 - a0))
  ++ [(a1, b0 - 1, panel)]
  ++ ((fun j => (a1, j, panel)) <$> seqZ b0 (b1 - b0))
  ++ [(a1, b1, panel)]
  ++ ((fun i => (i, b1, panel)) <$> reverse (seqZ a0 (a1 - a0)))
  ++ [(a0 - 1, b1, panel)]
  ++ ((fun j => (a0 - 1, j, panel)) <$> reverse (seqZ b0 (b1 - b0))).

(** The frame while the boundary is sampled: [acc] are the samples taken
    so far, stored at the start of the three vectors of length [L]. *)
Definition Sampled (g0 : Grid) (vp0 : list Z) (L : nat) (acc : list (Z * Z * Z))
    (fr : Frame) : Prop :=
  fr_grid fr = g0 /\ vecPatch fr = vp0
  /\ length (vecIxA fr) = L /\ length (vecIxB fr) = L /\ length (vecPanel fr) = L
  /\ ix fr = Z.of_nat (length acc)
  /\ take (length acc) (vecIxA fr) = (fun s => s.1.1) <$> acc
  /\ take (length acc) (vecIxB fr) = (fun s => s.1.2) <$> acc
  /\ take (length acc) (vecPanel fr) = (fun s => s.2) <$> acc.

(** The boxes of the patches of a grid, by address. *)
Definition heap_boxes (g : Grid) : gmap ptr PatchBox := m_box <$> heap g.

(** An exception that is not the failed index check. *)
Definition other_exception {S} (e : exn) (s : S) : Prop := not_index_mismatch e.

(** The frame while the samples are consumed: the boxes of the patches
    and the four vectors are those of [fr0], the index is [n]. *)
Definition At (B : gmap ptr PatchBox) (fr0 : Frame) (n : Z) (fr : Frame) : Prop :=
  heap_boxes (fr_grid fr) = B
  /\ vecIxA fr = vecIxA fr0 /\ vecIxB fr = vecIxB fr0
  /\ vecPanel fr = vecPanel fr0 /\ vecPatch fr = vecPatch fr0
  /\ ix fr = n.

(** The frame between two patches of the loop: the boxes of the patches
    stay, and the three sample vectors keep the length they were given. *)
Definition Between (B : gmap ptr PatchBox) (L : nat) (fr : Frame) : Prop :=
  heap_boxes (fr_grid fr) = B
  /\ length (vecIxA fr) = L /\ length (vecIxB fr) = L /\ length (vecPanel fr) = L.

(** ** Corner relations *)

Definition is_corner (dir : Direction) : bool :=
  match dir with
  | Direction_TopRight | Direction_TopLeft
  | Direction_BottomLeft | Direction_BottomRight => true
  | _ => false
  end.

(** The local indices of the interior element at a corner of a box. *)
Definition corner_indices (dir : Direction) (box : PatchBox) : Z * Z :=
  match dir with
  | Direction_TopRight => (GetAInteriorEnd box - 1, GetBInteriorEnd box - 1)
  | Direction_TopLeft => (GetAInteriorBegin box, GetBInteriorEnd box - 1)
  | Direction_BottomLeft => (GetAInteriorBegin box, GetBInteriorBegin box)
  | Direction_BottomRight => (GetAInteriorEnd box - 1, GetBInteriorBegin box)
  | _ => (GetAInteriorBegin box, GetAInteriorEnd box)
  end.

Section CornerDefinitions.
Context `{Collaborators}.

(** The relation that a corner block adds to the patch [self] for the
    patch [second] resolved at the corner. *)
Definition corner_relation (g : Grid) (dir : Direction) (self second : GridPatch)
    (opposing : Direction * bool * bool) : ExteriorNeighbor :=
  InitializeBuffers
    {| m_dir := dir;
       m_dirOpposing := opposing.1.1;
       m_ixNeighbor := m_ixPatch second;
       m_fReverseDirection := opposing.1.2;
       m_fFlippedCoordinate := opposing.2;
       m_nBoundarySize := Model_GetHaloElements (m_model g);
       m_ixFirst := (corner_indices dir (m_box self)).1;
       m_ixSecond := (corner_indices dir (m_box self)).2;
       m_vecSendBuffer := [];
       m_vecRecvBuffer := [] |}
    (m_nRElements g) (Model_GetHaloElements (m_model g))
    (if GetComponents (m_model g) >? GetTracers (m_model g)
     then GetComponents (m_model g) else GetTracers (m_model g)).

(** The relations of the patch at [p], as pairs of a direction and the
    index of the neighbouring patch, in the order they were added. *)
Definition relations_of (g : Grid) (p : ptr) : list (Direction * Z) :=
  match heap g !! p with
  | Some patch => (fun n => (m_dir n, m_ixNeighbor n)) <$> m_connect patch
  | None => []
  end.

End CornerDefinitions.

(** ** Diagonal connections *)

(** The requirement of the specification on a diagonal relation at the
    element ([ixFirst], [ixSecond]): the [halo] elements that start there
    and run away from the corner, in each of the two directions, are
    interior elements of the box. *)
Definition sufficient_interior (dir : Direction) (box : PatchBox) (halo ixFirst ixSecond : Z)
    : bool :=
  let towards_begin ix ixBegin := ixBegin <=? ix - (halo - 1) in
  let towards_end ix ixEnd := ix + (halo - 1) <? ixEnd in
  match dir with
  | Direction_TopRight =>
      towards_begin ixFirst (GetAInteriorBegin box)
      && towards_begin ixSecond (GetBInteriorBegin box)
  | Direction_TopLeft =>
      towards_end ixFirst (GetAInteriorEnd box)
      && towards_begin ixSecond (GetBInteriorBegin box)
  | Direction_BottomLeft =>
      towards_end ixFirst (GetAInteriorEnd box)
      && towards_end ixSecond (GetBInteriorEnd box)
  | Direction_BottomRight =>
      towards_begin ixFirst (GetAInteriorBegin box)
      && towards_end ixSecond (GetBInteriorEnd box)
  | _ => true
  end.

(** ** Data slots *)

(** The slots of a patch for the data types that have them. *)
Definition slots (this : GridPatch) (eDataType : DataType) : list DataArray :=
  match eDataType with
  | DataType_State => m_datavecStateNode this
  | _ => m_datavecTracers this
  end.

Definition has_slots (eDataType : DataType) : Prop :=
  eDataType = DataType_State \/ eDataType = DataType_Tracers.

(** An index that is no slot of [v]. *)
Definition no_slot (v : list DataArray) (i : Z) : Prop := i < 0 \/ size v <= i.

(** A run that ends in a fatal exception and leaves the state alone. *)
Definition fatal_unchanged {S A} (m : M S A) (s : S) : Prop :=
  exists msg, m s = (Raises (Fatal msg), s).

(** ** Consolidation at the root: the element count *)

(** The data types whose element count ConsolidateDataAtRoot leaves
    unchecked. *)
Definition count_unchecked (t : DataType) : bool :=
  match t with
  | DataType_State | DataType_Tracers | DataType_Jacobian => false
  | _ => true
  end.

(** ** Checksums *)

(** The values of the loop variable of [for_loop]. *)
Fixpoint iterates (n : nat) (next : Z -> Z) (i : Z) : list Z :=
  match n with
  | O => []
  | S n' => i :: iterates n' next (next i)
  end.

(** A computation on the checksums that replaces the entry [var] by
    [G] of it and leaves the others alone. *)
Definition alters (var : Z) (G : float -> float) (m : M (list float) unit) : Prop :=
  forall d : list float, 0 <= var < size d -> m d = (Returns tt, alter G (Z.to_nat var) d).

(** The entries [vars] replaced one after the other. *)
Definition alter_all (G : Z -> float -> float) (vars : list Z) (d : list float) : list float :=
  foldl (fun d var => alter (G var) (Z.to_nat var) d) d vars.

(** The nodes of the interior of a box on [nLevels] levels, as the
    loops of the checksum visit them. *)
Definition interior_nodes (box : PatchBox) (nLevels : Z) : list (Z * Z * Z) :=
  k ← seqZ 0 nLevels;
  i ← seqZ (GetAInteriorBegin box) (GetAInteriorEnd box - GetAInteriorBegin box);
  j ← seqZ (GetBInteriorBegin box) (GetBInteriorEnd box - GetBInteriorBegin box);
  [(k, i, j)].


(** *** The checksums of the specification *)

Definition float_max (x y : float) : float := if PrimFloat.ltb x y then y else x.

(** What a node adds to a checksum: the value times the area for the
    sum, the absolute value times the area for L1, the square times the
    area for L2, and the running maximum of the absolute value for
    Linf. *)
Definition checksum_term (t : ChecksumType) (cs value area : float) : float :=
  match t with
  | ChecksumType_Sum => PrimFloat.add cs (PrimFloat.mul value area)
  | ChecksumType_L1 => PrimFloat.add cs (PrimFloat.mul (PrimFloat.abs value) area)
  | ChecksumType_L2 => PrimFloat.add cs (PrimFloat.mul (PrimFloat.mul value value) area)
  | ChecksumType_Linf => float_max cs (PrimFloat.abs value)
  end.

(** The number of components of a data type. *)
Definition component_count (g : Grid) (eDataType : DataType) : Z :=
  match eDataType with
  | DataType_State => GetComponents (m_model g)
  | _ => GetTracers (m_model g)
  end.

Definition located (g : Grid) (loc : DataLocation) (c : Z) : Prop :=
  m_vecVarLocation g !! Z.to_nat c = Some loc.

#[global] Instance located_dec g loc c : Decision (located g loc c).
Proof. unfold located. apply _. Defined.

Definition slot (v : list DataArray) (i : Z) : DataArray :=
  default DataArray_detached (v !! Z.to_nat i).

(** The data of the component [c] on a patch, the areas that weigh it,
    and the number of its levels: a component of the state on the edges
    of the levels has one level more. *)
Definition component_data (g : Grid) (patch : GridPatch) (eDataType : DataType)
    (iDataIndex c : Z) : DataArray * DataArray * Z :=
  match eDataType with
  | DataType_State =>
      if decide (located g DataLocation_REdge c)
      then (slot (m_datavecStateREdge patch) iDataIndex,
            field patch "m_dataElementAreaREdge", m_nRElements g + 1)
      else (slot (m_datavecStateNode patch) iDataIndex,
            field patch "m_dataElementArea", m_nRElements g)
  | _ => (slot (m_datavecTracers patch) iDataIndex,
          field patch "m_dataElementArea", m_nRElements g)
  end.

(** The checksum [cs] of the component [c] after the interior nodes of
    one patch. *)
Definition patch_checksum (t : ChecksumType) (g : Grid) (patch : GridPatch)
    (eDataType : DataType) (iDataIndex c : Z) (cs : float) : float :=
  let '(data, area, nLevels) := component_data g patch eDataType iDataIndex c in
  foldl (fun cs '(k, i, j) =>
           checksum_term t cs (da_elem data [c; k; i; j]) (da_elem area [k; i; j]))
    cs (interior_nodes (m_box patch) nLevels).

(** The local checksum of the component [c]: from zero, over the active
    patches. *)
Definition local_checksum (g : Grid) (eDataType : DataType) (iDataIndex : Z)
    (t : ChecksumType) (c : Z) : float :=
  foldl (fun cs p =>
           match heap g !! p with
           | Some patch => patch_checksum t g patch eDataType iDataIndex c cs
           | None => cs
           end) 0%float (m_vecActiveGridPatches g).

Definition local_checksums (g : Grid) (eDataType : DataType) (iDataIndex : Z)
    (t : ChecksumType) : list float :=
  local_checksum g eDataType iDataIndex t <$> seqZ 0 (component_count g eDataType).

(** Maximum for Linf, sum for the others. *)
Definition reduction_operator (t : ChecksumType) : MPI_Op :=
  match t with
  | ChecksumType_Linf => MPI_MAX
  | _ => MPI_SUM
  end.

(** What Checksum needs to run: a data type with components, and on each
    active patch the data of the slot; for the state, every component on
    the nodes or on the edges of the levels. *)
Record Checksum_ready (g : Grid) (eDataType : DataType) (iDataIndex : Z) : Prop := {
  ready_type :
    eDataType = DataType_State
    \/ (eDataType = DataType_Tracers /\ GetTracers (m_model g) <> 0);
  ready_patches : forall p, p ∈ m_vecActiveGridPatches g ->
    exists patch,
      heap g !! p = Some patch
      /\ m_fContainsData patch = true
      /\ match eDataType with
         | DataType_State =>
             0 <= iDataIndex < size (m_datavecStateNode patch)
             /\ iDataIndex < size (m_datavecStateREdge patch)
         | _ => 0 <= iDataIndex < size (m_datavecTracers patch)
         end;
  ready_locations : eDataType = DataType_State ->
    forall c, 0 <= c < GetComponents (m_model g) ->
      located g DataLocation_Node c \/ located g DataLocation_REdge c
}.

Section ChecksumDefinitions.
Context `{Collaborators}.

(** The output of Checksum on the rank [nRank]: at the root the
    reduction of the local checksums of all ranks, under the square root
    for L2; elsewhere what it was. *)
Definition global_checksums (nRank : Z) (others : list (list float)) (g : Grid)
    (eDataType : DataType) (iDataIndex : Z) (t : ChecksumType) (dChecksums : list float)
    : list float :=
  if nRank =? 0 then
    let reduced :=
      MPI_Reduce (reduction_operator t)
        (local_checksums g eDataType iDataIndex t :: others) in
    match t with
    | ChecksumType_L2 => PrimFloat.sqrt <$> reduced
    | _ => reduced
    end
  else dChecksums.

End ChecksumDefinitions.


(** A grid of one patch with a 2 x 2 interior on one level, two
    components on the nodes with the values -2 and 3 everywhere, and
    elements of the area 1/2. *)
Module Sample.

Definition constant (dims : list Z) (x : float) : DataArray :=
  {| IsInitialized := true; da_dims := dims; da_elem := fun _ => x |}.

Definition state : DataArray :=
  {| IsInitialized := true; da_dims := [2; 1; 4; 4];
     da_elem := fun ix => match ix with
                          | 0 :: _ => (-2)%float
                          | _ => 3%float
                          end |}.

Definition patch : GridPatch :=
  set_fContainsData true
    (set_datavecStateNode [state]
       (set_datavecStateREdge [constant [2; 2; 4; 4] 0%float]
          (set_fields {[ "m_dataElementArea" := constant [1; 4; 4] 0.5%float ]}
             (GridPatch_new 0 (PatchBox_make 0 0 1 0 2 0 2))))).

Definition model : Model :=
  {| GetComponents := 2; GetTracers := 0; Model_GetHaloElements := 1;
     GetComponentDataInstances := 1; GetTracerDataInstances := 0 |}.

Definition grid : Grid :=
  set_vecActiveGridPatches [1%nat]
    (set_vecGridPatches [1%nat]
       (Grid_new {[ 1%nat := patch ]} model 1 [DataLocation_Node; DataLocation_Node])).

End Sample.

(** * More of the sources *)

Section GridOperations.
Context `{Collaborators}.

(** ** Grid.cpp: the operations on the data slots

    [for (n = 0; n < m_vecActiveGridPatches.size(); n++)
       m_vecActiveGridPatches[n]->f(...);] *)
Definition each_active_patch (f : M GridPatch unit) : M Grid unit :=
  g <- get ;;
  for_vec (m_vecActiveGridPatches g) (fun _ p _ => on_patch p f) tt.

(** [Grid::CopyData(ixSource, ixDest, eDataType)] *)
Definition Grid_CopyData (ixSource ixDest : Z) (eDataType : DataType) : M Grid unit :=
  each_active_patch (GridPatch_CopyData ixSource ixDest eDataType).

(** [Grid::LinearCombineData(dCoeff, ixDest, eDataType)] *)
Definition Grid_LinearCombineData (dCoeff : list float) (ixDest : Z)
    (eDataType : DataType) : M Grid unit :=
  each_active_patch (GridPatch_LinearCombineData dCoeff ixDest eDataType).

(** [Grid::ZeroData(ixData, eDataType)] *)
Definition Grid_ZeroData (ixData : Z) (eDataType : DataType) : M Grid unit :=
  each_active_patch (GridPatch_ZeroData ixData eDataType).

(** [Grid::AddReferenceState(ix)] *)
Definition Grid_AddReferenceState (ix : Z) : M Grid unit :=
  each_active_patch (GridPatch_AddReferenceState ix).

(** ** Grid.cpp: sizes *)

(** [Grid::GetLargestGridPatchNodes] *)
Definition Grid_GetLargestGridPatchNodes : M Grid Z :=
  g <- get ;;
  for_vec (m_vecGridPatches g) (fun _ p nMaxNodes =>
    patch <- deref p ;;
    let nPatchNodes := GetTotalNodes (m_box patch) in
    ret (if nPatchNodes >? nMaxNodes then nPatchNodes else nMaxNodes)) 0.

(** [Grid::GetMaximumDegreesOfFreedom] *)
Definition Grid_GetMaximumDegreesOfFreedom : M Grid Z :=
  g <- get ;;
  for_vec (m_vecGridPatches g) (fun _ p nMaxDOFs =>
    patch <- deref p ;;
    let nStateDOFs :=
      int_mul (int_mul (GetComponents (m_model g)) (m_nRElements g))
        (GetTotalNodes (m_box patch)) in
    let nTracersDOFs :=
      int_mul (int_mul (GetTracers (m_model g)) (m_nRElements g))
        (GetTotalNodes (m_box patch)) in
    let nMaxDOFs := if nTracersDOFs >? nMaxDOFs then nTracersDOFs else nMaxDOFs in
    let nMaxDOFs := if nStateDOFs >? nMaxDOFs then nStateDOFs else nMaxDOFs in
    ret nMaxDOFs) 0.

End GridOperations.

(** ** Data slots after an operation *)

(** The slot [ixDest] of [v] replaced by the slot [ixSource]. *)
Definition copied (v : list DataArray) (ixSource ixDest : Z) : list DataArray :=
  <[Z.to_nat ixDest := slot v ixSource]> v.

(** The two vectors of the state have the same number of slots. *)
Definition state_slots_agree (this : GridPatch) : Prop :=
  length (m_datavecStateREdge this) = length (m_datavecStateNode this).

(** The coefficient [c] applied to a slot before the other terms are
    added: [Zero] for a coefficient that is zero, [Scale] otherwise. *)
Definition premultiplied `{Collaborators} (c : float) (d : DataArray) : DataArray :=
  if PrimFloat.eqb c 0%float then GridData_Zero d else GridData_Scale d c.

(** One term of a linear combination: the product of the slot [m] of
    [v] and its coefficient added to [d], unless [m] is the destination
    or the coefficient is zero. *)
Definition combine_step `{Collaborators} (dCoeff : list float) (v : list DataArray)
    (ixDest : Z) (d : DataArray) (m : Z) : DataArray :=
  let c := default 0%float (dCoeff !! Z.to_nat m) in
  if (m =? ixDest) || PrimFloat.eqb c 0%float then d
  else GridData_AddProduct d (slot v m) c.

(** The linear combination that LinearCombineData leaves in the slot
    [ixDest] of [v]: the slot scaled by its own coefficient, then the
    other terms in the order of their indices. *)
Definition combined `{Collaborators} (dCoeff : list float) (v : list DataArray)
    (ixDest : Z) : DataArray :=
  foldl (combine_step dCoeff v ixDest)
    (premultiplied (default 0%float (dCoeff !! Z.to_nat ixDest)) (slot v ixDest))
    (seqZ 0 (size dCoeff)).

(** The members of a patch other than its data slots are the same. *)
Definition same_members (this this' : GridPatch) : Prop :=
  m_ixPatch this' = m_ixPatch this
  /\ m_iProcessor this' = m_iProcessor this
  /\ m_box this' = m_box this
  /\ m_connect this' = m_connect this
  /\ m_fContainsData this' = m_fContainsData this
  /\ m_fields this' = m_fields this.

(** [v'] is [v] with the slot [i] replaced by [x]. *)
Definition replaced (v v' : list DataArray) (i : Z) (x : DataArray) : Prop :=
  length v' = length v
  /\ slot v' i = x
  /\ forall j : nat, j <> Z.to_nat i -> v' !! j = v !! j.

(** The patch [this'] is [this] with the slot [i] of the data type [t]
    replaced: by [xNode] and [xREdge] in the two vectors of the state,
    or by [xNode] in the vector of the tracers. *)
Definition slot_replaced (t : DataType) (this this' : GridPatch) (i : Z)
    (xNode xREdge : DataArray) : Prop :=
  same_members this this'
  /\ match t with
     | DataType_State =>
         replaced (m_datavecStateNode this) (m_datavecStateNode this') i xNode
         /\ replaced (m_datavecStateREdge this) (m_datavecStateREdge this') i xREdge
         /\ m_datavecTracers this' = m_datavecTracers this
     | _ =>
         replaced (m_datavecTracers this) (m_datavecTracers this') i xNode
         /\ m_datavecStateNode this' = m_datavecStateNode this
         /\ m_datavecStateREdge this' = m_datavecStateREdge this
     end.

(** The four operations on the data slots of a patch. *)
Inductive slot_operation `{Collaborators} : M GridPatch unit -> Prop :=
| op_CopyData ixSource ixDest t : slot_operation (GridPatch_CopyData ixSource ixDest t)
| op_LinearCombineData dCoeff ixDest t :
    slot_operation (GridPatch_LinearCombineData dCoeff ixDest t)
| op_ZeroData ixData t : slot_operation (GridPatch_ZeroData ixData t)
| op_AddReferenceState ix : slot_operation (GridPatch_AddReferenceState ix).

(** A patch with three slots of the state and two of tracers. *)
Module SlotDemo.

Definition array (x : float) : DataArray :=
  {| IsInitialized := true; da_dims := [1; 1; 4; 4]; da_elem := fun _ => x |}.

Definition patch : GridPatch :=
  set_fContainsData true
    (set_datavecTracers [array 7; array 8]
       (set_datavecStateNode [array 1; array 2; array 3]
          (set_datavecStateREdge [array 4; array 5; array 6]
             (GridPatch_new 0 (PatchBox_make 0 0 1 0 2 0 2))))).

End SlotDemo.

(** ** The grid after an operation on the active patches *)

(** The members of a grid other than the store of its patches are the
    same. *)
Definition same_vectors (g g' : Grid) : Prop :=
  m_model g' = m_model g
  /\ m_nRElements g' = m_nRElements g
  /\ m_vecVarLocation g' = m_vecVarLocation g
  /\ m_vecGridPatches g' = m_vecGridPatches g
  /\ m_vecActiveGridPatches g' = m_vecActiveGridPatches g
  /\ m_vecCumulativePatch2DNodeIndex g' = m_vecCumulativePatch2DNodeIndex g.

(** The patches at [ps] are what [f] leaves of them, the other patches
    are untouched. *)
Definition patches_updated (f : M GridPatch unit) (ps : list ptr) (g g' : Grid) : Prop :=
  forall p, heap g' !! p
            = if decide (p ∈ ps) then (fun patch => snd (f patch)) <$> heap g !! p
              else heap g !! p.

(** The operations of the grid on the data slots, each with the
    operation of a patch that it applies. *)
Inductive grid_slot_operation `{Collaborators} : M Grid unit -> M GridPatch unit -> Prop :=
| gop_CopyData ixSource ixDest t :
    grid_slot_operation (Grid_CopyData ixSource ixDest t)
      (GridPatch_CopyData ixSource ixDest t)
| gop_LinearCombineData dCoeff ixDest t :
    grid_slot_operation (Grid_LinearCombineData dCoeff ixDest t)
      (GridPatch_LinearCombineData dCoeff ixDest t)
| gop_ZeroData ixData t :
    grid_slot_operation (Grid_ZeroData ixData t) (GridPatch_ZeroData ixData t)
| gop_AddReferenceState ix :
    grid_slot_operation (Grid_AddReferenceState ix) (GridPatch_AddReferenceState ix).

(** The degrees of freedom of the state and of the tracers of a patch,
    as GetMaximumDegreesOfFreedom computes them: products of [int]s. *)
Definition nStateDOFs (g : Grid) (patch : GridPatch) : Z :=
  int_mul (int_mul (GetComponents (m_model g)) (m_nRElements g))
    (GetTotalNodes (m_box patch)).

Definition nTracersDOFs (g : Grid) (patch : GridPatch) : Z :=
  int_mul (int_mul (GetTracers (m_model g)) (m_nRElements g))
    (GetTotalNodes (m_box patch)).

(** The sizes these stand for, as numbers. *)
Definition state_size (g : Grid) (patch : GridPatch) : Z :=
  GetComponents (m_model g) * m_nRElements g * GetTotalNodes (m_box patch).

Definition tracers_size (g : Grid) (patch : GridPatch) : Z :=
  GetTracers (m_model g) * m_nRElements g * GetTotalNodes (m_box patch).

(** A number that an [int] holds. *)
Definition fits_int (z : Z) : Prop := - 2 ^ 31 <= z <= INT_MAX.

(** A grid of two active patches: one with three slots of the state, one
    with a single slot. *)
Module GridDemo.

Definition small : GridPatch :=
  set_fContainsData true
    (set_datavecStateNode [SlotDemo.array 1]
       (set_datavecStateREdge [SlotDemo.array 4]
          (GridPatch_new 1 (PatchBox_make 0 0 1 2 4 0 2)))).

Definition grid : Grid :=
  set_vecActiveGridPatches [1%nat; 2%nat]
    (set_vecGridPatches [1%nat; 2%nat]
       (Grid_new {[ 1%nat := SlotDemo.patch; 2%nat := small ]} Demo.model 1
          [DataLocation_Node; DataLocation_Node; DataLocation_Node])).

End GridDemo.

(** ** The life of the data of a patch *)

(** The member arrays that DeinitializeData leaves alone although
    InitializeDataLocal allocates them. *)
Definition kept_by_deinitialize : list string :=
  [ "m_dataContraMetricAREdge"; "m_dataContraMetricBREdge"; "m_dataDerivRREdge";
    "m_dataCoriolisF"; "m_dataRefStateNode"; "m_dataRefStateREdge" ]%string.

(** The update that a list of steps, each a member and a function,
    makes to the member [name], if any. *)
Fixpoint release_of (steps : list (string * (DataArray -> DataArray))) (name : string)
    : option (DataArray -> DataArray) :=
  match steps with
  | [] => None
  | (n, f) :: steps' => if String.eqb n name then Some f else release_of steps' name
  end.

(** The member [name] of the patch [s0] after the steps. *)
Definition released (s0 : GridPatch) (steps : list (string * (DataArray -> DataArray)))
    (name : string) : option DataArray :=
  match release_of steps name with
  | Some f => Some (f (field s0 name))
  | None => m_fields s0 !! name
  end.

(** Index, box, connectivity and processor of a patch are those of
    [s0]. *)
Definition same_geometry (s0 s : GridPatch) : Prop :=
  m_ixPatch s = m_ixPatch s0
  /\ m_box s = m_box s0
  /\ m_connect s = m_connect s0
  /\ m_iProcessor s = m_iProcessor s0.

(** What DeinitializeData has done so far to the patch that was [s0]. *)
Definition deinit_inv (s0 : GridPatch) (steps : list (string * (DataArray -> DataArray)))
    (fN fR fT : list DataArray -> list DataArray) (s : GridPatch) : Prop :=
  m_fContainsData s = false
  /\ same_geometry s0 s
  /\ (forall name, m_fields s !! name = released s0 steps name)
  /\ m_datavecStateNode s = fN (m_datavecStateNode s0)
  /\ m_datavecStateREdge s = fR (m_datavecStateREdge s0)
  /\ m_datavecTracers s = fT (m_datavecTracers s0).

(** ** The relation that ExteriorConnect builds *)

Section ExteriorRelation.
Context `{Collaborators}.

(** The neighbour that [ExteriorConnect(dirFirst, pPatchSecond, ixFirst,
    ixSecond)] hands to [InitializeBuffers], for the answer [opposing]
    of the grid. *)
Definition exterior_neighbor (g : Grid) (second : GridPatch) (dirFirst : Direction)
    (opposing : Direction * bool * bool) (ixFirst ixSecond : Z) : ExteriorNeighbor :=
  {| m_dir := dirFirst;
     m_dirOpposing := opposing.1.1;
     m_ixNeighbor := m_ixPatch second;
     m_fReverseDirection := opposing.1.2;
     m_fFlippedCoordinate := opposing.2;
     m_nBoundarySize :=
       if is_edge dirFirst then ixSecond - ixFirst
       else Model_GetHaloElements (m_model g);
     m_ixFirst := ixFirst;
     m_ixSecond := ixSecond;
     m_vecSendBuffer := [];
     m_vecRecvBuffer := [] |}.

(** The grid after the relation of [n] has been added to the patch
    [self] at [this]. *)
Definition connected (g : Grid) (this : ptr) (self : GridPatch) (n : ExteriorNeighbor) : Grid :=
  set_heap
    (<[this := set_connect
         (m_connect self ++
          [InitializeBuffers n (m_nRElements g) (Model_GetHaloElements (m_model g))
             (if GetComponents (m_model g) >? GetTracers (m_model g)
              then GetComponents (m_model g) else GetTracers (m_model g))]) self]>
       (heap g)) g.

End ExteriorRelation.

(** ** What InitializeConnectivity changes *)

(** [m] keeps [I]: from a state in [I] it ends in [I], whether it
    returns or raises. *)
Definition keeps {S A} (I : S -> Prop) (m : M S A) : Prop :=
  hoare I m (fun _ => I) (fun _ => I).

Section Grown.
Context `{Collaborators}.

(** The relation of the neighbour [n] with its buffers, in the grid
    [g]. *)
Definition with_buffers (g : Grid) (n : ExteriorNeighbor) : ExteriorNeighbor :=
  InitializeBuffers n (m_nRElements g) (Model_GetHaloElements (m_model g))
    (if GetComponents (m_model g) >? GetTracers (m_model g)
     then GetComponents (m_model g) else GetTracers (m_model g)).

(** The patch at [p] is [patch0] with relations appended to its
    connectivity: none when [p] is not an active patch of [g0], and each
    of them towards a patch of [g0]. *)
Definition appended (g0 : Grid) (p : ptr) (patch0 patch : GridPatch) : Prop :=
  exists ns,
    patch = set_connect (m_connect patch0 ++ (with_buffers g0 <$> ns)) patch0
    /\ (p ∉ m_vecActiveGridPatches g0 -> ns = [])
    /\ Forall (fun n => exists q second,
                 heap g0 !! q = Some second /\ m_ixNeighbor n = m_ixPatch second) ns.

(** The grid [g] is [g0] with relations appended to the connectivity of
    active patches, and nothing else changed. *)
Definition connectivity_grown (g0 g : Grid) : Prop :=
  same_vectors g0 g
  /\ forall p, option_Forall2 (appended g0 p) (heap g0 !! p) (heap g !! p).

(** The same on the frame of InitializeConnectivity. *)
Definition grown_frame (g0 : Grid) (fr : Frame) : Prop :=
  connectivity_grown g0 (fr_grid fr).

End Grown.

(** ** The messages of a consolidation round *)

(** The data types in the order ConsolidateDataToRoot sends them. *)
Definition consolidated_types : list DataType :=
  [ DataType_State; DataType_Tracers; DataType_Jacobian; DataType_Topography;
    DataType_Longitude; DataType_Latitude; DataType_Z ].

Section Messages.
Context `{Collaborators}.

(** The data of a patch that goes out for a type. *)
Definition consolidated_data (patch : GridPatch) (t : DataType) : option DataArray :=
  match t with
  | DataType_State => m_datavecStateNode patch !! 0%nat
  | DataType_Tracers => m_datavecTracers patch !! 0%nat
  | DataType_Jacobian => Some (field patch "m_dataJacobian")
  | DataType_Topography => Some (field patch "m_dataTopography")
  | DataType_Longitude => Some (field patch "m_dataLon")
  | DataType_Latitude => Some (field patch "m_dataLat")
  | DataType_Z => Some (field patch "m_dataZLevels")
  | _ => None
  end.

(** The message that carries [data] of the patch [ixPatch] for the
    type [t] from the rank [nRank]. *)
Definition message_of (nRank ixPatch : Z) (t : DataType) (data : DataArray) : Message :=
  {| MPI_SOURCE := nRank;
     MPI_TAG := GenerateTag ixPatch t;
     msg_data := take (Z.to_nat (GetTotalElements data)) (contents data) |}.

(** The messages of one patch under a status: one for each requested
    type, in the order of [consolidated_types]. *)
Definition patch_messages (nRank : Z) (st : ConsolidationStatus) (patch : GridPatch)
    : list Message :=
  omap (fun t => message_of nRank (m_ixPatch patch) t <$> consolidated_data patch t)
    (List.filter (Contains st) consolidated_types).

(** The data of the patch that a status requests has a first element
    to send from. *)
Definition sendable (st : ConsolidationStatus) (patch : GridPatch) : Prop :=
  forall t data, Contains st t = true -> consolidated_data patch t = Some data ->
    first_element data = Returns tt.

(** One conditional send. *)
Definition send_step (nRank ixPatch : Z) (t : DataType) (data : DataArray)
    (s : SenderState) : SenderState :=
  if Contains (sender_status s) t
  then {| sender_status := GetNextSendRequest (sender_status s);
          sent := sent s ++ [message_of nRank ixPatch t data] |}
  else s.

End Messages.

(** A patch with data in its first slots and in its levels. *)
Module SendDemo.

Definition levels : DataArray :=
  {| IsInitialized := true; da_dims := [2; 4; 4]; da_elem := fun _ => 9%float |}.

Definition patch : GridPatch :=
  set_fields (<["m_dataZLevels" := levels]> (m_fields SlotDemo.patch)) SlotDemo.patch.

Definition grid : Grid :=
  set_vecActiveGridPatches [1%nat]
    (set_vecGridPatches [1%nat]
       (Grid_new {[ 1%nat := patch ]} Demo.model 1
          [DataLocation_Node; DataLocation_Node; DataLocation_Node])).

End SendDemo.

(** ** What Receive unpacks *)

(** The array [d] after the neighbours at the positions [received] of
    the connectivity of [this] have unpacked into it, one after the
    other. *)
Definition unpacked `{Collaborators} (this : GridPatch) (received : list Z)
    (d : DataArray) : DataArray :=
  foldl (fun d n =>
           match m_connect this !! Z.to_nat n with
           | Some pNeighbor => Neighbor_Unpack pNeighbor d
           | None => d
           end) d received.


(** Collaborators whose neighbours unpack by doubling what the array
    holds and adding the first double of their receive buffer, so that
    the order of two neighbours shows in the array; and a patch with two
    neighbours. *)
Module UnpackDemo.

Definition unpack (pNeighbor : ExteriorNeighbor) (d : DataArray) : DataArray :=
  Demo.pointwise
    (fun x => PrimFloat.add (PrimFloat.mul x 2) (hd 0%float (m_vecRecvBuffer pNeighbor))) d.

#[local] Instance collaborators : Collaborators := {|
  InvalidIndex := -1;
  GetPatchFromCoordinateIndex g level vA vB vPanel vPatch n :=
    Some (Demo.find_patches g (Z.to_nat n) vA vB vPanel vPatch);
  GetOpposingDirection panelFirst panelSecond dir :=
    if panelFirst =? panelSecond then Some (Demo.opposite dir, false, false) else None;
  GetCumulativePatch3DNodeIndex g i :=
    if i <? 0 then None else m_vecCumulativePatch2DNodeIndex g !! Z.to_nat i;
  InitializeBuffers n _ _ _ := n;
  Connectivity_Pack c _ := c;
  Connectivity_Send c := c;
  Neighbor_Unpack := unpack;
  Allocate := Demo.allocate;
  Detach _ := DataArray_detached;
  GridData_Initialize _ _ args := Demo.allocate (removelast args);
  GridData_Deinitialize _ := DataArray_detached;
  GridDataVector_Deinitialize v := (fun _ => DataArray_detached) <$> v;
  GridData_Zero := Demo.pointwise (fun _ => 0%float);
  GridData_Scale d c := Demo.pointwise (fun x => PrimFloat.mul x c) d;
  GridData_AddProduct d src c :=
    {| IsInitialized := IsInitialized d; da_dims := da_dims d;
       da_elem := fun i => PrimFloat.add (da_elem d i) (PrimFloat.mul (da_elem src i) c) |};
  ConsolidationStatus := Demo.Status;
  Done := Demo.status_done;
  Contains s t := bool_decide (t ∈ Demo.st_types s);
  SetReceiveStatus := Demo.status_receive;
  GetNextSendRequest s := s;
  GenerateTag ix t := ix * 16 + Demo.type_code t;
  ParseTag tag :=
    if tag <? 0 then None
    else t ← Demo.type_of_code (tag `mod` 16); Some (tag `div` 16, t);
  GetTotalElements := Demo.total_elements;
  contents d := (fun n => da_elem d [n]) <$> seqZ 0 (Demo.total_elements d);
  MPI_Reduce := Demo.reduce
|}.

Definition neighbor (dir : Direction) (ixNeighbor : Z) (x : float) : ExteriorNeighbor :=
  {| m_dir := dir; m_dirOpposing := Demo.opposite dir; m_ixNeighbor := ixNeighbor;
     m_fReverseDirection := false; m_fFlippedCoordinate := false;
     m_nBoundarySize := 2; m_ixFirst := 1; m_ixSecond := 3;
     m_vecSendBuffer := []; m_vecRecvBuffer := [x] |}.

Definition patch : GridPatch :=
  set_connect [neighbor Direction_Right 1 1%float; neighbor Direction_Top 2 10%float]
    SlotDemo.patch.

End UnpackDemo.
(** ** Consolidation at the root: the checked element counts *)

(** The number of elements that ConsolidateDataAtRoot expects of the
    state or the tracers of a patch: [nExpectedRecvCount], a product of
    [int]s. *)
Definition expected_count (g : Grid) (patch : GridPatch) (t : DataType) : Z :=
  match t with
  | DataType_State =>
      int_mul (int_mul (GetComponents (m_model g)) (m_nRElements g))
        (GetTotalNodes (m_box patch))
  | _ =>
      int_mul (int_mul (GetTracers (m_model g)) (m_nRElements g))
        (GetTotalNodes (m_box patch))
  end.

Definition count_mismatch (t : DataType) : string :=
  match t with
  | DataType_State => "State dimension mismatch"
  | _ => "Tracers dimension mismatch"
  end.

(** ** The edge blocks of InitializeConnectivity *)

(** The four edge blocks, each with the number of samples of its edge. *)
Inductive edge_block `{Collaborators} : M Frame unit -> Z -> Prop :=
| edge_bottom pPatch box :
    edge_block (connect_bottom_edge pPatch box)
      (GetAInteriorEnd box - GetAInteriorBegin box)
| edge_right pPatch box :
    edge_block (connect_right_edge pPatch box)
      (GetBInteriorEnd box - GetBInteriorBegin box)
| edge_top pPatch box :
    edge_block (connect_top_edge pPatch box)
      (GetAInteriorEnd box - GetAInteriorBegin box)
| edge_left pPatch box :
    edge_block (connect_left_edge pPatch box)
      (GetBInteriorEnd box - GetBInteriorBegin box).

(** The frame while an edge block looks for the end of its first
    segment: the grid and the resolved patches are those of [fr0], [k]
    samples of the edge are behind. *)
Definition in_first_segment (fr0 : Frame) (k : Z) (fr : Frame) : Prop :=
  fr_grid fr = fr_grid fr0 /\ vecPatch fr = vecPatch fr0 /\ ix fr = ix fr0 + k.

(** The exception of a read outside [m_vecGridPatches], with the grid
    of [fr0]. *)
Definition outside_patches (fr0 : Frame) (e : exn) (fr : Frame) : Prop :=
  e = Undefined "m_vecGridPatches[i]" /\ fr_grid fr = fr_grid fr0.

(** * Theorems *)

Section Hoare.
Context {S : Type}.

Lemma hoare_ret {A} (P : S -> Prop) (a : A) (Q : A -> S -> Prop) E :
  (forall s, P s -> Q a s) -> hoare P (ret a) Q E.
Proof. intros HQ s Hs. cbn. auto. Qed.

Lemma hoare_raise {A} (P : S -> Prop) e (Q : A -> S -> Prop) (E : exn -> S -> Prop) :
  (forall s, P s -> E e s) -> hoare P (raise e) Q E.
Proof. intros HE s Hs. cbn. auto. Qed.

Lemma hoare_bind {A B} (P : S -> Prop) (m : M S A) (k : A -> M S B)
    (R : A -> S -> Prop) (Q : B -> S -> Prop) E :
  hoare P m R E -> (forall a, hoare (R a) (k a) Q E) -> hoare P (bind m k) Q E.
Proof.
  intros Hm Hk s Hs. unfold bind. specialize (Hm s Hs).
  destruct (m s) as [[a|e] s']; [apply Hk, Hm | exact Hm].
Qed.

Lemma hoare_conseq {A} (P P' : S -> Prop) (m : M S A)
    (Q Q' : A -> S -> Prop) (E E' : exn -> S -> Prop) :
  hoare P' m Q' E' ->
  (forall s, P s -> P' s) ->
  (forall a s, Q' a s -> Q a s) ->
  (forall e s, E' e s -> E e s) ->
  hoare P m Q E.
Proof.
  intros Hm HP HQ HE s Hs. specialize (Hm s (HP s Hs)).
  destruct (m s) as [[a|e] s']; auto.
Qed.

Lemma hoare_get (P : S -> Prop) (Q : S -> S -> Prop) E :
  (forall s, P s -> Q s s) -> hoare P get Q E.
Proof. intros HQ s Hs. cbn. auto. Qed.

Lemma hoare_put (P : S -> Prop) (s0 : S) (Q : unit -> S -> Prop) E :
  (forall s, P s -> Q tt s0) -> hoare P (put s0) Q E.
Proof. intros HQ s Hs. cbn. eauto. Qed.

Lemma hoare_modify (P : S -> Prop) (f : S -> S) (Q : unit -> S -> Prop) E :
  (forall s, P s -> Q tt (f s)) -> hoare P (modify f) Q E.
Proof. intros HQ s Hs. cbn. auto. Qed.

Lemma hoare_lift {A} (P : S -> Prop) (o : outcome A) (Q : A -> S -> Prop) (E : exn -> S -> Prop) :
  (forall s, P s -> match o with Returns a => Q a s | Raises e => E e s end) ->
  hoare P (lift o) Q E.
Proof. intros HQ s Hs. specialize (HQ s Hs). unfold lift. destruct o; auto. Qed.

Lemma hoare_external {A} (P : S -> Prop) who (o : option A) (Q : A -> S -> Prop) (E : exn -> S -> Prop) :
  (forall s, P s -> match o with Some a => Q a s | None => E (External who) s end) ->
  hoare P (external who o) Q E.
Proof. intros HQ s Hs. specialize (HQ s Hs). unfold external. destruct o; cbn; auto. Qed.

Lemma hoare_throw_if (P : S -> Prop) (c : bool) msg (Q : unit -> S -> Prop) (E : exn -> S -> Prop) :
  (forall s, P s -> if c then E (Fatal msg) s else Q tt s) ->
  hoare P (throw_if c msg) Q E.
Proof. intros HQ s Hs. specialize (HQ s Hs). unfold throw_if. destruct c; cbn; auto. Qed.

Lemma hoare_vec_at {A} (P : S -> Prop) what (v : list A) (i : Z) (Q : A -> S -> Prop) (E : exn -> S -> Prop) :
  (forall s, P s ->
     (forall x, 0 <= i -> v !! Z.to_nat i = Some x -> Q x s) /\ E (Undefined what) s) ->
  hoare P (vec_at what v i) Q E.
Proof.
  intros HQ s Hs. destruct (HQ s Hs) as [H1 H2].
  unfold vec_at, lift, vec_get. destruct (Z.ltb_spec i 0); [exact H2|].
  destruct (v !! Z.to_nat i) eqn:Hv; [apply H1; auto | exact H2].
Qed.

Lemma hoare_if {A} (c : bool) (P : S -> Prop) (m1 m2 : M S A) Q E :
  (c = true -> hoare P m1 Q E) -> (c = false -> hoare P m2 Q E) ->
  hoare P (if c then m1 else m2) Q E.
Proof. destruct c; auto. Qed.

(** A loop keeps an invariant that may depend on the loop variable. *)
Lemma hoare_for_loop {A} (n : nat) (next : Z -> Z) (body : Z -> A -> M S A)
    (I : nat -> A -> S -> Prop) (E : exn -> S -> Prop) (i0 : Z) :
  (forall k a, (k < n)%nat ->
     hoare (I k a) (body (Nat.iter k next i0) a) (I (Datatypes.S k)) E) ->
  forall a, hoare (I 0%nat a) (for_loop n next body i0 a) (I n) E.
Proof.
  revert I i0. induction n as [|n IH]; intros I i0 Hbody a.
  - apply hoare_ret. auto.
  - cbn [for_loop]. eapply hoare_bind.
    + apply (Hbody 0%nat a). lia.
    + intros a'. cbn beta.
      apply (IH (fun k => I (Datatypes.S k)) (next i0)).
      intros k a'' Hk.
      replace (Nat.iter k next (next i0)) with (Nat.iter (Datatypes.S k) next i0)
        by apply Nat.iter_succ_r.
      apply Hbody. lia.
Qed.

Lemma iter_succ (k : nat) (i : Z) : Nat.iter k Z.succ i = i + Z.of_nat k.
Proof. induction k as [|k IH]; simpl; [lia | rewrite IH; lia]. Qed.

Lemma iter_pred (k : nat) (i : Z) : Nat.iter k Z.pred i = i - Z.of_nat k.
Proof. induction k as [|k IH]; simpl; [lia | rewrite IH; lia]. Qed.

(** [for (i = lo; i < hi; i++)] with an invariant on [i]. *)
Lemma hoare_for_upto {A} (lo hi : Z) (body : Z -> A -> M S A)
    (I : Z -> A -> S -> Prop) (E : exn -> S -> Prop) :
  lo <= hi ->
  (forall i a, lo <= i < hi -> hoare (I i a) (body i a) (I (i + 1)) E) ->
  forall a, hoare (I lo a) (for_upto lo hi body a) (I hi) E.
Proof.
  intros Hle Hbody a. unfold for_upto.
  eapply hoare_conseq.
  - apply (hoare_for_loop (Z.to_nat (hi - lo)) Z.succ body
             (fun k => I (lo + Z.of_nat k)) E lo).
    intros k a' Hk. rewrite iter_succ.
    replace (lo + Z.of_nat (Datatypes.S k)) with (lo + Z.of_nat k + 1) by lia.
    apply Hbody. lia.
  - intros s Hs. cbn beta. replace (lo + Z.of_nat 0) with lo by lia. exact Hs.
  - intros a' s Hs. cbn beta in Hs.
    replace (lo + Z.of_nat (Z.to_nat (hi - lo))) with hi in Hs by lia. exact Hs.
  - auto.
Qed.

(** [for (i = hi; i >= lo; i--)] with an invariant on [i]. *)
Lemma hoare_for_downto {A} (hi lo : Z) (body : Z -> A -> M S A)
    (I : Z -> A -> S -> Prop) (E : exn -> S -> Prop) :
  lo - 1 <= hi ->
  (forall i a, lo <= i <= hi -> hoare (I i a) (body i a) (I (i - 1)) E) ->
  forall a, hoare (I hi a) (for_downto hi lo body a) (I (lo - 1)) E.
Proof.
  intros Hle Hbody a. unfold for_downto.
  eapply hoare_conseq.
  - apply (hoare_for_loop (Z.to_nat (hi - lo + 1)) Z.pred body
             (fun k => I (hi - Z.of_nat k)) E hi).
    intros k a' Hk. rewrite iter_pred.
    replace (hi - Z.of_nat (Datatypes.S k)) with (hi - Z.of_nat k - 1) by lia.
    apply Hbody. lia.
  - intros s Hs. cbn beta. replace (hi - Z.of_nat 0) with hi by lia. exact Hs.
  - intros a' s Hs. cbn beta in Hs.
    replace (hi - Z.of_nat (Z.to_nat (hi - lo + 1))) with (lo - 1) in Hs by lia.
    exact Hs.
  - auto.
Qed.

(** A loop over a vector, with an invariant on the elements done. *)
Lemma hoare_for_vec_from {A B} (v : list B) (body : Z -> B -> A -> M S A)
    (I : list B -> A -> S -> Prop) (E : exn -> S -> Prop) :
  forall (done : list B) (n : Z) a,
  (forall pre x post a, done ++ v = pre ++ x :: post -> (length done <= length pre)%nat ->
     hoare (I pre a) (body (n + Z.of_nat (length pre - length done)) x a) (I (pre ++ [x])) E) ->
  hoare (I done a) (for_vec_from n v body a) (I (done ++ v)) E.
Proof.
  induction v as [|x v IH]; intros done n a Hbody.
  - cbn. rewrite app_nil_r. apply hoare_ret. auto.
  - cbn [for_vec_from]. eapply hoare_bind.
    + specialize (Hbody done x v a eq_refl (le_n _)).
      replace (n + Z.of_nat (length done - length done)) with n in Hbody by lia.
      exact Hbody.
    + intros a'. cbn beta.
      replace (done ++ x :: v) with ((done ++ [x]) ++ v) by (by rewrite <- app_assoc).
      apply IH. intros pre y post a'' Heq Hlen.
      rewrite length_app in Hlen. cbn in Hlen.
      replace (n + 1 + Z.of_nat (length pre - length (done ++ [x])))
        with (n + Z.of_nat (length pre - length done))
        by (rewrite length_app; cbn; lia).
      apply (Hbody pre y post); [by rewrite <- app_assoc in Heq | lia].
Qed.

Lemma hoare_for_vec {A B} (v : list B) (body : Z -> B -> A -> M S A)
    (I : list B -> A -> S -> Prop) (E : exn -> S -> Prop) a :
  (forall pre x post a, v = pre ++ x :: post ->
     hoare (I pre a) (body (Z.of_nat (length pre)) x a) (I (pre ++ [x])) E) ->
  hoare (I [] a) (for_vec v body a) (I v) E.
Proof.
  intros Hbody. unfold for_vec.
  apply (hoare_for_vec_from v body I E [] 0 a).
  intros pre x post a' Heq _. cbn in Heq.
  replace (0 + Z.of_nat (length pre - length (@nil B))) with (Z.of_nat (length pre))
    by (cbn; lia).
  by apply (Hbody pre x post).
Qed.

End Hoare.

Lemma hoare_bind_get {S A} (P : S -> Prop) (k : S -> M S A) Q E :
  (forall s0, P s0 -> hoare (fun s => s = s0) (k s0) Q E) ->
  hoare P (bind get k) Q E.
Proof. intros Hk s Hs. unfold bind, get. apply (Hk s Hs s eq_refl). Qed.

Lemma hoare_returns {S A} (P : S -> Prop) (m : M S A) Q (s : S) :
  hoare P m Q (fun _ _ => False) -> P s ->
  exists a s', m s = (Returns a, s') /\ Q a s'.
Proof.
  intros Hm Hs. specialize (Hm s Hs).
  destruct (m s) as [[a|e] s']; [eauto | done].
Qed.

Lemma hoare_bind_ret {S A B} (P : S -> Prop) (a : A) (k : A -> M S B) Q E :
  hoare P (k a) Q E -> hoare P (bind (ret a) k) Q E.
Proof. intros Hk s Hs. apply (Hk s Hs). Qed.

Lemma hoare_bind_modify {S B} (P : S -> Prop) (f : S -> S) (k : unit -> M S B) Q E :
  hoare (fun s' => exists s, P s /\ s' = f s) (k tt) Q E ->
  hoare P (bind (modify f) k) Q E.
Proof. intros Hk s Hs. unfold bind, modify. apply Hk. eauto. Qed.

Lemma hoare_pre {S A} (P P' : S -> Prop) (m : M S A) Q E :
  hoare P' m Q E -> (forall s, P s -> P' s) -> hoare P m Q E.
Proof. intros Hm HP s Hs. apply Hm, HP, Hs. Qed.

(** One step of a sequence, as an equation. *)
Lemma run_bind {S A B} (m : M S A) (k : A -> M S B) (s : S) :
  bind m k s = match m s with
               | (Returns a, s') => k a s'
               | (Raises e, s') => (Raises e, s')
               end.
Proof. reflexivity. Qed.

Lemma throw_if_true {S} (c : bool) msg (s : S) :
  c = true -> throw_if c msg s = (Raises (Fatal msg), s).
Proof. by intros ->. Qed.

Lemma throw_if_false {S} (c : bool) msg (s : S) :
  c = false -> throw_if c msg s = (Returns tt, s).
Proof. by intros ->. Qed.

Lemma to_unsigned_nonneg (z : Z) : 0 <= z -> to_unsigned z = z.
Proof. intros Hz. unfold to_unsigned. by destruct (Z.ltb_spec z 0); [lia|]. Qed.

(** ** Registration of patches *)

Lemma wrap_int_id (z : Z) : - 2 ^ 31 <= z <= INT_MAX -> wrap_int z = z.
Proof. unfold wrap_int, INT_MAX. intros Hz. rewrite Z.mod_small by lia. lia. Qed.

Lemma sum_list_nonneg (l : list Z) : (forall c, c ∈ l -> 0 <= c) -> 0 <= sum_list l.
Proof.
  induction l as [|c l IH]; intros Hpos; [cbn; lia|].
  change (sum_list (c :: l)) with (c + sum_list l).
  assert (0 <= c) by (apply Hpos; by left).
  assert (0 <= sum_list l) by (apply IH; intros c' Hc'; apply Hpos; by right). lia.
Qed.

Lemma sum_list_app (l1 l2 : list Z) : sum_list (l1 ++ l2) = sum_list l1 + sum_list l2.
Proof.
  induction l1 as [|c l1 IH]; [done|].
  change (sum_list ((c :: l1) ++ l2)) with (c + sum_list (l1 ++ l2)).
  change (sum_list (c :: l1)) with (c + sum_list l1). rewrite IH. lia.
Qed.

Lemma cumulative_length acc cs : length (cumulative acc cs) = Datatypes.S (length cs).
Proof. revert acc. induction cs as [|c cs IH]; intros acc; cbn; [done | by rewrite IH]. Qed.

Lemma cumulative_snoc acc cs c :
  cumulative acc (cs ++ [c]) = cumulative acc cs ++ [acc + sum_list cs + c].
Proof.
  revert acc. induction cs as [|c' cs IH]; intros acc; cbn.
  - replace (acc + 0 + c) with (acc + c) by lia. done.
  - rewrite IH. replace (acc + c' + sum_list cs + c) with (acc + (c' + sum_list cs) + c) by lia.
    done.
Qed.

Lemma cumulative_last acc cs :
  cumulative acc cs !! length cs = Some (acc + sum_list cs).
Proof.
  revert acc. induction cs as [|c cs IH]; intros acc; cbn.
  - replace (acc + 0) with acc by lia. done.
  - rewrite IH. replace (acc + c + sum_list cs) with (acc + (c + sum_list cs)) by lia. done.
Qed.

Lemma cumulative_lookup acc cs (k : nat) c :
  cs !! k = Some c ->
  exists a, cumulative acc cs !! k = Some a /\ cumulative acc cs !! Datatypes.S k = Some (a + c).
Proof.
  revert acc k. induction cs as [|c' cs IH]; intros acc k Hk; [done|].
  destruct k as [|k]; cbn in Hk.
  - injection Hk as ->. exists acc. split; [done|]. cbn. destruct cs; done.
  - cbn. apply IH. done.
Qed.

Lemma cumulative_head acc cs : cumulative acc cs !! 0%nat = Some acc.
Proof. destruct cs; done. Qed.

Lemma vec_get_Some {A} what (v : list A) i x :
  0 <= i -> v !! Z.to_nat i = Some x -> vec_get what v i = Returns x.
Proof.
  intros Hi Hx. unfold vec_get.
  destruct (Z.ltb_spec i 0); [lia|]. by rewrite Hx.
Qed.

Lemma size_nonneg {A} (v : list A) : 0 <= size v.
Proof. unfold size. lia. Qed.

Lemma last_position_snoc (p q : ptr) (ps : list ptr) :
  last_position p (ps ++ [q])
  = if decide (q = p) then Some (length ps) else last_position p ps.
Proof.
  induction ps as [|r ps IH]; cbn.
  - by destruct (decide (q = p)).
  - rewrite IH. destruct (decide (q = p)); [done|].
    by destruct (last_position p ps).
Qed.

Lemma last_position_None (p : ptr) (ps : list ptr) :
  (forall j, ps !! j <> Some p) -> last_position p ps = None.
Proof.
  induction ps as [|q ps IH]; intros Hno; [done|]. cbn.
  rewrite IH by (intros j; apply (Hno (Datatypes.S j))).
  rewrite decide_False; [done|]. intros ->. by apply (Hno 0%nat).
Qed.

Lemma last_position_last (p : ptr) (ps : list ptr) : forall k : nat,
  ps !! k = Some p -> (forall j, (k < j)%nat -> ps !! j <> Some p) ->
  last_position p ps = Some k.
Proof.
  induction ps as [|q ps IH]; intros k Hk Hlast; [done|]. destruct k as [|k]; cbn in *.
  - injection Hk as ->.
    rewrite last_position_None by (intros j; apply (Hlast (Datatypes.S j)); lia).
    by rewrite decide_True.
  - rewrite (IH k Hk); [done|]. intros j Hj. apply (Hlast (Datatypes.S j)). lia.
Qed.

Lemma registered_patch_box h ps p patch :
  registered_patch h ps p = Some patch ->
  exists patch0, h !! p = Some patch0 /\ m_box patch = m_box patch0
    /\ forall n, set_ixPatch n patch = set_ixPatch n patch0.
Proof.
  unfold registered_patch. intros Hp.
  destruct (last_position p ps) as [k|]; destruct (h !! p) as [patch0|]; try done;
    cbn in Hp; injection Hp as <-; by exists patch0.
Qed.

Lemma AddPatch_step h ps g p :
  Registered h ps g -> is_Some (h !! p) ->
  (forall q, q ∈ ps ++ [p] -> 0 <= node_count h (m_nRElements g) q) ->
  sum_list (node_count h (m_nRElements g) <$> ps ++ [p]) <= INT_MAX ->
  exists g', Grid_AddPatch p g = (Returns p, g') /\ Registered h (ps ++ [p]) g'
    /\ m_nRElements g' = m_nRElements g.
Proof.
  intros [Hps Hheap Hcum] [patch0 Hp0] Hpos Hfit.
  assert (0 <= sum_list (node_count h (m_nRElements g) <$> ps)) as Hsum.
  { apply sum_list_nonneg. intros c (q & -> & Hq)%list_elem_of_fmap.
    apply Hpos, elem_of_app. by left. }
  assert (0 <= node_count h (m_nRElements g) p) as Hp_pos
    by (apply Hpos, elem_of_app; right; by left).
  rewrite fmap_app, sum_list_app in Hfit.
  change (sum_list (node_count h (m_nRElements g) <$> [p]))
    with (node_count h (m_nRElements g) p + 0) in Hfit.
  assert (exists patch, heap g !! p = Some patch /\ m_box patch = m_box patch0
            /\ forall n, set_ixPatch n patch = set_ixPatch n patch0)
    as (patch & Hp & Hbox & Hset).
  { destruct (heap g !! p) as [patch|] eqn:Hp.
    - rewrite Hheap in Hp. apply registered_patch_box in Hp as (patch1 & Hp1 & ? & ?).
      exists patch. by simplify_eq.
    - rewrite Hheap in Hp. unfold registered_patch in Hp.
      destruct (last_position p ps); rewrite Hp0 in Hp; done. }
  assert (Hnew : forall p',
    <[p := set_ixPatch (size ps) patch]> (heap g) !! p' = registered_patch h (ps ++ [p]) p').
  { intros p'. unfold registered_patch. rewrite last_position_snoc.
    destruct (decide (p = p')) as [<-|Hne].
    - rewrite lookup_insert_eq, Hp0, Hset. done.
    - rewrite lookup_insert_ne by done. apply Hheap. }
  assert (Hcount : int_mul (GetTotalNodes (m_box patch)) (m_nRElements g)
                   = node_count h (m_nRElements g) p).
  { unfold node_count in *. rewrite Hp0 in *. rewrite Hbox. unfold int_mul.
    apply wrap_int_id. lia. }
  assert (Hadd : int_add (sum_list (node_count h (m_nRElements g) <$> ps))
                   (node_count h (m_nRElements g) p)
                 = sum_list (node_count h (m_nRElements g) <$> ps)
                   + node_count h (m_nRElements g) p).
  { unfold int_add. apply wrap_int_id. lia. }
  unfold Grid_AddPatch, bind, get, modify, on_patch, deref, vec_at, lift, ret.
  cbn -[size cumulative vec_get int_add int_mul].
  rewrite Hp, Hps. cbn -[size cumulative vec_get int_add int_mul].
  destruct ps as [|q ps].
  - change (size (@nil ptr)) with 0. cbn -[cumulative vec_get int_add int_mul]. rewrite Hcum.
    cbn -[int_add int_mul]. rewrite lookup_insert_eq. cbn -[int_add int_mul].
    eexists. split; [reflexivity|]. split; [|done].
    constructor; cbn -[int_add int_mul].
    + done.
    + intros p'. apply Hnew.
    + rewrite Hcount. cbn in Hadd. rewrite Hadd. done.
  - replace (size (q :: ps) =? 0) with false
      by (symmetry; apply Z.eqb_neq; unfold size; cbn; lia).
    cbn -[size cumulative vec_get int_add int_mul]. rewrite Hcum.
    erewrite vec_get_Some; [| apply size_nonneg |].
    2:{ unfold size. rewrite Nat2Z.id.
        replace (length (q :: ps)) with (length (node_count h (m_nRElements g) <$> (q :: ps)))
          by apply length_fmap.
        apply cumulative_last. }
    rewrite lookup_insert_eq. cbn -[size cumulative int_add int_mul].
    eexists. split; [reflexivity|]. split; [|done].
    constructor; cbn -[size cumulative int_add int_mul].
    + done.
    + intros p'. apply Hnew.
    + rewrite Hcum. rewrite (fmap_app _ ps [p]).
      transitivity (cumulative 0
        ((node_count h (m_nRElements g) <$> (q :: ps)) ++ [node_count h (m_nRElements g) p]));
        [|reflexivity].
      rewrite cumulative_snoc, Hcount, !Z.add_0_l. f_equal. f_equal.
      etransitivity; [|exact Hadd]. reflexivity.
Qed.

Lemma Registered_new h model nR locs : Registered h [] (Grid_new h model nR locs).
Proof. constructor; cbn; try done. Qed.

Lemma add_patches_registered h qs : forall ps g,
  Registered h ps g -> (forall p, p ∈ qs -> is_Some (h !! p)) ->
  (forall q, q ∈ ps ++ qs -> 0 <= node_count h (m_nRElements g) q) ->
  sum_list (node_count h (m_nRElements g) <$> ps ++ qs) <= INT_MAX ->
  exists g', add_patches qs g = (Returns tt, g') /\ Registered h (ps ++ qs) g'
    /\ m_nRElements g' = m_nRElements g.
Proof.
  induction qs as [|q qs IH]; intros ps g Hreg Hall Hpos Hfit.
  - exists g. rewrite app_nil_r. done.
  - assert (0 <= sum_list (node_count h (m_nRElements g) <$> qs)) as Hrest.
    { apply sum_list_nonneg. intros c (p & -> & Hp)%list_elem_of_fmap.
      apply Hpos, elem_of_app. right. by right. }
    replace (ps ++ q :: qs) with ((ps ++ [q]) ++ qs) in Hpos, Hfit
      by (by rewrite <- app_assoc).
    destruct (AddPatch_step h ps g q Hreg) as (g1 & Hrun & Hreg1 & HnR1).
    + apply Hall. by left.
    + intros p Hp. apply Hpos, elem_of_app. by left.
    + rewrite fmap_app, sum_list_app in Hfit. lia.
    + destruct (IH (ps ++ [q]) g1 Hreg1) as (g2 & Hrun2 & Hreg2 & HnR2).
      * intros p Hp. apply Hall. by right.
      * by rewrite HnR1.
      * by rewrite HnR1.
      * exists g2. cbn [add_patches]. unfold bind at 1. rewrite Hrun.
        rewrite <- app_assoc in Hreg2. split; [done|]. split; [done | congruence].
Qed.

Lemma cumulative_lower acc cs a k :
  (forall c, c ∈ cs -> 0 <= c) -> cumulative acc cs !! k = Some a -> acc <= a.
Proof.
  revert acc k. induction cs as [|c cs IH]; intros acc k Hpos Hk.
  - destruct k; cbn in Hk; [simplify_eq; lia | done].
  - destruct k; cbn in Hk; [simplify_eq; lia|].
    apply IH in Hk; [|intros c' Hc'; apply Hpos; set_solver].
    assert (0 <= c) by (apply Hpos; set_solver). lia.
Qed.

Lemma cumulative_mono acc cs (i j : nat) a b :
  (forall c, c ∈ cs -> 0 <= c) -> (i <= j)%nat ->
  cumulative acc cs !! i = Some a -> cumulative acc cs !! j = Some b -> a <= b.
Proof.
  revert acc i j. induction cs as [|c cs IH]; intros acc i j Hpos Hij Hi Hj.
  - destruct i, j; cbn in *; simplify_eq; lia.
  - destruct i as [|i].
    + cbn in Hi. simplify_eq. eapply cumulative_lower; [exact Hpos | exact Hj].
    + destruct j as [|j]; [lia|]. cbn in Hi, Hj.
      eapply (IH (acc + c) i j); [intros c' Hc'; apply Hpos; set_solver | lia | done | done].
Qed.

Lemma GetTotalNodeCount_loop (g : Grid) (cnt : ptr -> Z) (l : list ptr) : forall n acc,
  (forall p, p ∈ l -> exists patch, heap g !! p = Some patch
      /\ GetTotalNodes (m_box patch) * m_nRElements g = cnt p) ->
  (forall p, p ∈ l -> 0 <= cnt p) ->
  0 <= acc -> acc + sum_list (cnt <$> l) <= INT_MAX ->
  for_vec_from n l (fun _ p nTotalNodes =>
    patch <- deref p ;;
    n <- lift (GridPatch_GetTotalNodeCount g patch DataLocation_Node) ;;
    ret (int_add nTotalNodes n)) acc g = (Returns (acc + sum_list (cnt <$> l)), g).
Proof.
  induction l as [|p l IH]; intros n acc Hall Hpos Hacc Hfit.
  - cbn. unfold ret. replace (acc + 0) with acc by lia. done.
  - rewrite fmap_cons in Hfit.
    change (sum_list (cnt p :: (cnt <$> l))) with (cnt p + sum_list (cnt <$> l)) in Hfit.
    assert (0 <= cnt p) by (apply Hpos; by left).
    assert (0 <= sum_list (cnt <$> l)).
    { apply sum_list_nonneg. intros c (q & -> & Hq)%list_elem_of_fmap.
      apply Hpos. by right. }
    cbn [for_vec_from]. unfold bind at 1.
    destruct (Hall p) as (patch & Hp & Hc); [by left|].
    unfold bind at 1, deref at 1. rewrite Hp. cbn -[int_add int_mul].
    unfold int_mul. rewrite Hc, (wrap_int_id (cnt p)) by (unfold INT_MAX in *; lia).
    unfold int_add. rewrite (wrap_int_id (acc + cnt p)) by (unfold INT_MAX in *; lia).
    rewrite IH; [| intros p' Hp'; apply Hall; by right
                 | intros p' Hp'; apply Hpos; by right | lia | lia].
    assert (acc + cnt p + sum_list (cnt <$> l) = acc + sum_list (cnt <$> p :: l)) as ->
      by (rewrite fmap_cons; change (sum_list (cnt p :: (cnt <$> l)))
            with (cnt p + sum_list (cnt <$> l)); lia).
    reflexivity.
Qed.

(** A patch object that is added more than once has the index of its
    last addition. *)
Lemma AddPatch_index_of_last_addition
    (h : gmap ptr GridPatch) (ps : list ptr) (g : Grid) (k : nat) (p : ptr) :
  Registered h ps g -> is_Some (h !! p) ->
  ps !! k = Some p -> (forall j, (k < j)%nat -> ps !! j <> Some p) ->
  m_ixPatch <$> heap g !! p = Some (Z.of_nat k).
Proof.
  intros [Hps Hheap Hcum] [patch Hp] Hk Hlast. rewrite Hheap. unfold registered_patch.
  rewrite (last_position_last p ps k Hk Hlast). by rewrite Hp.
Qed.

(** C10.  After a non-empty sequence of AddPatch calls on distinct
    allocated patches, starting from the empty grid, with node counts
    that are not negative and whose sum is an [int]: the patch added
    k-th has the index k, its position in the collection of patches; the
    array of cumulative node indices has one entry more than there are
    patches, starts at 0, and consecutive entries differ by the total
    node count of the patch between them; it is non-decreasing, and its
    last entry is the total node count of the grid. *)
Theorem AddPatch_sequence_invariant
    (h : gmap ptr GridPatch) (model : Model) (nR : Z) (locs : list DataLocation)
    (ps : list ptr) :
  ps <> [] -> (forall p, p ∈ ps -> is_Some (h !! p)) ->
  NoDup ps ->
  (forall p, p ∈ ps -> 0 <= node_count h nR p) ->
  sum_list (node_count h nR <$> ps) <= INT_MAX ->
  exists g,
    add_patches ps (Grid_new h model nR locs) = (Returns tt, g)
    /\ m_vecGridPatches g = ps
    /\ (forall (k : nat) p, ps !! k = Some p ->
          m_ixPatch <$> heap g !! p = Some (Z.of_nat k))
    /\ length (m_vecCumulativePatch2DNodeIndex g) = Datatypes.S (length ps)
    /\ m_vecCumulativePatch2DNodeIndex g !! 0%nat = Some 0
    /\ (forall (k : nat) p patch, ps !! k = Some p -> heap g !! p = Some patch ->
          exists a b,
            m_vecCumulativePatch2DNodeIndex g !! k = Some a
            /\ m_vecCumulativePatch2DNodeIndex g !! Datatypes.S k = Some b
            /\ GridPatch_GetTotalNodeCount g patch DataLocation_Node = Returns (b - a))
    /\ (forall (i j : nat) a b, (i <= j)%nat ->
          m_vecCumulativePatch2DNodeIndex g !! i = Some a ->
          m_vecCumulativePatch2DNodeIndex g !! j = Some b -> a <= b)
    /\ (exists total,
          Grid_GetTotalNodeCount g = (Returns total, g)
          /\ last (m_vecCumulativePatch2DNodeIndex g) = Some total).
Proof.
  intros Hne Hall Hnd Hpos Hfit.
  destruct (add_patches_registered h ps [] (Grid_new h model nR locs))
    as (g & Hrun & Hreg & HnR); [apply Registered_new | done | done | done |].
  pose proof Hreg as [Hps Hheap Hcum].
  cbn in Hps, Hheap, Hcum, HnR, Hreg. rewrite HnR in Hcum.
  assert (Hcum' : m_vecCumulativePatch2DNodeIndex g = cumulative 0 (node_count h nR <$> ps))
    by (destruct ps; done).
  assert (Hbox : forall p patch, heap g !! p = Some patch ->
            node_count h nR p = GetTotalNodes (m_box patch) * nR).
  { intros p patch Hp. rewrite Hheap in Hp.
    apply registered_patch_box in Hp as (patch0 & Hp0 & -> & _).
    unfold node_count. by rewrite Hp0. }
  assert (Hin : forall p, p ∈ ps -> 0 <= node_count h nR p <= INT_MAX).
  { intros p Hp. split; [by apply Hpos|].
    apply list_elem_of_split in Hp as (l1 & l2 & ->).
    rewrite fmap_app, sum_list_app, fmap_cons in Hfit.
    change (sum_list (node_count h nR p :: (node_count h nR <$> l2)))
      with (node_count h nR p + sum_list (node_count h nR <$> l2)) in Hfit.
    assert (0 <= sum_list (node_count h nR <$> l1)).
    { apply sum_list_nonneg. intros c (q & -> & Hq)%list_elem_of_fmap.
      apply Hpos, elem_of_app. by left. }
    assert (0 <= sum_list (node_count h nR <$> l2)).
    { apply sum_list_nonneg. intros c (q & -> & Hq)%list_elem_of_fmap.
      apply Hpos, elem_of_app. right. by right. }
    lia. }
  exists g. split; [done|]. split; [done|]. split.
  { intros k p Hk. apply (AddPatch_index_of_last_addition h ps g k p Hreg); [|done|].
    - apply Hall. by eapply list_elem_of_lookup_2.
    - intros j Hj Hjp. pose proof (NoDup_lookup _ _ _ _ Hnd Hk Hjp). lia. }
  split. { rewrite Hcum', cumulative_length, length_fmap. done. }
  split. { rewrite Hcum'. apply cumulative_head. }
  split.
  { intros k p patch Hk Hp. rewrite Hcum'.
    destruct (cumulative_lookup 0 (node_count h nR <$> ps) k (node_count h nR p))
      as (a & Ha & Hb).
    - by rewrite list_lookup_fmap, Hk.
    - exists a, (a + node_count h nR p). split; [done|]. split; [done|].
      cbn -[int_mul]. rewrite HnR. unfold int_mul.
      rewrite <- (Hbox p patch) by done.
      rewrite wrap_int_id.
      + f_equal. lia.
      + destruct (Hin p); [by eapply list_elem_of_lookup_2|]. lia. }
  split.
  { intros i j a b Hij. rewrite Hcum'. apply cumulative_mono; [|done].
    intros c Hc. apply list_elem_of_fmap in Hc as (p & -> & Hp). by apply Hpos. }
  exists (sum_list (node_count h nR <$> ps)). split.
  - unfold Grid_GetTotalNodeCount, bind at 1, get. rewrite Hps. unfold for_vec.
    rewrite (GetTotalNodeCount_loop g (node_count h nR) ps 0 0); [done| |done|lia|done].
    intros p Hp. destruct (Hall p Hp) as [patch0 Hp0].
    destruct (heap g !! p) as [patch|] eqn:Hgp.
    + exists patch. split; [done|]. rewrite HnR. symmetry. by apply Hbox.
    + rewrite Hheap in Hgp. unfold registered_patch in Hgp.
      destruct (last_position p ps); rewrite Hp0 in Hgp; done.
  - rewrite Hcum', last_lookup, cumulative_length, length_fmap. cbn.
    replace (length ps) with (length (node_count h nR <$> ps)) by apply length_fmap.
    apply cumulative_last.
Qed.

Lemma AddPatch_sequence_invariant_witness :
  exists g,
    add_patches (Demo.pointers Demo.boxes) (Demo.empty_grid Demo.boxes) = (Returns tt, g)
    /\ length (m_vecCumulativePatch2DNodeIndex g) = 6%nat.
Proof.
  destruct (AddPatch_sequence_invariant (Demo.store_of Demo.boxes) Demo.model 1
              [DataLocation_Node; DataLocation_Node; DataLocation_Node]
              (Demo.pointers Demo.boxes))
    as (g & Hrun & _ & _ & Hlen & _).
  - discriminate.
  - intros p Hp. apply elem_of_seq in Hp. vm_compute in Hp.
    destruct Hp as [Hlo Hhi].
    do 6 (destruct p as [|p]; [vm_compute; first [lia | eauto] |]); lia.
  - apply NoDup_seq.
  - intros p Hp. apply elem_of_seq in Hp. vm_compute in Hp.
    destruct Hp as [Hlo Hhi].
    do 6 (destruct p as [|p]; [vm_compute; first [lia | discriminate] |]); lia.
  - vm_compute. discriminate.
  - exists g. split; [exact Hrun | exact Hlen].
Defined.

(** Before the first call the array of cumulative node indices is empty:
    it has no entry, not one. *)
Lemma AddPatch_empty_sequence_cumulative_empty :
  let g := snd (add_patches [] (Demo.empty_grid [])) in
  m_vecGridPatches g = []
  /\ length (m_vecCumulativePatch2DNodeIndex g) <> Datatypes.S (length (m_vecGridPatches g)).
Proof. cbn. split; [reflexivity | discriminate]. Qed.

(** The hypotheses of the invariant are needed.  The cumulative indices
    are sums of [int]s: with two patches of 1500000000 nodes each the
    second sum wraps, and the array decreases. *)
Lemma AddPatch_cumulative_wraps :
  let h : gmap ptr GridPatch :=
    {[ 1%nat := GridPatch_new 0 (PatchBox_make 0 0 0 0 50000 0 30000);
       2%nat := GridPatch_new 0 (PatchBox_make 0 0 0 0 50000 0 30000) ]} in
  let g := snd (add_patches [1%nat; 2%nat] (Grid_new h Demo.model 1 [])) in
  m_vecCumulativePatch2DNodeIndex g = [0; 1500000000; -1294967296].
Proof. vm_compute. reflexivity. Qed.

(** And one patch object added twice is at the positions 0 and 1 with
    the index 1. *)
Lemma AddPatch_same_object_twice :
  let h : gmap ptr GridPatch :=
    {[ 1%nat := GridPatch_new 0 (PatchBox_make 0 0 2 0 10 0 10) ]} in
  let g := snd (add_patches [1%nat; 1%nat] (Grid_new h Demo.model 1 [])) in
  m_vecGridPatches g = [1%nat; 1%nat]
  /\ m_ixPatch <$> heap g !! 1%nat = Some 1.
Proof. vm_compute. split; reflexivity. Qed.
(** ** Distribution of patches *)

Lemma vec_set_in_range {A} what (v : list A) (i : nat) x :
  (i < length v)%nat -> vec_set what v (Z.of_nat i) x = Returns (<[i := x]> v).
Proof.
  intros Hi. unfold vec_set, size.
  destruct (Z.ltb_spec (Z.of_nat i) 0); [lia|].
  destruct (Z.leb_spec (Z.of_nat (length v)) (Z.of_nat i)); [lia|].
  cbn. by rewrite Nat2Z.id.
Qed.

Lemma insert_replicate_next {A} (k : nat) (x y : A) rest :
  <[k := x]> (replicate k x ++ y :: rest) = replicate (Datatypes.S k) x ++ rest.
Proof.
  rewrite insert_app_r_alt by (rewrite length_replicate; lia).
  rewrite length_replicate, Nat.sub_diag.
  change (<[0%nat:=x]> (y :: rest)) with (x :: rest).
  rewrite replicate_S_end, <- app_assoc. done.
Qed.

Lemma state_slots_loop (xN xR : DataArray) (cnt : nat) : forall (k : nat) (s : GridPatch) restN restR,
  m_datavecStateNode s = replicate k xN ++ restN -> length restN = cnt ->
  m_datavecStateREdge s = replicate k xR ++ restR -> length restR = cnt ->
  for_loop cnt Z.succ (fun m _ =>
    p <- get ;;
    v <- lift (vec_set "m_datavecStateNode[m]" (m_datavecStateNode p) m xN) ;;
    modify (set_datavecStateNode v) ;;;
    p <- get ;;
    v <- lift (vec_set "m_datavecStateREdge[m]" (m_datavecStateREdge p) m xR) ;;
    modify (set_datavecStateREdge v)) (Z.of_nat k) tt s
  = (Returns tt, set_datavecStateREdge (replicate (k + cnt) xR)
                   (set_datavecStateNode (replicate (k + cnt) xN) s)).
Proof.
  induction cnt as [|cnt IH]; intros k s restN restR HN HlN HR HlR.
  - destruct restN, restR; try done. rewrite app_nil_r in HN, HR.
    cbn. unfold ret. rewrite Nat.add_0_r, <- HN, <- HR. by destruct s.
  - destruct restN as [|yN restN], restR as [|yR restR]; try done.
    cbn [for_loop]. unfold bind at 1.
    unfold bind at 1, get at 1. unfold bind at 1, lift at 1.
    rewrite HN. rewrite vec_set_in_range by (rewrite length_app, length_replicate; cbn; lia).
    rewrite insert_replicate_next.
    unfold bind at 1, modify at 1. unfold bind at 1, get at 1. unfold bind at 1, lift at 1.
    cbn [m_datavecStateREdge set_datavecStateNode].
    rewrite HR. rewrite vec_set_in_range by (rewrite length_app, length_replicate; cbn; lia).
    rewrite insert_replicate_next. unfold modify.
    replace (Z.succ (Z.of_nat k)) with (Z.of_nat (Datatypes.S k)) by lia.
    erewrite IH; [| cbn; reflexivity | cbn in *; lia | cbn; reflexivity | cbn in *; lia].
    replace (Datatypes.S k + cnt)%nat with (k + Datatypes.S cnt)%nat by lia.
    reflexivity.
Qed.

Lemma tracer_slots_loop (x : DataArray) (cnt : nat) : forall (k : nat) (s : GridPatch) rest,
  m_datavecTracers s = replicate k x ++ rest -> length rest = cnt ->
  for_loop cnt Z.succ (fun m _ =>
    p <- get ;;
    v <- lift (vec_set "m_datavecTracers[m]" (m_datavecTracers p) m x) ;;
    modify (set_datavecTracers v)) (Z.of_nat k) tt s
  = (Returns tt, set_datavecTracers (replicate (k + cnt) x) s).
Proof.
  induction cnt as [|cnt IH]; intros k s rest HT Hl.
  - destruct rest; try done. rewrite app_nil_r in HT.
    cbn. unfold ret. rewrite Nat.add_0_r, <- HT. by destruct s.
  - destruct rest as [|y rest]; try done.
    cbn [for_loop]. unfold bind at 1.
    unfold bind at 1, get at 1. unfold bind at 1, lift at 1.
    rewrite HT. rewrite vec_set_in_range by (rewrite length_app, length_replicate; cbn; lia).
    rewrite insert_replicate_next. unfold modify.
    replace (Z.succ (Z.of_nat k)) with (Z.of_nat (Datatypes.S k)) by lia.
    erewrite IH; [| cbn; reflexivity | cbn in *; lia].
    replace (Datatypes.S k + cnt)%nat with (k + Datatypes.S cnt)%nat by lia.
    reflexivity.
Qed.

Lemma initialize_state_slots_all (n : Z) xN xR (s : GridPatch) :
  0 <= n ->
  length (m_datavecStateNode s) = Z.to_nat n ->
  length (m_datavecStateREdge s) = Z.to_nat n ->
  initialize_state_slots n xN xR s
  = (Returns tt, set_datavecStateREdge (replicate (Z.to_nat n) xR)
                   (set_datavecStateNode (replicate (Z.to_nat n) xN) s)).
Proof.
  intros Hn HN HR. unfold initialize_state_slots, for_upto.
  rewrite Z.sub_0_r.
  apply (state_slots_loop xN xR (Z.to_nat n) 0 s (m_datavecStateNode s) (m_datavecStateREdge s));
    done.
Qed.

Lemma initialize_tracer_slots_all (n : Z) x (s : GridPatch) :
  0 <= n ->
  length (m_datavecTracers s) = Z.to_nat n ->
  initialize_tracer_slots n x s
  = (Returns tt, set_datavecTracers (replicate (Z.to_nat n) x) s).
Proof.
  intros Hn HT. unfold initialize_tracer_slots, for_upto.
  rewrite Z.sub_0_r.
  apply (tracer_slots_loop x (Z.to_nat n) 0 s (m_datavecTracers s)); done.
Qed.

Lemma vec_resize_length v n v' :
  vec_resize v n = Returns v' -> length v' = Z.to_nat n.
Proof.
  unfold vec_resize. destruct (Z.ltb_spec n 0); [done|].
  intros [= <-]. rewrite length_app, length_take, length_replicate. lia.
Qed.

Lemma resized_length v n : 0 <= n -> length (resized v n) = Z.to_nat n.
Proof.
  intros Hn. unfold resized. rewrite length_app, length_take, length_replicate. lia.
Qed.

Lemma fresh_lookup (name : string) (L : list (string * DataArray)) x :
  fresh name L = true -> x ∈ L -> x.1 <> name.
Proof.
  unfold fresh. intros Hfresh Hx Heq.
  rewrite forallb_forall in Hfresh. specialize (Hfresh x).
  rewrite <- list_elem_of_In in Hfresh. specialize (Hfresh Hx).
  apply negb_true_iff, String.eqb_neq in Hfresh. done.
Qed.

Section Distribution.
Context `{Collaborators}.

Lemma hoare_store_field nRank patch L Q name a :
  fresh name L = true ->
  hoare (local_inv nRank patch L Q) (store_field name a)
    (fun _ => local_inv nRank patch (L ++ [(name, a)]) Q) never.
Proof.
  intros Hfresh. apply hoare_modify. intros s (H1 & H2 & H3 & H4 & H5 & H6 & H7).
  unfold local_inv. cbn. repeat (split; [done|]). split; [|done].
  apply Forall_app. split.
  - apply Forall_forall. intros x Hx. unfold holds. cbn.
    rewrite lookup_insert_ne by (apply not_eq_sym; by eapply fresh_lookup).
    by eapply Forall_forall in H6.
  - apply Forall_singleton. unfold holds. cbn. by rewrite lookup_insert_eq.
Qed.

Lemma hoare_resize_state_slots {B} nRank patch L n vT0 (k : unit -> M GridPatch B) Q E :
  0 <= n ->
  hoare (local_inv nRank patch L (fun vN vR vT =>
           length vN = Z.to_nat n /\ length vR = Z.to_nat n /\ vT = vT0)) (k tt) Q E ->
  hoare (local_inv nRank patch L (fun _ _ vT => vT = vT0))
    (p <- get ;;
     v <- lift (vec_resize (m_datavecStateNode p) n) ;;
     modify (set_datavecStateNode v) ;;;
     v0 <- lift (vec_resize (m_datavecStateREdge p) n) ;;
     bind (modify (set_datavecStateREdge v0)) k) Q E.
Proof.
  intros Hn Hk s (H1 & H2 & H3 & H4 & H5 & H6 & H7).
  unfold bind, get, lift, modify, vec_resize.
  destruct (Z.ltb_spec n 0); [lia|].
  apply Hk. unfold local_inv. cbn.
  rewrite !length_app, !length_take, !length_replicate.
  repeat (split; [done|]). split; [lia|]. split; [lia|]. done.
Qed.

Lemma hoare_initialize_state_slots nRank patch L n xN xR vT0 :
  0 <= n ->
  hoare (local_inv nRank patch L (fun vN vR vT =>
           length vN = Z.to_nat n /\ length vR = Z.to_nat n /\ vT = vT0))
    (initialize_state_slots n xN xR)
    (fun _ => local_inv nRank patch L (fun vN vR vT =>
           (vN = replicate (Z.to_nat n) xN /\ vR = replicate (Z.to_nat n) xR)
           /\ vT = vT0))
    never.
Proof.
  intros Hn s (H1 & H2 & H3 & H4 & H5 & H6 & H7 & H8 & H9).
  rewrite initialize_state_slots_all by done.
  unfold local_inv. cbn. done.
Qed.

Lemma hoare_resize_tracer_slots {B} nRank patch L n vT0 (k : unit -> M GridPatch B)
    (Q0 : list DataArray -> list DataArray -> Prop) Q E :
  0 <= n ->
  hoare (local_inv nRank patch L (fun vN vR vT =>
           Q0 vN vR /\ vT = resized vT0 n)) (k tt) Q E ->
  hoare (local_inv nRank patch L (fun vN vR vT => Q0 vN vR /\ vT = vT0))
    (p <- get ;;
     v <- lift (vec_resize (m_datavecTracers p) n) ;;
     bind (modify (set_datavecTracers v)) k) Q E.
Proof.
  intros Hn Hk s (H1 & H2 & H3 & H4 & H5 & H6 & H7 & H8).
  unfold bind, get, lift, modify, vec_resize.
  destruct (Z.ltb_spec n 0); [lia|].
  apply Hk. unfold local_inv. cbn. rewrite H8. done.
Qed.

Lemma hoare_initialize_tracer_slots nRank patch L n x vT0
    (Q0 : list DataArray -> list DataArray -> Prop) :
  0 <= n ->
  hoare (local_inv nRank patch L (fun vN vR vT => Q0 vN vR /\ vT = resized vT0 n))
    (initialize_tracer_slots n x)
    (fun _ => local_inv nRank patch L (fun vN vR vT =>
           Q0 vN vR /\ vT = replicate (Z.to_nat n) x))
    never.
Proof.
  intros Hn s (H1 & H2 & H3 & H4 & H5 & H6 & H7 & H8).
  rewrite initialize_tracer_slots_all; [|done|by rewrite H8, resized_length].
  unfold local_inv. cbn. done.
Qed.

Ltac store_fields :=
  repeat (eapply hoare_bind;
          [apply hoare_store_field; reflexivity | intros ?; cbv beta]).

(** What InitializeDataLocal establishes on a stub: every member array
    holds the array that was allocated for it, and the slots are the
    initialized ones. *)
Lemma InitializeDataLocal_hoare (nRank : Z) (g : Grid) (patch : GridPatch) :
  m_fContainsData patch = false ->
  0 <= GetComponentDataInstances (m_model g) ->
  0 <= GetTracerDataInstances (m_model g) ->
  hoare (fun s => s = patch) (GridPatch_InitializeDataLocal nRank g)
    (fun _ => local_inv nRank patch (local_members g patch) (fun vN vR vT =>
       allocated_slots g patch
         (set_datavecTracers vT (set_datavecStateREdge vR
            (set_datavecStateNode vN patch)))))
    never.
Proof.
  intros Hstub Hc Ht.
  pose (nC := Z.to_nat (GetComponentDataInstances (m_model g))).
  pose (dims := [GetComponents (m_model g); m_nRElements g;
                 GetATotalWidth (m_box patch); GetBTotalWidth (m_box patch);
                 GetHaloElements (m_box patch)]).
  pose (xN := GridData_Initialize DataType_State DataLocation_Node dims).
  pose (xR := GridData_Initialize DataType_State DataLocation_REdge dims).
  pose (xT := GridData_Initialize DataType_Tracers DataLocation_Node
                [GetTracers (m_model g); m_nRElements g;
                 GetATotalWidth (m_box patch); GetBTotalWidth (m_box patch);
                 GetHaloElements (m_box patch)]).
  unfold GridPatch_InitializeDataLocal.
  apply hoare_bind_get. intros ? ->. rewrite Hstub.
  apply hoare_bind_ret. apply hoare_bind_modify. apply hoare_bind_modify.
  cbn zeta.
  apply (hoare_pre _ (local_inv nRank patch []
                        (fun _ _ vT => vT = m_datavecTracers patch))).
  2:{ intros s (s1 & (s0 & -> & ->) & ->). unfold local_inv. cbn. done. }
  store_fields.
  apply hoare_resize_state_slots; [done|].
  eapply hoare_bind; [by apply hoare_initialize_state_slots | intros ?; cbv beta].
  apply (hoare_resize_tracer_slots nRank patch _ _ _ _
           (fun vN vR => vN = replicate nC xN /\ vR = replicate nC xR)); [done|].
  eapply hoare_bind.
  { lazymatch goal with
    | |- hoare (local_inv _ _ ?L _) _ _ _ =>
      apply (hoare_if _ _ _ _ (fun _ => local_inv nRank patch L (fun vN vR vT =>
             (vN = replicate nC xN /\ vR = replicate nC xR)
             /\ vT = if GetTracers (m_model g) =? 0
                     then resized (m_datavecTracers patch)
                            (GetTracerDataInstances (m_model g))
                     else replicate (Z.to_nat (GetTracerDataInstances (m_model g)))
                            xT)))
    end.
    - intros Hsome. apply negb_true_iff in Hsome. rewrite Hsome.
      by apply hoare_initialize_tracer_slots.
    - intros Hnone. apply negb_false_iff in Hnone. rewrite Hnone.
      apply hoare_ret. intros s Hs. exact Hs. }
  intros ?; cbv beta.
  store_fields.
  eapply hoare_conseq.
  2:{ intros s Hs. exact Hs. }
  { apply hoare_store_field. reflexivity. }
  2:{ intros e s []. }
  intros _ s (H1 & H2 & H3 & H4 & H5 & H6 & (HN & HR) & HT).
  unfold local_inv. do 5 (split; [done|]). split; [exact H6|].
  unfold allocated_slots. cbn. by rewrite HN, HR, HT.
Qed.

Lemma InitializeDataLocal_returns (nRank : Z) (g : Grid) (patch : GridPatch) :
  m_fContainsData patch = false ->
  0 <= GetComponentDataInstances (m_model g) ->
  0 <= GetTracerDataInstances (m_model g) ->
  exists patch',
    GridPatch_InitializeDataLocal nRank g patch = (Returns tt, patch')
    /\ local_inv nRank patch (local_members g patch) (fun _ _ _ =>
         allocated_slots g patch patch') patch'.
Proof.
  intros Hstub Hc Ht.
  destruct (hoare_returns _ _ _ patch (InitializeDataLocal_hoare nRank g patch Hstub Hc Ht) eq_refl)
    as ([] & patch' & Hrun & H1 & H2 & H3 & H4 & H5 & H6 & H7).
  exists patch'. split; [done|]. unfold local_inv. do 6 (split; [done|]).
  by destruct H7 as (HN & HR & HT).
Qed.

Lemma InitializeDataRemote_stub (iProcessor : Z) (patch : GridPatch) :
  m_fContainsData patch = false ->
  GridPatch_InitializeDataRemote iProcessor patch
  = (Returns tt, set_iProcessor iProcessor patch).
Proof.
  intros Hstub. unfold GridPatch_InitializeDataRemote, bind, get. by rewrite Hstub.
Qed.

Lemma owned_app nSize nRank n l1 l2 :
  owned nSize nRank n (l1 ++ l2)
  = owned nSize nRank n l1 ++ owned nSize nRank (n + Z.of_nat (length l1)) l2.
Proof.
  revert n. induction l1 as [|p l1 IH]; intros n.
  - cbn. by rewrite Z.add_0_r.
  - cbn [app owned length]. rewrite IH.
    replace (n + 1 + Z.of_nat (length l1)) with (n + Z.of_nat (Datatypes.S (length l1))) by lia.
    by destruct (_ =? _).
Qed.

Lemma InitializeDataLocal_same_grid nRank (g g1 : Grid) :
  m_model g1 = m_model g -> m_nRElements g1 = m_nRElements g ->
  GridPatch_InitializeDataLocal nRank g1 = GridPatch_InitializeDataLocal nRank g.
Proof. intros Hm Hn. unfold GridPatch_InitializeDataLocal. by rewrite Hm, Hn. Qed.

Lemma DistributePatches_loop nSize nRank (g : Grid) :
  0 < nSize -> AsRegistered g ->
  forall (rest done : list ptr) (g1 : Grid),
    m_vecGridPatches g = done ++ rest ->
    Distributed nSize nRank g done g1 ->
    exists g2,
      for_vec_from (Z.of_nat (length done)) rest (fun n p _ =>
        let nPatchProcessor := Z.rem n nSize in
        if nPatchProcessor =? nRank then
          g' <- get ;;
          on_patch p (GridPatch_InitializeDataLocal nRank g') ;;;
          modify (fun g => set_vecActiveGridPatches (m_vecActiveGridPatches g ++ [p]) g)
        else
          on_patch p (GridPatch_InitializeDataRemote nPatchProcessor)) tt g1
      = (Returns tt, g2)
      /\ Distributed nSize nRank g (done ++ rest) g2.
Proof.
  intros HnSize [Hnd Hstubs Hact [Hc Ht]].
  induction rest as [|p rest IH]; intros done g1 Hsplit Hdist.
  - exists g1. rewrite app_nil_r. done.
  - destruct Hdist as [Hps Hm HnR Hoth Hdone Hactive].
    assert (Hp_in : p ∈ m_vecGridPatches g) by (rewrite Hsplit; set_solver).
    assert (Hp_notin : p ∉ done).
    { rewrite Hsplit in Hnd. apply NoDup_app in Hnd as (_ & Hdisj & _).
      intros Hin. apply (Hdisj p Hin). set_solver. }
    destruct (Hstubs p Hp_in) as (patch & Hp & Hstub).
    assert (Hp1 : heap g1 !! p = Some patch) by (by rewrite Hoth).
    cbn [for_vec_from]. unfold bind at 1. cbn zeta.
    rewrite Z.rem_mod_nonneg by lia.
    set (n := Z.of_nat (length done)).
    assert (exists g1',
      (if n `mod` nSize =? nRank
       then g' <- get ;;
            on_patch p (GridPatch_InitializeDataLocal nRank g') ;;;
            modify (fun g0 => set_vecActiveGridPatches (m_vecActiveGridPatches g0 ++ [p]) g0)
       else on_patch p (GridPatch_InitializeDataRemote (n `mod` nSize))) g1
      = (Returns tt, g1')
      /\ Distributed nSize nRank g (done ++ [p]) g1') as (g1' & Hrun & Hdist').
    { destruct (n `mod` nSize =? nRank) eqn:Howner.
      - destruct (InitializeDataLocal_returns nRank g patch Hstub Hc Ht)
          as (patch' & Hlocal & _).
        unfold bind at 1, get at 1. unfold bind at 1, on_patch at 1.
        rewrite Hp1. rewrite (InitializeDataLocal_same_grid nRank g g1 Hm HnR), Hlocal.
        unfold modify. eexists. split; [reflexivity|].
        constructor; cbn; try done.
        + intros q Hq. rewrite lookup_insert_ne; [apply Hoth; set_solver | set_solver].
        + intros k q Hk. destruct (decide (k = length done)) as [->|Hne].
          * rewrite lookup_app_r in Hk by lia. rewrite Nat.sub_diag in Hk. cbn in Hk.
            simplify_eq. rewrite lookup_insert_eq, Hp. cbn. f_equal.
            unfold distributed_patch. fold n. rewrite Howner. by rewrite Hlocal.
          * assert (done !! k = Some q) as Hk'.
            { apply lookup_lt_Some in Hk as Hlt. rewrite length_app in Hlt. cbn in Hlt.
              rewrite lookup_app_l in Hk; [done | lia]. }
            rewrite lookup_insert_ne; [by apply Hdone|].
            intros ->. apply Hp_notin. by eapply list_elem_of_lookup_2.
        + rewrite Hactive, owned_app, <- app_assoc. cbn [owned].
          replace (0 + Z.of_nat (length done)) with n by lia. by rewrite Howner.
      - unfold on_patch. rewrite Hp1, (InitializeDataRemote_stub _ _ Hstub).
        eexists. split; [reflexivity|].
        constructor; cbn; try done.
        + intros q Hq. rewrite lookup_insert_ne; [apply Hoth; set_solver | set_solver].
        + intros k q Hk. destruct (decide (k = length done)) as [->|Hne].
          * rewrite lookup_app_r in Hk by lia. rewrite Nat.sub_diag in Hk. cbn in Hk.
            simplify_eq. rewrite lookup_insert_eq, Hp. cbn. f_equal.
            unfold distributed_patch. fold n. by rewrite Howner.
          * assert (done !! k = Some q) as Hk'.
            { apply lookup_lt_Some in Hk as Hlt. rewrite length_app in Hlt. cbn in Hlt.
              rewrite lookup_app_l in Hk; [done | lia]. }
            rewrite lookup_insert_ne; [by apply Hdone|].
            intros ->. apply Hp_notin. by eapply list_elem_of_lookup_2.
        + rewrite Hactive, owned_app. cbn [owned].
          replace (0 + Z.of_nat (length done)) with n by lia.
          rewrite Howner. by rewrite app_nil_r. }
    rewrite Hrun.
    destruct (IH (done ++ [p]) g1') as (g2 & Hrun2 & Hdist2).
    + by rewrite <- app_assoc.
    + exact Hdist'.
    + exists g2. rewrite <- app_assoc in Hdist2. split; [|done].
      rewrite <- Hrun2. rewrite length_app. cbn [length].
      replace (n + 1) with (Z.of_nat (length done + 1)) by lia. done.
Qed.

Lemma elem_of_owned nSize nRank ps : forall n p,
  p ∈ owned nSize nRank n ps <->
  exists k : nat, ps !! k = Some p /\ (n + Z.of_nat k) `mod` nSize = nRank.
Proof.
  induction ps as [|q ps IH]; intros n p.
  - cbn. split; [by intros ?%elem_of_nil | by intros (k & ? & _)].
  - cbn [owned]. destruct (Z.eqb_spec (n `mod` nSize) nRank) as [Heq|Hne].
    + rewrite elem_of_cons, IH. split.
      * intros [->|(k & Hk & Hm)].
        -- exists 0%nat. split; [done|]. by rewrite Z.add_0_r.
        -- exists (Datatypes.S k). split; [done|].
           by replace (n + Z.of_nat (Datatypes.S k)) with (n + 1 + Z.of_nat k) by lia.
      * intros ([|k] & Hk & Hm).
        -- left. cbn in Hk. by simplify_eq.
        -- right. exists k. split; [done|].
           by replace (n + 1 + Z.of_nat k) with (n + Z.of_nat (Datatypes.S k)) by lia.
    + rewrite IH. split.
      * intros (k & Hk & Hm). exists (Datatypes.S k). split; [done|].
        by replace (n + Z.of_nat (Datatypes.S k)) with (n + 1 + Z.of_nat k) by lia.
      * intros ([|k] & Hk & Hm).
        -- rewrite Z.add_0_r in Hm. done.
        -- exists k. split; [done|].
           by replace (n + 1 + Z.of_nat k) with (n + Z.of_nat (Datatypes.S k)) by lia.
Qed.

Lemma div_eq (a b q r : Z) : 0 <= r < b -> a = b * q + r -> a / b = q.
Proof. intros Hr Ha. symmetry. apply (Z.div_unique a b q r); [lia | done]. Qed.

Lemma owned_below_succ nSize nRank n :
  0 < nSize -> 0 <= nRank < nSize -> 0 <= n ->
  owned_below nSize nRank (n + 1)
  = owned_below nSize nRank n + (if n `mod` nSize =? nRank then 1 else 0).
Proof.
  intros HP Hr Hn. unfold owned_below.
  pose proof (Z.div_mod n nSize ltac:(lia)) as Hdm.
  pose proof (Z.mod_pos_bound n nSize HP) as Hm.
  set (q := n / nSize) in *. set (m := n `mod` nSize) in *.
  destruct (Z.eqb_spec m nRank) as [Heq|Hne].
  - rewrite (div_eq (n + 1 + nSize - 1 - nRank) nSize (q + 1) 0) by lia.
    rewrite (div_eq (n + nSize - 1 - nRank) nSize q (nSize - 1)) by lia. lia.
  - destruct (Z.lt_ge_cases m nRank).
    + rewrite (div_eq (n + 1 + nSize - 1 - nRank) nSize q (m + nSize - nRank)) by lia.
      rewrite (div_eq (n + nSize - 1 - nRank) nSize q (m + nSize - 1 - nRank)) by lia. lia.
    + rewrite (div_eq (n + 1 + nSize - 1 - nRank) nSize (q + 1) (m - nRank)) by lia.
      rewrite (div_eq (n + nSize - 1 - nRank) nSize (q + 1) (m - 1 - nRank)) by lia. lia.
Qed.

Lemma owned_length nSize nRank ps : forall n,
  0 < nSize -> 0 <= nRank < nSize -> 0 <= n ->
  Z.of_nat (length (owned nSize nRank n ps))
  = owned_below nSize nRank (n + Z.of_nat (length ps)) - owned_below nSize nRank n.
Proof.
  induction ps as [|p ps IH]; intros n HP Hr Hn.
  - cbn. rewrite Z.add_0_r. lia.
  - cbn [owned length].
    replace (n + Z.of_nat (Datatypes.S (length ps))) with (n + 1 + Z.of_nat (length ps)) by lia.
    pose proof (owned_below_succ nSize nRank n HP Hr Hn) as Hs.
    destruct (n `mod` nSize =? nRank); cbn [length]; rewrite ?Nat2Z.inj_succ, IH by lia; lia.
Qed.

Lemma owned_below_bounds nSize nRank m :
  0 < nSize -> 0 <= nRank < nSize -> 0 <= m ->
  m / nSize <= owned_below nSize nRank m <= m / nSize + 1.
Proof.
  intros HP Hr Hm. unfold owned_below. split.
  - apply Z.div_le_mono; lia.
  - replace (m / nSize + 1) with ((m + 1 * nSize) / nSize) by (rewrite Z.div_add; lia).
    apply Z.div_le_mono; lia.
Qed.

Lemma owned_below_0 nSize nRank :
  0 < nSize -> 0 <= nRank < nSize -> owned_below nSize nRank 0 = 0.
Proof. intros HP Hr. unfold owned_below. apply Z.div_small. lia. Qed.

(** C2.  On a registered grid and for a number of processes of at least
    one, DistributePatches on any rank returns; the patch of index i
    records the owner i mod nSize; on the rank that equals the owner it
    is in the active list and has its full storage: every member array
    holds the array allocated or initialized for it with the extents of
    the box, and every state slot (and every tracer slot, when the model
    has tracers) holds an initialized array; on every other rank it is
    the registered stub with the owner recorded and no data; and the
    active lists of two ranks differ in length by at most one. *)
Theorem DistributePatches_round_robin (g : Grid) (nSize : Z) :
  1 <= nSize -> AsRegistered g ->
  (forall nRank, 0 <= nRank < nSize ->
     exists g',
       Grid_DistributePatches nSize nRank g = (Returns tt, g')
       /\ m_vecGridPatches g' = m_vecGridPatches g
       /\ m_vecActiveGridPatches g' = owned nSize nRank 0 (m_vecGridPatches g)
       /\ (forall (i : nat) p, m_vecGridPatches g !! i = Some p ->
            exists patch patch',
              heap g !! p = Some patch /\ heap g' !! p = Some patch'
              /\ m_ixPatch patch' = m_ixPatch patch
              /\ m_box patch' = m_box patch
              /\ m_iProcessor patch' = Z.of_nat i `mod` nSize
              /\ (p ∈ m_vecActiveGridPatches g' <-> Z.of_nat i `mod` nSize = nRank)
              /\ if bool_decide (Z.of_nat i `mod` nSize = nRank)
                 then m_fContainsData patch' = true
                      /\ Forall (holds patch') (local_members g patch)
                      /\ allocated_slots g patch patch'
                 else patch' = set_iProcessor (Z.of_nat i `mod` nSize) patch
                      /\ m_fContainsData patch' = false))
  /\ (forall r1 r2, 0 <= r1 < nSize -> 0 <= r2 < nSize ->
       Z.abs (size (m_vecActiveGridPatches (snd (Grid_DistributePatches nSize r1 g)))
              - size (m_vecActiveGridPatches (snd (Grid_DistributePatches nSize r2 g)))) <= 1).
Proof.
  intros HnSize Hreg.
  assert (Hrun : forall nRank, 0 <= nRank < nSize ->
    exists g', Grid_DistributePatches nSize nRank g = (Returns tt, g')
      /\ Distributed nSize nRank g (m_vecGridPatches g) g').
  { intros nRank Hr. unfold Grid_DistributePatches, bind at 1, get, for_vec.
    destruct (DistributePatches_loop nSize nRank g ltac:(lia) Hreg (m_vecGridPatches g) [] g)
      as (g' & Hloop & Hdist); [done | |].
    - constructor; try done. by rewrite app_nil_r.
    - exists g'. split; [exact Hloop | exact Hdist]. }
  destruct Hreg as [Hnd Hstubs Hact [Hc Ht]].
  split.
  - intros nRank Hr. destruct (Hrun nRank Hr) as (g' & Hg' & [Hps Hm HnR Hoth Hdone Hactive]).
    exists g'. split; [done|]. split; [done|].
    rewrite Hact in Hactive. cbn in Hactive. split; [done|].
    intros i p Hi.
    destruct (Hstubs p) as (patch & Hp & Hstub); [by eapply list_elem_of_lookup_2|].
    pose proof (Hdone i p Hi) as Hp'. rewrite Hp in Hp'. cbn in Hp'.
    exists patch, (distributed_patch nSize nRank g (Z.of_nat i) patch).
    split; [done|]. split; [done|].
    assert (Hiff : p ∈ m_vecActiveGridPatches g' <-> Z.of_nat i `mod` nSize = nRank).
    { rewrite Hactive, elem_of_owned. split.
      - intros (k & Hk & Hmod). rewrite Z.add_0_l in Hmod.
        by rewrite (NoDup_lookup _ i k p Hnd Hi Hk).
      - intros Hmod. exists i. by rewrite Z.add_0_l. }
    unfold distributed_patch.
    destruct (Z.eqb_spec (Z.of_nat i `mod` nSize) nRank) as [Heq|Hne].
    + destruct (InitializeDataLocal_returns nRank g patch Hstub Hc Ht)
        as (patch' & Hlocal & (H1 & H2 & H3 & H4 & H5 & H6 & H7)).
      rewrite Hlocal. cbn [snd].
      rewrite bool_decide_eq_true_2 by done.
      do 4 (split; [done || congruence|]). done.
    + rewrite bool_decide_eq_false_2 by done. cbn.
      repeat (split; [done|]). done.
  - intros r1 r2 Hr1 Hr2.
    destruct (Hrun r1 Hr1) as (g1 & Hg1 & [_ _ _ _ _ Ha1]).
    destruct (Hrun r2 Hr2) as (g2 & Hg2 & [_ _ _ _ _ Ha2]).
    rewrite Hg1, Hg2. cbn [snd]. rewrite Ha1, Ha2, Hact. cbn [app]. unfold size.
    rewrite !owned_length by lia. rewrite !owned_below_0 by lia.
    pose proof (owned_below_bounds nSize r1 (0 + Z.of_nat (length (m_vecGridPatches g)))
                  ltac:(lia) Hr1 ltac:(lia)).
    pose proof (owned_below_bounds nSize r2 (0 + Z.of_nat (length (m_vecGridPatches g)))
                  ltac:(lia) Hr2 ltac:(lia)).
    lia.
Qed.

End Distribution.

Lemma elem_of_seq_cases (P : nat -> Prop) (start len : nat) :
  Forall P (seq start len) -> forall p, p ∈ seq start len -> P p.
Proof. intros HF p Hp. by eapply Forall_forall in HF. Qed.

Lemma Demo_registered : AsRegistered Demo.registered.
Proof.
  split.
  - change (m_vecGridPatches Demo.registered) with (seq 1 5). apply NoDup_seq.
  - change (m_vecGridPatches Demo.registered) with (seq 1 5).
    apply elem_of_seq_cases.
    repeat (apply Forall_cons; split;
            [eexists; split; [vm_compute; reflexivity | reflexivity]|]).
    apply Forall_nil. exact I.
  - reflexivity.
  - vm_compute. split; discriminate.
Qed.

Lemma DistributePatches_round_robin_witness :
  m_vecActiveGridPatches (snd (Grid_DistributePatches (H := Demo.collaborators) 2 0 Demo.registered))
    = [1%nat; 3%nat; 5%nat]
  /\ m_vecActiveGridPatches (snd (Grid_DistributePatches (H := Demo.collaborators) 2 1 Demo.registered))
    = [2%nat; 4%nat].
Proof.
  destruct (DistributePatches_round_robin (H := Demo.collaborators) Demo.registered 2
              ltac:(lia) Demo_registered) as [Hrank _].
  destruct (Hrank 0 ltac:(lia)) as (g0 & -> & _ & H0 & _).
  destruct (Hrank 1 ltac:(lia)) as (g1 & -> & _ & H1 & _).
  cbn [snd]. rewrite H0, H1. split; reflexivity.
Defined.

(** ** Construction of the connectivity *)

Lemma take_insert_next {A} (v : list A) (n : nat) x :
  (n < length v)%nat -> take (Datatypes.S n) (<[n := x]> v) = take n v ++ [x].
Proof.
  revert n. induction v as [|y v IH]; intros n Hn; cbn in Hn; [lia|].
  destruct n as [|n]; [done|]. cbn. f_equal. apply IH. lia.
Qed.

Lemma vec_set_nat {A} what (v : list A) (n : nat) x :
  (n < length v)%nat -> vec_set what v (Z.of_nat n) x = Returns (<[n := x]> v).
Proof.
  intros Hn. unfold vec_set, size.
  destruct (Z.ltb_spec (Z.of_nat n) 0); [lia|].
  destruct (Z.leb_spec (Z.of_nat (length v)) (Z.of_nat n)); [lia|].
  cbn. by rewrite Nat2Z.id.
Qed.

Lemma hoare_store_sample g0 vp0 L acc a b panel :
  (length acc < L)%nat ->
  hoare (Sampled g0 vp0 L acc) (store_sample a b panel)
    (fun _ => Sampled g0 vp0 L (acc ++ [(a, b, panel)])) never.
Proof.
  intros Hlt fr (Hg & Hvp & HA & HB & HP & Hix & HtA & HtB & HtP).
  unfold store_sample, bind, get, lift, put. rewrite Hix.
  rewrite !vec_set_nat by lia.
  unfold Sampled. cbn. rewrite !length_insert, length_app, !fmap_app. cbn.
  replace (length acc + 1)%nat with (Datatypes.S (length acc)) by lia.
  rewrite !take_insert_next by lia. rewrite HtA, HtB, HtP.
  repeat (split; [done|]). done || (split; [lia | done]).
Qed.

Lemma hoare_post {S A} (P : S -> Prop) (m : M S A) (Q Q' : A -> S -> Prop) E :
  hoare P m Q' E -> (forall a s, Q' a s -> Q a s) -> hoare P m Q E.
Proof. intros Hm HQ. eapply hoare_conseq; [exact Hm | done | exact HQ | done]. Qed.

Lemma seqZ_snoc (m len : Z) : 0 <= len -> seqZ m (len + 1) = seqZ m len ++ [m + len].
Proof.
  intros Hlen. rewrite seqZ_app by lia. f_equal.
Qed.

Lemma hoare_sample_upto g0 vp0 L acc (lo hi : Z) (fa fb fp : Z -> Z) :
  lo <= hi -> (length acc + Z.to_nat (hi - lo) <= L)%nat ->
  hoare (Sampled g0 vp0 L acc)
    (for_upto lo hi (fun i _ => store_sample (fa i) (fb i) (fp i)) tt)
    (fun _ => Sampled g0 vp0 L
       (acc ++ ((fun i => (fa i, fb i, fp i)) <$> seqZ lo (hi - lo)))) never.
Proof.
  intros Hle Hlen.
  eapply hoare_conseq.
  - apply (hoare_for_upto lo hi _
      (fun i _ => Sampled g0 vp0 L
         (acc ++ ((fun i => (fa i, fb i, fp i)) <$> seqZ lo (i - lo)))) never Hle).
    intros i [] Hi. eapply hoare_post.
    + apply hoare_store_sample. rewrite length_app, length_fmap, length_seqZ. lia.
    + intros ? fr Hfr. cbv beta in Hfr |- *.
      replace (i + 1 - lo) with (i - lo + 1) by lia.
      rewrite seqZ_snoc by lia. rewrite fmap_app, app_assoc. cbn.
      by replace (lo + (i - lo)) with i by lia.
  - intros fr Hfr. cbn beta. rewrite Z.sub_diag. cbn. by rewrite app_nil_r.
  - intros [] fr Hfr. exact Hfr.
  - done.
Qed.

Lemma seqZ_reverse_cons (m len : Z) :
  0 <= len -> reverse (seqZ m (len + 1)) = (m + len) :: reverse (seqZ m len).
Proof. intros Hlen. rewrite seqZ_snoc by lia. by rewrite reverse_snoc. Qed.

Lemma hoare_sample_downto g0 vp0 L acc (hi lo : Z) (fa fb fp : Z -> Z) :
  lo - 1 <= hi -> (length acc + Z.to_nat (hi - lo + 1) <= L)%nat ->
  hoare (Sampled g0 vp0 L acc)
    (for_downto hi lo (fun i _ => store_sample (fa i) (fb i) (fp i)) tt)
    (fun _ => Sampled g0 vp0 L
       (acc ++ ((fun i => (fa i, fb i, fp i)) <$> reverse (seqZ lo (hi - lo + 1))))) never.
Proof.
  intros Hle Hlen.
  eapply hoare_conseq.
  - apply (hoare_for_downto hi lo _
      (fun i _ => Sampled g0 vp0 L
         (acc ++ ((fun i => (fa i, fb i, fp i))
                    <$> take (Z.to_nat (hi - i)) (reverse (seqZ lo (hi - lo + 1)))))) never Hle).
    intros i [] Hi. eapply hoare_post.
    + apply hoare_store_sample.
      rewrite length_app, length_fmap, length_take, length_reverse, length_seqZ. lia.
    + intros ? fr Hfr. cbv beta in Hfr |- *.
      replace (Z.to_nat (hi - (i - 1))) with (Datatypes.S (Z.to_nat (hi - i))) by lia.
      erewrite take_S_r.
      * rewrite fmap_app, app_assoc. exact Hfr.
      * rewrite reverse_lookup by (rewrite length_seqZ; lia).
        rewrite length_seqZ. rewrite lookup_seqZ. split; [|lia].
        lia.
  - intros fr Hfr. cbn beta. rewrite Z.sub_diag. cbn. by rewrite app_nil_r.
  - intros [] fr Hfr. cbn beta in Hfr.
    rewrite take_ge in Hfr; [exact Hfr|].
    rewrite length_reverse, length_seqZ. lia.
  - done.
Qed.

Lemma wellformed_facts (box : PatchBox) :
  PatchBox_wellformed box = true ->
  0 < GetAInteriorWidth box /\ 0 < GetBInteriorWidth box
  /\ GetAInteriorEnd box - GetAInteriorBegin box = GetAInteriorWidth box
  /\ GetBInteriorEnd box - GetBInteriorBegin box = GetBInteriorWidth box
  /\ GetInteriorPerimeter box = 2 * (GetAInteriorWidth box + GetBInteriorWidth box).
Proof.
  unfold PatchBox_wellformed. rewrite !andb_true_iff.
  rewrite !Z.ltb_lt, !Z.eqb_eq. tauto.
Qed.

Lemma boundary_samples_length (box : PatchBox) :
  PatchBox_wellformed box = true ->
  Z.of_nat (length (boundary_samples box)) = GetInteriorPerimeter box + 4.
Proof.
  intros (HA & HB & _ & _ & HP)%wellformed_facts.
  unfold GetAInteriorWidth, GetBInteriorWidth in *.
  unfold boundary_samples. cbn zeta.
  rewrite !length_app, !length_fmap, !length_reverse, !length_seqZ. cbn [length]. lia.
Qed.

Lemma sample_boundary_spec g0 vp0 (L : nat) (box : PatchBox) :
  PatchBox_wellformed box = true ->
  GetInteriorPerimeter box + 4 <= Z.of_nat L ->
  hoare (fun fr => fr_grid fr = g0 /\ vecPatch fr = vp0
                   /\ length (vecIxA fr) = L /\ length (vecIxB fr) = L
                   /\ length (vecPanel fr) = L)
    (sample_boundary box)
    (fun _ => Sampled g0 vp0 L (boundary_samples box)) never.
Proof.
  intros Hwf HL.
  pose proof (boundary_samples_length box Hwf) as Hlen. revert Hlen.
  destruct (wellformed_facts box Hwf) as (HA & HB & _ & _ & HP).
  unfold GetAInteriorWidth, GetBInteriorWidth in *.
  unfold boundary_samples, sample_boundary. cbn zeta.
  set (a0 := GetAGlobalInteriorBegin box) in *. set (a1 := GetAGlobalInteriorEnd box) in *.
  set (b0 := GetBGlobalInteriorBegin box) in *. set (b1 := GetBGlobalInteriorEnd box) in *.
  set (panel := GetPanel box).
  rewrite !length_app, !length_fmap, !length_reverse, !length_seqZ. cbn [length].
  intros Hlen.
  apply hoare_bind_modify.
  apply (hoare_pre _ (Sampled g0 vp0 L [])).
  2:{ intros fr (fr0 & (Hg & Hvp & H1 & H2 & H3) & ->). unfold Sampled. cbn.
      rewrite !take_0. done. }
  eapply hoare_bind; [apply hoare_store_sample; cbn; lia | intros ?; cbv beta].
  eapply hoare_bind;
    [apply (hoare_sample_upto g0 vp0 L _ a0 a1 (fun i => i) (fun _ => b0 - 1) (fun _ => panel));
       [lia | cbn; lia] | intros ?; cbv beta].
  eapply hoare_bind;
    [apply hoare_store_sample; rewrite !length_app, !length_fmap, !length_seqZ; cbn; lia
    | intros ?; cbv beta].
  eapply hoare_bind;
    [apply (hoare_sample_upto g0 vp0 L _ b0 b1 (fun _ => a1) (fun j => j) (fun _ => panel));
       [lia | rewrite !length_app, !length_fmap, !length_seqZ; cbn; lia] | intros ?; cbv beta].
  eapply hoare_bind;
    [apply hoare_store_sample; rewrite !length_app, !length_fmap, !length_seqZ; cbn; lia
    | intros ?; cbv beta].
  eapply hoare_bind;
    [apply (hoare_sample_downto g0 vp0 L _ (a1 - 1) a0 (fun i => i) (fun _ => b1) (fun _ => panel));
       [lia | rewrite !length_app, !length_fmap, !length_seqZ; cbn; lia] | intros ?; cbv beta].
  eapply hoare_bind;
    [apply hoare_store_sample;
       rewrite !length_app, !length_fmap, !length_reverse, !length_seqZ; cbn; lia
    | intros ?; cbv beta].
  eapply hoare_post.
  - apply (hoare_sample_downto g0 vp0 L _ (b1 - 1) b0 (fun _ => a0 - 1) (fun j => j) (fun _ => panel));
      [lia | rewrite !length_app, !length_fmap, !length_reverse, !length_seqZ; cbn; lia].
  - intros ? fr Hfr. cbv beta in Hfr.
    replace (a1 - 1 - a0 + 1) with (a1 - a0) in Hfr by lia.
    replace (b1 - 1 - b0 + 1) with (b1 - b0) in Hfr by lia.
    rewrite <- !app_assoc in Hfr. exact Hfr.
Qed.

Section Connectivity.
Context `{Collaborators}.

Lemma heap_boxes_set_connect (g : Grid) (this : ptr) (self : GridPatch) c :
  heap g !! this = Some self ->
  heap_boxes (set_heap (<[this := set_connect c self]> (heap g)) g) = heap_boxes g.
Proof.
  intros Hself. unfold heap_boxes. cbn. rewrite fmap_insert. cbn.
  apply insert_id. by rewrite lookup_fmap, Hself.
Qed.

Lemma ExteriorConnect_at_keeps_boxes B this dir second a b :
  hoare (fun g => heap_boxes g = B)
    (GridPatch_ExteriorConnect_at this dir second a b)
    (fun _ g => heap_boxes g = B) other_exception.
Proof.
  intros g HB. unfold GridPatch_ExteriorConnect_at.
  case_bool_decide; [exact HB|].
  unfold bind, deref, get, external, on_patch, modify.
  destruct (heap g !! this) as [self|] eqn:Hself; [|by cbv].
  destruct (heap g !! second) as [other|] eqn:Hother; [|by cbv].
  destruct (GetOpposingDirection _ _ _) as [opposing|]; [|by cbv].
  cbn [ret raise].
  repeat match goal with
  | |- context [throw_if ?c _ _] =>
      destruct c; cbn [throw_if raise ret]; [by cbv|]
  end.
  rewrite Hself. by rewrite heap_boxes_set_connect.
Qed.

Lemma ExteriorConnect_keeps_boxes B this dir second :
  hoare (fun g => heap_boxes g = B)
    (GridPatch_ExteriorConnect this dir second)
    (fun _ g => heap_boxes g = B) other_exception.
Proof.
  unfold GridPatch_ExteriorConnect.
  apply (hoare_bind _ _ _ (fun _ g => heap_boxes g = B)).
  { intros g HB. unfold deref. destruct (heap g !! this); [done | by cbv]. }
  intros self.
  destruct dir; cbn;
    first [ apply hoare_bind_ret, ExteriorConnect_at_keeps_boxes
          | intros g HB; by cbv ].
Qed.

Lemma hoare_in_grid {A} (m : M Grid A) B fr0 n :
  hoare (fun g => heap_boxes g = B) m (fun _ g => heap_boxes g = B) other_exception ->
  hoare (At B fr0 n) (in_grid m) (fun _ => At B fr0 n) other_exception.
Proof.
  intros Hm fr (HB & Hrest). unfold in_grid, zoom.
  specialize (Hm (fr_grid fr) HB).
  destruct (m (fr_grid fr)) as [[a|e] g']; [|exact Hm].
  unfold At. cbn. done.
Qed.

Lemma hoare_current_patch B fr0 n :
  hoare (At B fr0 n) current_patch (fun _ => At B fr0 n) other_exception.
Proof.
  intros fr Hfr. unfold current_patch, bind, get, vec_at, lift, vec_get.
  destruct (_ <? _); [by cbv|]. destruct (_ !! _); [exact Hfr | by cbv].
Qed.

Lemma hoare_patch_at B fr0 n i :
  hoare (At B fr0 n) (patch_at i) (fun _ => At B fr0 n) other_exception.
Proof.
  intros fr Hfr. unfold patch_at, bind, get, vec_at, lift, vec_get.
  destruct (_ <? _); [by cbv|]. destruct (_ !! _); [exact Hfr | by cbv].
Qed.

Lemma hoare_incr_ix B fr0 n :
  hoare (At B fr0 n) incr_ix (fun _ => At B fr0 (n + 1)) other_exception.
Proof.
  apply hoare_modify. intros fr (HB & H1 & H2 & H3 & H4 & Hix).
  unfold At. cbn. rewrite Hix. done.
Qed.

Lemma hoare_connect_at B fr0 n p dir second a b :
  hoare (At B fr0 n) (in_grid (Connectivity_ExteriorConnect_at p dir second a b))
    (fun _ => At B fr0 n) other_exception.
Proof. apply hoare_in_grid, ExteriorConnect_at_keeps_boxes. Qed.

Lemma hoare_connect B fr0 n p dir second :
  hoare (At B fr0 n) (in_grid (Connectivity_ExteriorConnect p dir second))
    (fun _ => At B fr0 n) other_exception.
Proof. apply hoare_in_grid, ExteriorConnect_keeps_boxes. Qed.

(** Steps that leave the assertion alone. *)
Ltac keep :=
  lazymatch goal with
  | |- hoare ?P (bind _ _) _ _ =>
      apply (hoare_bind P _ _ (fun _ => P)); [keep | intros ?; keep]
  | |- hoare _ (if ?c then _ else _) _ _ => destruct c; keep
  | |- hoare _ (ret _) _ _ => apply hoare_ret; intros ? Hkeep; exact Hkeep
  | |- hoare _ current_patch _ _ => apply hoare_current_patch
  | |- hoare _ (patch_at _) _ _ => apply hoare_patch_at
  | |- hoare _ (in_grid (Connectivity_ExteriorConnect_at _ _ _ _ _)) _ _ =>
      apply hoare_connect_at
  | |- hoare _ (in_grid (Connectivity_ExteriorConnect _ _ _)) _ _ =>
      apply hoare_connect
  end.

Lemma hoare_connect_corner B fr0 n p dir :
  hoare (At B fr0 n) (connect_corner p dir) (fun _ => At B fr0 (n + 1)) other_exception.
Proof.
  unfold connect_corner.
  apply (hoare_bind _ _ _ (fun _ => At B fr0 n)); [keep | intros ixPatch].
  apply (hoare_bind _ _ _ (fun _ => At B fr0 n)); [keep | intros ?].
  apply hoare_incr_ix.
Qed.

Lemma hoare_connect_bottom_edge B fr0 n p box :
  GetAInteriorBegin box <= GetAInteriorEnd box ->
  hoare (At B fr0 n) (connect_bottom_edge p box)
    (fun _ => At B fr0 (n + (GetAInteriorEnd box - GetAInteriorBegin box)))
    other_exception.
Proof.
  intros Hle. unfold connect_bottom_edge.
  set (lo := GetAInteriorBegin box) in *. set (hi := GetAInteriorEnd box) in *.
  apply (hoare_bind _ _ _ (fun _ => At B fr0 n)); [keep | intros iCurrentPatch].
  eapply hoare_bind; [|intros ?; apply hoare_ret; intros fr Hfr; exact Hfr].
  eapply hoare_conseq.
  - apply (hoare_for_upto lo (hi + 1) _
      (fun i _ => At B fr0 (n + Z.min (i - lo) (hi - lo))) other_exception ltac:(lia)).
    intros i locals Hi. cbv zeta.
    apply (hoare_bind _ _ _ (fun _ => At B fr0 (n + Z.min (i - lo) (hi - lo))));
      [keep | intros segment_ends].
    apply (hoare_bind _ _ _ (fun _ => At B fr0 (n + Z.min (i - lo) (hi - lo))));
      [keep | intros locals'].
    eapply hoare_bind; [|intros ?; apply hoare_ret; intros fr Hfr; exact Hfr].
    destruct (Z.eqb_spec i hi) as [->|Hne]; cbn [negb].
    + apply hoare_ret. intros fr Hfr.
      replace (hi + 1 - lo) with (hi - lo + 1) by lia.
      rewrite Z.min_r by lia. rewrite Z.min_r in Hfr by lia. exact Hfr.
    + eapply hoare_post; [apply hoare_incr_ix|].
      intros ? fr Hfr. cbv beta in Hfr.
      rewrite Z.min_l in Hfr by lia. rewrite Z.min_l by lia.
      replace (n + (i + 1 - lo)) with (n + (i - lo) + 1) by lia. exact Hfr.
  - intros fr Hfr. cbv beta. rewrite Z.sub_diag, Z.min_l by lia.
    by rewrite Z.add_0_r.
  - intros ? fr Hfr. cbv beta in Hfr. rewrite Z.min_r in Hfr by lia. exact Hfr.
  - done.
Qed.

Lemma hoare_connect_right_edge B fr0 n p box :
  GetBInteriorBegin box <= GetBInteriorEnd box ->
  hoare (At B fr0 n) (connect_right_edge p box)
    (fun _ => At B fr0 (n + (GetBInteriorEnd box - GetBInteriorBegin box)))
    other_exception.
Proof.
  intros Hle. unfold connect_right_edge.
  set (lo := GetBInteriorBegin box) in *. set (hi := GetBInteriorEnd box) in *.
  apply (hoare_bind _ _ _ (fun _ => At B fr0 n)); [keep | intros iCurrentPatch].
  eapply hoare_bind; [|intros ?; apply hoare_ret; intros fr Hfr; exact Hfr].
  eapply hoare_conseq.
  - apply (hoare_for_upto lo (hi + 1) _
      (fun i _ => At B fr0 (n + Z.min (i - lo) (hi - lo))) other_exception ltac:(lia)).
    intros i locals Hi. cbv zeta.
    apply (hoare_bind _ _ _ (fun _ => At B fr0 (n + Z.min (i - lo) (hi - lo))));
      [keep | intros segment_ends].
    apply (hoare_bind _ _ _ (fun _ => At B fr0 (n + Z.min (i - lo) (hi - lo))));
      [keep | intros locals'].
    eapply hoare_bind; [|intros ?; apply hoare_ret; intros fr Hfr; exact Hfr].
    destruct (Z.eqb_spec i hi) as [->|Hne]; cbn [negb].
    + apply hoare_ret. intros fr Hfr.
      replace (hi + 1 - lo) with (hi - lo + 1) by lia.
      rewrite Z.min_r by lia. rewrite Z.min_r in Hfr by lia. exact Hfr.
    + eapply hoare_post; [apply hoare_incr_ix|].
      intros ? fr Hfr. cbv beta in Hfr.
      rewrite Z.min_l in Hfr by lia. rewrite Z.min_l by lia.
      replace (n + (i + 1 - lo)) with (n + (i - lo) + 1) by lia. exact Hfr.
  - intros fr Hfr. cbv beta. rewrite Z.sub_diag, Z.min_l by lia.
    by rewrite Z.add_0_r.
  - intros ? fr Hfr. cbv beta in Hfr. rewrite Z.min_r in Hfr by lia. exact Hfr.
  - done.
Qed.

Lemma hoare_connect_top_edge B fr0 n p box :
  GetAInteriorBegin box <= GetAInteriorEnd box ->
  hoare (At B fr0 n) (connect_top_edge p box)
    (fun _ => At B fr0 (n + (GetAInteriorEnd box - GetAInteriorBegin box)))
    other_exception.
Proof.
  intros Hle. unfold connect_top_edge.
  set (lo := GetAInteriorBegin box) in *. set (hi := GetAInteriorEnd box) in *.
  apply (hoare_bind _ _ _ (fun _ => At B fr0 n)); [keep | intros iCurrentPatch].
  eapply hoare_bind; [|intros ?; apply hoare_ret; intros fr Hfr; exact Hfr].
  eapply hoare_conseq.
  - apply (hoare_for_downto (hi - 1) (lo - 1) _
      (fun i _ => At B fr0 (n + Z.min (hi - 1 - i) (hi - lo))) other_exception ltac:(lia)).
    intros i locals Hi. cbv zeta.
    apply (hoare_bind _ _ _ (fun _ => At B fr0 (n + Z.min (hi - 1 - i) (hi - lo))));
      [keep | intros segment_ends].
    apply (hoare_bind _ _ _ (fun _ => At B fr0 (n + Z.min (hi - 1 - i) (hi - lo))));
      [keep | intros locals'].
    eapply hoare_bind; [|intros ?; apply hoare_ret; intros fr Hfr; exact Hfr].
    destruct (Z.eqb_spec i (lo - 1)) as [->|Hne]; cbn [negb].
    + apply hoare_ret. intros fr Hfr.
      rewrite Z.min_r by lia. rewrite Z.min_r in Hfr by lia. exact Hfr.
    + eapply hoare_post; [apply hoare_incr_ix|].
      intros ? fr Hfr. cbv beta in Hfr.
      rewrite Z.min_l in Hfr by lia. rewrite Z.min_l by lia.
      replace (n + (hi - 1 - (i - 1))) with (n + (hi - 1 - i) + 1) by lia. exact Hfr.
  - intros fr Hfr. cbv beta. rewrite Z.sub_diag, Z.min_l by lia.
    by rewrite Z.add_0_r.
  - intros ? fr Hfr. cbv beta in Hfr. rewrite Z.min_r in Hfr by lia. exact Hfr.
  - done.
Qed.

Lemma hoare_connect_left_edge B fr0 n p box :
  GetBInteriorBegin box <= GetBInteriorEnd box ->
  hoare (At B fr0 n) (connect_left_edge p box)
    (fun _ => At B fr0 (n + (GetBInteriorEnd box - GetBInteriorBegin box)))
    other_exception.
Proof.
  intros Hle. unfold connect_left_edge.
  set (lo := GetBInteriorBegin box) in *. set (hi := GetBInteriorEnd box) in *.
  apply (hoare_bind _ _ _ (fun _ => At B fr0 n)); [keep | intros iCurrentPatch].
  eapply hoare_bind; [|intros ?; apply hoare_ret; intros fr Hfr; exact Hfr].
  eapply hoare_conseq.
  - apply (hoare_for_downto (hi - 1) (lo - 1) _
      (fun i _ => At B fr0 (n + Z.min (hi - 1 - i) (hi - lo))) other_exception ltac:(lia)).
    intros i locals Hi. cbv zeta.
    apply (hoare_bind _ _ _ (fun _ => At B fr0 (n + Z.min (hi - 1 - i) (hi - lo))));
      [keep | intros segment_ends].
    apply (hoare_bind _ _ _ (fun _ => At B fr0 (n + Z.min (hi - 1 - i) (hi - lo))));
      [keep | intros locals'].
    eapply hoare_bind; [|intros ?; apply hoare_ret; intros fr Hfr; exact Hfr].
    destruct (Z.eqb_spec i (lo - 1)) as [->|Hne]; cbn [negb].
    + apply hoare_ret. intros fr Hfr.
      rewrite Z.min_r by lia. rewrite Z.min_r in Hfr by lia. exact Hfr.
    + eapply hoare_post; [apply hoare_incr_ix|].
      intros ? fr Hfr. cbv beta in Hfr.
      rewrite Z.min_l in Hfr by lia. rewrite Z.min_l by lia.
      replace (n + (hi - 1 - (i - 1))) with (n + (hi - 1 - i) + 1) by lia. exact Hfr.
  - intros fr Hfr. cbv beta. rewrite Z.sub_diag, Z.min_l by lia.
    by rewrite Z.add_0_r.
  - intros ? fr Hfr. cbv beta in Hfr. rewrite Z.min_r in Hfr by lia. exact Hfr.
  - done.
Qed.

(** The consumption of the samples of one patch advances the index by
    the interior perimeter and the four corners. *)
Lemma hoare_connect_boundary B fr0 p box :
  PatchBox_wellformed box = true ->
  hoare (fun fr => exists n, At B fr0 n fr) (connect_boundary p box)
    (fun _ => At B fr0 (GetInteriorPerimeter box + 4)) other_exception.
Proof.
  intros (HA & HB & HwA & HwB & HP)%wellformed_facts.
  unfold connect_boundary.
  apply hoare_bind_modify.
  apply (hoare_pre _ (At B fr0 0)).
  2:{ intros fr (fr1 & (n & H0 & H1 & H2 & H3 & H4 & H5) & ->). unfold At. cbn. done. }
  eapply hoare_bind; [apply hoare_connect_corner | intros ?; cbv beta].
  eapply hoare_bind; [apply hoare_connect_bottom_edge; lia | intros ?; cbv beta].
  eapply hoare_bind; [apply hoare_connect_corner | intros ?; cbv beta].
  eapply hoare_bind; [apply hoare_connect_right_edge; lia | intros ?; cbv beta].
  eapply hoare_bind; [apply hoare_connect_corner | intros ?; cbv beta].
  eapply hoare_bind; [apply hoare_connect_top_edge; lia | intros ?; cbv beta].
  eapply hoare_bind; [apply hoare_connect_corner | intros ?; cbv beta].
  eapply hoare_post; [apply hoare_connect_left_edge; lia|].
  intros ? fr Hfr. cbv beta in Hfr.
  replace (GetInteriorPerimeter box + 4)
    with (0 + 1 + (GetAInteriorEnd box - GetAInteriorBegin box) + 1
          + (GetBInteriorEnd box - GetBInteriorBegin box) + 1
          + (GetAInteriorEnd box - GetAInteriorBegin box) + 1
          + (GetBInteriorEnd box - GetBInteriorBegin box)) by lia.
  exact Hfr.
Qed.

Lemma hoare_pure {S A} (phi : Prop) (P : S -> Prop) (m : M S A) Q E :
  (phi -> hoare P m Q E) -> hoare (fun s => phi /\ P s) m Q E.
Proof. intros Hm s [Hphi Hs]. by apply Hm. Qed.

Lemma sample_boundary_count B L box :
  PatchBox_wellformed box = true ->
  GetInteriorPerimeter box + 4 <= Z.of_nat L ->
  hoare (Between B L) (sample_boundary box)
    (fun _ fr => Between B L fr /\ ix fr = GetInteriorPerimeter box + 4) other_exception.
Proof.
  intros Hwf HL fr (HB & H1 & H2 & H3).
  pose proof (sample_boundary_spec (fr_grid fr) (vecPatch fr) L box Hwf HL fr) as Hs.
  destruct (sample_boundary box fr) as [[[]|e] fr'].
  - destruct Hs as (Hg & _ & H1' & H2' & H3' & Hix & _); [done|].
    unfold Between. rewrite Hg, Hix. by rewrite boundary_samples_length.
  - destruct Hs. done.
Qed.

Lemma hoare_lookup_patches B L box n :
  hoare (fun fr => Between B L fr /\ ix fr = n) (lookup_patches box)
    (fun _ fr => Between B L fr /\ ix fr = n) other_exception.
Proof.
  intros fr (HB & Hix). unfold lookup_patches, bind, get, external, modify.
  destruct (GetPatchFromCoordinateIndex _ _ _ _ _ _ _); cbn; [done | by cbv].
Qed.

Lemma hoare_verify_index_length B L box :
  hoare (fun fr => Between B L fr /\ ix fr = GetInteriorPerimeter box + 4)
    (verify_index_length box)
    (fun _ fr => Between B L fr) other_exception.
Proof.
  intros fr (HB & Hix). unfold verify_index_length, bind, get.
  rewrite Hix, Z.eqb_refl. cbn. done.
Qed.

Lemma connect_boundary_count B L p box :
  PatchBox_wellformed box = true ->
  hoare (Between B L) (connect_boundary p box)
    (fun _ fr => Between B L fr /\ ix fr = GetInteriorPerimeter box + 4) other_exception.
Proof.
  intros Hwf fr (HB & H1 & H2 & H3).
  pose proof (hoare_connect_boundary B fr p box Hwf fr) as Hc.
  destruct (connect_boundary p box fr) as [[[]|e] fr'].
  - destruct Hc as (HB' & HA' & HB2' & HP' & _ & Hix).
    { exists (ix fr). unfold At. done. }
    unfold Between. rewrite HA', HB2', HP'. done.
  - apply Hc. exists (ix fr). unfold At. done.
Qed.

Lemma hoare_InitializeConnectivity_patch B L p :
  (forall box, B !! p = Some box ->
     PatchBox_wellformed box = true /\ GetInteriorPerimeter box + 4 <= Z.of_nat L) ->
  hoare (Between B L) (InitializeConnectivity_patch p) (fun _ => Between B L)
    other_exception.
Proof.
  intros Hbox. unfold InitializeConnectivity_patch.
  apply (hoare_bind _ _ _ (fun patch fr => B !! p = Some (m_box patch) /\ Between B L fr)).
  { intros fr HB. unfold in_grid, zoom, deref.
    destruct (heap (fr_grid fr) !! p) as [patch|] eqn:Hp; [|by cbv].
    split; [|by destruct fr].
    destruct HB as (<- & _). unfold heap_boxes. by rewrite lookup_fmap, Hp. }
  intros patch. cbv zeta. apply hoare_pure. intros [Hwf HL]%Hbox.
  eapply hoare_bind; [by apply sample_boundary_count | intros ?; cbv beta].
  eapply hoare_bind; [apply hoare_lookup_patches | intros ?; cbv beta].
  eapply hoare_bind; [apply hoare_verify_index_length | intros ?; cbv beta].
  eapply hoare_bind; [by apply connect_boundary_count | intros ?; cbv beta].
  apply hoare_verify_index_length.
Qed.

Lemma hoare_GetLongestActivePatchPerimeter (g : Grid) :
  hoare (fun g' => g' = g) Grid_GetLongestActivePatchPerimeter
    (fun n g' => g' = g /\ 0 <= n
       /\ forall p patch, p ∈ m_vecActiveGridPatches g -> heap g !! p = Some patch ->
            GetInteriorPerimeter (m_box patch) <= n)
    other_exception.
Proof.
  unfold Grid_GetLongestActivePatchPerimeter.
  apply hoare_bind_get. intros ? ->.
  eapply hoare_pre.
  - apply (hoare_for_vec (m_vecActiveGridPatches g) _
      (fun pre n g' => g' = g /\ 0 <= n
         /\ forall p patch, p ∈ pre -> heap g !! p = Some patch ->
              GetInteriorPerimeter (m_box patch) <= n) other_exception 0).
    intros pre x post n Hsplit g' (-> & Hn & Hpre).
    unfold bind, deref, ret. destruct (heap g !! x) as [patch|] eqn:Hx; [|by cbv].
    split; [done|]. split; [destruct (_ >? _) eqn:Hgt; lia|].
    intros p patch' [Hin| ->%list_elem_of_singleton]%elem_of_app Hp.
    + specialize (Hpre p patch' Hin Hp). destruct (_ >? _) eqn:Hgt; lia.
    + rewrite Hx in Hp. simplify_eq. destruct (_ >? _) eqn:Hgt; lia.
  - cbv beta. intros s ->. split; [done|]. split; [lia|]. by intros p patch ?%elem_of_nil.
Qed.

Lemma InitializeConnectivity_other_exception (g : Grid) :
  (forall p patch, p ∈ m_vecActiveGridPatches g -> heap g !! p = Some patch ->
     PatchBox_wellformed (m_box patch) = true) ->
  match Grid_InitializeConnectivity g with
  | (Returns _, g') => heap_boxes g' = heap_boxes g
  | (Raises e, _) => not_index_mismatch e
  end.
Proof.
  intros Hwf. unfold Grid_InitializeConnectivity, bind.
  pose proof (hoare_GetLongestActivePatchPerimeter g g eq_refl) as Hlong.
  destruct (Grid_GetLongestActivePatchPerimeter g) as [[nLongest|e] g1]; [|exact Hlong].
  destruct Hlong as (-> & Hpos & Hlong).
  set (L := Z.to_nat (nLongest + 4)).
  pose proof (hoare_for_vec (m_vecActiveGridPatches g)
    (fun (_ : Z) pPatch (_ : unit) => InitializeConnectivity_patch pPatch)
    (fun _ _ => Between (heap_boxes g) L) other_exception tt) as Hloop.
  cbv beta in Hloop.
  specialize (Hloop ltac:(
    intros pre x post [] Hsplit; apply hoare_InitializeConnectivity_patch;
    intros box Hbox; unfold heap_boxes in Hbox; rewrite lookup_fmap in Hbox;
    destruct (heap g !! x) as [patch|] eqn:Hx; [|done]; cbn in Hbox; simplify_eq;
    assert (x ∈ m_vecActiveGridPatches g) by (rewrite Hsplit; set_solver);
    split; [by eapply Hwf | specialize (Hlong x patch ltac:(done) Hx); lia])).
  specialize (Hloop (Frame_initial g (nLongest + 4))).
  destruct (for_vec _ _ _ _) as [[[]|e] fr'].
  - destruct Hloop as (HB & _); [|exact HB].
    unfold Between, Frame_initial, DataVector_Initialize. cbn.
    rewrite !length_replicate. done.
  - apply Hloop.
    unfold Between, Frame_initial, DataVector_Initialize. cbn.
    rewrite !length_replicate. done.
Qed.

(** C1.  For a grid whose active patches have well-formed boxes,
    InitializeConnectivity never fails an index check: for each active
    patch the traversal of the boundary stores interior perimeter + 4
    samples, in the order of the specification, and the pass that
    consumes them, when it returns, has advanced the index by the same
    amount; whatever exception the pass raises is another one. *)
Theorem InitializeConnectivity_index_never_mismatches (g : Grid) :
  (forall p patch, p ∈ m_vecActiveGridPatches g -> heap g !! p = Some patch ->
     PatchBox_wellformed (m_box patch) = true) ->
  fst (Grid_InitializeConnectivity g) <> Raises (Fatal "Index mismatch")
  /\ forall p patch, p ∈ m_vecActiveGridPatches g -> heap g !! p = Some patch ->
       let box := m_box patch in
       Z.of_nat (length (boundary_samples box)) = GetInteriorPerimeter box + 4
       /\ (forall (fr : Frame) (L : nat),
             GetInteriorPerimeter box + 4 <= Z.of_nat L ->
             length (vecIxA fr) = L -> length (vecIxB fr) = L ->
             length (vecPanel fr) = L ->
             exists fr',
               sample_boundary box fr = (Returns tt, fr')
               /\ ix fr' = GetInteriorPerimeter box + 4
               /\ take (length (boundary_samples box)) (vecIxA fr')
                  = (fun s => s.1.1) <$> boundary_samples box
               /\ take (length (boundary_samples box)) (vecIxB fr')
                  = (fun s => s.1.2) <$> boundary_samples box
               /\ take (length (boundary_samples box)) (vecPanel fr')
                  = (fun s => s.2) <$> boundary_samples box)
       /\ (forall fr : Frame,
             match connect_boundary p box fr with
             | (Returns _, fr') => ix fr' = GetInteriorPerimeter box + 4
             | (Raises e, _) => e <> Fatal "Index mismatch"
             end).
Proof.
  intros Hwf. split.
  - pose proof (InitializeConnectivity_other_exception g Hwf) as Hrun.
    destruct (Grid_InitializeConnectivity g) as [[[]|e] g']; cbn; [done|].
    intros [= ->]. by apply Hrun.
  - intros p patch Hin Hp box. specialize (Hwf p patch Hin Hp). fold box in Hwf.
    split; [by apply boundary_samples_length|]. split.
    + intros fr L HL H1 H2 H3.
      pose proof (sample_boundary_spec (fr_grid fr) (vecPatch fr) L box Hwf HL fr) as Hs.
      destruct (sample_boundary box fr) as [[[]|e] fr'].
      * destruct Hs as (_ & _ & _ & _ & _ & Hix & HA & HB & HP); [done|].
        exists fr'. split; [done|].
        rewrite Hix. by rewrite boundary_samples_length.
      * destruct Hs. done.
    + intros fr.
      pose proof (hoare_connect_boundary (heap_boxes (fr_grid fr)) fr p box Hwf fr) as Hc.
      destruct (connect_boundary p box fr) as [[[]|e] fr'].
      * destruct Hc as (_ & _ & _ & _ & _ & Hix); [|done].
        exists (ix fr). unfold At. done.
      * apply Hc. exists (ix fr). unfold At. done.
Qed.

End Connectivity.

Lemma Demo_distributed_wellformed :
  forall p patch, p ∈ m_vecActiveGridPatches (Demo.distributed 5 0) ->
    heap (Demo.distributed 5 0) !! p = Some patch ->
    PatchBox_wellformed (m_box patch) = true.
Proof.
  change (m_vecActiveGridPatches (Demo.distributed 5 0)) with [1%nat].
  intros p patch ->%list_elem_of_singleton Hp.
  assert (m_box <$> heap (Demo.distributed 5 0) !! 1%nat = Some (PatchBox_make 0 0 2 10 20 10 20))
    as Hbox by (vm_compute; reflexivity).
  unfold ptr in *. rewrite Hp in Hbox. cbn in Hbox. injection Hbox as ->. reflexivity.
Qed.

Lemma InitializeConnectivity_index_never_mismatches_witness :
  fst (Grid_InitializeConnectivity (H := Demo.collaborators) (Demo.distributed 5 0))
    <> Raises (Fatal "Index mismatch").
Proof.
  apply (InitializeConnectivity_index_never_mismatches (H := Demo.collaborators)
           (Demo.distributed 5 0) Demo_distributed_wellformed).
Defined.

(** ** Corner blocks of the connectivity construction *)

Section Corner.
Context `{Collaborators}.

Lemma current_patch_eq (fr : Frame) :
  current_patch fr = (vec_get "vecPatch[ix]" (vecPatch fr) (ix fr), fr).
Proof. reflexivity. Qed.

Lemma patch_at_eq (i : Z) (fr : Frame) :
  patch_at i fr = (vec_get "m_vecGridPatches[i]" (m_vecGridPatches (fr_grid fr)) i, fr).
Proof. reflexivity. Qed.


Lemma vec_get_Returns {A} what (v : list A) i x :
  vec_get what v i = Returns x <-> 0 <= i /\ v !! Z.to_nat i = Some x.
Proof.
  unfold vec_get. destruct (Z.ltb_spec i 0).
  - split; [done | lia].
  - destruct (v !! Z.to_nat i); split; try done.
    + intros [= ->]. done.
    + intros [_ [= ->]]. done.
    + intros [_ ?]. done.
Qed.

(** The two-argument ExteriorConnect towards a corner, between two
    patches that exist and once the grid has answered: the relation is
    added when the interior is as wide as the halo in both directions,
    and the call is refused otherwise. *)
Lemma ExteriorConnect_corner_result
    (this pPatchSecond : ptr) (dir : Direction)
    (g : Grid) (self second : GridPatch) opposing :
  is_corner dir = true ->
  pPatchSecond <> NULL ->
  heap g !! this = Some self ->
  heap g !! pPatchSecond = Some second ->
  GetOpposingDirection (GetPanel (m_box self)) (GetPanel (m_box second)) dir = Some opposing ->
  GridPatch_ExteriorConnect this dir pPatchSecond g
  = if (Model_GetHaloElements (m_model g)
          <=? GetAInteriorEnd (m_box self) - GetAInteriorBegin (m_box self))
       && (Model_GetHaloElements (m_model g)
             <=? GetBInteriorEnd (m_box self) - GetBInteriorBegin (m_box self))
    then (Returns tt,
          set_heap
            (<[this := set_connect
                 (m_connect self ++ [corner_relation g dir self second opposing]) self]>
               (heap g)) g)
    else (Raises (Fatal insufficient_interior_msg), g).
Proof.
  intros Hdir Hnull Hself Hsecond Hopp.
  unfold GridPatch_ExteriorConnect.
  rewrite run_bind. unfold deref at 1. rewrite Hself.
  set (halo := Model_GetHaloElements (m_model g)).
  set (box := m_box self).
  destruct dir; try discriminate Hdir;
    rewrite run_bind; cbn [ret fst snd];
    unfold GridPatch_ExteriorConnect_at;
    rewrite bool_decide_eq_false_2 by done;
    rewrite run_bind; unfold deref at 1; rewrite Hself;
    rewrite run_bind; unfold get at 1; rewrite run_bind; unfold deref at 1;
    rewrite Hsecond;
    rewrite run_bind; unfold external at 1; rewrite Hopp;
    cbn [ret is_edge bool_decide decide_rel andb];
    repeat match goal with
    | |- context [bool_decide (?a = ?b)] =>
        first [ rewrite (bool_decide_eq_true_2 (a = b)) by reflexivity
              | rewrite (bool_decide_eq_false_2 (a = b)) by discriminate ]
    end; cbn [andb]; fold halo box;
    repeat (rewrite run_bind; cbn [throw_if ret]);
    match goal with
    | |- context [if ?b then (Returns _, _) else _] => destruct b eqn:Hwide
    end;
    match goal with
    | |- context [throw_if ?c _] =>
        first [ replace c with false by (symmetry; apply andb_true_iff in Hwide; lia)
              | replace c with true by (symmetry; apply andb_false_iff in Hwide; lia) ]
    end; cbn [throw_if ret raise]; repeat (rewrite run_bind; cbn [throw_if ret]);
    try reflexivity;
    unfold on_patch, modify; rewrite Hself; reflexivity.
Qed.

(** C5.  A corner block consults the corner sample alone, never the
    samples of the adjacent edges.  With the invalid index it only
    advances the sample index.  With any other index it hands the patch
    registered for that index to ExteriorConnect: for a null pointer that
    call does nothing; for a patch of the grid, once the grid has
    answered for the opposing direction, the relation [corner_relation]
    is appended to the connectivity of the patch when its interior is as
    wide as the halo in both directions, and otherwise the block raises
    "Insufficient interior elements" and no relation is created. *)
Theorem corner_relation_iff_resolved_patch_valid
    (pPatch : ptr) (dir : Direction) (fr : Frame) (ixPatch : Z) :
  is_corner dir = true ->
  vec_get "vecPatch[ix]" (vecPatch fr) (ix fr) = Returns ixPatch ->
  (ixPatch = InvalidIndex ->
     connect_corner pPatch dir fr = (Returns tt, set_ix (ix fr + 1) fr))
  /\ (ixPatch <> InvalidIndex ->
      forall pPatchSecond,
        vec_get "m_vecGridPatches[i]" (m_vecGridPatches (fr_grid fr)) ixPatch
          = Returns pPatchSecond ->
        (pPatchSecond = NULL -> is_Some (heap (fr_grid fr) !! pPatch) ->
           connect_corner pPatch dir fr = (Returns tt, set_ix (ix fr + 1) fr))
        /\ (pPatchSecond <> NULL ->
            forall self second opposing,
              heap (fr_grid fr) !! pPatch = Some self ->
              heap (fr_grid fr) !! pPatchSecond = Some second ->
              GetOpposingDirection (GetPanel (m_box self)) (GetPanel (m_box second)) dir
                = Some opposing ->
              connect_corner pPatch dir fr
              = if (Model_GetHaloElements (m_model (fr_grid fr))
                      <=? GetAInteriorEnd (m_box self) - GetAInteriorBegin (m_box self))
                   && (Model_GetHaloElements (m_model (fr_grid fr))
                         <=? GetBInteriorEnd (m_box self) - GetBInteriorBegin (m_box self))
                then (Returns tt,
                      set_ix (ix fr + 1)
                        (set_fr_grid
                           (set_heap
                              (<[pPatch := set_connect
                                   (m_connect self
                                    ++ [corner_relation (fr_grid fr) dir self second opposing])
                                   self]> (heap (fr_grid fr)))
                              (fr_grid fr)) fr))
                else (Raises (Fatal insufficient_interior_msg), fr))).
Proof.
  intros Hdir Hcur. unfold connect_corner.
  rewrite run_bind, current_patch_eq, Hcur. split.
  - intros ->. rewrite Z.eqb_refl. reflexivity.
  - intros Hvalid pSecond Hsecond.
    destruct (Z.eqb_spec ixPatch InvalidIndex) as [?|_]; [done|]. cbn [negb].
    rewrite run_bind, run_bind, patch_at_eq, Hsecond.
    unfold in_grid, zoom, Connectivity_ExteriorConnect. split.
    + intros -> [self Hself]. unfold GridPatch_ExteriorConnect.
      rewrite run_bind. unfold deref at 1. rewrite Hself.
      destruct dir; try discriminate Hdir;
        rewrite run_bind; cbn [ret fst snd];
        unfold GridPatch_ExteriorConnect_at;
        rewrite bool_decide_eq_true_2 by done; cbn; by destruct fr.
    + intros Hnull self second opposing Hself Hsec Hopp.
      rewrite (ExteriorConnect_corner_result _ _ _ _ _ _ _ Hdir Hnull Hself Hsec Hopp).
      destruct (_ && _); [reflexivity|]. cbn. by destruct fr.
Qed.

End Corner.


Example centre_frame_resolved :
  vecPatch Demo.centre_frame =
    [1] ++ replicate 10 1 ++ [1] ++ replicate 10 2 ++ [3] ++ replicate 10 3
    ++ [3] ++ replicate 10 4.
Proof. vm_compute. reflexivity. Qed.

Lemma corner_relation_iff_resolved_patch_valid_witness :
  exists self second opposing,
    heap (fr_grid Demo.centre_frame) !! 1%nat = Some self
    /\ heap (fr_grid Demo.centre_frame) !! 2%nat = Some second
    /\ m_connect <$> heap (fr_grid (snd (connect_corner (H := Demo.collaborators) 1%nat
                                           Direction_BottomLeft Demo.centre_frame))) !! 1%nat
       = Some (m_connect self
               ++ [corner_relation (H := Demo.collaborators) (fr_grid Demo.centre_frame)
                     Direction_BottomLeft self second opposing]).
Proof.
  destruct (corner_relation_iff_resolved_patch_valid (H := Demo.collaborators)
              1%nat Direction_BottomLeft Demo.centre_frame 1) as [_ Hvalid].
  - reflexivity.
  - vm_compute. reflexivity.
  - assert (m_box <$> heap (fr_grid Demo.centre_frame) !! 1%nat
            = Some (PatchBox_make 0 0 2 10 20 10 20)) as Hself by (vm_compute; reflexivity).
    assert (m_box <$> heap (fr_grid Demo.centre_frame) !! 2%nat
            = Some (PatchBox_make 0 0 2 0 30 0 10)) as Hsec by (vm_compute; reflexivity).
    apply fmap_Some in Hself as (self & Hself & Hbox).
    apply fmap_Some in Hsec as (second & Hsec & Hbox').
    destruct (Hvalid ltac:(discriminate) 2%nat ltac:(vm_compute; reflexivity)) as [_ Hadd].
    specialize (Hadd ltac:(discriminate) self second (Direction_TopRight, false, false)
                  Hself Hsec).
    rewrite <- Hbox, <- Hbox' in Hadd. specialize (Hadd eq_refl).
    change ((Model_GetHaloElements (m_model (fr_grid Demo.centre_frame)) <=?
             GetAInteriorEnd (PatchBox_make 0 0 2 10 20 10 20)
             - GetAInteriorBegin (PatchBox_make 0 0 2 10 20 10 20))
            && (Model_GetHaloElements (m_model (fr_grid Demo.centre_frame)) <=?
                GetBInteriorEnd (PatchBox_make 0 0 2 10 20 10 20)
                - GetBInteriorBegin (PatchBox_make 0 0 2 10 20 10 20))) with true in Hadd.
    cbv iota in Hadd.
    exists self, second, (Direction_TopRight, false, false).
    split; [exact Hself|]. split; [exact Hsec|].
    rewrite Hadd. cbn [snd].
    unfold set_ix, set_fr_grid, set_heap. cbn [fr_grid heap].
    rewrite lookup_insert_eq. reflexivity.
Defined.

(** The centre patch of the demonstration grid lies above one strip that
    covers its bottom-left corner and its whole bottom edge: the corner
    sample and the first sample of the bottom edge resolve to the same
    patch, and the corner block still adds a relation for it. *)
Lemma corner_emitted_though_edge_patch_same :
  let fr := Demo.centre_frame in
  let r := connect_corner (H := Demo.collaborators) 1%nat Direction_BottomLeft fr in
  ix fr = 0
  /\ vec_get "vecPatch[ix]" (vecPatch fr) (ix fr) = Returns 1
  /\ vec_get "vecPatch[ix]" (vecPatch fr) (ix fr + 1) = Returns 1
  /\ fst r = Returns tt
  /\ relations_of (fr_grid fr) 1%nat = []
  /\ relations_of (fr_grid (snd r)) 1%nat = [(Direction_BottomLeft, 1)].
Proof. repeat split; vm_compute; reflexivity. Qed.

Example built_connectivity :
  fst (Demo.built 5 0) = Returns tt
  /\ (fun n => (m_dir n, m_ixNeighbor n)) <$> default [] (m_connect <$> heap (snd (Demo.built 5 0)) !! 1%nat)
     = [ (Direction_BottomLeft, 1); (Direction_Bottom, 1); (Direction_BottomRight, 1);
         (Direction_Right, 2); (Direction_TopRight, 3); (Direction_Top, 3);
         (Direction_TopLeft, 3); (Direction_Left, 4) ].
Proof. split; vm_compute; reflexivity. Qed.
(** ** Diagonal connections of a patch *)

Section Diagonal.
Context `{Collaborators}.

(** C6.  A diagonal connection to a patch that exists, at a position
    without [halo] interior elements on both sides, always raises, leaves
    the grid as it was (no neighbor is added), and the exception is the
    fatal "Insufficient interior elements" one as soon as the grid
    answers the question for the opposing direction. *)
Theorem ExteriorConnect_diagonal_insufficient_interior
    (this pPatchSecond : ptr) (dir : Direction) (ixFirst ixSecond : Z)
    (g : Grid) (self second : GridPatch) :
  is_corner dir = true ->
  pPatchSecond <> NULL ->
  heap g !! this = Some self ->
  heap g !! pPatchSecond = Some second ->
  sufficient_interior dir (m_box self) (Model_GetHaloElements (m_model g)) ixFirst ixSecond
    = false ->
  exists e,
    GridPatch_ExteriorConnect_at this dir pPatchSecond ixFirst ixSecond g = (Raises e, g)
    /\ (is_Some (GetOpposingDirection (GetPanel (m_box self)) (GetPanel (m_box second)) dir) ->
        e = Fatal insufficient_interior_msg).
Proof.
  intros Hdir Hnull Hself Hsecond Hins.
  unfold GridPatch_ExteriorConnect_at.
  rewrite bool_decide_eq_false_2 by done.
  rewrite run_bind. unfold deref at 1. rewrite Hself.
  rewrite run_bind. unfold get at 1. rewrite run_bind. unfold deref at 1. rewrite Hsecond.
  rewrite run_bind. unfold external at 1.
  destruct (GetOpposingDirection _ _ _) as [opposing|].
  2:{ eexists. split; [reflexivity|]. by intros [? ?]. }
  exists (Fatal insufficient_interior_msg). split; [|done].
  cbn [ret]. replace (is_edge dir) with false by (by destruct dir).
  unfold sufficient_interior in Hins.
  destruct dir; try done; cbn [bool_decide decide_rel andb];
    repeat match goal with
    | |- context [bool_decide (?a = ?b)] =>
        first [ rewrite (bool_decide_eq_true_2 (a = b)) by reflexivity
              | rewrite (bool_decide_eq_false_2 (a = b)) by discriminate ]
    end; cbn [andb];
    repeat (rewrite run_bind; cbn [throw_if ret]);
    match goal with
    | |- context [throw_if ?c _] =>
        replace c with true by (symmetry; apply andb_false_iff in Hins; lia)
    end; reflexivity.
Qed.

(** With enough interior elements the same call adds the relation. *)
Lemma ExteriorConnect_diagonal_sufficient_interior
    (this pPatchSecond : ptr) (dir : Direction) (ixFirst ixSecond : Z)
    (g : Grid) (self second : GridPatch) opposing :
  is_corner dir = true ->
  pPatchSecond <> NULL ->
  heap g !! this = Some self ->
  heap g !! pPatchSecond = Some second ->
  GetOpposingDirection (GetPanel (m_box self)) (GetPanel (m_box second)) dir = Some opposing ->
  sufficient_interior dir (m_box self) (Model_GetHaloElements (m_model g)) ixFirst ixSecond
    = true ->
  exists relation,
    GridPatch_ExteriorConnect_at this dir pPatchSecond ixFirst ixSecond g
      = (Returns tt,
         set_heap (<[this := set_connect (m_connect self ++ [relation]) self]> (heap g)) g)
    /\ m_dir relation = m_dir (InitializeBuffers
          {| m_dir := dir; m_dirOpposing := opposing.1.1;
             m_ixNeighbor := m_ixPatch second;
             m_fReverseDirection := opposing.1.2;
             m_fFlippedCoordinate := opposing.2;
             m_nBoundarySize := Model_GetHaloElements (m_model g);
             m_ixFirst := ixFirst; m_ixSecond := ixSecond;
             m_vecSendBuffer := []; m_vecRecvBuffer := [] |}
          (m_nRElements g) (Model_GetHaloElements (m_model g))
          (if GetComponents (m_model g) >? GetTracers (m_model g)
           then GetComponents (m_model g) else GetTracers (m_model g))).
Proof.
  intros Hdir Hnull Hself Hsecond Hopp Hsuf.
  unfold GridPatch_ExteriorConnect_at.
  rewrite bool_decide_eq_false_2 by done.
  rewrite run_bind. unfold deref at 1. rewrite Hself.
  rewrite run_bind. unfold get at 1. rewrite run_bind. unfold deref at 1. rewrite Hsecond.
  rewrite run_bind. unfold external at 1. rewrite Hopp.
  cbn [ret]. replace (is_edge dir) with false by (by destruct dir).
  unfold sufficient_interior in Hsuf.
  eexists. split; [|reflexivity].
  destruct dir; try done; cbn [bool_decide decide_rel andb];
    repeat match goal with
    | |- context [bool_decide (?a = ?b)] =>
        first [ rewrite (bool_decide_eq_true_2 (a = b)) by reflexivity
              | rewrite (bool_decide_eq_false_2 (a = b)) by discriminate ]
    end; cbn [andb];
    repeat (rewrite run_bind; cbn [throw_if ret]);
    match goal with
    | |- context [throw_if ?c _] =>
        replace c with false by (symmetry; apply andb_true_iff in Hsuf; lia)
    end; cbn [throw_if ret]; repeat (rewrite run_bind; cbn [throw_if ret]);
    unfold on_patch, modify; rewrite Hself; reflexivity.
Qed.

End Diagonal.

Lemma ExteriorConnect_diagonal_insufficient_interior_witness :
  GridPatch_ExteriorConnect_at (H := Demo.collaborators) 1%nat Direction_TopRight 2%nat 2 11
    (Demo.distributed 5 0)
  = (Raises (Fatal insufficient_interior_msg), Demo.distributed 5 0).
Proof.
  assert (m_box <$> heap (Demo.distributed 5 0) !! 1%nat
          = Some (PatchBox_make 0 0 2 10 20 10 20)) as Hself by (vm_compute; reflexivity).
  assert (m_box <$> heap (Demo.distributed 5 0) !! 2%nat
          = Some (PatchBox_make 0 0 2 0 30 0 10)) as Hsecond by (vm_compute; reflexivity).
  apply fmap_Some in Hself as (self & Hself & Hbox).
  apply fmap_Some in Hsecond as (second & Hsecond & Hbox').
  destruct (ExteriorConnect_diagonal_insufficient_interior (H := Demo.collaborators)
              1%nat 2%nat Direction_TopRight 2 11 (Demo.distributed 5 0) self second)
    as (e & Hrun & He).
  - reflexivity.
  - discriminate.
  - exact Hself.
  - exact Hsecond.
  - rewrite <- Hbox. vm_compute. reflexivity.
  - rewrite Hrun, He; [reflexivity|]. rewrite <- Hbox, <- Hbox'. vm_compute.
    eexists. reflexivity.
Defined.
(** ** Checks of the slot index *)

Lemma vec_get_past_end {A} what (v : list A) : vec_get what v (size v) = Raises (Undefined what).
Proof.
  unfold vec_get, size. destruct (Z.ltb_spec (Z.of_nat (length v)) 0); [done|].
  rewrite Nat2Z.id. by rewrite lookup_ge_None_2.
Qed.

Lemma no_slot_check (v : list DataArray) (i : Z) :
  no_slot v i <-> (i <? 0) || (i >=? size v) = true.
Proof. unfold no_slot. lia. Qed.

Section SlotIndex.
Context `{Collaborators}.

Lemma CopyData_rejects_source (this : GridPatch) (t : DataType) (ixSource ixDest : Z) :
  has_slots t -> no_slot (slots this t) ixSource ->
  fatal_unchanged (GridPatch_CopyData ixSource ixDest t) this.
Proof.
  intros [-> | ->] Hno%no_slot_check; cbn [slots] in Hno;
    unfold fatal_unchanged, GridPatch_CopyData; rewrite run_bind; cbn [get];
    rewrite run_bind, (throw_if_true _ _ _ Hno); eauto.
Qed.

Lemma CopyData_rejects_destination (this : GridPatch) (t : DataType) (ixSource ixDest : Z) :
  has_slots t -> no_slot (slots this t) ixDest ->
  fatal_unchanged (GridPatch_CopyData ixSource ixDest t) this.
Proof.
  intros [-> | ->] Hno%no_slot_check; cbn [slots] in Hno;
    unfold fatal_unchanged, GridPatch_CopyData; rewrite run_bind; cbn [get];
    rewrite run_bind;
    match goal with |- context [throw_if ?c ?msg this] => destruct c end;
    cbn [throw_if raise ret]; eauto;
    rewrite run_bind, (throw_if_true _ _ _ Hno); eauto.
Qed.

Lemma LinearCombineData_rejects (this : GridPatch) (t : DataType) (dCoeff : list float)
    (ixDest : Z) :
  has_slots t -> no_slot (slots this t) ixDest ->
  fatal_unchanged (GridPatch_LinearCombineData dCoeff ixDest t) this.
Proof.
  intros [-> | ->] Hno%no_slot_check; cbn [slots] in Hno;
    unfold fatal_unchanged, GridPatch_LinearCombineData; rewrite run_bind;
    match goal with |- context [throw_if ?c ?msg this] => destruct c end;
    cbn [throw_if raise ret]; eauto;
    rewrite run_bind; cbn [get];
    rewrite run_bind, (throw_if_true _ _ _ Hno); eauto.
Qed.

Lemma ZeroData_rejects (this : GridPatch) (t : DataType) (ixData : Z) :
  has_slots t -> no_slot (slots this t) ixData ->
  fatal_unchanged (GridPatch_ZeroData ixData t) this.
Proof.
  intros [-> | ->] Hno%no_slot_check; cbn [slots] in Hno;
    unfold fatal_unchanged, GridPatch_ZeroData; rewrite run_bind; cbn [get];
    rewrite run_bind, (throw_if_true _ _ _ Hno); eauto.
Qed.

Lemma AddReferenceState_rejects (this : GridPatch) (ix : Z) :
  no_slot (m_datavecStateNode this) ix ->
  fatal_unchanged (GridPatch_AddReferenceState ix) this.
Proof.
  intros Hno%no_slot_check.
  unfold fatal_unchanged, GridPatch_AddReferenceState; rewrite run_bind; cbn [get].
  rewrite run_bind, (throw_if_true _ _ _ Hno); eauto.
Qed.

(** Send and Receive reject the negative indices and those above the
    number of slots. *)
Lemma Send_rejects (this : GridPatch) (t : DataType) (iDataIndex : Z) :
  has_slots t -> iDataIndex < 0 \/ size (slots this t) < iDataIndex ->
  fatal_unchanged (GridPatch_Send t iDataIndex) this.
Proof.
  intros [-> | ->] Hno; cbn [slots] in Hno;
    unfold fatal_unchanged, GridPatch_Send; rewrite run_bind; cbn [get];
    rewrite run_bind, throw_if_true by lia; eauto.
Qed.

Lemma Receive_rejects (this : GridPatch) (received : list Z) (t : DataType) (iDataIndex : Z) :
  has_slots t -> iDataIndex < 0 \/ size (slots this t) < iDataIndex ->
  fatal_unchanged (GridPatch_Receive received t iDataIndex) this.
Proof.
  intros [-> | ->] Hno; cbn [slots] in Hno;
    unfold fatal_unchanged, GridPatch_Receive; rewrite run_bind; cbn [get];
    rewrite run_bind, throw_if_true by lia; eauto.
Qed.

(** At the index that equals the number of slots the check of Send
    passes, and the slot one past the last is read. *)
Lemma Send_reads_past_the_slots (this : GridPatch) :
  GridPatch_Send DataType_State (size (m_datavecStateNode this)) this
    = (Raises (Undefined "m_datavecStateNode[iDataIndex]"), this)
  /\ GridPatch_Send DataType_Tracers (size (m_datavecTracers this)) this
    = (Raises (Undefined "m_datavecTracers[iDataIndex]"), this).
Proof.
  assert (forall v : list DataArray, 0 <= size v) as Hsize by (intros v; unfold size; lia).
  split; unfold GridPatch_Send; rewrite run_bind; cbn [get];
    rewrite run_bind, throw_if_false by (pose proof (Hsize (m_datavecStateNode this));
                                         pose proof (Hsize (m_datavecTracers this)); lia);
    rewrite run_bind; unfold vec_at, lift; by rewrite vec_get_past_end.
Qed.

(** The same for Receive, as soon as one neighbor has data. *)
Lemma Receive_reads_past_the_slots (this : GridPatch) (n : Z) (rest : list Z)
    (pNeighbor : ExteriorNeighbor) :
  vec_get "m_connect.WaitReceive()" (m_connect this) n = Returns pNeighbor ->
  GridPatch_Receive (n :: rest) DataType_State (size (m_datavecStateNode this)) this
    = (Raises (Undefined "m_datavecStateNode[iDataIndex]"), this)
  /\ GridPatch_Receive (n :: rest) DataType_Tracers (size (m_datavecTracers this)) this
    = (Raises (Undefined "m_datavecTracers[iDataIndex]"), this).
Proof.
  intros Hn.
  assert (forall v : list DataArray, 0 <= size v) as Hsize by (intros v; unfold size; lia).
  split; unfold GridPatch_Receive; rewrite run_bind; cbn [get];
    rewrite run_bind, throw_if_false by (pose proof (Hsize (m_datavecStateNode this));
                                         pose proof (Hsize (m_datavecTracers this)); lia);
    unfold for_vec; cbn [for_vec_from];
    rewrite run_bind, run_bind; unfold vec_at at 1, lift at 1; rewrite Hn;
    rewrite run_bind; cbn [get]; rewrite run_bind;
    unfold slot_update; rewrite run_bind; unfold vec_at, lift;
    by rewrite vec_get_past_end.
Qed.

End SlotIndex.

(** C7.  On the active patch of the demonstration grid, which has three
    state slots, Send for the state at the index 3 is not rejected: the
    check passes and the run reads the slot one past the last, where
    CopyData, with the same index, raises its fatal exception and leaves
    the patch alone. *)
Theorem Send_slot_index_equal_to_slot_count_not_rejected :
  exists patch,
    heap (Demo.distributed 5 0) !! 1%nat = Some patch
    /\ size (m_datavecStateNode patch) = 3
    /\ GridPatch_Send (H := Demo.collaborators) DataType_State 3 patch
       = (Raises (Undefined "m_datavecStateNode[iDataIndex]"), patch)
    /\ GridPatch_CopyData 3 0 DataType_State patch
       = (Raises (Fatal "Invalid ixSource index in CopyData."), patch).
Proof.
  assert ((fun p => size (m_datavecStateNode p)) <$> heap (Demo.distributed 5 0) !! 1%nat
          = Some 3) as Hp by (vm_compute; reflexivity).
  apply fmap_Some in Hp as (patch & Hp & Hsize).
  exists patch. split; [exact Hp|]. split; [done|]. split.
  - rewrite Hsize. apply Send_reads_past_the_slots.
  - unfold GridPatch_CopyData. rewrite run_bind. cbn [get].
    rewrite run_bind, throw_if_true by lia. reflexivity.
Qed.
(** ** Models without tracers *)

Section ZeroTracers.
Context `{Collaborators}.

(** C8.  With a model without tracers, ConsolidateDataToRoot on a status
    that contains the tracers raises its fatal exception before anything
    is sent, and Checksum for the tracers returns at its guard: nothing
    is computed or reduced and the output is left as it was, on every
    rank. *)
Theorem zero_tracers_consolidation_fatal_checksum_returns (g : Grid) (nRank : Z) :
  GetTracers (m_model g) = 0 ->
  (forall s : SenderState,
     Contains (sender_status s) DataType_Tracers = true ->
     Grid_ConsolidateDataToRoot nRank g s
       = (Raises (Fatal "Attempting to consolidate empty tracer data"), s))
  /\ (forall (others : list (list float)) (iDataIndex : Z) (eChecksumType : ChecksumType)
        (dChecksums : list float),
        Grid_Checksum nRank others g DataType_Tracers iDataIndex eChecksumType dChecksums
          = (Returns tt, dChecksums)).
Proof.
  intros Hzero. split.
  - intros s Hs. unfold Grid_ConsolidateDataToRoot.
    rewrite run_bind. cbn [get]. rewrite run_bind, Hs, Hzero. reflexivity.
  - intros others iDataIndex eChecksumType dChecksums.
    unfold Grid_Checksum, Grid_Checksum_local.
    rewrite run_bind, Hzero. reflexivity.
Qed.

End ZeroTracers.

Lemma zero_tracers_consolidation_fatal_checksum_returns_witness :
  let s := @Build_SenderState Demo.collaborators
             {| Demo.st_patches := 5; Demo.st_types := [DataType_State; DataType_Tracers];
                Demo.st_received := [] |} [] in
  Grid_ConsolidateDataToRoot (H := Demo.collaborators) 1 (Demo.distributed 5 1) s
    = (Raises (Fatal "Attempting to consolidate empty tracer data"), s).
Proof.
  intros s.
  apply (zero_tracers_consolidation_fatal_checksum_returns (H := Demo.collaborators)
           (Demo.distributed 5 1) 1).
  - vm_compute. reflexivity.
  - vm_compute. reflexivity.
Defined.

(** Checksum for the tracers of a model without tracers returns; it does
    not raise. *)
Lemma Checksum_zero_tracers_returns_silently :
  GetTracers (m_model (Demo.distributed 5 0)) = 0
  /\ Grid_Checksum (H := Demo.collaborators) 0 [] (Demo.distributed 5 0) DataType_Tracers 0
       ChecksumType_Sum [1%float]
     = (Returns tt, [1%float]).
Proof. split; vm_compute; reflexivity. Qed.
(** ** Consolidation at the root: the status *)

Section AtRoot.
Context `{Collaborators}.

(** C9.  At the root, ConsolidateDataAtRoot on a status that is done
    raises its fatal exception with the whole state as it was, so no
    message has been received; and when the tag of the message received
    parses to a patch index below 0 or not below the number of patches,
    it raises "Panel tag index out of range" with the status as it was:
    the pair is not recorded.  On another rank the call raises at once. *)
Theorem ConsolidateDataAtRoot_protects_status (g : Grid) (r : RootState) :
  (Done (status r) = true ->
     Grid_ConsolidateDataAtRoot 0 g r
       = (Raises (Fatal "Attempting to consolidate data after completion"), r))
  /\ (forall (msg : Message) (rest : list Message) (ixPatch : Z) (t : DataType),
        Done (status r) = false ->
        arriving r = msg :: rest ->
        size (msg_data msg) <= size (dataRecvBuffer r) ->
        ParseTag (MPI_TAG msg) = Some (ixPatch, t) ->
        ixPatch < 0 \/ size (m_vecGridPatches g) <= ixPatch ->
        exists r',
          Grid_ConsolidateDataAtRoot 0 g r
            = (Raises (Fatal "Panel tag index out of range"), r')
          /\ status r' = status r
          /\ arriving r' = rest
          /\ ixRecvPatch r' = ixPatch
          /\ eRecvDataType r' = t)
  /\ (forall nRank, nRank <> 0 ->
        Grid_ConsolidateDataAtRoot nRank g r
          = (Raises (Fatal "Non-root process calling ConsolidateDataAtRoot"), r)).
Proof.
  split; [|split].
  - intros Hdone. unfold Grid_ConsolidateDataAtRoot.
    rewrite run_bind. cbn [Z.eqb negb throw_if ret].
    rewrite run_bind. cbn [get]. rewrite run_bind, Hdone. reflexivity.
  - intros msg rest ixPatch t Hdone Harr Hfits Htag Hrange.
    unfold Grid_ConsolidateDataAtRoot.
    rewrite run_bind. cbn [Z.eqb negb throw_if ret].
    rewrite run_bind. cbn [get]. rewrite run_bind, Hdone. cbn [throw_if ret].
    rewrite run_bind. unfold MPI_Recv at 1. rewrite run_bind. cbn [get]. rewrite Harr.
    destruct (Z.ltb_spec (size (dataRecvBuffer r)) (size (msg_data msg))) as [?|_]; [lia|].
    rewrite run_bind. cbn [put ret].
    rewrite run_bind. unfold external at 1. rewrite Htag. cbn [ret].
    rewrite run_bind. cbn [modify]. rewrite run_bind. cbn [get].
    rewrite run_bind. cbn [set_parsed ixRecvPatch fst snd].
    rewrite throw_if_true by lia.
    eexists. split; [reflexivity|]. done.
  - intros nRank Hrank. unfold Grid_ConsolidateDataAtRoot.
    rewrite run_bind. destruct (Z.eqb_spec nRank 0) as [?|_]; [done|]. reflexivity.
Qed.

End AtRoot.

Lemma ConsolidateDataAtRoot_protects_status_witness :
  let r := @Build_RootState Demo.collaborators
             {| Demo.st_patches := 5; Demo.st_types := [DataType_State];
                Demo.st_received := [] |}
             [ {| MPI_SOURCE := 1; MPI_TAG := 7 * 16; msg_data := [] |} ]
             [] 0 0 DataType_State in
  status (snd (Grid_ConsolidateDataAtRoot (H := Demo.collaborators) 0 (Demo.distributed 5 0) r))
    = status r.
Proof.
  intros r.
  destruct (ConsolidateDataAtRoot_protects_status (H := Demo.collaborators)
              (Demo.distributed 5 0) r) as (_ & Hrange & _).
  destruct (Hrange {| MPI_SOURCE := 1; MPI_TAG := 7 * 16; msg_data := [] |} [] 7
              DataType_State) as (r' & -> & Hstatus & _).
  - vm_compute. reflexivity.
  - reflexivity.
  - vm_compute. discriminate.
  - vm_compute. reflexivity.
  - right. vm_compute. discriminate.
  - exact Hstatus.
Defined.
(** ** Consolidation at the root: data types without a count check *)

Section ElementCount.
Context `{Collaborators}.

(** For a data type other than the state, the tracers and the Jacobian,
    a message for a patch of the grid is accepted whatever the number of
    its elements. *)
Lemma ConsolidateDataAtRoot_unchecked_count (g : Grid) (r : RootState)
    (msg : Message) (rest : list Message) (ixPatch : Z) (t : DataType)
    (st : ConsolidationStatus) :
  Done (status r) = false ->
  arriving r = msg :: rest ->
  size (msg_data msg) <= size (dataRecvBuffer r) ->
  ParseTag (MPI_TAG msg) = Some (ixPatch, t) ->
  0 <= ixPatch < size (m_vecGridPatches g) ->
  SetReceiveStatus (status r) ixPatch t = Some st ->
  count_unchecked t = true ->
  exists r',
    Grid_ConsolidateDataAtRoot 0 g r = (Returns tt, r')
    /\ status r' = st
    /\ nRecvCount r' = size (msg_data msg)
    /\ ixRecvPatch r' = ixPatch
    /\ eRecvDataType r' = t.
Proof.
  intros Hdone Harr Hfits Htag Hrange Hset Ht.
  unfold Grid_ConsolidateDataAtRoot.
  rewrite run_bind. cbn [Z.eqb negb throw_if ret].
  rewrite run_bind. cbn [get]. rewrite run_bind, Hdone. cbn [throw_if ret].
  rewrite run_bind. unfold MPI_Recv at 1. rewrite run_bind. cbn [get]. rewrite Harr.
  destruct (Z.ltb_spec (size (dataRecvBuffer r)) (size (msg_data msg))) as [?|_]; [lia|].
  rewrite run_bind. cbn [put ret].
  rewrite run_bind. unfold external at 1. rewrite Htag. cbn [ret].
  rewrite run_bind. cbn [modify]. rewrite run_bind. cbn [get].
  rewrite run_bind. cbn [set_parsed ixRecvPatch eRecvDataType status fst snd].
  rewrite throw_if_false by lia.
  rewrite run_bind. unfold external at 1. rewrite Hset. cbn [ret].
  rewrite run_bind. cbn [modify].
  rewrite run_bind. unfold vec_at at 1, lift at 1.
  destruct (vec_get _ (m_vecGridPatches g) ixPatch) as [pPatch|e] eqn:Hget.
  2:{ unfold vec_get in Hget. destruct (Z.ltb_spec ixPatch 0); [lia|].
      destruct (m_vecGridPatches g !! Z.to_nat ixPatch) eqn:Hlook; [done|].
      apply lookup_ge_None in Hlook. unfold size in Hrange. lia. }
  rewrite run_bind. cbn [modify]. rewrite run_bind. cbn [get].
  cbn [set_nRecvCount set_status eRecvDataType].
  eexists. split.
  - destruct t; try discriminate Ht; reflexivity.
  - done.
Qed.

End ElementCount.

(** C4.  At the root of the demonstration grid, a message of two doubles
    tagged as the topography of the patch of index 1, whose box has 476
    nodes, is accepted: the call returns and reports the count 2.  The
    same two doubles tagged as the state of that patch are refused for
    their count. *)
Theorem ConsolidateDataAtRoot_topography_count_unchecked :
  let g := Demo.distributed 5 0 in
  let root (t : DataType) :=
    @Build_RootState Demo.collaborators
      {| Demo.st_patches := 5; Demo.st_types := [DataType_State; DataType_Topography];
         Demo.st_received := [] |}
      [ {| MPI_SOURCE := 1; MPI_TAG := GenerateTag (Collaborators := Demo.collaborators) 1 t;
           msg_data := [0%float; 0%float] |} ]
      (replicate 2000 0%float) 0 0 DataType_State in
  let topography :=
    Grid_ConsolidateDataAtRoot (H := Demo.collaborators) 0 g (root DataType_Topography) in
  let state :=
    Grid_ConsolidateDataAtRoot (H := Demo.collaborators) 0 g (root DataType_State) in
  (GetTotalNodes ∘ m_box) <$> heap g !! 2%nat = Some 476
  /\ fst topography = Returns tt
  /\ ixRecvPatch (snd topography) = 1
  /\ eRecvDataType (snd topography) = DataType_Topography
  /\ nRecvCount (snd topography) = 2
  /\ Demo.st_received (status (snd topography)) = [(1, DataType_Topography)]
  /\ fst state = Raises (Fatal "State dimension mismatch").
Proof. repeat split; vm_compute; reflexivity. Qed.
(** ** Checksums: the loops and the reduction *)

Lemma iterates_succ (n : nat) (lo : Z) : iterates n Z.succ lo = seqZ lo (Z.of_nat n).
Proof.
  revert lo. induction n as [|n IH]; intros lo; [done|].
  rewrite seqZ_cons by lia. cbn [iterates]. rewrite IH. do 2 f_equal. lia.
Qed.

Lemma foldl_bind {A B C} (f : A -> C -> A) (g : B -> list C) (l : list B) (a : A) :
  foldl f a (l ≫= g) = foldl (fun a x => foldl f a (g x)) a l.
Proof.
  revert a. induction l as [|x l IH]; intros a; [done|].
  cbn. rewrite foldl_app. apply IH.
Qed.

Lemma size_alter (G : float -> float) (n : nat) (d : list float) : size (alter G n d) = size d.
Proof. unfold size. by rewrite length_alter. Qed.

Lemma accumulate_alters (var : Z) (f : float -> float) : alters var f (accumulate var f).
Proof.
  intros d Hvar. unfold accumulate. rewrite run_bind. cbn [get].
  rewrite run_bind. unfold vec_at, lift, vec_get, vec_set.
  destruct (Z.ltb_spec var 0) as [?|_]; [lia|].
  destruct (d !! Z.to_nat var) as [old|] eqn:Hold.
  2:{ apply lookup_ge_None in Hold. unfold size in Hvar. lia. }
  rewrite run_bind. cbn [orb].
  destruct (Z.leb_spec (size d) var) as [?|_]; [lia|].
  rewrite list_insert_alter. unfold put. f_equal.
  apply list_alter_ext; [|done]. intros x Hx. congruence.
Qed.

Lemma alters_for_loop (n : nat) (next : Z -> Z) (body : Z -> unit -> M (list float) unit)
    (var : Z) (G : Z -> float -> float) : forall i,
  (forall j, alters var (G j) (body j tt)) ->
  alters var (fun x => foldl (fun cs j => G j cs) x (iterates n next i))
    (for_loop n next body i tt).
Proof.
  induction n as [|n IH]; intros i Hbody d Hvar.
  - cbn. by rewrite list_alter_id.
  - cbn [for_loop iterates foldl]. rewrite run_bind, (Hbody i d Hvar).
    rewrite (IH (next i) Hbody) by (by rewrite size_alter).
    by rewrite list_alter_alter_eq.
Qed.

Lemma alters_for_upto (lo hi : Z) (body : Z -> unit -> M (list float) unit)
    (var : Z) (G : Z -> float -> float) :
  (forall j, alters var (G j) (body j tt)) ->
  alters var (fun x => foldl (fun cs j => G j cs) x (seqZ lo (hi - lo)))
    (for_upto lo hi body tt).
Proof.
  intros Hbody d Hvar. unfold for_upto.
  rewrite (alters_for_loop _ _ _ var G lo Hbody d Hvar), iterates_succ.
  destruct (Z.le_gt_cases 0 (hi - lo)).
  - by rewrite Z2Nat.id.
  - replace (Z.to_nat (hi - lo)) with 0%nat by lia.
    by rewrite (seqZ_nil _ (hi - lo)), (seqZ_nil _ (Z.of_nat 0)) by lia.
Qed.

Lemma for_vec_from_alter_all (G : Z -> float -> float)
    (body : Z -> Z -> unit -> M (list float) unit) (vars : list Z) : forall n d,
  (forall n var, alters var (G var) (body n var tt)) ->
  Forall (fun var => 0 <= var < size d) vars ->
  for_vec_from n vars body tt d = (Returns tt, alter_all G vars d).
Proof.
  induction vars as [|var vars IH]; intros n d Hbody Hvars; [done|].
  apply Forall_cons in Hvars as [Hvar Hvars].
  cbn [for_vec_from]. rewrite run_bind, (Hbody n var d Hvar).
  rewrite IH; [done | done |].
  eapply Forall_impl; [exact Hvars|]. intros v Hv. cbn beta. by rewrite size_alter.
Qed.

Lemma foldl_ext_all {A B} (f g : A -> B -> A) (l : list B) (a : A) :
  (forall a x, f a x = g a x) -> foldl f a l = foldl g a l.
Proof.
  intros Hfg. revert a. induction l as [|x l IH]; intros a; [done|].
  cbn. rewrite Hfg. apply IH.
Qed.

(** The loops over the levels and the interior for one variable. *)
Lemma nest_alters (box : PatchBox) (nLevels : Z) (data area : DataArray)
    (update : float -> float -> float -> float) (var : Z) :
  alters var
    (fun cs =>
       foldl (fun cs '(k, i, j) =>
                update cs (da_elem data [var; k; i; j]) (da_elem area [k; i; j]))
         cs (interior_nodes box nLevels))
    (for_upto 0 nLevels (fun k _ =>
       for_upto (GetAInteriorBegin box) (GetAInteriorEnd box) (fun i _ =>
         for_upto (GetBInteriorBegin box) (GetBInteriorEnd box) (fun j _ =>
           data <- ret data ;;
           accumulate var (fun cs =>
             update cs (da_elem data [var; k; i; j]) (da_elem area [k; i; j]))) tt) tt) tt).
Proof.
  intros d Hvar.
  rewrite (alters_for_upto 0 nLevels _ var (fun k x =>
    foldl (fun cs i =>
      foldl (fun cs j => update cs (da_elem data [var; k; i; j]) (da_elem area [k; i; j]))
        cs (seqZ (GetBInteriorBegin box) (GetBInteriorEnd box - GetBInteriorBegin box)))
      x (seqZ (GetAInteriorBegin box) (GetAInteriorEnd box - GetAInteriorBegin box)))).
  - f_equal. apply list_alter_ext; [|done]. intros x _.
    unfold interior_nodes. rewrite Z.sub_0_r, foldl_bind.
    apply foldl_ext_all. intros cs k. rewrite foldl_bind.
    apply foldl_ext_all. intros cs' i. rewrite foldl_bind.
    apply foldl_ext_all. intros cs'' j. reflexivity.
  - intros k.
    apply (alters_for_upto _ _ _ var (fun i x =>
      foldl (fun cs j => update cs (da_elem data [var; k; i; j]) (da_elem area [k; i; j]))
        x (seqZ (GetBInteriorBegin box) (GetBInteriorEnd box - GetBInteriorBegin box)))).
    intros i.
    apply (alters_for_upto _ _ _ var (fun j cs =>
      update cs (da_elem data [var; k; i; j]) (da_elem area [k; i; j]))).
    intros j d' Hd'. rewrite run_bind. cbn [ret]. by apply accumulate_alters.
  - done.
Qed.

(** One nest of loops adds, for each of its variables, the terms of the
    interior nodes in their order. *)
Lemma checksum_loops_alter_all (box : PatchBox) (vars : list Z) (nLevels : Z)
    (data area : DataArray) (update : float -> float -> float -> float) (d : list float) :
  Forall (fun var => 0 <= var < size d) vars ->
  checksum_loops box vars nLevels (Some data) area update d
  = (Returns tt,
     alter_all (fun var cs =>
       foldl (fun cs '(k, i, j) =>
                update cs (da_elem data [var; k; i; j]) (da_elem area [k; i; j]))
         cs (interior_nodes box nLevels)) vars d).
Proof.
  intros Hvars. unfold checksum_loops, for_vec.
  apply for_vec_from_alter_all; [|done].
  intros _ var. apply nest_alters.
Qed.

Lemma checksum_loops_no_variable (box : PatchBox) (nLevels : Z) (pData : option DataArray)
    (area : DataArray) (update : float -> float -> float -> float) (d : list float) :
  checksum_loops box [] nLevels pData area update d = (Returns tt, d).
Proof. reflexivity. Qed.

Lemma alter_all_cons (G : Z -> float -> float) (var : Z) (vars : list Z) (d : list float) :
  alter_all G (var :: vars) d = alter_all G vars (alter (G var) (Z.to_nat var) d).
Proof. reflexivity. Qed.

(** Distinct entries are replaced independently. *)
Lemma alter_all_lookup (G : Z -> float -> float) (vars : list Z) (c : Z) : forall d,
  0 <= c -> NoDup vars -> Forall (fun var => 0 <= var) vars ->
  alter_all G vars d !! Z.to_nat c
  = if decide (c ∈ vars) then G c <$> d !! Z.to_nat c else d !! Z.to_nat c.
Proof.
  intros d Hc. revert d. induction vars as [|var vars IH]; intros d Hnd Hpos.
  - cbn. by rewrite decide_False by (apply not_elem_of_nil).
  - apply NoDup_cons in Hnd as [Hnotin Hnd]. apply Forall_cons in Hpos as [Hvar Hpos].
    rewrite alter_all_cons, IH by done.
    destruct (decide (c = var)) as [->|Hne].
    + rewrite decide_False by done. rewrite decide_True by (by left).
      apply list_lookup_alter_eq.
    + rewrite list_lookup_alter_ne by lia.
      destruct (decide (c ∈ vars)) as [Hin|Hnin].
      * rewrite decide_True by (by right). done.
      * rewrite decide_False; [done|]. intros [?|?]%elem_of_cons; done.
Qed.

Lemma update_is_checksum_term :
  update_Sum = checksum_term ChecksumType_Sum
  /\ update_L1 = checksum_term ChecksumType_L1
  /\ update_L2 = checksum_term ChecksumType_L2
  /\ update_Linf = checksum_term ChecksumType_Linf.
Proof. done. Qed.

Section Checksum.
Context `{Collaborators}.

(** The loop that sorts the components of the state by their location. *)
Lemma sort_components (g : Grid) (d : list float) (n : nat) : forall (lo : Z) nodevars redgevars,
  0 <= lo ->
  (forall c, lo <= c < lo + Z.of_nat n ->
     located g DataLocation_Node c \/ located g DataLocation_REdge c) ->
  for_loop n Z.succ (fun c (nr : list Z * list Z) =>
      loc <- vec_at "m_vecVarLocation[c]" (m_vecVarLocation g) c ;;
      match loc with
      | DataLocation_Node => ret (nr.1 ++ [c], nr.2)
      | DataLocation_REdge => ret (nr.1, nr.2 ++ [c])
      | _ => raise (Fatal "Not implemented.")
      end) lo (nodevars, redgevars) d
  = (Returns (nodevars ++ filter (located g DataLocation_Node) (seqZ lo (Z.of_nat n)),
              redgevars ++ filter (located g DataLocation_REdge) (seqZ lo (Z.of_nat n))), d).
Proof.
  induction n as [|n IH]; intros lo nodevars redgevars Hlo Hloc.
  - cbn. by rewrite !app_nil_r.
  - cbn [for_loop]. rewrite run_bind. unfold vec_at at 1, lift at 1, vec_get.
    destruct (Z.ltb_spec lo 0) as [?|_]; [lia|].
    rewrite (seqZ_cons lo) by lia. rewrite !filter_cons.
    replace (Z.pred (Z.of_nat (S n))) with (Z.of_nat n) by lia.
    destruct (Hloc lo ltac:(lia)) as [Hnode | Hedge].
    + pose proof Hnode as Hnode'. unfold located in Hnode'. rewrite Hnode'.
      cbv beta iota. cbn [ret fst snd]. rewrite run_bind. cbn [ret].
      rewrite IH by (try lia; intros c Hc; apply Hloc; lia).
      rewrite decide_True by done.
      rewrite decide_False by (unfold located; rewrite Hnode'; discriminate).
      cbn [fst snd]. rewrite <- app_assoc. reflexivity.
    + pose proof Hedge as Hedge'. unfold located in Hedge'. rewrite Hedge'.
      cbv beta iota. cbn [ret fst snd]. rewrite run_bind. cbn [ret].
      rewrite IH by (try lia; intros c Hc; apply Hloc; lia).
      rewrite (decide_True (P := located g DataLocation_REdge lo)) by done.
      rewrite (decide_False (P := located g DataLocation_Node lo))
        by (unfold located; rewrite Hedge'; discriminate).
      cbn [fst snd]. rewrite <- app_assoc. reflexivity.
Qed.

(** The loop that lists the tracers. *)
Lemma list_tracers (d : list float) (n : nat) : forall (lo : Z) (nodevars : list Z),
  for_loop n Z.succ (fun c (nodevars : list Z) => ret (nodevars ++ [c])) lo nodevars d
  = (Returns (nodevars ++ seqZ lo (Z.of_nat n)), d).
Proof.
  induction n as [|n IH]; intros lo nodevars.
  - cbn. by rewrite app_nil_r.
  - cbn [for_loop]. rewrite run_bind. cbn [ret]. rewrite IH.
    rewrite (seqZ_cons lo) by lia.
    replace (Z.pred (Z.of_nat (S n))) with (Z.of_nat n) by lia.
    rewrite <- app_assoc. reflexivity.
Qed.

Lemma vec_get_slot what (v : list DataArray) (i : Z) :
  0 <= i < size v -> vec_get what v i = Returns (slot v i).
Proof.
  intros Hi. unfold vec_get, slot.
  destruct (Z.ltb_spec i 0) as [?|_]; [lia|].
  destruct (v !! Z.to_nat i) eqn:Hlook; [done|].
  apply lookup_ge_None in Hlook. unfold size in Hi. lia.
Qed.

Lemma size_fmap_seqZ (f : Z -> float) (n : Z) : size (f <$> seqZ 0 n) = Z.max 0 n.
Proof. unfold size. rewrite length_fmap, length_seqZ. lia. Qed.

Lemma lookup_fmap_seqZ (f : Z -> float) (n c : Z) :
  0 <= c -> (f <$> seqZ 0 n) !! Z.to_nat c = if decide (c < n) then Some (f c) else None.
Proof.
  intros Hc. rewrite list_lookup_fmap. case_decide.
  - rewrite lookup_seqZ_lt by lia. cbn. f_equal. f_equal. lia.
  - by rewrite lookup_seqZ_ge by lia.
Qed.

(** The terms that one patch adds, entry by entry. *)
Lemma alter_nodes_then_redges (g : Grid) (n : Z) (Gnode Gedge : Z -> float -> float)
    (f : Z -> float) :
  (forall c, 0 <= c < n ->
     located g DataLocation_Node c \/ located g DataLocation_REdge c) ->
  alter_all Gedge (filter (located g DataLocation_REdge) (seqZ 0 n))
    (alter_all Gnode (filter (located g DataLocation_Node) (seqZ 0 n)) (f <$> seqZ 0 n))
  = (fun c => if decide (located g DataLocation_REdge c) then Gedge c (f c)
              else Gnode c (f c)) <$> seqZ 0 n.
Proof.
  intros Hloc. apply list_eq. intros i.
  assert (Hpos : forall (P : Z -> Prop) `{!forall c, Decision (P c)},
            Forall (fun var => 0 <= var) (filter P (seqZ 0 n))).
  { intros P ?. apply Forall_forall. intros c [_ Hc%elem_of_seqZ]%list_elem_of_filter. lia. }
  assert (Hnd : forall (P : Z -> Prop) `{!forall c, Decision (P c)},
            NoDup (filter P (seqZ 0 n))).
  { intros P ?. apply NoDup_filter, NoDup_seqZ. }
  replace i with (Z.to_nat (Z.of_nat i)) by lia.
  rewrite !alter_all_lookup by (first [lia | apply Hpos | apply Hnd]).
  rewrite !lookup_fmap_seqZ by lia.
  destruct (decide (Z.of_nat i < n)) as [Hi|Hi].
  - destruct (Hloc (Z.of_nat i) ltac:(lia)) as [Hnode|Hedge].
    + assert (~ located g DataLocation_REdge (Z.of_nat i)) as Hne
        by (unfold located in *; rewrite Hnode; discriminate).
      rewrite (decide_False (P := _ ∈ filter (located g DataLocation_REdge) _))
        by (intros [? _]%list_elem_of_filter; done).
      rewrite decide_True by (apply list_elem_of_filter; split; [done|]; apply elem_of_seqZ; lia).
      by rewrite (decide_False (P := located g DataLocation_REdge _)).
    + assert (~ located g DataLocation_Node (Z.of_nat i)) as Hne
        by (unfold located in *; rewrite Hedge; discriminate).
      rewrite (decide_True (P := _ ∈ filter (located g DataLocation_REdge) _))
        by (apply list_elem_of_filter; split; [done|]; apply elem_of_seqZ; lia).
      rewrite decide_False by (intros [? _]%list_elem_of_filter; done).
      by rewrite (decide_True (P := located g DataLocation_REdge _)).
  - by repeat case_decide.
Qed.

Lemma alter_every_entry (n : Z) (G : Z -> float -> float) (f : Z -> float) :
  alter_all G (seqZ 0 n) (f <$> seqZ 0 n) = (fun c => G c (f c)) <$> seqZ 0 n.
Proof.
  apply list_eq. intros i. replace i with (Z.to_nat (Z.of_nat i)) by lia.
  rewrite alter_all_lookup;
    [| lia | apply NoDup_seqZ | apply Forall_forall; intros c Hc%elem_of_seqZ; lia].
  rewrite !lookup_fmap_seqZ by lia.
  destruct (decide (Z.of_nat i < n)) as [Hi|Hi].
  - by rewrite decide_True by (apply elem_of_seqZ; lia).
  - by case_decide.
Qed.

Lemma seqZ_to_nat (m n : Z) : seqZ m (Z.of_nat (Z.to_nat n)) = seqZ m n.
Proof.
  destruct (Z.le_gt_cases 0 n).
  - by rewrite Z2Nat.id.
  - by rewrite !seqZ_nil by lia.
Qed.

Lemma size_alter_all (G : Z -> float -> float) (vars : list Z) : forall d,
  size (alter_all G vars d) = size d.
Proof.
  induction vars as [|var vars IH]; intros d; [done|].
  by rewrite alter_all_cons, IH, size_alter.
Qed.

Lemma filter_seqZ_in_range (P : Z -> Prop) `{!forall c, Decision (P c)} (n : Z)
    (d : list float) :
  size d = Z.max 0 n ->
  Forall (fun var => 0 <= var < size d) (filter P (seqZ 0 n)).
Proof.
  intros Hd. apply Forall_forall.
  intros c [_ Hc%elem_of_seqZ]%list_elem_of_filter. lia.
Qed.

Lemma GridPatch_Checksum_State (g : Grid) (patch : GridPatch) (iDataIndex : Z)
    (t : ChecksumType) (f : Z -> float) :
  m_fContainsData patch = true ->
  0 <= iDataIndex < size (m_datavecStateNode patch) ->
  iDataIndex < size (m_datavecStateREdge patch) ->
  (forall c, 0 <= c < GetComponents (m_model g) ->
     located g DataLocation_Node c \/ located g DataLocation_REdge c) ->
  GridPatch_Checksum g patch DataType_State iDataIndex t
    (f <$> seqZ 0 (GetComponents (m_model g)))
  = (Returns tt,
     (fun c => patch_checksum t g patch DataType_State iDataIndex c (f c))
       <$> seqZ 0 (GetComponents (m_model g))).
Proof.
  intros Hdata Hnode Hredge Hloc.
  unfold GridPatch_Checksum. rewrite Hdata. cbn [negb].
  rewrite run_bind, throw_if_false by done.
  rewrite run_bind, run_bind. unfold vec_at at 1, lift at 1. rewrite vec_get_slot by done.
  rewrite run_bind. unfold vec_at at 1, lift at 1. rewrite vec_get_slot by lia.
  rewrite run_bind. unfold for_upto at 1.
  rewrite sort_components by (try lia; intros c Hc; apply Hloc; lia).
  rewrite Z.sub_0_r, !seqZ_to_nat. cbn [app].
  rewrite run_bind. cbn [get]. rewrite run_bind.
  rewrite throw_if_false by (rewrite size_fmap_seqZ; lia).
  cbn [ret fst snd].
  assert (forall update,
    (checksum_loops (m_box patch)
       (filter (located g DataLocation_Node) (seqZ 0 (GetComponents (m_model g))))
       (m_nRElements g) (Some (slot (m_datavecStateNode patch) iDataIndex))
       (field patch "m_dataElementArea") update ;;;
     checksum_loops (m_box patch)
       (filter (located g DataLocation_REdge) (seqZ 0 (GetComponents (m_model g))))
       (m_nRElements g + 1) (Some (slot (m_datavecStateREdge patch) iDataIndex))
       (field patch "m_dataElementAreaREdge") update)
      (f <$> seqZ 0 (GetComponents (m_model g)))
    = (Returns tt,
       (fun c =>
          let '(data, area, nLevels) :=
            component_data g patch DataType_State iDataIndex c in
          foldl (fun cs '(k, i, j) =>
                   update cs (da_elem data [c; k; i; j]) (da_elem area [k; i; j]))
            (f c) (interior_nodes (m_box patch) nLevels))
         <$> seqZ 0 (GetComponents (m_model g)))) as Hloops.
  { intros update.
    rewrite run_bind, checksum_loops_alter_all
      by (apply filter_seqZ_in_range, size_fmap_seqZ).
    rewrite checksum_loops_alter_all
      by (apply filter_seqZ_in_range; rewrite size_alter_all; apply size_fmap_seqZ).
    rewrite alter_nodes_then_redges by done.
    f_equal. apply list_fmap_ext. intros _ c _.
    unfold component_data. by case_decide. }
  destruct t; apply Hloops.
Qed.

Lemma GridPatch_Checksum_Tracers (g : Grid) (patch : GridPatch) (iDataIndex : Z)
    (t : ChecksumType) (f : Z -> float) :
  m_fContainsData patch = true ->
  0 <= iDataIndex < size (m_datavecTracers patch) ->
  GridPatch_Checksum g patch DataType_Tracers iDataIndex t
    (f <$> seqZ 0 (GetTracers (m_model g)))
  = (Returns tt,
     (fun c => patch_checksum t g patch DataType_Tracers iDataIndex c (f c))
       <$> seqZ 0 (GetTracers (m_model g))).
Proof.
  intros Hdata Hslot.
  unfold GridPatch_Checksum. rewrite Hdata. cbn [negb].
  rewrite run_bind, throw_if_false by done.
  rewrite run_bind, run_bind. unfold vec_at at 1, lift at 1. rewrite vec_get_slot by done.
  rewrite run_bind. unfold for_upto at 1.
  rewrite list_tracers, Z.sub_0_r, seqZ_to_nat. cbn [app].
  rewrite run_bind. cbn [get]. rewrite run_bind.
  rewrite throw_if_false by (rewrite size_fmap_seqZ; lia).
  cbn [ret fst snd].
  assert (forall update,
    (checksum_loops (m_box patch) (seqZ 0 (GetTracers (m_model g)))
       (m_nRElements g) (Some (slot (m_datavecTracers patch) iDataIndex))
       (field patch "m_dataElementArea") update ;;;
     checksum_loops (m_box patch) [] (m_nRElements g + 1) None
       (field patch "m_dataElementAreaREdge") update)
      (f <$> seqZ 0 (GetTracers (m_model g)))
    = (Returns tt,
       (fun c =>
          foldl (fun cs '(k, i, j) =>
                   update cs (da_elem (slot (m_datavecTracers patch) iDataIndex) [c; k; i; j])
                     (da_elem (field patch "m_dataElementArea") [k; i; j]))
            (f c) (interior_nodes (m_box patch) (m_nRElements g)))
         <$> seqZ 0 (GetTracers (m_model g)))) as Hloops.
  { intros update.
    rewrite run_bind, checksum_loops_alter_all.
    - by rewrite checksum_loops_no_variable, alter_every_entry.
    - apply Forall_forall. intros c Hc%elem_of_seqZ. rewrite size_fmap_seqZ. lia. }
  destruct t; apply Hloops.
Qed.

(** The loop over the active patches. *)
Lemma active_patches_loop (g : Grid) (eDataType : DataType) (iDataIndex : Z)
    (t : ChecksumType) (ps : list ptr) : forall (n : Z) (f : Z -> float),
  (eDataType = DataType_State \/ eDataType = DataType_Tracers) ->
  (forall p, p ∈ ps ->
     exists patch,
       heap g !! p = Some patch
       /\ m_fContainsData patch = true
       /\ match eDataType with
          | DataType_State =>
              0 <= iDataIndex < size (m_datavecStateNode patch)
              /\ iDataIndex < size (m_datavecStateREdge patch)
          | _ => 0 <= iDataIndex < size (m_datavecTracers patch)
          end) ->
  (eDataType = DataType_State ->
   forall c, 0 <= c < GetComponents (m_model g) ->
     located g DataLocation_Node c \/ located g DataLocation_REdge c) ->
  for_vec_from n ps (fun _ p _ =>
      match heap g !! p with
      | Some patch => GridPatch_Checksum g patch eDataType iDataIndex t
      | None => raise (Undefined "dereference of an invalid GridPatch pointer")
      end) tt (f <$> seqZ 0 (component_count g eDataType))
  = (Returns tt,
     (fun c =>
        foldl (fun cs p =>
                 match heap g !! p with
                 | Some patch => patch_checksum t g patch eDataType iDataIndex c cs
                 | None => cs
                 end) (f c) ps) <$> seqZ 0 (component_count g eDataType)).
Proof.
  induction ps as [|p ps IH]; intros n f Htype Hps Hloc; [done|].
  cbn [for_vec_from foldl]. rewrite run_bind.
  destruct (Hps p ltac:(by left)) as (patch & -> & Hdata & Hslot).
  destruct Htype as [-> | ->].
  - destruct Hslot as [Hnode Hredge]. cbn [component_count].
    rewrite GridPatch_Checksum_State by auto.
    apply (IH (n + 1) _ (or_introl eq_refl)); [|done].
    intros q Hq. apply Hps. by right.
  - cbn [component_count]. rewrite GridPatch_Checksum_Tracers by done.
    apply (IH (n + 1) _ (or_intror eq_refl)); [|done].
    intros q Hq. apply Hps. by right.
Qed.

(** The square roots at the root. *)
Lemma square_roots_loop (n : nat) : forall (done : list float) (rest : list float),
  length rest = n ->
  for_loop n Z.succ (fun c _ => accumulate c PrimFloat.sqrt) (size done) tt (done ++ rest)
  = (Returns tt, done ++ (PrimFloat.sqrt <$> rest)).
Proof.
  induction n as [|n IH]; intros done rest Hlen.
  - by destruct rest.
  - destruct rest as [|x rest]; [done|]. cbn [for_loop]. rewrite run_bind.
    rewrite accumulate_alters
      by (unfold size; rewrite length_app; cbn [length]; lia).
    replace (Z.to_nat (size done)) with (length done) by (unfold size; lia).
    replace (alter PrimFloat.sqrt (length done) (done ++ x :: rest))
      with ((done ++ [PrimFloat.sqrt x]) ++ rest).
    2:{ rewrite alter_app_r_alt by lia. rewrite Nat.sub_diag. cbn.
        by rewrite <- app_assoc. }
    replace (Z.succ (size done)) with (size (done ++ [PrimFloat.sqrt x]))
      by (unfold size; rewrite length_app; cbn [length]; lia).
    rewrite IH by (cbn in Hlen; lia).
    rewrite <- app_assoc. reflexivity.
Qed.

Lemma square_roots (d : list float) :
  for_upto 0 (size d) (fun c _ => accumulate c PrimFloat.sqrt) tt d
  = (Returns tt, PrimFloat.sqrt <$> d).
Proof.
  unfold for_upto. rewrite Z.sub_0_r. unfold size. rewrite Nat2Z.id.
  apply (square_roots_loop (length d) [] d eq_refl).
Qed.

Lemma zeros_as_fmap (n : Z) :
  DataVector_Initialize_double n = (fun _ => 0%float) <$> seqZ 0 n.
Proof.
  unfold DataVector_Initialize_double. apply list_eq. intros i.
  rewrite list_lookup_fmap.
  destruct (decide (Z.of_nat i < n)).
  - rewrite lookup_replicate_2 by lia. by rewrite lookup_seqZ_lt by lia.
  - rewrite lookup_seqZ_ge by lia. apply lookup_replicate_None. lia.
Qed.

(** The local checksums are those of the specification. *)
Lemma Checksum_local_refines (g : Grid) (eDataType : DataType) (iDataIndex : Z)
    (t : ChecksumType) :
  Checksum_ready g eDataType iDataIndex ->
  Grid_Checksum_local g eDataType iDataIndex t
  = Returns (Some (local_checksums g eDataType iDataIndex t)).
Proof.
  intros [Htype Hps Hloc].
  pose proof (active_patches_loop g eDataType iDataIndex t (m_vecActiveGridPatches g) 0
                (fun _ => 0%float)) as Hloop.
  unfold Grid_Checksum_local, for_vec, local_checksums, local_checksum.
  destruct Htype as [-> | [-> Hnonzero]]; cbn [component_count] in *.
  - rewrite zeros_as_fmap, (Hloop (or_introl eq_refl)) by done. reflexivity.
  - destruct (Z.eqb_spec (GetTracers (m_model g)) 0) as [?|_]; [done|].
    rewrite zeros_as_fmap, (Hloop (or_intror eq_refl)) by done. reflexivity.
Qed.

(** C3.  When Checksum can run, on every rank and for every checksum
    type: the local checksums are, component by component, the terms of
    the specification accumulated from zero over the interior nodes of
    the active patches; the operator of the reduction is the maximum
    for Linf and the sum otherwise; and the output is, at the root, the
    reduction of the local checksums of all ranks, under the square root
    for L2 and as it is for the other types, and on the other ranks what
    it was. *)
Theorem Checksum_accumulates_reduces_then_roots (g : Grid) (eDataType : DataType)
    (iDataIndex : Z) :
  Checksum_ready g eDataType iDataIndex ->
  forall (nRank : Z) (others : list (list float)) (t : ChecksumType)
    (dChecksums : list float),
    Grid_Checksum_local g eDataType iDataIndex t
      = Returns (Some (local_checksums g eDataType iDataIndex t))
    /\ Grid_Checksum_operator t = reduction_operator t
    /\ Grid_Checksum nRank others g eDataType iDataIndex t dChecksums
       = (Returns tt,
          global_checksums nRank others g eDataType iDataIndex t dChecksums).
Proof.
  intros Hready nRank others t dChecksums.
  pose proof (Checksum_local_refines g eDataType iDataIndex t Hready) as Hlocal.
  assert (Hop : Grid_Checksum_operator t = reduction_operator t) by (by destruct t).
  split; [done|]. split; [done|].
  unfold Grid_Checksum, global_checksums.
  rewrite run_bind. unfold lift at 1. rewrite Hlocal, Hop.
  destruct (nRank =? 0).
  - rewrite run_bind. cbn [put]. rewrite run_bind. cbn [put].
    destruct t; try reflexivity.
    rewrite bool_decide_eq_true_2 by done.
    rewrite run_bind. cbn [get]. apply square_roots.
  - reflexivity.
Qed.

End Checksum.

Lemma Sample_ready : Checksum_ready Sample.grid DataType_State 0.
Proof.
  split.
  - by left.
  - intros p ->%list_elem_of_singleton. exists Sample.patch.
    split; [reflexivity|]. split; [reflexivity|]. vm_compute. repeat split; discriminate.
  - intros _ c Hc. left.
    assert (c = 0 \/ c = 1) as [-> | ->] by (change (GetComponents _) with 2 in Hc; lia);
      reflexivity.
Qed.

Lemma Checksum_accumulates_reduces_then_roots_witness :
  Grid_Checksum (H := Demo.collaborators) 0 [] Sample.grid DataType_State 0 ChecksumType_L2 []
  = (Returns tt, [PrimFloat.sqrt 8; PrimFloat.sqrt 18]).
Proof.
  destruct (Checksum_accumulates_reduces_then_roots (H := Demo.collaborators)
              Sample.grid DataType_State 0 Sample_ready 0 [] ChecksumType_L2 [])
    as (_ & _ & ->).
  vm_compute. reflexivity.
Defined.

(** The four checksums of the sample grid at the root, and the L2
    checksum on another rank. *)
Example Sample_checksums :
  let run nRank t :=
    Grid_Checksum (H := Demo.collaborators) nRank [] Sample.grid DataType_State 0 t
      [7%float] in
  run 0 ChecksumType_Sum = (Returns tt, [(-4)%float; 6%float])
  /\ run 0 ChecksumType_L1 = (Returns tt, [4%float; 6%float])
  /\ run 0 ChecksumType_L2 = (Returns tt, [PrimFloat.sqrt 8; PrimFloat.sqrt 18])
  /\ run 0 ChecksumType_Linf = (Returns tt, [2%float; 3%float])
  /\ run 1 ChecksumType_L2 = (Returns tt, [7%float]).
Proof. repeat split; vm_compute; reflexivity. Qed.
(** ** The operations on the data slots of a patch *)

Lemma vec_set_insert {A} what (v : list A) (i : Z) (x : A) :
  0 <= i < size v -> vec_set what v i x = Returns (<[Z.to_nat i := x]> v).
Proof.
  intros Hi. unfold vec_set.
  destruct (Z.ltb_spec i 0); [lia|]. destruct (Z.leb_spec (size v) i); [lia|]. done.
Qed.

Section SlotOperations.
Context `{Collaborators}.

(** What CopyData leaves, as an equation. *)
Lemma CopyData_result (this : GridPatch) (t : DataType) (ixSource ixDest : Z) :
  has_slots t -> state_slots_agree this ->
  0 <= ixSource < size (slots this t) -> 0 <= ixDest < size (slots this t) ->
  GridPatch_CopyData ixSource ixDest t this
  = (Returns tt,
     match t with
     | DataType_State =>
         set_datavecStateREdge (copied (m_datavecStateREdge this) ixSource ixDest)
           (set_datavecStateNode (copied (m_datavecStateNode this) ixSource ixDest) this)
     | _ => set_datavecTracers (copied (m_datavecTracers this) ixSource ixDest) this
     end).
Proof.
  intros [-> | ->] Hagree Hsrc Hdst; cbn [slots] in *;
    unfold GridPatch_CopyData; rewrite run_bind; cbn [get];
    rewrite run_bind, throw_if_false by lia;
    rewrite run_bind, throw_if_false by lia.
  - rewrite run_bind. unfold vec_at at 1, lift at 1. rewrite vec_get_slot by done.
    rewrite run_bind. unfold lift at 1. rewrite vec_set_insert by done.
    rewrite run_bind. cbn [modify]. rewrite run_bind.
    unfold vec_at at 1, lift at 1.
    rewrite vec_get_slot by (unfold size, state_slots_agree in *; lia).
    rewrite run_bind. unfold lift at 1.
    rewrite vec_set_insert by (unfold size, state_slots_agree in *; lia).
    reflexivity.
  - rewrite run_bind. unfold vec_at at 1, lift at 1. rewrite vec_get_slot by done.
    rewrite run_bind. unfold lift at 1. rewrite vec_set_insert by done.
    reflexivity.
Qed.

Lemma slot_update_alter what (v : list DataArray) (i : Z) (f : DataArray -> DataArray)
    (this : GridPatch) :
  0 <= i < size v ->
  slot_update what v i f this = (Returns (alter f (Z.to_nat i) v), this).
Proof.
  intros Hi. unfold slot_update. rewrite run_bind. unfold vec_at, lift.
  rewrite vec_get_slot, vec_set_insert by done. f_equal. f_equal.
  rewrite list_insert_alter. apply list_alter_ext; [|done].
  intros x Hx. unfold slot. by rewrite Hx.
Qed.

(** What ZeroData leaves, as an equation. *)
Lemma ZeroData_result (this : GridPatch) (t : DataType) (ixData : Z) :
  has_slots t -> state_slots_agree this ->
  0 <= ixData < size (slots this t) ->
  GridPatch_ZeroData ixData t this
  = (Returns tt,
     match t with
     | DataType_State =>
         set_datavecStateREdge
           (alter GridData_Zero (Z.to_nat ixData) (m_datavecStateREdge this))
           (set_datavecStateNode
              (alter GridData_Zero (Z.to_nat ixData) (m_datavecStateNode this)) this)
     | _ =>
         if IsInitialized (slot (m_datavecTracers this) ixData)
         then set_datavecTracers
                (alter GridData_Zero (Z.to_nat ixData) (m_datavecTracers this)) this
         else this
     end).
Proof.
  intros [-> | ->] Hagree Hix; cbn [slots] in *;
    unfold GridPatch_ZeroData; rewrite run_bind; cbn [get];
    rewrite run_bind, throw_if_false by lia.
  - rewrite run_bind, slot_update_alter by done.
    rewrite run_bind. cbn [modify].
    rewrite run_bind, slot_update_alter by (unfold size, state_slots_agree in *; lia).
    reflexivity.
  - rewrite run_bind. unfold vec_at at 1, lift at 1. rewrite vec_get_slot by done.
    destruct (IsInitialized _); cbn [negb]; [|reflexivity].
    rewrite run_bind, slot_update_alter by done. reflexivity.
Qed.

Lemma float_get (dCoeff : list float) what (m : Z) :
  0 <= m < size dCoeff ->
  vec_get what dCoeff m = Returns (default 0%float (dCoeff !! Z.to_nat m)).
Proof.
  intros Hm. unfold vec_get. destruct (Z.ltb_spec m 0); [lia|].
  destruct (dCoeff !! Z.to_nat m) eqn:Hlook; [done|].
  apply lookup_ge_None in Hlook. unfold size in Hm. lia.
Qed.

Lemma slot_insert_ne (v : list DataArray) (i j : Z) (x : DataArray) :
  0 <= i -> 0 <= j -> i <> j -> slot (<[Z.to_nat i := x]> v) j = slot v j.
Proof. intros Hi Hj Hne. unfold slot. by rewrite list_lookup_insert_ne by lia. Qed.

Lemma alter_insert_eq (v : list DataArray) (i : nat) (x : DataArray)
    (f : DataArray -> DataArray) :
  alter f i (<[i := x]> v) = <[i := f x]> v.
Proof.
  rewrite !list_insert_alter, list_alter_alter_eq. by apply list_alter_ext.
Qed.

Lemma state_slots_set_twice (this : GridPatch) (vN vN' vR vR' : list DataArray) :
  set_datavecStateREdge vR'
    (set_datavecStateNode vN' (set_datavecStateREdge vR (set_datavecStateNode vN this)))
  = set_datavecStateREdge vR' (set_datavecStateNode vN' this).
Proof. reflexivity. Qed.

(** The loop of LinearCombineData over the other terms, for the state. *)
Lemma combine_state_loop (dCoeff : list float) (ixDest : Z) (this : GridPatch)
    (n : nat) : forall (lo : Z) (aN aR : DataArray),
  0 <= ixDest < size (m_datavecStateNode this) ->
  state_slots_agree this ->
  0 <= lo -> lo + Z.of_nat n <= size dCoeff ->
  size dCoeff <= size (m_datavecStateNode this) ->
  for_loop n Z.succ (fun m (_ : unit) =>
      if m =? ixDest then ret tt else
      cm <- vec_at "dCoeff[m]" dCoeff m ;;
      if PrimFloat.eqb cm 0%float then ret tt else
      this <- get ;;
      src <- vec_at "m_datavecStateNode[m]" (m_datavecStateNode this) m ;;
      v <- slot_update "m_datavecStateNode[ixDest]" (m_datavecStateNode this) ixDest
             (fun d => GridData_AddProduct d src cm) ;;
      modify (set_datavecStateNode v) ;;;
      src <- vec_at "m_datavecStateREdge[m]" (m_datavecStateREdge this) m ;;
      v <- slot_update "m_datavecStateREdge[ixDest]" (m_datavecStateREdge this) ixDest
             (fun d => GridData_AddProduct d src cm) ;;
      modify (set_datavecStateREdge v)) lo tt
    (set_datavecStateREdge (<[Z.to_nat ixDest := aR]> (m_datavecStateREdge this))
       (set_datavecStateNode (<[Z.to_nat ixDest := aN]> (m_datavecStateNode this)) this))
  = (Returns tt,
     set_datavecStateREdge
       (<[Z.to_nat ixDest :=
            foldl (combine_step dCoeff (m_datavecStateREdge this) ixDest) aR
              (seqZ lo (Z.of_nat n))]> (m_datavecStateREdge this))
       (set_datavecStateNode
          (<[Z.to_nat ixDest :=
               foldl (combine_step dCoeff (m_datavecStateNode this) ixDest) aN
                 (seqZ lo (Z.of_nat n))]> (m_datavecStateNode this)) this)).
Proof.
  induction n as [|n IH]; intros lo aN aR Hdest Hagree Hlo Hhi Hsize; [done|].
  rewrite seqZ_cons by lia. replace (Z.pred (Z.of_nat (S n))) with (Z.of_nat n) by lia.
  cbn [for_loop foldl]. rewrite run_bind.
  unfold combine_step at 2 4.
  destruct (Z.eqb_spec lo ixDest) as [Heq|Hne]; cbn [orb ret].
  { apply IH; try done; lia. }
  rewrite run_bind. unfold vec_at at 1, lift at 1. rewrite float_get by lia.
  destruct (PrimFloat.eqb _ 0%float); cbn [ret].
  { apply IH; try done; lia. }
  assert (size (m_datavecStateREdge this) = size (m_datavecStateNode this)) as HsizeR
    by (unfold size, state_slots_agree in *; lia).
  rewrite run_bind. cbn [get]. rewrite run_bind.
  cbn [m_datavecStateNode m_datavecStateREdge set_datavecStateNode set_datavecStateREdge].
  unfold vec_at at 1, lift at 1.
  rewrite vec_get_slot by (unfold size in *; rewrite length_insert; lia).
  rewrite run_bind, slot_update_alter by (unfold size in *; rewrite length_insert; lia).
  rewrite run_bind. cbn [modify]. rewrite run_bind.
  unfold vec_at at 1, lift at 1.
  rewrite vec_get_slot by (unfold size in *; rewrite length_insert; lia).
  rewrite run_bind, slot_update_alter by (unfold size in *; rewrite length_insert; lia).
  cbn [modify set_datavecStateNode set_datavecStateREdge m_datavecStateNode
       m_datavecStateREdge].
  rewrite !alter_insert_eq, !slot_insert_ne, state_slots_set_twice by lia.
  apply (IH (Z.succ lo)); try done; lia.
Qed.

(** The same loop for the tracers. *)
Lemma combine_tracers_loop (dCoeff : list float) (ixDest : Z) (this : GridPatch)
    (n : nat) : forall (lo : Z) (a : DataArray),
  0 <= ixDest < size (m_datavecTracers this) ->
  0 <= lo -> lo + Z.of_nat n <= size dCoeff ->
  size dCoeff <= size (m_datavecTracers this) ->
  for_loop n Z.succ (fun m (_ : unit) =>
      if m =? ixDest then ret tt else
      cm <- vec_at "dCoeff[m]" dCoeff m ;;
      if PrimFloat.eqb cm 0%float then ret tt else
      this <- get ;;
      src <- vec_at "m_datavecTracers[m]" (m_datavecTracers this) m ;;
      v <- slot_update "m_datavecTracers[ixDest]" (m_datavecTracers this) ixDest
             (fun d => GridData_AddProduct d src cm) ;;
      modify (set_datavecTracers v)) lo tt
    (set_datavecTracers (<[Z.to_nat ixDest := a]> (m_datavecTracers this)) this)
  = (Returns tt,
     set_datavecTracers
       (<[Z.to_nat ixDest :=
            foldl (combine_step dCoeff (m_datavecTracers this) ixDest) a
              (seqZ lo (Z.of_nat n))]> (m_datavecTracers this)) this).
Proof.
  induction n as [|n IH]; intros lo a Hdest Hlo Hhi Hsize; [done|].
  rewrite seqZ_cons by lia. replace (Z.pred (Z.of_nat (S n))) with (Z.of_nat n) by lia.
  cbn [for_loop foldl]. rewrite run_bind.
  unfold combine_step at 2.
  destruct (Z.eqb_spec lo ixDest) as [Heq|Hne]; cbn [orb ret].
  { apply IH; try done; lia. }
  rewrite run_bind. unfold vec_at at 1, lift at 1. rewrite float_get by lia.
  destruct (PrimFloat.eqb _ 0%float); cbn [ret].
  { apply IH; try done; lia. }
  rewrite run_bind. cbn [get]. rewrite run_bind.
  cbn [m_datavecTracers set_datavecTracers].
  unfold vec_at at 1, lift at 1.
  rewrite vec_get_slot by (unfold size in *; rewrite length_insert; lia).
  rewrite run_bind, slot_update_alter by (unfold size in *; rewrite length_insert; lia).
  cbn [modify set_datavecTracers m_datavecTracers].
  rewrite !alter_insert_eq, !slot_insert_ne by lia.
  apply (IH (Z.succ lo)); try done; lia.
Qed.

Lemma alter_as_insert (v : list DataArray) (i : Z) (f : DataArray -> DataArray) :
  alter f (Z.to_nat i) v = <[Z.to_nat i := f (slot v i)]> v.
Proof.
  rewrite list_insert_alter. apply list_alter_ext; [|done].
  intros x Hx. unfold slot. by rewrite Hx.
Qed.

(** What LinearCombineData leaves, as an equation. *)
Lemma LinearCombineData_result (this : GridPatch) (t : DataType)
    (dCoeff : list float) (ixDest : Z) :
  has_slots t -> state_slots_agree this ->
  0 <= ixDest < size dCoeff -> size dCoeff <= size (slots this t) ->
  GridPatch_LinearCombineData dCoeff ixDest t this
  = (Returns tt,
     match t with
     | DataType_State =>
         set_datavecStateREdge
           (<[Z.to_nat ixDest := combined dCoeff (m_datavecStateREdge this) ixDest]>
              (m_datavecStateREdge this))
           (set_datavecStateNode
              (<[Z.to_nat ixDest := combined dCoeff (m_datavecStateNode this) ixDest]>
                 (m_datavecStateNode this)) this)
     | _ =>
         if IsInitialized (slot (m_datavecTracers this) ixDest)
         then set_datavecTracers
                (<[Z.to_nat ixDest := combined dCoeff (m_datavecTracers this) ixDest]>
                   (m_datavecTracers this)) this
         else this
     end).
Proof.
  intros [-> | ->] Hagree Hdest Hsize; cbn [slots] in *;
    unfold GridPatch_LinearCombineData;
    rewrite to_unsigned_nonneg by lia;
    rewrite run_bind, throw_if_false by lia;
    rewrite run_bind; cbn [get];
    rewrite run_bind, throw_if_false by lia;
    rewrite run_bind, throw_if_false by lia.
  - assert (size (m_datavecStateREdge this) = size (m_datavecStateNode this)) as HsizeR
      by (unfold size, state_slots_agree in *; lia).
    rewrite run_bind. unfold vec_at at 1, lift at 1. rewrite float_get by lia.
    rewrite run_bind, slot_update_alter by lia.
    rewrite run_bind. cbn [modify].
    rewrite run_bind, slot_update_alter by lia.
    rewrite run_bind. cbn [modify].
    rewrite !alter_as_insert.
    unfold for_upto. rewrite Z.sub_0_r.
    rewrite (combine_state_loop dCoeff ixDest this) by first [done | unfold size in *; lia].
    unfold combined, premultiplied, size. by rewrite Nat2Z.id.
  - rewrite run_bind. unfold vec_at at 1, lift at 1. rewrite vec_get_slot by lia.
    destruct (IsInitialized _); cbn [negb]; [|reflexivity].
    rewrite run_bind. unfold vec_at at 1, lift at 1. rewrite float_get by lia.
    rewrite run_bind, slot_update_alter by lia.
    rewrite run_bind. cbn [modify].
    rewrite !alter_as_insert.
    unfold for_upto. rewrite Z.sub_0_r.
    rewrite (combine_tracers_loop dCoeff ixDest this) by first [done | unfold size in *; lia].
    unfold combined, premultiplied, size. by rewrite Nat2Z.id.
Qed.

Lemma replaced_insert (v : list DataArray) (i : Z) (x : DataArray) :
  0 <= i < size v -> replaced v (<[Z.to_nat i := x]> v) i x.
Proof.
  intros Hi. split; [apply length_insert|]. split.
  - unfold slot. rewrite list_lookup_insert_eq by (unfold size in Hi; lia). done.
  - intros j Hj. by rewrite list_lookup_insert_ne.
Qed.

(** X1.  CopyData with two indices of existing slots returns, and the
    patch is as before but for the slot [ixDest], which holds what the
    slot [ixSource] held: in both vectors of the state, or in the vector
    of the tracers. *)
Theorem CopyData_copies_the_slot (this : GridPatch) (t : DataType) (ixSource ixDest : Z) :
  has_slots t -> state_slots_agree this ->
  0 <= ixSource < size (slots this t) -> 0 <= ixDest < size (slots this t) ->
  exists this',
    GridPatch_CopyData ixSource ixDest t this = (Returns tt, this')
    /\ slot_replaced t this this' ixDest
         (slot (slots this t) ixSource) (slot (m_datavecStateREdge this) ixSource).
Proof.
  intros Ht Hagree Hsrc Hdst. eexists. split; [by apply CopyData_result|].
  assert (size (m_datavecStateREdge this) = size (m_datavecStateNode this)) as HsizeR
    by (unfold size, state_slots_agree in *; lia).
  destruct Ht as [-> | ->]; cbn [slots] in *; (split; [done|]);
    repeat split; try done; unfold copied; apply replaced_insert; lia.
Qed.

(** X2.  LinearCombineData with a destination that is a slot and has a
    coefficient, and with no more coefficients than slots, returns, and
    the patch is as before but for the destination, which holds the
    linear combination; for the tracers, a destination that is not
    initialized is left as it is. *)
Theorem LinearCombineData_combines_into_the_slot (this : GridPatch) (t : DataType)
    (dCoeff : list float) (ixDest : Z) :
  has_slots t -> state_slots_agree this ->
  0 <= ixDest < size dCoeff -> size dCoeff <= size (slots this t) ->
  exists this',
    GridPatch_LinearCombineData dCoeff ixDest t this = (Returns tt, this')
    /\ if bool_decide (t = DataType_Tracers)
          && negb (IsInitialized (slot (m_datavecTracers this) ixDest))
       then this' = this
       else slot_replaced t this this' ixDest
              (combined dCoeff (slots this t) ixDest)
              (combined dCoeff (m_datavecStateREdge this) ixDest).
Proof.
  intros Ht Hagree Hdest Hsize. eexists. split; [by apply LinearCombineData_result|].
  assert (size (m_datavecStateREdge this) = size (m_datavecStateNode this)) as HsizeR
    by (unfold size, state_slots_agree in *; lia).
  destruct Ht as [-> | ->]; cbn [slots] in *.
  - cbn [bool_decide decide_rel andb]. rewrite bool_decide_eq_false_2 by discriminate.
    cbn [andb]. split; [done|]. repeat split; try done; apply replaced_insert; lia.
  - rewrite bool_decide_eq_true_2 by done. cbn [andb].
    destruct (IsInitialized _); cbn [negb]; [|done].
    split; [done|]. repeat split; try done; apply replaced_insert; lia.
Qed.


(** X4.  On a patch whose two vectors of the state have the same number
    of slots, an operation on the data slots that does not return raises
    a fatal exception and leaves the patch as it was: none of the four
    reads or writes outside a vector. *)
Theorem slot_operations_fail_without_change (this : GridPatch)
    (op : M GridPatch unit) :
  state_slots_agree this -> slot_operation op ->
  forall e this', op this = (Raises e, this') ->
    this' = this /\ exists msg, e = Fatal msg.
Proof.
  intros Hagree Hop e this' Hrun.
  assert (Hfatal : fatal_unchanged op this -> this' = this /\ exists msg, e = Fatal msg).
  { intros [msg Hmsg]. rewrite Hmsg in Hrun. injection Hrun as <- <-. eauto. }
  assert (Hslot : forall v (i : Z), no_slot v i \/ 0 <= i < size v)
    by (intros v i; unfold no_slot; lia).
  destruct Hop as [ixSource ixDest t | dCoeff ixDest t | ixData t | ix].
  - destruct (decide (has_slots t)) as [Ht|Ht].
    + destruct (Hslot (slots this t) ixSource) as [?|Hsrc];
        [by apply Hfatal, CopyData_rejects_source|].
      destruct (Hslot (slots this t) ixDest) as [?|Hdst];
        [by apply Hfatal, CopyData_rejects_destination|].
      by rewrite CopyData_result in Hrun.
    + apply Hfatal. unfold has_slots in Ht. destruct t; try (exfalso; tauto); by eexists.
  - destruct (decide (has_slots t)) as [Ht|Ht].
    + destruct (Hslot (slots this t) ixDest) as [?|Hdst];
        [by apply Hfatal, LinearCombineData_rejects|].
      destruct (decide (ixDest < size dCoeff)) as [Hc|Hc].
      * destruct (decide (size dCoeff <= size (slots this t))) as [Hn|Hn].
        -- rewrite LinearCombineData_result in Hrun by first [done | lia]. done.
        -- apply Hfatal. unfold fatal_unchanged, GridPatch_LinearCombineData.
           rewrite to_unsigned_nonneg by lia.
           rewrite run_bind, throw_if_false by lia. rewrite run_bind. cbn [get].
           destruct Ht as [-> | ->]; cbn [slots] in *;
             rewrite run_bind, throw_if_false by lia;
             rewrite run_bind, throw_if_true by lia; eauto.
      * apply Hfatal. unfold fatal_unchanged, GridPatch_LinearCombineData.
        rewrite to_unsigned_nonneg by lia.
        rewrite run_bind, throw_if_true by lia. eauto.
    + apply Hfatal. unfold fatal_unchanged, GridPatch_LinearCombineData.
      rewrite run_bind.
      destruct (to_unsigned ixDest >=? size dCoeff); cbn [throw_if raise ret]; [eauto|].
      rewrite run_bind. cbn [get].
      unfold has_slots in Ht. destruct t; try (exfalso; tauto); by eexists.
  - destruct (decide (has_slots t)) as [Ht|Ht].
    + destruct (Hslot (slots this t) ixData) as [?|Hix];
        [by apply Hfatal, ZeroData_rejects|].
      by rewrite ZeroData_result in Hrun.
    + apply Hfatal. unfold has_slots in Ht. destruct t; try (exfalso; tauto); by eexists.
  - destruct (Hslot (m_datavecStateNode this) ix) as [?|Hix];
      [by apply Hfatal, AddReferenceState_rejects|].
    exfalso. revert Hrun. unfold GridPatch_AddReferenceState.
    rewrite run_bind. cbn [get]. rewrite run_bind, throw_if_false by lia.
    rewrite run_bind, slot_update_alter by done. done.
Qed.

End SlotOperations.

Lemma CopyData_copies_the_slot_witness :
  exists this',
    GridPatch_CopyData 0 2 DataType_State SlotDemo.patch
      = (Returns tt, this')
    /\ slot (m_datavecStateNode this') 2 = SlotDemo.array 1
    /\ slot (m_datavecStateREdge this') 2 = SlotDemo.array 4.
Proof.
  destruct (CopyData_copies_the_slot SlotDemo.patch
              DataType_State 0 2) as (this' & Hrun & _ & (_ & HN & _) & (_ & HR & _) & _).
  - by left.
  - reflexivity.
  - change (size _) with 3. lia.
  - change (size _) with 3. lia.
  - exists this'. split; [exact Hrun|]. split; [exact HN | exact HR].
Defined.

Lemma LinearCombineData_combines_into_the_slot_witness :
  exists this',
    GridPatch_LinearCombineData (H := Demo.collaborators) [2%float; 0%float; 1%float] 0
      DataType_State SlotDemo.patch = (Returns tt, this')
    /\ da_elem (slot (m_datavecStateNode this') 0) [] = 5%float
    /\ da_elem (slot (m_datavecStateREdge this') 0) [] = 14%float.
Proof.
  destruct (LinearCombineData_combines_into_the_slot (H := Demo.collaborators)
              SlotDemo.patch DataType_State [2%float; 0%float; 1%float] 0)
    as (this' & Hrun & Hres).
  - by left.
  - reflexivity.
  - change (size _) with 3. lia.
  - change (size _) with 3. change (size _) with 3. lia.
  - cbn in Hres. destruct Hres as (_ & (_ & HN & _) & (_ & HR & _) & _).
    exists this'. split; [exact Hrun|]. rewrite HN, HR. split; vm_compute; reflexivity.
Defined.


Lemma slot_operations_fail_without_change_witness :
  GridPatch_ZeroData (H := Demo.collaborators) 3 DataType_State SlotDemo.patch
  = (Raises (Fatal "Invalid ixData index in LinearCombineData."), SlotDemo.patch).
Proof.
  destruct (GridPatch_ZeroData (H := Demo.collaborators) 3 DataType_State SlotDemo.patch)
    as [o this'] eqn:Hrun.
  assert (o = Raises (Fatal "Invalid ixData index in LinearCombineData.")) as ->
    by (apply (f_equal fst) in Hrun; vm_compute in Hrun; congruence).
  destruct (slot_operations_fail_without_change (H := Demo.collaborators) SlotDemo.patch
              (GridPatch_ZeroData (H := Demo.collaborators) 3 DataType_State) eq_refl
              (op_ZeroData 3 DataType_State)
              _ _ Hrun) as [-> _].
  reflexivity.
Defined.

(** ** The operations on the data slots of the grid *)

Lemma same_vectors_refl (g : Grid) : same_vectors g g.
Proof. by repeat split. Qed.

Lemma same_vectors_set_heap (g g' : Grid) h :
  same_vectors g g' -> same_vectors g (set_heap h g').
Proof. intros (? & ? & ? & ? & ? & ?). by repeat split. Qed.

Lemma on_patch_returns {A} (p : ptr) (f : M GridPatch A) (g : Grid) patch a patch' :
  heap g !! p = Some patch -> f patch = (Returns a, patch') ->
  on_patch p f g = (Returns a, set_heap (<[p := patch']> (heap g)) g).
Proof. intros Hp Hf. unfold on_patch. by rewrite Hp, Hf. Qed.

Lemma on_patch_raises {A} (p : ptr) (f : M GridPatch A) (g : Grid) patch e patch' :
  heap g !! p = Some patch -> f patch = (Raises e, patch') ->
  on_patch p f g = (Raises e, set_heap (<[p := patch']> (heap g)) g).
Proof. intros Hp Hf. unfold on_patch. by rewrite Hp, Hf. Qed.

(** The loop over patches on which the operation returns. *)
Lemma for_vec_on_patches (f : M GridPatch unit) (ps : list ptr) : forall (n : Z) (g : Grid),
  NoDup ps ->
  (forall p, p ∈ ps -> exists patch patch',
      heap g !! p = Some patch /\ f patch = (Returns tt, patch')) ->
  exists g',
    for_vec_from n ps (fun _ p _ => on_patch p f) tt g = (Returns tt, g')
    /\ same_vectors g g' /\ patches_updated f ps g g'.
Proof.
  induction ps as [|q ps IH]; intros n g Hnd Hall.
  - exists g. split; [done|]. split; [apply same_vectors_refl|].
    intros p. by rewrite decide_False by apply not_elem_of_nil.
  - apply NoDup_cons in Hnd as [Hq Hnd].
    destruct (Hall q ltac:(by left)) as (patch & patch' & Hpatch & Hf).
    cbn [for_vec_from]. rewrite run_bind, (on_patch_returns q f g patch tt patch') by done.
    destruct (IH (n + 1) (set_heap (<[q := patch']> (heap g)) g) Hnd)
      as (g' & Hrun & Hsame & Hupd).
    { intros p Hp. destruct (Hall p ltac:(by right)) as (x & x' & Hx & Hfx).
      exists x, x'. split; [|done]. cbn. rewrite lookup_insert_ne; [done|].
      intros ->. done. }
    exists g'. split; [exact Hrun|]. split.
    { destruct Hsame as (? & ? & ? & ? & ? & ?). by repeat split. }
    intros p. rewrite (Hupd p). cbn.
    destruct (decide (p = q)) as [->|Hne].
    + rewrite decide_False by done. rewrite decide_True by (by left).
      rewrite lookup_insert_eq, Hpatch. cbn. by rewrite Hf.
    + rewrite lookup_insert_ne by done.
      destruct (decide (p ∈ ps)) as [Hin|Hnin].
      * by rewrite decide_True by (by right).
      * rewrite decide_False; [done|]. intros [?|?]%elem_of_cons; done.
Qed.

(** The loop that stops at the first patch on which the operation
    raises. *)
Lemma for_vec_on_patches_raises (f : M GridPatch unit) (pre : list ptr) :
  forall (n : Z) (g : Grid) (q : ptr) (post : list ptr) patch e patch',
  NoDup (pre ++ q :: post) ->
  (forall p, p ∈ pre -> exists x x',
      heap g !! p = Some x /\ f x = (Returns tt, x')) ->
  heap g !! q = Some patch -> f patch = (Raises e, patch') ->
  exists g',
    for_vec_from n (pre ++ q :: post) (fun _ p _ => on_patch p f) tt g = (Raises e, g')
    /\ same_vectors g g' /\ patches_updated f (pre ++ [q]) g g'.
Proof.
  induction pre as [|r pre IH]; intros n g q post patch e patch' Hnd Hall Hq Hf.
  - cbn [app for_vec_from]. rewrite run_bind, (on_patch_raises q f g patch e patch') by done.
    eexists. split; [reflexivity|]. split; [apply same_vectors_set_heap, same_vectors_refl|].
    intros p. cbn. destruct (decide (p = q)) as [->|Hne].
    + rewrite decide_True by (by left). rewrite lookup_insert_eq, Hq. cbn. by rewrite Hf.
    + rewrite lookup_insert_ne by done.
      rewrite decide_False; [done|]. by intros ?%list_elem_of_singleton.
  - cbn [app] in Hnd. apply NoDup_cons in Hnd as [Hr Hnd].
    destruct (Hall r ltac:(by left)) as (x & x' & Hx & Hfx).
    cbn [app for_vec_from]. rewrite run_bind, (on_patch_returns r f g x tt x') by done.
    assert (r <> q) as Hrq by (intros ->; apply Hr; apply elem_of_app; right; by left).
    destruct (IH (n + 1) (set_heap (<[r := x']> (heap g)) g) q post patch e patch' Hnd)
      as (g' & Hrun & Hsame & Hupd); [| |done|].
    { intros p Hp. destruct (Hall p ltac:(by right)) as (y & y' & Hy & Hfy).
      exists y, y'. split; [|done]. cbn. rewrite lookup_insert_ne; [done|].
      intros ->. apply Hr. apply elem_of_app. by left. }
    { cbn. by rewrite lookup_insert_ne. }
    exists g'. split; [exact Hrun|]. split.
    { destruct Hsame as (? & ? & ? & ? & ? & ?). by repeat split. }
    intros p. rewrite (Hupd p). cbn.
    destruct (decide (p = r)) as [->|Hne].
    + rewrite decide_False by (intros Hin; apply Hr; apply elem_of_app in Hin as [?|Hin];
        [apply elem_of_app; by left | apply list_elem_of_singleton in Hin; done]).
      rewrite decide_True by (by left).
      rewrite lookup_insert_eq, Hx. cbn. by rewrite Hfx.
    + rewrite lookup_insert_ne by done.
      destruct (decide (p ∈ pre ++ [q])) as [Hin|Hnin].
      * by rewrite decide_True by (by right).
      * rewrite decide_False; [done|]. intros [?|?]%elem_of_cons; done.
Qed.

Section GridSlotOperations.
Context `{Collaborators}.

(** X5.  An operation of the grid on the data slots (CopyData,
    LinearCombineData, ZeroData, AddReferenceState) whose patch operation
    returns on every active patch returns; each active patch is then
    what the patch operation leaves of it, the other patches and the
    vectors of the grid are untouched. *)
Theorem grid_slot_operation_updates_active_only (op : M Grid unit) (f : M GridPatch unit)
    (g : Grid) :
  grid_slot_operation op f ->
  NoDup (m_vecActiveGridPatches g) ->
  (forall p, p ∈ m_vecActiveGridPatches g -> exists patch patch',
      heap g !! p = Some patch /\ f patch = (Returns tt, patch')) ->
  exists g',
    op g = (Returns tt, g')
    /\ same_vectors g g'
    /\ patches_updated f (m_vecActiveGridPatches g) g g'.
Proof.
  intros Hop Hnd Hall.
  assert (op = each_active_patch f) as -> by (by destruct Hop).
  unfold each_active_patch. rewrite run_bind. cbn [get].
  by apply for_vec_on_patches.
Qed.

(** X6.  When the patch operation raises on an active patch and returns
    on those before it, the operation of the grid raises the same
    exception and nothing is undone: the patches before have been
    changed, the patch of the failure is as the failed operation left
    it, and the patches after it are untouched. *)
Theorem grid_slot_operation_stops_at_first_failure (op : M Grid unit)
    (f : M GridPatch unit) (g : Grid)
    (pre post : list ptr) (q : ptr) (patch patch' : GridPatch) (e : exn) :
  grid_slot_operation op f ->
  m_vecActiveGridPatches g = pre ++ q :: post ->
  NoDup (m_vecActiveGridPatches g) ->
  (forall p, p ∈ pre -> exists x x',
      heap g !! p = Some x /\ f x = (Returns tt, x')) ->
  heap g !! q = Some patch -> f patch = (Raises e, patch') ->
  exists g',
    op g = (Raises e, g')
    /\ same_vectors g g'
    /\ patches_updated f (pre ++ [q]) g g'.
Proof.
  intros Hop Hactive Hnd Hall Hq Hf.
  assert (op = each_active_patch f) as -> by (by destruct Hop).
  unfold each_active_patch. rewrite run_bind. cbn [get].
  rewrite Hactive in *. by eapply for_vec_on_patches_raises.
Qed.

(** ** Sizes *)

(** A product of three numbers is what the code computes when the
    product of the first two and the whole product fit an [int]. *)
Lemma int_mul_exact (a b c : Z) :
  fits_int (a * b) -> fits_int (a * b * c) -> int_mul (int_mul a b) c = a * b * c.
Proof.
  unfold fits_int, int_mul. intros Hab Habc.
  rewrite (wrap_int_id (a * b)) by exact Hab. by apply wrap_int_id.
Qed.

(** The products are taken modulo 2^32: for three components, 2000
    levels and a patch of 476000 nodes the state size is 2856000000,
    the code computes a negative number, and the maximum stays 0. *)
Lemma GetMaximumDegreesOfFreedom_wraps :
  let patch := GridPatch_new 0 (PatchBox_make 0 0 2 0 696 0 676) in
  let g := set_vecGridPatches [1%nat]
             (Grid_new {[ 1%nat := patch ]} Demo.model 2000
                [DataLocation_Node; DataLocation_Node; DataLocation_Node]) in
  state_size g patch = 2856000000
  /\ nStateDOFs g patch = -1438967296
  /\ fst (Grid_GetMaximumDegreesOfFreedom g) = Returns 0.
Proof. vm_compute. repeat split; reflexivity. Qed.

(** X7.  On a grid whose patches all exist, GetMaximumDegreesOfFreedom
    returns and leaves the grid as it is.  The number returned is not
    negative, is not below the degrees of freedom of the state or of the
    tracers of any patch as the code computes them (products of ints,
    taken modulo 2^32), and is 0 or one of these.  Hence it is not below
    the state size or the tracer size of a patch whenever that size and
    its first product fit an int; a size that does not fit is not
    bounded by this. *)
Theorem GetMaximumDegreesOfFreedom_is_the_largest_size (g : Grid) :
  (forall p, p ∈ m_vecGridPatches g -> is_Some (heap g !! p)) ->
  exists n,
    Grid_GetMaximumDegreesOfFreedom g = (Returns n, g)
    /\ 0 <= n
    /\ (forall p patch, p ∈ m_vecGridPatches g -> heap g !! p = Some patch ->
          nStateDOFs g patch <= n /\ nTracersDOFs g patch <= n)
    /\ (n = 0
        \/ exists p patch, p ∈ m_vecGridPatches g /\ heap g !! p = Some patch
             /\ (n = nStateDOFs g patch \/ n = nTracersDOFs g patch))
    /\ (forall p patch, p ∈ m_vecGridPatches g -> heap g !! p = Some patch ->
          (fits_int (GetComponents (m_model g) * m_nRElements g) ->
           fits_int (state_size g patch) -> state_size g patch <= n)
          /\ (fits_int (GetTracers (m_model g) * m_nRElements g) ->
              fits_int (tracers_size g patch) -> tracers_size g patch <= n)).
Proof.
  intros Hall.
  pose proof (hoare_for_vec (S := Grid) (m_vecGridPatches g)
    (fun (_ : Z) p nMaxDOFs =>
       patch <- deref p ;;
       let nStateDOFs :=
         int_mul (int_mul (GetComponents (m_model g)) (m_nRElements g))
           (GetTotalNodes (m_box patch)) in
       let nTracersDOFs :=
         int_mul (int_mul (GetTracers (m_model g)) (m_nRElements g))
           (GetTotalNodes (m_box patch)) in
       let nMaxDOFs := if nTracersDOFs >? nMaxDOFs then nTracersDOFs else nMaxDOFs in
       let nMaxDOFs := if nStateDOFs >? nMaxDOFs then nStateDOFs else nMaxDOFs in
       ret nMaxDOFs)
    (fun pre n g' =>
       g' = g /\ 0 <= n
       /\ (forall p patch, p ∈ pre -> heap g !! p = Some patch ->
             nStateDOFs g patch <= n /\ nTracersDOFs g patch <= n)
       /\ (n = 0
           \/ exists p patch, p ∈ pre /\ heap g !! p = Some patch
                /\ (n = nStateDOFs g patch \/ n = nTracersDOFs g patch)))
    (fun _ _ => False) 0) as Hloop.
  cbv beta in Hloop.
  match type of Hloop with ?P -> _ => assert (Hbody : P) end.
  2: destruct (hoare_returns _ _ _ g (Hloop Hbody)) as (n & g' & Hrun & -> & Hn & Hle & Hat).
  - clear Hloop. intros pre x post n Hsplit g' (-> & Hn & Hle & Hat).
    destruct (Hall x) as [patch Hx]; [rewrite Hsplit; apply elem_of_app; right; by left|].
    rewrite run_bind. unfold deref. rewrite Hx. cbn [ret].
    fold (nStateDOFs g patch) (nTracersDOFs g patch).
    split; [done|].
    assert (Hmax : forall a b : Z, (if a >? b then a else b) = Z.max a b)
      by (intros a b; destruct (Z.gtb_spec a b); lia).
    rewrite !Hmax. split; [lia|]. split.
    + intros p patch' [Hin| ->%list_elem_of_singleton]%elem_of_app Hp.
      * specialize (Hle p patch' Hin Hp). lia.
      * rewrite Hx in Hp. injection Hp as <-. lia.
    + destruct (Z.max_spec (nStateDOFs g patch) (Z.max (nTracersDOFs g patch) n))
        as [[_ ->]|[_ ->]].
      * destruct (Z.max_spec (nTracersDOFs g patch) n) as [[_ ->]|[_ ->]].
        -- destruct Hat as [->|(p & patch' & Hin & Hp & Hval)]; [by left|].
           right. exists p, patch'. split; [apply elem_of_app; by left|]. done.
        -- right. exists x, patch. split; [apply elem_of_app; right; by left|]. auto.
      * right. exists x, patch. split; [apply elem_of_app; right; by left|]. auto.
  - split; [done|]. split; [lia|]. split; [|by left]. by intros p patch ?%elem_of_nil.
  - exists n. split.
    { unfold Grid_GetMaximumDegreesOfFreedom. rewrite run_bind. cbn [get]. exact Hrun. }
    do 3 (split; [done|]).
    intros p patch Hin Hp. destruct (Hle p patch Hin Hp) as [Hs Ht].
    unfold nStateDOFs, nTracersDOFs in Hs, Ht. split; intros Hab Habc.
    + rewrite int_mul_exact in Hs; done.
    + rewrite int_mul_exact in Ht; done.
Qed.

(** X8.  On a grid whose patches all exist, GetLargestGridPatchNodes
    returns a number that is not negative and not below the node count
    of any patch, and that is 0 or the node count of a patch; the grid
    is not changed. *)
Theorem GetLargestGridPatchNodes_is_the_largest_count (g : Grid) :
  (forall p, p ∈ m_vecGridPatches g -> is_Some (heap g !! p)) ->
  exists n,
    Grid_GetLargestGridPatchNodes g = (Returns n, g)
    /\ 0 <= n
    /\ (forall p patch, p ∈ m_vecGridPatches g -> heap g !! p = Some patch ->
          GetTotalNodes (m_box patch) <= n)
    /\ (n = 0
        \/ exists p patch, p ∈ m_vecGridPatches g /\ heap g !! p = Some patch
             /\ n = GetTotalNodes (m_box patch)).
Proof.
  intros Hall.
  pose proof (hoare_for_vec (S := Grid) (m_vecGridPatches g)
    (fun (_ : Z) p nMaxNodes =>
       patch <- deref p ;;
       let nPatchNodes := GetTotalNodes (m_box patch) in
       ret (if nPatchNodes >? nMaxNodes then nPatchNodes else nMaxNodes))
    (fun pre n g' =>
       g' = g /\ 0 <= n
       /\ (forall p patch, p ∈ pre -> heap g !! p = Some patch ->
             GetTotalNodes (m_box patch) <= n)
       /\ (n = 0
           \/ exists p patch, p ∈ pre /\ heap g !! p = Some patch
                /\ n = GetTotalNodes (m_box patch)))
    (fun _ _ => False) 0) as Hloop.
  cbv beta in Hloop.
  match type of Hloop with ?P -> _ => assert (Hbody : P) end.
  2: destruct (hoare_returns _ _ _ g (Hloop Hbody)) as (n & g' & Hrun & -> & Hn & Hle & Hat).
  - clear Hloop. intros pre x post n Hsplit g' (-> & Hn & Hle & Hat).
    destruct (Hall x) as [patch Hx]; [rewrite Hsplit; apply elem_of_app; right; by left|].
    rewrite run_bind. unfold deref. rewrite Hx. cbn [ret].
    split; [done|].
    destruct (Z.gtb_spec (GetTotalNodes (m_box patch)) n) as [Hgt|Hle'].
    + split; [lia|]. split.
      * intros p patch' [Hin| ->%list_elem_of_singleton]%elem_of_app Hp.
        -- specialize (Hle p patch' Hin Hp). lia.
        -- rewrite Hx in Hp. injection Hp as <-. lia.
      * right. exists x, patch. split; [apply elem_of_app; right; by left|]. done.
    + split; [lia|]. split.
      * intros p patch' [Hin| ->%list_elem_of_singleton]%elem_of_app Hp.
        -- by apply (Hle p patch').
        -- rewrite Hx in Hp. injection Hp as <-. lia.
      * destruct Hat as [->|(p & patch' & Hin & Hp & Hval)]; [by left|].
        right. exists p, patch'. split; [apply elem_of_app; by left|]. done.
  - split; [done|]. split; [lia|]. split; [|by left]. by intros p patch ?%elem_of_nil.
  - exists n. split; [|done]. unfold Grid_GetLargestGridPatchNodes.
    rewrite run_bind. cbn [get]. exact Hrun.
Qed.

End GridSlotOperations.

Lemma GridDemo_patches (p : ptr) :
  p ∈ [1%nat; 2%nat] ->
  (p = 1%nat /\ heap GridDemo.grid !! p = Some SlotDemo.patch)
  \/ (p = 2%nat /\ heap GridDemo.grid !! p = Some GridDemo.small).
Proof.
  intros [->| [->|[]%elem_of_nil]%elem_of_cons]%elem_of_cons; [left | right]; by split.
Qed.

Lemma grid_slot_operation_updates_active_only_witness :
  exists g',
    Grid_ZeroData (H := Demo.collaborators) 0 DataType_State GridDemo.grid = (Returns tt, g')
    /\ m_vecActiveGridPatches g' = [1%nat; 2%nat].
Proof.
  destruct (grid_slot_operation_updates_active_only (H := Demo.collaborators)
              (Grid_ZeroData (H := Demo.collaborators) 0 DataType_State)
              (GridPatch_ZeroData (H := Demo.collaborators) 0 DataType_State)
              GridDemo.grid)
    as (g' & Hrun & (_ & _ & _ & _ & Hactive & _) & _).
  - constructor.
  - apply (NoDup_seq 1 2).
  - intros p [[-> Hp] | [-> Hp]]%GridDemo_patches; rewrite Hp; eexists _, _;
      (split; [reflexivity|]); apply ZeroData_result;
      first [by left | reflexivity | (change (size _) with 3; lia) | (change (size _) with 1; lia)].
  - exists g'. split; [exact Hrun | exact Hactive].
Defined.

Lemma grid_slot_operation_stops_at_first_failure_witness :
  exists g',
    Grid_ZeroData (H := Demo.collaborators) 1 DataType_State GridDemo.grid
      = (Raises (Fatal "Invalid ixData index in LinearCombineData."), g')
    /\ heap g' !! 2%nat = Some GridDemo.small
    /\ (fun patch => da_elem (slot (m_datavecStateNode patch) 1) []) <$> heap g' !! 1%nat
       = Some 0%float.
Proof.
  destruct (grid_slot_operation_stops_at_first_failure (H := Demo.collaborators)
              (Grid_ZeroData (H := Demo.collaborators) 1 DataType_State)
              (GridPatch_ZeroData (H := Demo.collaborators) 1 DataType_State)
              GridDemo.grid [1%nat] [] 2%nat GridDemo.small GridDemo.small
              (Fatal "Invalid ixData index in LinearCombineData."))
    as (g' & Hrun & _ & Hupd).
  - constructor.
  - reflexivity.
  - apply (NoDup_seq 1 2).
  - intros p ->%list_elem_of_singleton. eexists _, _. split; [reflexivity|].
    apply ZeroData_result; first [by left | reflexivity | (change (size _) with 3; lia)].
  - reflexivity.
  - reflexivity.
  - exists g'. split; [exact Hrun|]. rewrite !Hupd. split; reflexivity.
Defined.

Lemma GetMaximumDegreesOfFreedom_is_the_largest_size_witness :
  Grid_GetMaximumDegreesOfFreedom GridDemo.grid = (Returns 48, GridDemo.grid).
Proof.
  destruct (GetMaximumDegreesOfFreedom_is_the_largest_size GridDemo.grid)
    as (n & Hrun & _).
  - intros p [[-> Hp] | [-> Hp]]%GridDemo_patches; rewrite Hp; eauto.
  - rewrite Hrun. apply (f_equal fst) in Hrun. vm_compute in Hrun. congruence.
Defined.

Lemma GetLargestGridPatchNodes_is_the_largest_count_witness :
  Grid_GetLargestGridPatchNodes GridDemo.grid = (Returns 16, GridDemo.grid).
Proof.
  destruct (GetLargestGridPatchNodes_is_the_largest_count GridDemo.grid)
    as (n & Hrun & _).
  - intros p [[-> Hp] | [-> Hp]]%GridDemo_patches; rewrite Hp; eauto.
  - rewrite Hrun. apply (f_equal fst) in Hrun. vm_compute in Hrun. congruence.
Defined.

(** ** Allocation and release of the data of a patch *)

Lemma release_of_app steps name n f :
  release_of steps n = None ->
  release_of (steps ++ [(n, f)]) name
  = if String.eqb n name then Some f else release_of steps name.
Proof.
  induction steps as [|[n' f'] steps IH]; intros Hn; cbn in *; [done|].
  destruct (String.eqb_spec n' n) as [->|Hne]; [done|].
  destruct (String.eqb_spec n' name) as [->|Hne'].
  - destruct (String.eqb_spec n name) as [->|_]; done.
  - by apply IH.
Qed.

Section Lifecycle.
Context `{Collaborators}.

Lemma hoare_release s0 steps fN fR fT n f :
  release_of steps n = None ->
  hoare (deinit_inv s0 steps fN fR fT) (update_field n f)
    (fun _ => deinit_inv s0 (steps ++ [(n, f)]) fN fR fT) never.
Proof.
  intros Hn. apply hoare_modify. intros s (H1 & H2 & H3 & H4 & H5 & H6).
  unfold deinit_inv. cbn. repeat (split; [done|]). split; [|done].
  intros name. unfold released. rewrite release_of_app by done.
  destruct (String.eqb_spec n name) as [->|Hne].
  - rewrite lookup_insert_eq. f_equal. f_equal. unfold field.
    rewrite H3. unfold released. by rewrite Hn.
  - rewrite lookup_insert_ne by done. apply H3.
Qed.

Lemma hoare_release_node s0 steps fR fT :
  hoare (deinit_inv s0 steps id fR fT)
    (modify (fun p => set_datavecStateNode
                        (GridDataVector_Deinitialize (m_datavecStateNode p)) p))
    (fun _ => deinit_inv s0 steps GridDataVector_Deinitialize fR fT) never.
Proof.
  apply hoare_modify. intros s (H1 & H2 & H3 & H4 & H5 & H6).
  unfold deinit_inv. cbn. by rewrite H4.
Qed.

Lemma hoare_release_redge s0 steps fN fT :
  hoare (deinit_inv s0 steps fN id fT)
    (modify (fun p => set_datavecStateREdge
                        (GridDataVector_Deinitialize (m_datavecStateREdge p)) p))
    (fun _ => deinit_inv s0 steps fN GridDataVector_Deinitialize fT) never.
Proof.
  apply hoare_modify. intros s (H1 & H2 & H3 & H4 & H5 & H6).
  unfold deinit_inv. cbn. by rewrite H5.
Qed.

Lemma hoare_release_tracers s0 steps fN fR :
  hoare (deinit_inv s0 steps fN fR id)
    (modify (fun p => set_datavecTracers
                        (GridDataVector_Deinitialize (m_datavecTracers p)) p))
    (fun _ => deinit_inv s0 steps fN fR GridDataVector_Deinitialize) never.
Proof.
  apply hoare_modify. intros s (H1 & H2 & H3 & H4 & H5 & H6).
  unfold deinit_inv. cbn. by rewrite H6.
Qed.

Ltac release_fields :=
  repeat (eapply hoare_bind; [apply hoare_release; reflexivity | intros ?; cbv beta]).

(** What DeinitializeData establishes on a patch with data. *)
Lemma DeinitializeData_hoare (s0 : GridPatch) :
  m_fContainsData s0 = true ->
  hoare (fun s => s = s0) GridPatch_DeinitializeData
    (fun _ s =>
       m_fContainsData s = false
       /\ same_geometry s0 s
       /\ (forall name, name ∈ kept_by_deinitialize ->
             m_fields s !! name = m_fields s0 !! name)
       /\ (forall name, name ∈ member_arrays -> name ∉ kept_by_deinitialize ->
             m_fields s !! name = Some (Detach (field s0 name))
             \/ m_fields s !! name = Some (GridData_Deinitialize (field s0 name)))
       /\ m_datavecStateNode s = GridDataVector_Deinitialize (m_datavecStateNode s0)
       /\ m_datavecStateREdge s = GridDataVector_Deinitialize (m_datavecStateREdge s0)
       /\ m_datavecTracers s = GridDataVector_Deinitialize (m_datavecTracers s0))
    never.
Proof.
  intros Hdata. unfold GridPatch_DeinitializeData.
  apply hoare_bind_get. intros ? ->. rewrite Hdata. cbn [negb].
  apply hoare_bind_ret. apply hoare_bind_modify.
  apply (hoare_pre _ (deinit_inv s0 [] id id id)).
  2:{ intros s (s1 & -> & ->). unfold deinit_inv, same_geometry. cbn. done. }
  release_fields.
  eapply hoare_bind; [apply hoare_release_node | intros ?; cbv beta].
  eapply hoare_bind; [apply hoare_release_redge | intros ?; cbv beta].
  eapply hoare_bind; [apply hoare_release_tracers | intros ?; cbv beta].
  release_fields.
  eapply hoare_post; [apply hoare_release; reflexivity|].
  intros _ s (H1 & H2 & H3 & H4 & H5 & H6).
  split; [done|]. split; [done|]. split; [|split; [|done]].
  - intros name Hname. rewrite H3. unfold released.
    unfold kept_by_deinitialize in Hname.
    repeat (apply elem_of_cons in Hname as [->|Hname]; [reflexivity|]).
    by apply elem_of_nil in Hname.
  - intros name Hname Hkept. rewrite H3. unfold released.
    unfold member_arrays in Hname.
    repeat (apply elem_of_cons in Hname as [->|Hname];
            [first [ by left | by right
                   | exfalso; apply Hkept; unfold kept_by_deinitialize;
                     repeat first [by left | right] ] |]).
    by apply elem_of_nil in Hname.
Qed.

Lemma DeinitializeData_result (s0 : GridPatch) :
  m_fContainsData s0 = true ->
  exists s,
    GridPatch_DeinitializeData s0 = (Returns tt, s)
    /\ m_fContainsData s = false
    /\ same_geometry s0 s
    /\ (forall name, name ∈ kept_by_deinitialize ->
          m_fields s !! name = m_fields s0 !! name)
    /\ (forall name, name ∈ member_arrays -> name ∉ kept_by_deinitialize ->
          m_fields s !! name = Some (Detach (field s0 name))
          \/ m_fields s !! name = Some (GridData_Deinitialize (field s0 name)))
    /\ m_datavecStateNode s = GridDataVector_Deinitialize (m_datavecStateNode s0)
    /\ m_datavecStateREdge s = GridDataVector_Deinitialize (m_datavecStateREdge s0)
    /\ m_datavecTracers s = GridDataVector_Deinitialize (m_datavecTracers s0).
Proof.
  intros Hdata.
  destruct (hoare_returns _ _ _ s0 (DeinitializeData_hoare s0 Hdata) eq_refl)
    as ([] & s & Hrun & Hs).
  eauto.
Qed.

Lemma InitializeDataRemote_result (iProcessor : Z) (s0 : GridPatch) :
  m_fContainsData s0 = true ->
  exists s,
    GridPatch_DeinitializeData s0 = (Returns tt, s)
    /\ GridPatch_InitializeDataRemote iProcessor s0
       = (Returns tt, set_iProcessor iProcessor s).
Proof.
  intros Hdata.
  destruct (DeinitializeData_result s0 Hdata) as (s & Hrun & _).
  exists s. split; [done|].
  unfold GridPatch_InitializeDataRemote. rewrite run_bind. cbn [get fst snd].
  rewrite Hdata. unfold seq. rewrite run_bind, Hrun. reflexivity.
Qed.

(** X9. Of two calls of InitializeDataRemote in a row only the second
    one counts: on every patch, with or without data, the pair leaves
    the patch that the second call alone leaves. *)
Theorem InitializeDataRemote_last_call_decides (r1 r2 : Z) (patch : GridPatch) :
  (GridPatch_InitializeDataRemote r1 ;;; GridPatch_InitializeDataRemote r2) patch
  = GridPatch_InitializeDataRemote r2 patch.
Proof.
  unfold seq. rewrite run_bind.
  destruct (m_fContainsData patch) eqn:Hdata.
  - destruct (InitializeDataRemote_result r1 patch Hdata) as (s & Hrun & ->).
    destruct (InitializeDataRemote_result r2 patch Hdata) as (s' & Hrun' & ->).
    assert (s' = s) as -> by congruence.
    destruct (DeinitializeData_result patch Hdata) as (s'' & Hrun'' & Hstub & _).
    assert (s'' = s) as -> by congruence.
    cbn [fst snd]. by rewrite InitializeDataRemote_stub.
  - rewrite !InitializeDataRemote_stub by done. reflexivity.
Qed.

(** X10. DeinitializeData on a patch with data returns, marks the patch
    as a stub and keeps its index, box, connectivity and processor.  It
    releases every state and tracer slot and every member array that
    InitializeDataLocal allocates, except six that it never touches:
    the two contravariant metrics on edges, the vertical derivative on
    edges, the Coriolis parameter and the two reference states. *)
Theorem DeinitializeData_leaves_six_members (patch : GridPatch) :
  m_fContainsData patch = true ->
  exists patch',
    GridPatch_DeinitializeData patch = (Returns tt, patch')
    /\ m_fContainsData patch' = false
    /\ same_geometry patch patch'
    /\ (forall name, name ∈ kept_by_deinitialize ->
          name ∈ member_arrays /\ m_fields patch' !! name = m_fields patch !! name)
    /\ (forall name, name ∈ member_arrays -> name ∉ kept_by_deinitialize ->
          m_fields patch' !! name = Some (Detach (field patch name))
          \/ m_fields patch' !! name = Some (GridData_Deinitialize (field patch name)))
    /\ m_datavecStateNode patch' = GridDataVector_Deinitialize (m_datavecStateNode patch)
    /\ m_datavecStateREdge patch' = GridDataVector_Deinitialize (m_datavecStateREdge patch)
    /\ m_datavecTracers patch' = GridDataVector_Deinitialize (m_datavecTracers patch).
Proof.
  intros Hdata.
  destruct (DeinitializeData_result patch Hdata)
    as (s & Hrun & Hstub & Hgeo & Hkept & Hrel & HN & HR & HT).
  exists s. repeat (split; [done|]). split; [|done].
  intros name Hname. split; [|by apply Hkept].
  unfold kept_by_deinitialize in Hname. unfold member_arrays.
  repeat (apply elem_of_cons in Hname as [->|Hname];
          [repeat first [by left | right]|]).
  by apply elem_of_nil in Hname.
Qed.

(** X11. The life of the data of a patch.  On a stub InitializeDataLocal
    returns and gives the patch data; a second InitializeDataLocal is
    refused and changes nothing; InitializeDataRemote then returns and
    leaves a stub of the given processor with the index, box and
    connectivity of the first patch, on which InitializeDataLocal
    returns again. *)
Theorem patch_data_lifecycle (nRank r : Z) (g : Grid) (patch : GridPatch) :
  m_fContainsData patch = false ->
  0 <= GetComponentDataInstances (m_model g) ->
  0 <= GetTracerDataInstances (m_model g) ->
  exists s1 s2 s3,
    GridPatch_InitializeDataLocal nRank g patch = (Returns tt, s1)
    /\ m_fContainsData s1 = true /\ m_iProcessor s1 = nRank
    /\ GridPatch_InitializeDataLocal nRank g s1
       = (Raises (Fatal "Attempting to initialize a previously initialized GridPatch."), s1)
    /\ GridPatch_InitializeDataRemote r s1 = (Returns tt, s2)
    /\ m_fContainsData s2 = false /\ m_iProcessor s2 = r
    /\ m_ixPatch s2 = m_ixPatch patch /\ m_box s2 = m_box patch
    /\ m_connect s2 = m_connect patch
    /\ GridPatch_InitializeDataLocal nRank g s2 = (Returns tt, s3)
    /\ m_fContainsData s3 = true /\ m_iProcessor s3 = nRank
    /\ m_ixPatch s3 = m_ixPatch patch /\ m_box s3 = m_box patch
    /\ m_connect s3 = m_connect patch.
Proof.
  intros Hstub Hc Ht.
  destruct (InitializeDataLocal_returns nRank g patch Hstub Hc Ht)
    as (s1 & Hrun1 & Hdata1 & Hproc1 & Hbox1 & Hix1 & Hcon1 & _).
  destruct (InitializeDataRemote_result r s1 Hdata1) as (d & Hd & Hrun2).
  destruct (DeinitializeData_result s1 Hdata1)
    as (d' & Hd' & Hstub2 & (Hix2 & Hbox2 & Hcon2 & _) & _).
  assert (d' = d) as -> by congruence.
  assert (Hstub2' : m_fContainsData (set_iProcessor r d) = false) by done.
  destruct (InitializeDataLocal_returns nRank g _ Hstub2' Hc Ht)
    as (s3 & Hrun3 & Hdata3 & Hproc3 & Hbox3 & Hix3 & Hcon3 & _).
  exists s1, (set_iProcessor r d), s3.
  split; [done|]. split; [done|]. split; [done|]. split.
  { unfold GridPatch_InitializeDataLocal. rewrite run_bind. cbn [get fst snd].
    rewrite Hdata1. unfold seq. rewrite run_bind. reflexivity. }
  split; [done|]. split; [done|]. split; [done|].
  cbn [m_ixPatch m_box m_connect set_iProcessor] in *.
  repeat split; congruence.
Qed.

End Lifecycle.

Lemma DeinitializeData_leaves_six_members_witness :
  exists patch',
    GridPatch_DeinitializeData (H := Demo.collaborators) SlotDemo.patch = (Returns tt, patch')
    /\ m_fContainsData patch' = false
    /\ length (m_datavecTracers patch') = 2%nat.
Proof.
  destruct (DeinitializeData_leaves_six_members (H := Demo.collaborators) SlotDemo.patch eq_refl)
    as (s & Hrun & Hstub & _ & _ & _ & _ & _ & HT).
  exists s. split; [done|]. split; [done|]. rewrite HT. reflexivity.
Defined.

Lemma patch_data_lifecycle_witness :
  exists s1 s2,
    GridPatch_InitializeDataLocal (H := Demo.collaborators) 0 GridDemo.grid
      (GridPatch_new 0 (PatchBox_make 0 0 1 0 2 0 2)) = (Returns tt, s1)
    /\ GridPatch_InitializeDataRemote (H := Demo.collaborators) 3 s1 = (Returns tt, s2)
    /\ m_iProcessor s2 = 3.
Proof.
  destruct (patch_data_lifecycle (H := Demo.collaborators) 0 3 GridDemo.grid
              (GridPatch_new 0 (PatchBox_make 0 0 1 0 2 0 2)) eq_refl
              ltac:(vm_compute; discriminate) ltac:(vm_compute; discriminate))
    as (s1 & s2 & s3 & H1 & _ & _ & _ & H2 & _ & H3 & _).
  by exists s1, s2.
Defined.

(** ** Exterior connections: what a call adds *)

Section ExteriorConnect.
Context `{Collaborators}.

(** The outcome of the four-argument call once both patches exist and
    the grid has answered. *)
Lemma ExteriorConnect_at_result
    (this pPatchSecond : ptr) (dir : Direction) (ixFirst ixSecond : Z)
    (g : Grid) (self second : GridPatch) opposing :
  pPatchSecond <> NULL ->
  heap g !! this = Some self ->
  heap g !! pPatchSecond = Some second ->
  GetOpposingDirection (GetPanel (m_box self)) (GetPanel (m_box second)) dir = Some opposing ->
  GridPatch_ExteriorConnect_at this dir pPatchSecond ixFirst ixSecond g
  = if sufficient_interior dir (m_box self) (Model_GetHaloElements (m_model g))
         ixFirst ixSecond
    then (Returns tt,
          connected g this self (exterior_neighbor g second dir opposing ixFirst ixSecond))
    else (Raises (Fatal insufficient_interior_msg), g).
Proof.
  intros Hnull Hself Hsecond Hopp.
  unfold GridPatch_ExteriorConnect_at.
  rewrite bool_decide_eq_false_2 by done.
  rewrite run_bind. unfold deref at 1. rewrite Hself.
  rewrite run_bind. unfold get at 1. rewrite run_bind. unfold deref at 1. rewrite Hsecond.
  rewrite run_bind. unfold external at 1. rewrite Hopp.
  cbn [ret]. unfold connected, exterior_neighbor, sufficient_interior.
  destruct dir; cbn [bool_decide decide_rel andb is_edge];
    repeat match goal with
    | |- context [bool_decide (?a = ?b)] =>
        first [ rewrite (bool_decide_eq_true_2 (a = b)) by reflexivity
              | rewrite (bool_decide_eq_false_2 (a = b)) by discriminate ]
    end; cbn [andb];
    repeat (rewrite run_bind; cbn [throw_if ret]);
    try (unfold on_patch, modify; rewrite Hself; reflexivity);
    match goal with
    | |- context [throw_if ?c _] =>
        match goal with
        | |- context [if ?b then (Returns _, _) else _] =>
            destruct b eqn:Hsuf;
            [ replace c with false by (symmetry; apply andb_true_iff in Hsuf; lia)
            | replace c with true by (symmetry; apply andb_false_iff in Hsuf; lia) ]
        end
    end; cbn [throw_if ret raise]; repeat (rewrite run_bind; cbn [throw_if ret]);
    try reflexivity;
    unfold on_patch, modify; rewrite Hself; reflexivity.
Qed.


(** X13. The four-argument ExteriorConnect adds one relation or nothing.
    With a null second patch it returns and the grid is as before; when
    it raises the grid is as before; and when it returns for a second
    patch that is not null, the only change is one relation appended to
    the connectivity of the first patch, with the direction, the index
    of the second patch and the two positions of the call: the second
    patch gets no relation back. *)
Theorem ExteriorConnect_adds_one_relation_or_nothing
    (this pPatchSecond : ptr) (dir : Direction) (ixFirst ixSecond : Z) (g : Grid) :
  exists out g',
    GridPatch_ExteriorConnect_at this dir pPatchSecond ixFirst ixSecond g = (out, g')
    /\ (pPatchSecond = NULL -> out = Returns tt /\ g' = g)
    /\ (forall e, out = Raises e -> g' = g)
    /\ (pPatchSecond <> NULL -> out = Returns tt ->
        exists self second n,
          heap g !! this = Some self
          /\ heap g !! pPatchSecond = Some second
          /\ g' = connected g this self n
          /\ m_dir n = dir /\ m_ixNeighbor n = m_ixPatch second
          /\ m_ixFirst n = ixFirst /\ m_ixSecond n = ixSecond
          /\ (this <> pPatchSecond -> heap g' !! pPatchSecond = Some second)).
Proof.
  destruct (decide (pPatchSecond = NULL)) as [Hnull|Hnull].
  { exists (Returns tt), g. unfold GridPatch_ExteriorConnect_at.
    rewrite bool_decide_eq_true_2 by done. repeat split; done. }
  destruct (heap g !! this) as [self|] eqn:Hself.
  2:{ eexists _, g. split.
      - unfold GridPatch_ExteriorConnect_at. rewrite bool_decide_eq_false_2 by done.
        rewrite run_bind. unfold deref at 1. rewrite Hself. reflexivity.
      - repeat split; done. }
  destruct (heap g !! pPatchSecond) as [second|] eqn:Hsecond.
  2:{ eexists _, g. split.
      - unfold GridPatch_ExteriorConnect_at. rewrite bool_decide_eq_false_2 by done.
        rewrite run_bind. unfold deref at 1. rewrite Hself.
        rewrite run_bind. unfold get at 1. rewrite run_bind. unfold deref at 1.
        rewrite Hsecond. reflexivity.
      - repeat split; done. }
  destruct (GetOpposingDirection (GetPanel (m_box self)) (GetPanel (m_box second)) dir)
    as [opposing|] eqn:Hopp.
  2:{ eexists _, g. split.
      - unfold GridPatch_ExteriorConnect_at. rewrite bool_decide_eq_false_2 by done.
        rewrite run_bind. unfold deref at 1. rewrite Hself.
        rewrite run_bind. unfold get at 1. rewrite run_bind. unfold deref at 1.
        rewrite Hsecond. rewrite run_bind. unfold external at 1. rewrite Hopp.
        reflexivity.
      - repeat split; done. }
  rewrite (ExteriorConnect_at_result _ _ _ _ _ _ _ _ _ Hnull Hself Hsecond Hopp).
  destruct (sufficient_interior _ _ _ _ _).
  - eexists _, _. split; [reflexivity|]. split; [done|]. split; [done|].
    intros _ _. eexists self, second, _. repeat (split; [reflexivity|]).
    intros Hne. unfold connected. cbn. by rewrite lookup_insert_ne.
  - eexists _, _. split; [reflexivity|]. split; [done|]. split; [congruence|]. done.
Qed.

End ExteriorConnect.


(** ** InitializeConnectivity only appends relations *)

Section Keeps.
Context {S : Type} (I : S -> Prop).

Lemma keeps_ret {A} (a : A) : keeps I (ret a).
Proof. by apply hoare_ret. Qed.

Lemma keeps_raise {A} e : keeps I (raise (A := A) e).
Proof. by apply hoare_raise. Qed.

Lemma keeps_bind {A B} (m : M S A) (k : A -> M S B) :
  keeps I m -> (forall a, keeps I (k a)) -> keeps I (bind m k).
Proof. intros Hm Hk. by apply (hoare_bind _ _ _ (fun _ => I)). Qed.

Lemma keeps_lift {A} (o : outcome A) : keeps I (lift o).
Proof. apply hoare_lift. intros s Hs. by destruct o. Qed.

Lemma keeps_external {A} who (o : option A) : keeps I (external who o).
Proof. apply hoare_external. intros s Hs. by destruct o. Qed.

Lemma keeps_throw_if (c : bool) msg : keeps I (throw_if c msg).
Proof. apply hoare_throw_if. intros s Hs. by destruct c. Qed.

Lemma keeps_vec_at {A} what (v : list A) i : keeps I (vec_at what v i).
Proof. apply hoare_vec_at. intros s Hs. by split. Qed.

Lemma keeps_modify (f : S -> S) : (forall s, I s -> I (f s)) -> keeps I (modify f).
Proof. intros Hf. by apply hoare_modify. Qed.

Lemma keeps_bind_get {A} (k : S -> M S A) :
  (forall s0, I s0 -> hoare (fun s => s = s0) (k s0) (fun _ => I) (fun _ => I)) ->
  keeps I (bind get k).
Proof. apply hoare_bind_get. Qed.

Lemma keeps_for_loop {A} (n : nat) next (body : Z -> A -> M S A) :
  (forall i a, keeps I (body i a)) -> forall i a, keeps I (for_loop n next body i a).
Proof.
  intros Hbody. induction n as [|n IH]; intros i a; cbn [for_loop].
  - apply keeps_ret.
  - apply keeps_bind; [apply Hbody | intros a'; apply IH].
Qed.

Lemma keeps_for_upto {A} lo hi (body : Z -> A -> M S A) a :
  (forall i a, keeps I (body i a)) -> keeps I (for_upto lo hi body a).
Proof. intros Hbody. by apply keeps_for_loop. Qed.

Lemma keeps_for_downto {A} hi lo (body : Z -> A -> M S A) a :
  (forall i a, keeps I (body i a)) -> keeps I (for_downto hi lo body a).
Proof. intros Hbody. by apply keeps_for_loop. Qed.

Lemma keeps_for_vec_from {A B} (v : list B) (body : Z -> B -> A -> M S A) :
  (forall i x a, x ∈ v -> keeps I (body i x a)) ->
  forall n a, keeps I (for_vec_from n v body a).
Proof.
  induction v as [|x v IH]; intros Hbody n a; cbn [for_vec_from].
  - apply keeps_ret.
  - apply keeps_bind; [apply Hbody; by left|].
    intros a'. apply IH. intros i y b Hy. apply Hbody. by right.
Qed.

Lemma keeps_for_vec {A B} (v : list B) (body : Z -> B -> A -> M S A) a :
  (forall i x a, x ∈ v -> keeps I (body i x a)) -> keeps I (for_vec v body a).
Proof. intros Hbody. by apply keeps_for_vec_from. Qed.

End Keeps.

Section OnlyAppends.
Context `{Collaborators}.

Lemma connectivity_grown_refl (g : Grid) : connectivity_grown g g.
Proof.
  split; [apply same_vectors_refl|].
  intros p. destruct (heap g !! p) as [patch|]; constructor.
  exists []. split; [|done]. cbn. rewrite app_nil_r. by destruct patch.
Qed.

(** The ways the four-argument ExteriorConnect can end. *)
Lemma ExteriorConnect_at_cases
    (this pPatchSecond : ptr) (dir : Direction) (ixFirst ixSecond : Z) (g : Grid) :
  (exists out, GridPatch_ExteriorConnect_at this dir pPatchSecond ixFirst ixSecond g = (out, g))
  \/ (exists self second opposing,
        heap g !! this = Some self /\ heap g !! pPatchSecond = Some second
        /\ GridPatch_ExteriorConnect_at this dir pPatchSecond ixFirst ixSecond g
           = (Returns tt,
              connected g this self
                (exterior_neighbor g second dir opposing ixFirst ixSecond))).
Proof.
  destruct (decide (pPatchSecond = NULL)) as [Hnull|Hnull].
  { left. eexists. unfold GridPatch_ExteriorConnect_at.
    by rewrite bool_decide_eq_true_2. }
  destruct (heap g !! this) as [self|] eqn:Hself.
  2:{ left. eexists. unfold GridPatch_ExteriorConnect_at.
      rewrite bool_decide_eq_false_2 by done.
      rewrite run_bind. unfold deref at 1. rewrite Hself. reflexivity. }
  destruct (heap g !! pPatchSecond) as [second|] eqn:Hsecond.
  2:{ left. eexists. unfold GridPatch_ExteriorConnect_at.
      rewrite bool_decide_eq_false_2 by done.
      rewrite run_bind. unfold deref at 1. rewrite Hself.
      rewrite run_bind. unfold get at 1. rewrite run_bind. unfold deref at 1.
      rewrite Hsecond. reflexivity. }
  destruct (GetOpposingDirection (GetPanel (m_box self)) (GetPanel (m_box second)) dir)
    as [opposing|] eqn:Hopp.
  2:{ left. eexists. unfold GridPatch_ExteriorConnect_at.
      rewrite bool_decide_eq_false_2 by done.
      rewrite run_bind. unfold deref at 1. rewrite Hself.
      rewrite run_bind. unfold get at 1. rewrite run_bind. unfold deref at 1.
      rewrite Hsecond. rewrite run_bind. unfold external at 1. rewrite Hopp.
      reflexivity. }
  rewrite (ExteriorConnect_at_result _ _ _ _ _ _ _ _ _ Hnull Hself Hsecond Hopp).
  destruct (sufficient_interior _ _ _ _ _); [right | left]; eauto 10.
Qed.

Lemma connectivity_grown_connected (g0 g : Grid) p self second q n :
  connectivity_grown g0 g ->
  p ∈ m_vecActiveGridPatches g0 ->
  heap g !! p = Some self ->
  heap g !! q = Some second ->
  m_ixNeighbor n = m_ixPatch second ->
  connectivity_grown g0 (connected g p self n).
Proof.
  intros [Hvec Hheap] Hp Hself Hsecond Hn. split.
  { unfold connected. by apply same_vectors_set_heap. }
  intros p'. unfold connected. cbn [heap set_heap].
  destruct (decide (p' = p)) as [->|Hne].
  2:{ rewrite lookup_insert_ne by done. apply Hheap. }
  rewrite lookup_insert_eq.
  pose proof (Hheap p) as Hp0. rewrite Hself in Hp0.
  inversion Hp0 as [patch0 self' (ns & -> & Hns & Hall) Heq0 |]; subst.
  constructor. exists (ns ++ [n]). split; [|split].
  - cbn. rewrite fmap_app, app_assoc. cbn.
    destruct Hvec as (Hmodel & HnR & _). unfold with_buffers.
    rewrite Hmodel, HnR. reflexivity.
  - done.
  - apply Forall_app. split; [done|]. constructor; [|done].
    pose proof (Hheap q) as Hq0. rewrite Hsecond in Hq0.
    inversion Hq0 as [second0 second' (ns' & -> & _) Heq1 |]; subst.
    exists q, second0. split; [done|]. by rewrite Hn.
Qed.

Section From.
Variable g0 : Grid.

Lemma keeps_deref p : keeps (connectivity_grown g0) (deref p).
Proof. intros g Hg. unfold deref. by destruct (heap g !! p). Qed.

Lemma keeps_ExteriorConnect_at p dir q a b :
  p ∈ m_vecActiveGridPatches g0 ->
  keeps (connectivity_grown g0) (GridPatch_ExteriorConnect_at p dir q a b).
Proof.
  intros Hp g Hg.
  destruct (ExteriorConnect_at_cases p q dir a b g)
    as [[out ->] | (self & second & opposing & Hself & Hsecond & ->)].
  - by destruct out.
  - by eapply connectivity_grown_connected.
Qed.

Lemma keeps_ExteriorConnect p dir q :
  p ∈ m_vecActiveGridPatches g0 ->
  keeps (connectivity_grown g0) (GridPatch_ExteriorConnect p dir q).
Proof.
  intros Hp. unfold GridPatch_ExteriorConnect.
  apply keeps_bind; [apply keeps_deref | intros self].
  apply keeps_bind; [|intros ixs; by apply keeps_ExteriorConnect_at].
  destruct dir; first [apply keeps_ret | apply keeps_raise].
Qed.

Lemma keeps_in_grid {A} (m : M Grid A) :
  keeps (connectivity_grown g0) m -> keeps (grown_frame g0) (in_grid m).
Proof.
  intros Hm fr Hfr. unfold in_grid, zoom. specialize (Hm (fr_grid fr) Hfr).
  by destruct (m (fr_grid fr)) as [[a|e] g'].
Qed.

Lemma keeps_current_patch : keeps (grown_frame g0) current_patch.
Proof.
  apply keeps_bind_get. intros fr Hfr. eapply hoare_pre; [apply keeps_vec_at|].
  by intros ? ->.
Qed.

Lemma keeps_patch_at i : keeps (grown_frame g0) (patch_at i).
Proof.
  apply keeps_bind_get. intros fr Hfr. eapply hoare_pre; [apply keeps_vec_at|].
  by intros ? ->.
Qed.

Lemma keeps_incr_ix : keeps (grown_frame g0) incr_ix.
Proof. by apply keeps_modify. Qed.

Lemma keeps_store_sample a b panel : keeps (grown_frame g0) (store_sample a b panel).
Proof.
  intros fr Hfr. unfold store_sample, bind, get, lift, put.
  repeat (destruct (vec_set _ _ _ _); [|done]). done.
Qed.

Lemma keeps_lookup_patches box : keeps (grown_frame g0) (lookup_patches box).
Proof.
  apply keeps_bind_get. intros fr Hfr.
  apply (hoare_pre _ (grown_frame g0)); [|by intros ? ->].
  apply keeps_bind; [apply keeps_external | intros v]. by apply keeps_modify.
Qed.

Lemma keeps_verify_index_length box : keeps (grown_frame g0) (verify_index_length box).
Proof.
  apply keeps_bind_get. intros fr Hfr.
  apply (hoare_pre _ (grown_frame g0)); [|by intros ? ->]. apply keeps_throw_if.
Qed.

Ltac kept :=
  cbv zeta;
  lazymatch goal with
  | |- keeps _ (bind _ _) => apply keeps_bind; [kept | intros ?; kept]
  | |- keeps _ (if ?c then _ else _) => destruct c; kept
  | |- keeps _ (ret _) => apply keeps_ret
  | |- keeps _ (for_upto _ _ _ _) => apply keeps_for_upto; intros ? ?; kept
  | |- keeps _ (for_downto _ _ _ _) => apply keeps_for_downto; intros ? ?; kept
  | |- keeps _ (modify (set_ix _)) => by apply keeps_modify
  | |- keeps _ current_patch => apply keeps_current_patch
  | |- keeps _ (patch_at _) => apply keeps_patch_at
  | |- keeps _ incr_ix => apply keeps_incr_ix
  | |- keeps _ (store_sample _ _ _) => apply keeps_store_sample
  | |- keeps _ (in_grid (Connectivity_ExteriorConnect_at _ _ _ _ _)) =>
      apply keeps_in_grid, keeps_ExteriorConnect_at; assumption
  | |- keeps _ (in_grid (Connectivity_ExteriorConnect _ _ _)) =>
      apply keeps_in_grid, keeps_ExteriorConnect; assumption
  end.

Lemma keeps_sample_boundary box : keeps (grown_frame g0) (sample_boundary box).
Proof. unfold sample_boundary. kept. Qed.

Lemma keeps_connect_boundary p box :
  p ∈ m_vecActiveGridPatches g0 -> keeps (grown_frame g0) (connect_boundary p box).
Proof.
  intros Hp.
  unfold connect_boundary, connect_corner, connect_bottom_edge, connect_right_edge,
    connect_top_edge, connect_left_edge.
  kept.
Qed.

Lemma keeps_InitializeConnectivity_patch p :
  p ∈ m_vecActiveGridPatches g0 -> keeps (grown_frame g0) (InitializeConnectivity_patch p).
Proof.
  intros Hp. unfold InitializeConnectivity_patch.
  apply keeps_bind; [apply keeps_in_grid, keeps_deref | intros patch].
  apply keeps_bind; [apply keeps_sample_boundary | intros _].
  apply keeps_bind; [apply keeps_lookup_patches | intros _].
  apply keeps_bind; [apply keeps_verify_index_length | intros _].
  apply keeps_bind; [by apply keeps_connect_boundary | intros _].
  apply keeps_verify_index_length.
Qed.

Lemma keeps_GetLongestActivePatchPerimeter :
  keeps (connectivity_grown g0) Grid_GetLongestActivePatchPerimeter.
Proof.
  unfold Grid_GetLongestActivePatchPerimeter.
  apply keeps_bind_get. intros g Hg.
  apply (hoare_pre _ (connectivity_grown g0)); [|by intros ? ->].
  apply keeps_for_vec. intros i p n _.
  apply keeps_bind; [apply keeps_deref | intros patch; apply keeps_ret].
Qed.

End From.

(** X14. InitializeConnectivity only appends relations.  Whether it
    returns or raises, the grid it leaves has the model, the vectors of
    patches and every patch object of before, except that relations may
    have been appended to the connectivity of active patches: each of
    them towards a patch of the grid, none removed or reordered, and
    no patch that is not active gets one.  A call that raises does not
    undo the relations it has already added. *)
Theorem InitializeConnectivity_only_appends_relations (g : Grid) :
  exists out g',
    Grid_InitializeConnectivity g = (out, g') /\ connectivity_grown g g'.
Proof.
  unfold Grid_InitializeConnectivity. rewrite run_bind.
  pose proof (keeps_GetLongestActivePatchPerimeter g g (connectivity_grown_refl g)) as Hn.
  destruct (Grid_GetLongestActivePatchPerimeter g) as [[n|e] g1]; [|eauto].
  assert (Hloop : keeps (grown_frame g)
            (for_vec (m_vecActiveGridPatches g1)
               (fun _ pPatch _ => InitializeConnectivity_patch pPatch) tt)).
  { apply keeps_for_vec. intros _ p _ Hp. apply keeps_InitializeConnectivity_patch.
    destruct Hn as [(_ & _ & _ & _ & Hactive & _) _]. by rewrite <- Hactive. }
  specialize (Hloop (Frame_initial g1 (n + 4)) Hn).
  destruct (for_vec _ _ _ _) as [[[]|e] fr]; eauto.
Qed.

End OnlyAppends.

(** ** Consolidation to the root: the messages that go out *)

Section ToRoot.
Context `{Collaborators}.

Lemma send_step_result nRank ixPatch t data (st : ConsolidationStatus) (s : SenderState) :
  (forall st' t', Contains (GetNextSendRequest st') t' = Contains st' t') ->
  (forall t', Contains (sender_status s) t' = Contains st t') ->
  (forall t', Contains (sender_status (send_step nRank ixPatch t data s)) t' = Contains st t')
  /\ sent (send_step nRank ixPatch t data s)
     = sent s ++ (if Contains st t then [message_of nRank ixPatch t data] else []).
Proof.
  intros Hnext Hs. unfold send_step. rewrite Hs.
  destruct (Contains st t); cbn [sender_status sent].
  - split; [|done]. intros t'. by rewrite Hnext.
  - split; [done|]. by rewrite app_nil_r.
Qed.

Lemma vec_at_first {S A} what (v : list A) (x : A) (s : S) :
  v !! 0%nat = Some x -> vec_at what v 0 s = (Returns x, s).
Proof.
  intros Hx. unfold vec_at, lift, vec_get. change (0 <? 0) with false.
  change (Z.to_nat 0) with 0%nat. by rewrite Hx.
Qed.

(** The body of the loop for one patch. *)
Lemma ConsolidateDataToRoot_patch nRank (g : Grid) (st : ConsolidationStatus)
    (p : ptr) (patch : GridPatch) (s : SenderState) dataState dataTracers
    (body : Z -> ptr -> unit -> M SenderState unit) n :
  (forall st' t', Contains (GetNextSendRequest st') t' = Contains st' t') ->
  (forall t', Contains (sender_status s) t' = Contains st t') ->
  heap g !! p = Some patch ->
  m_datavecStateNode patch !! 0%nat = Some dataState ->
  m_datavecTracers patch !! 0%nat = Some dataTracers ->
  sendable st patch ->
  body = (fun _ p _ =>
    pPatch <- lift (fst (deref p g)) ;;
    dataState <- vec_at "m_datavecStateNode[0]" (m_datavecStateNode pPatch) 0 ;;
    dataTracers <- vec_at "m_datavecTracers[0]" (m_datavecTracers pPatch) 0 ;;
    let dataJacobian := field pPatch "m_dataJacobian" in
    let dataTopography := field pPatch "m_dataTopography" in
    let dataLongitude := field pPatch "m_dataLon" in
    let dataLatitude := field pPatch "m_dataLat" in
    let dataZLevels := field pPatch "m_dataZLevels" in
    let send (eDataType : DataType) (data : DataArray) : M SenderState unit :=
      s <- get ;;
      if Contains (sender_status s) eDataType
      then MPI_Isend_to_root nRank data (m_ixPatch pPatch) eDataType
      else ret tt in
    send DataType_State dataState ;;;
    send DataType_Tracers dataTracers ;;;
    send DataType_Jacobian dataJacobian ;;;
    send DataType_Topography dataTopography ;;;
    send DataType_Longitude dataLongitude ;;;
    send DataType_Latitude dataLatitude ;;;
    send DataType_Z dataZLevels) ->
  exists s',
    body n p tt s = (Returns tt, s')
    /\ (forall t', Contains (sender_status s') t' = Contains st t')
    /\ sent s' = sent s ++ patch_messages nRank st patch.
Proof.
  intros Hnext Hs Hp HN HT Hok ->.
  set (ix := m_ixPatch patch).
  destruct (send_step_result nRank ix DataType_State dataState st _ Hnext Hs) as [H1 E1].
  destruct (send_step_result nRank ix DataType_Tracers dataTracers st _ Hnext H1) as [H2 E2].
  destruct (send_step_result nRank ix DataType_Jacobian (field patch "m_dataJacobian")
              st _ Hnext H2) as [H3 E3].
  destruct (send_step_result nRank ix DataType_Topography (field patch "m_dataTopography")
              st _ Hnext H3) as [H4 E4].
  destruct (send_step_result nRank ix DataType_Longitude (field patch "m_dataLon")
              st _ Hnext H4) as [H5 E5].
  destruct (send_step_result nRank ix DataType_Latitude (field patch "m_dataLat")
              st _ Hnext H5) as [H6 E6].
  destruct (send_step_result nRank ix DataType_Z (field patch "m_dataZLevels")
              st _ Hnext H6) as [H7 E7].
  eexists. split.
  { cbv zeta. rewrite run_bind. unfold lift at 1, deref at 1. rewrite Hp. cbn [fst].
    rewrite run_bind, (vec_at_first _ _ _ _ HN).
    rewrite run_bind, (vec_at_first _ _ _ _ HT).
    assert (Hsend : forall t data s0,
              (forall t', Contains (sender_status s0) t' = Contains st t') ->
              consolidated_data patch t = Some data ->
              (s <- get ;;
               if Contains (sender_status s) t
               then MPI_Isend_to_root nRank data ix t else ret tt) s0
              = (Returns tt, send_step nRank ix t data s0)).
    { intros t data s0 Hs0 Hdata. unfold send_step. rewrite run_bind. cbn [get].
      destruct (Contains (sender_status s0) t) eqn:Hc; [|done].
      unfold MPI_Isend_to_root, seq. rewrite run_bind. unfold lift.
      rewrite (Hok t data) by (by rewrite <- ?(Hs0 t)). reflexivity. }
    fold ix. unfold seq.
    rewrite run_bind, (Hsend _ _ _ Hs) by exact HN.
    rewrite run_bind, (Hsend _ _ _ H1) by exact HT.
    rewrite run_bind, (Hsend _ _ _ H2) by reflexivity.
    rewrite run_bind, (Hsend _ _ _ H3) by reflexivity.
    rewrite run_bind, (Hsend _ _ _ H4) by reflexivity.
    rewrite run_bind, (Hsend _ _ _ H5) by reflexivity.
    rewrite (Hsend _ _ _ H6) by reflexivity. reflexivity. }
  split; [exact H7|].
  rewrite E7, E6, E5, E4, E3, E2, E1. rewrite <- !app_assoc. f_equal.
  unfold patch_messages, consolidated_types. cbn [List.filter].
  destruct (Contains st DataType_State), (Contains st DataType_Tracers),
    (Contains st DataType_Jacobian), (Contains st DataType_Topography),
    (Contains st DataType_Longitude), (Contains st DataType_Latitude),
    (Contains st DataType_Z);
    unfold omap; cbn [list_omap consolidated_data];
    rewrite ?HN, ?HT; reflexivity.
Qed.

Lemma patch_messages_length nRank (st : ConsolidationStatus) (patch : GridPatch) :
  is_Some (m_datavecStateNode patch !! 0%nat) ->
  is_Some (m_datavecTracers patch !! 0%nat) ->
  length (patch_messages nRank st patch)
  = length (List.filter (Contains st) consolidated_types).
Proof.
  intros [dataState HN] [dataTracers HT].
  unfold patch_messages, consolidated_types. cbn [List.filter].
  destruct (Contains st DataType_State), (Contains st DataType_Tracers),
    (Contains st DataType_Jacobian), (Contains st DataType_Topography),
    (Contains st DataType_Longitude), (Contains st DataType_Latitude),
    (Contains st DataType_Z);
    unfold omap; cbn [list_omap consolidated_data];
    rewrite ?HN, ?HT; reflexivity.
Qed.

(** X15. ConsolidateDataToRoot sends one message for each active patch
    and each requested type: patch by patch in the order of the active
    patches, and for a patch in the order State, Tracers, Jacobian,
    Topography, Longitude, Latitude, Z, each tagged with the index of
    the patch and the type.  So a status that requests k types makes a
    process with n active patches send n times k messages, on the root
    as on any other rank.  It needs the first state and tracer slot
    of every active patch, requested or not, and for every requested
    type an array that has storage and an element: the address of its
    first element is taken before the send.  The status is assumed to
    request the same types after it has handed out a send request. *)
Theorem ConsolidateDataToRoot_sends_each_patch_and_type
    (nRank : Z) (g : Grid) (st : ConsolidationStatus) (sent0 : list Message)
    (patches : list GridPatch) :
  (forall st' t, Contains (GetNextSendRequest st') t = Contains st' t) ->
  Contains st DataType_Tracers && (GetTracers (m_model g) =? 0) = false ->
  Forall2 (fun p patch =>
             heap g !! p = Some patch
             /\ is_Some (m_datavecStateNode patch !! 0%nat)
             /\ is_Some (m_datavecTracers patch !! 0%nat)
             /\ sendable st patch)
    (m_vecActiveGridPatches g) patches ->
  exists st',
    Grid_ConsolidateDataToRoot nRank g {| sender_status := st; sent := sent0 |}
    = (Returns tt,
       {| sender_status := st';
          sent := sent0 ++ concat (patch_messages nRank st <$> patches) |})
    /\ (forall t, Contains st' t = Contains st t)
    /\ length (concat (patch_messages nRank st <$> patches))
       = (length (m_vecActiveGridPatches g)
          * length (List.filter (Contains st) consolidated_types))%nat.
Proof.
  intros Hnext Htracers Hpatches.
  unfold Grid_ConsolidateDataToRoot. rewrite run_bind. cbn [get sender_status].
  rewrite Htracers. unfold seq. rewrite run_bind. cbn [throw_if ret].
  unfold for_vec.
  match goal with
  | |- context [for_vec_from 0 _ ?b tt _] => set (body := b)
  end.
  assert (Hloop : forall ps patches n s,
            Forall2 (fun p patch =>
                       heap g !! p = Some patch
                       /\ is_Some (m_datavecStateNode patch !! 0%nat)
                       /\ is_Some (m_datavecTracers patch !! 0%nat)
                       /\ sendable st patch) ps patches ->
            (forall t, Contains (sender_status s) t = Contains st t) ->
            exists s',
              for_vec_from n ps body tt s = (Returns tt, s')
              /\ (forall t, Contains (sender_status s') t = Contains st t)
              /\ sent s' = sent s ++ concat (patch_messages nRank st <$> patches)
              /\ length (concat (patch_messages nRank st <$> patches))
                 = (length ps * length (List.filter (Contains st) consolidated_types))%nat).
  { clear Hpatches patches. intros ps patches n s Hall. revert n s.
    induction Hall as [|p patch ps patches (Hp & [dN HN] & [dT HT] & Hok) Hall IH];
      intros n s Hs.
    - exists s. cbn. by rewrite app_nil_r.
    - cbn [for_vec_from].
      destruct (ConsolidateDataToRoot_patch nRank g st p patch s dN dT body n
                  Hnext Hs Hp HN HT Hok eq_refl) as (s1 & Hrun1 & Hs1 & Hsent1).
      destruct (IH (n + 1) s1 Hs1) as (s2 & Hrun2 & Hs2 & Hsent2 & Hlen).
      exists s2. rewrite run_bind, Hrun1, Hrun2.
      split; [done|]. split; [done|]. split.
      + rewrite Hsent2, Hsent1. cbn. by rewrite app_assoc.
      + rewrite fmap_cons. cbn [concat length].
        rewrite length_app, Hlen, patch_messages_length by eauto. done. }
  destruct (Hloop _ patches 0 {| sender_status := st; sent := sent0 |} Hpatches
              ltac:(done)) as ([st' sent'] & Hrun & Hst & Hsent & Hlen).
  exists st'. rewrite Hrun. cbn [sent sender_status] in *. by subst.
Qed.

(** Without storage for a requested type the address of the first
    element is read through a null pointer: nothing is sent. *)
Lemma ConsolidateDataToRoot_needs_storage :
  fst (Grid_ConsolidateDataToRoot (H := Demo.collaborators) 1
         (set_vecActiveGridPatches [1%nat] GridDemo.grid)
         (@Build_SenderState Demo.collaborators
            {| Demo.st_patches := 2; Demo.st_types := [DataType_State; DataType_Z];
               Demo.st_received := [] |} []))
  = Raises (Undefined "data[0][0]").
Proof. vm_compute. reflexivity. Qed.

End ToRoot.

Lemma ConsolidateDataToRoot_sends_each_patch_and_type_witness :
  exists s',
    Grid_ConsolidateDataToRoot (H := Demo.collaborators) 1 SendDemo.grid
      (@Build_SenderState Demo.collaborators
         {| Demo.st_patches := 2; Demo.st_types := [DataType_State; DataType_Z];
            Demo.st_received := [] |} [])
    = (Returns tt, s')
    /\ MPI_TAG <$> sent s'
       = [@GenerateTag Demo.collaborators 0 DataType_State;
          @GenerateTag Demo.collaborators 0 DataType_Z]
    /\ length <$> (msg_data <$> sent s') = [16%nat; 32%nat].
Proof.
  destruct (ConsolidateDataToRoot_sends_each_patch_and_type (H := Demo.collaborators)
              1 SendDemo.grid
              {| Demo.st_patches := 2; Demo.st_types := [DataType_State; DataType_Z];
                 Demo.st_received := [] |}
              [] [SendDemo.patch])
    as (st' & Hrun & _ & Hlen).
  - reflexivity.
  - reflexivity.
  - constructor; [|constructor].
    split; [vm_compute; reflexivity|]. split; [vm_compute; eauto|].
    split; [vm_compute; eauto|].
    intros t data Ht Hdata.
    destruct t; try discriminate Ht; vm_compute in Hdata;
      injection Hdata as <-; vm_compute; reflexivity.
  - eexists. split; [exact Hrun|]. cbn [sent app]. split; vm_compute; reflexivity.
Defined.
(** ** Receive unpacks into one slot *)

Lemma replaced_refl (v : list DataArray) (i : Z) : replaced v v i (slot v i).
Proof. by repeat split. Qed.

Lemma replaced_alter_then (v v' : list DataArray) (i : Z) (f : DataArray -> DataArray) x :
  0 <= i < size v ->
  replaced (alter f (Z.to_nat i) v) v' i x -> replaced v v' i x.
Proof.
  intros Hi (Hlen & Hslot & Hother). split; [|split].
  - by rewrite Hlen, length_alter.
  - done.
  - intros j Hj. rewrite Hother by done. by rewrite list_lookup_alter_ne.
Qed.

Lemma slot_alter (v : list DataArray) (i : Z) (f : DataArray -> DataArray) :
  0 <= i < size v -> slot (alter f (Z.to_nat i) v) i = f (slot v i).
Proof.
  intros Hi. unfold slot. rewrite list_lookup_alter, decide_True by done.
  destruct (v !! Z.to_nat i) eqn:Hv; [reflexivity|].
  apply lookup_ge_None in Hv. unfold size in Hi. lia.
Qed.

Section Receive.
Context `{Collaborators}.

Lemma Receive_state_loop (this : GridPatch) (i : Z) (received : list Z) :
  Forall (fun n => 0 <= n < size (m_connect this)) received ->
  forall (n0 : Z) (s : GridPatch),
  0 <= i < size (m_datavecStateNode s) ->
  0 <= i < size (m_datavecStateREdge s) ->
  exists s',
    for_vec_from n0 received (fun _ n _ =>
      pNeighbor <- vec_at "m_connect.WaitReceive()" (m_connect this) n ;;
      this <- get ;;
      v <- slot_update "m_datavecStateNode[iDataIndex]" (m_datavecStateNode this)
             i (Neighbor_Unpack pNeighbor) ;;
      modify (set_datavecStateNode v) ;;;
      v <- slot_update "m_datavecStateREdge[iDataIndex]" (m_datavecStateREdge this)
             i (Neighbor_Unpack pNeighbor) ;;
      modify (set_datavecStateREdge v)) tt s = (Returns tt, s')
    /\ same_members s s'
    /\ m_datavecTracers s' = m_datavecTracers s
    /\ replaced (m_datavecStateNode s) (m_datavecStateNode s') i
         (unpacked this received (slot (m_datavecStateNode s) i))
    /\ replaced (m_datavecStateREdge s) (m_datavecStateREdge s') i
         (unpacked this received (slot (m_datavecStateREdge s) i)).
Proof.
  induction 1 as [|n received Hn Hall IH]; intros n0 s HiN HiR.
  - exists s. split; [done|]. split; [by repeat split|]. split; [done|].
    split; apply replaced_refl.
  - cbn [for_vec_from]. rewrite run_bind. rewrite run_bind. unfold vec_at at 1, lift at 1.
    destruct (m_connect this !! Z.to_nat n) as [pNeighbor|] eqn:Hnb.
    2:{ apply lookup_ge_None in Hnb. unfold size in Hn. lia. }
    rewrite (vec_get_Some _ _ _ pNeighbor) by (done || lia).
    rewrite run_bind. cbn [get]. rewrite run_bind, slot_update_alter by done.
    unfold seq. rewrite run_bind. cbn [modify].
    rewrite run_bind, slot_update_alter by done. cbn [modify].
    match goal with
    | |- context [for_vec_from _ _ _ tt ?s1] =>
        destruct (IH (n0 + 1) s1) as (s' & Hrun & Hsame & HT & HN & HR)
    end.
    { cbn. unfold size in *. by rewrite length_alter. }
    { cbn. unfold size in *. by rewrite length_alter. }
    exists s'. split; [exact Hrun|]. cbn in Hsame, HT, HN, HR.
    split; [exact Hsame|]. split; [exact HT|].
    rewrite !slot_alter in * by done.
    unfold unpacked at 1 2. cbn [foldl]. rewrite Hnb.
    split; eapply replaced_alter_then; eassumption.
Qed.

Lemma Receive_tracers_loop (this : GridPatch) (i : Z) (received : list Z) :
  Forall (fun n => 0 <= n < size (m_connect this)) received ->
  forall (n0 : Z) (s : GridPatch),
  0 <= i < size (m_datavecTracers s) ->
  exists s',
    for_vec_from n0 received (fun _ n _ =>
      pNeighbor <- vec_at "m_connect.WaitReceive()" (m_connect this) n ;;
      this <- get ;;
      v <- slot_update "m_datavecTracers[iDataIndex]" (m_datavecTracers this)
             i (Neighbor_Unpack pNeighbor) ;;
      modify (set_datavecTracers v)) tt s = (Returns tt, s')
    /\ same_members s s'
    /\ m_datavecStateNode s' = m_datavecStateNode s
    /\ m_datavecStateREdge s' = m_datavecStateREdge s
    /\ replaced (m_datavecTracers s) (m_datavecTracers s') i
         (unpacked this received (slot (m_datavecTracers s) i)).
Proof.
  induction 1 as [|n received Hn Hall IH]; intros n0 s Hi.
  - exists s. split; [done|]. split; [by repeat split|]. split; [done|].
    split; [done|]. apply replaced_refl.
  - cbn [for_vec_from]. rewrite run_bind. rewrite run_bind. unfold vec_at at 1, lift at 1.
    destruct (m_connect this !! Z.to_nat n) as [pNeighbor|] eqn:Hnb.
    2:{ apply lookup_ge_None in Hnb. unfold size in Hn. lia. }
    rewrite (vec_get_Some _ _ _ pNeighbor) by (done || lia).
    rewrite run_bind. cbn [get]. rewrite run_bind, slot_update_alter by done.
    cbn [modify].
    match goal with
    | |- context [for_vec_from _ _ _ tt ?s1] =>
        destruct (IH (n0 + 1) s1) as (s' & Hrun & Hsame & HN & HR & HT)
    end.
    { cbn. unfold size in *. by rewrite length_alter. }
    exists s'. split; [exact Hrun|]. cbn in Hsame, HT, HN, HR.
    split; [exact Hsame|]. split; [exact HN|]. split; [exact HR|].
    rewrite !slot_alter in * by done.
    unfold unpacked at 1. cbn [foldl]. rewrite Hnb.
    eapply replaced_alter_then; eassumption.
Qed.

(** X16. Receive for the state or the tracers, with the index of an
    existing slot and neighbours that are relations of the patch,
    returns, and the patch is as before but for that one slot: it holds
    what the neighbours have unpacked into it one after the other, in
    the order they were received; for the state, in both vectors.  The
    connectivity, the member arrays and the other slots are untouched. *)
Theorem Receive_unpacks_into_the_slot (this : GridPatch) (received : list Z)
    (t : DataType) (iDataIndex : Z) :
  has_slots t -> state_slots_agree this ->
  0 <= iDataIndex < size (slots this t) ->
  Forall (fun n => 0 <= n < size (m_connect this)) received ->
  exists this',
    GridPatch_Receive received t iDataIndex this = (Returns tt, this')
    /\ slot_replaced t this this' iDataIndex
         (unpacked this received (slot (slots this t) iDataIndex))
         (unpacked this received (slot (m_datavecStateREdge this) iDataIndex)).
Proof.
  intros Ht Hagree Hi Hall.
  assert (size (m_datavecStateREdge this) = size (m_datavecStateNode this)) as HsizeR
    by (unfold size, state_slots_agree in *; lia).
  unfold GridPatch_Receive. rewrite run_bind. cbn [get]. cbv zeta.
  destruct Ht as [-> | ->]; cbn [slots] in *; unfold seq;
    rewrite run_bind, throw_if_false by lia; unfold for_vec.
  - destruct (Receive_state_loop this iDataIndex received Hall 0 this)
      as (s' & Hrun & Hsame & HT & HN & HR); [lia | lia |].
    exists s'. split; [exact Hrun|]. unfold slot_replaced. done.
  - destruct (Receive_tracers_loop this iDataIndex received Hall 0 this)
      as (s' & Hrun & Hsame & HN & HR & HT); [lia|].
    exists s'. split; [exact Hrun|]. unfold slot_replaced. done.
Qed.

End Receive.

Lemma Receive_unpacks_into_the_slot_witness :
  exists this',
    GridPatch_Receive (H := UnpackDemo.collaborators) [1; 0] DataType_State 1
      UnpackDemo.patch
    = (Returns tt, this')
    /\ da_elem (slot (m_datavecStateNode this') 1) [] = 29%float
    /\ da_elem (slot (m_datavecStateREdge this') 1) [] = 41%float
    /\ slot (m_datavecStateNode this') 0 = SlotDemo.array 1
    /\ m_datavecTracers this' = m_datavecTracers UnpackDemo.patch
    /\ m_connect this' = m_connect UnpackDemo.patch.
Proof.
  destruct (Receive_unpacks_into_the_slot (H := UnpackDemo.collaborators)
              UnpackDemo.patch [1; 0] DataType_State 1)
    as (this' & Hrun & Hres).
  - by left.
  - reflexivity.
  - change (size _) with 3. lia.
  - repeat constructor; change (size _) with 2; lia.
  - cbn in Hres.
    destruct Hres as (Hsame & (_ & HN & HNother) & (_ & HR & _) & HT).
    exists this'. split; [exact Hrun|]. rewrite HN, HR.
    split; [vm_compute; reflexivity|]. split; [vm_compute; reflexivity|].
    split; [|split; [exact HT|]].
    + unfold slot. change (Z.to_nat 0) with 0%nat.
      rewrite (HNother 0%nat) by (change (Z.to_nat 1) with 1%nat; lia).
      reflexivity.
    + apply Hsame.
Defined.
(** ** Consolidation at the root: the count is checked last *)

Section CheckedCount.
Context `{Collaborators}.

(** The expected count is taken modulo 2^32: with three components,
    3007681 levels and a patch of 476 nodes the product is 2^32 + 1172,
    and 1172 elements are expected. *)
Lemma expected_count_wraps :
  expected_count
    (Grid_new ∅ {| GetComponents := 3; GetTracers := 0; Model_GetHaloElements := 2;
                   GetComponentDataInstances := 1; GetTracerDataInstances := 0 |}
       3007681 [])
    (GridPatch_new 0 (PatchBox_make 0 0 2 0 24 0 13)) DataType_State
  = 1172.
Proof. vm_compute. reflexivity. Qed.

(** X17. At the root, a message for the state or the tracers of a patch
    of the grid is accepted exactly when it carries the number of
    elements that the code expects: the product of the components (or
    tracers), the levels and the nodes of the patch as computed in int,
    that is modulo 2^32.  With another number the call raises the
    dimension mismatch.  Either way the message has been taken, its data
    is at the start of the buffer with the rest of the buffer as before,
    the output arguments name the patch, the type and the count, and the
    status has already recorded the pair: the refusal comes after the
    record. *)
Theorem ConsolidateDataAtRoot_records_before_checking_count
    (g : Grid) (r : RootState) (msg : Message) (rest : list Message)
    (ixPatch : Z) (t : DataType) (st : ConsolidationStatus)
    (pPatch : ptr) (patch : GridPatch) :
  has_slots t ->
  Done (status r) = false ->
  arriving r = msg :: rest ->
  size (msg_data msg) <= size (dataRecvBuffer r) ->
  ParseTag (MPI_TAG msg) = Some (ixPatch, t) ->
  0 <= ixPatch ->
  m_vecGridPatches g !! Z.to_nat ixPatch = Some pPatch ->
  heap g !! pPatch = Some patch ->
  SetReceiveStatus (status r) ixPatch t = Some st ->
  exists r',
    Grid_ConsolidateDataAtRoot 0 g r
    = (if expected_count g patch t =? size (msg_data msg) then Returns tt
       else Raises (Fatal (count_mismatch t)), r')
    /\ status r' = st
    /\ arriving r' = rest
    /\ dataRecvBuffer r'
       = msg_data msg ++ drop (length (msg_data msg)) (dataRecvBuffer r)
    /\ nRecvCount r' = size (msg_data msg)
    /\ ixRecvPatch r' = ixPatch
    /\ eRecvDataType r' = t.
Proof.
  intros Ht Hdone Harr Hfits Htag Hix Hp Hpatch Hset.
  assert (ixPatch < size (m_vecGridPatches g)) as Hlt.
  { apply lookup_lt_Some in Hp. unfold size. lia. }
  unfold Grid_ConsolidateDataAtRoot.
  rewrite run_bind. cbn [Z.eqb negb throw_if ret].
  rewrite run_bind. cbn [get]. rewrite run_bind, Hdone. cbn [throw_if ret].
  rewrite run_bind. unfold MPI_Recv at 1. rewrite run_bind. cbn [get]. rewrite Harr.
  destruct (Z.ltb_spec (size (dataRecvBuffer r)) (size (msg_data msg))) as [?|_]; [lia|].
  rewrite run_bind. cbn [put ret].
  rewrite run_bind. unfold external at 1. rewrite Htag. cbn [ret].
  rewrite run_bind. cbn [modify]. rewrite run_bind. cbn [get].
  rewrite run_bind. cbn [set_parsed ixRecvPatch eRecvDataType status fst snd].
  rewrite throw_if_false by lia.
  rewrite run_bind. unfold external at 1. rewrite Hset. cbn [ret].
  rewrite run_bind. cbn [modify].
  rewrite run_bind. unfold vec_at at 1, lift at 1.
  rewrite (vec_get_Some _ _ _ pPatch) by done.
  rewrite run_bind. cbn [modify]. rewrite run_bind. cbn [get].
  cbn [set_nRecvCount set_status eRecvDataType nRecvCount].
  eexists. split.
  - destruct Ht as [-> | ->]; cbn [eRecvDataType set_parsed fst snd]; rewrite run_bind; unfold lift at 1, deref at 1;
      rewrite Hpatch; cbn [fst expected_count count_mismatch];
      unfold throw_if; destruct (_ =? _); reflexivity.
  - done.
Qed.

End CheckedCount.

Lemma ConsolidateDataAtRoot_records_before_checking_count_witness :
  let r := @Build_RootState Demo.collaborators
             {| Demo.st_patches := 5; Demo.st_types := [DataType_State];
                Demo.st_received := [] |}
             [ {| MPI_SOURCE := 1; MPI_TAG := 16; msg_data := [1%float; 2%float] |} ]
             (replicate 4 0%float) 0 0 DataType_Tracers in
  let r' := Grid_ConsolidateDataAtRoot (H := Demo.collaborators) 0 (Demo.distributed 5 0) r in
  fst r' = Raises (Fatal "State dimension mismatch")
  /\ Demo.st_received (status (snd r')) = [(1, DataType_State)].
Proof.
  intros r r'.
  assert (m_box <$> heap (Demo.distributed 5 0) !! 2%nat
          = Some (PatchBox_make 0 0 2 0 30 0 10)) as Hpatch by (vm_compute; reflexivity).
  apply fmap_Some in Hpatch as (patch & Hpatch & Hbox).
  destruct (ConsolidateDataAtRoot_records_before_checking_count (H := Demo.collaborators)
              (Demo.distributed 5 0) r
              {| MPI_SOURCE := 1; MPI_TAG := 16; msg_data := [1%float; 2%float] |} []
              1 DataType_State
              {| Demo.st_patches := 5; Demo.st_types := [DataType_State];
                 Demo.st_received := [(1, DataType_State)] |}
              2%nat patch)
    as (s & Hrun & Hstatus & _).
  - by left.
  - vm_compute. reflexivity.
  - reflexivity.
  - vm_compute. discriminate.
  - vm_compute. reflexivity.
  - lia.
  - vm_compute. reflexivity.
  - exact Hpatch.
  - vm_compute. reflexivity.
  - subst r'. rewrite Hrun. cbn [fst snd]. rewrite Hstatus.
    split; [|reflexivity].
    unfold expected_count. rewrite <- Hbox. vm_compute. reflexivity.
Defined.

(** ** InitializeDataLocal: the members and the slots *)

Section Slots.
Context `{Collaborators}.

(** X18. InitializeDataLocal on a stub, in a grid whose model asks for
    numbers of instances that are not negative, returns; the patch then
    has data, belongs to the calling rank, and keeps its index, box and
    connectivity; every member array holds the array that was allocated
    or initialized for it, with the extents of the source; the state has
    one initialized slot for each instance, on nodes and on edges; and
    the tracers have one slot for each instance, initialized when the
    model has tracers and otherwise only resized: new slots are left
    without storage. *)
Theorem InitializeDataLocal_allocates_members_and_slots
    (nRank : Z) (g : Grid) (patch : GridPatch) :
  m_fContainsData patch = false ->
  0 <= GetComponentDataInstances (m_model g) ->
  0 <= GetTracerDataInstances (m_model g) ->
  exists patch',
    GridPatch_InitializeDataLocal nRank g patch = (Returns tt, patch')
    /\ m_fContainsData patch' = true
    /\ m_iProcessor patch' = nRank
    /\ m_ixPatch patch' = m_ixPatch patch
    /\ m_box patch' = m_box patch
    /\ m_connect patch' = m_connect patch
    /\ Forall (holds patch') (local_members g patch)
    /\ allocated_slots g patch patch'.
Proof.
  intros Hstub Hc Ht.
  destruct (InitializeDataLocal_returns nRank g patch Hstub Hc Ht)
    as (patch' & Hrun & H1 & H2 & H3 & H4 & H5 & H6 & H7).
  exists patch'. do 7 (split; [done|]). exact H7.
Qed.

End Slots.

Lemma InitializeDataLocal_allocates_members_and_slots_witness :
  exists patch',
    GridPatch_InitializeDataLocal (H := Demo.collaborators) 0 GridDemo.grid
      (GridPatch_new 0 (PatchBox_make 0 0 1 0 2 0 2)) = (Returns tt, patch')
    /\ m_fields patch' !! "m_dataZLevels"%string = Some (Demo.allocate [1; 4; 4])
    /\ m_fields patch' !! "m_dataRayleighStrengthREdge"%string
       = Some (Demo.allocate [1; 4; 4])
    /\ m_datavecStateNode patch' = replicate 3 (Demo.allocate [3; 1; 4; 4])
    /\ m_datavecTracers patch' = [DataArray_detached; DataArray_detached].
Proof.
  destruct (InitializeDataLocal_allocates_members_and_slots (H := Demo.collaborators)
              0 GridDemo.grid (GridPatch_new 0 (PatchBox_make 0 0 1 0 2 0 2)) eq_refl
              ltac:(vm_compute; discriminate) ltac:(vm_compute; discriminate))
    as (patch' & Hrun & _ & _ & _ & _ & _ & Hmembers & HN & _ & HT).
  exists patch'. split; [exact Hrun|].
  rewrite Forall_forall in Hmembers.
  split.
  { apply (Hmembers ("m_dataZLevels"%string, Demo.allocate [1; 4; 4])).
    vm_compute. set_solver. }
  split.
  { apply (Hmembers ("m_dataRayleighStrengthREdge"%string, Demo.allocate [1; 4; 4])).
    vm_compute. set_solver. }
  rewrite HN, HT. split; reflexivity.
Defined.
(** ** An edge sample that resolves to no patch *)

Lemma vec_get_outside {A} what (v : list A) (i : Z) :
  i < 0 \/ size v <= i -> vec_get what v i = Raises (Undefined what).
Proof.
  intros Hi. unfold vec_get. destruct (Z.ltb_spec i 0); [done|].
  rewrite lookup_ge_None_2; [done|]. unfold size in Hi. lia.
Qed.

Section EdgeBlocks.
Context `{Collaborators}.

Lemma hoare_patch_at_outside (fr0 : Frame) (P : Frame -> Prop) (bad : Z)
    (Q : ptr -> Frame -> Prop) :
  bad < 0 \/ size (m_vecGridPatches (fr_grid fr0)) <= bad ->
  (forall fr, P fr -> fr_grid fr = fr_grid fr0) ->
  hoare P (patch_at bad) Q (outside_patches fr0).
Proof.
  intros Hbad HP fr Hfr. rewrite patch_at_eq, (HP fr Hfr), vec_get_outside by done.
  split; [done|]. by apply HP.
Qed.

Lemma hoare_first_segment_test (fr0 : Frame) (k : Z) (bad : Z) (last : bool) :
  0 <= ix fr0 -> 0 <= k -> (last = false -> ix fr0 + k < size (vecPatch fr0)) ->
  hoare (in_first_segment fr0 k)
    (if last then ret true
     else ixPatch <- current_patch ;; ret (negb (ixPatch =? bad)))
    (fun b fr => (b = false -> last = false) /\ in_first_segment fr0 k fr)
    (outside_patches fr0).
Proof.
  intros Hix Hk Hlen. destruct last.
  - by apply hoare_ret.
  - intros fr (Hg & Hvp & Hn). rewrite run_bind, current_patch_eq, Hvp, Hn.
    destruct (vecPatch fr0 !! Z.to_nat (ix fr0 + k)) as [x|] eqn:Hx.
    + rewrite (vec_get_Some _ _ _ x) by (done || lia). done.
    + apply lookup_ge_None in Hx. specialize (Hlen eq_refl). unfold size in Hlen. lia.
Qed.

Lemma hoare_first_sample (fr0 : Frame) (bad : Z) :
  0 <= ix fr0 -> vecPatch fr0 !! Z.to_nat (ix fr0) = Some bad ->
  hoare (fun fr => fr = fr0) current_patch
    (fun x fr => x = bad /\ in_first_segment fr0 0 fr) (outside_patches fr0).
Proof.
  intros Hix Hbad fr ->. rewrite current_patch_eq, (vec_get_Some _ _ _ bad) by done.
  split; [done|]. unfold in_first_segment. split; [done|]. split; [done|]. lia.
Qed.

Lemma hoare_impossible {S A} (m : M S A) Q E : hoare (fun _ => False) m Q E.
Proof. by intros s Hs. Qed.

Lemma hoare_next_sample (fr0 : Frame) (k : Z) :
  hoare (in_first_segment fr0 k) incr_ix (fun _ => in_first_segment fr0 (k + 1))
    (outside_patches fr0).
Proof.
  apply hoare_modify. intros fr (Hg & Hvp & Hn). unfold in_first_segment. cbn.
  split; [done|]. split; [done|]. lia.
Qed.

(** One turn of the loop of an edge block before the end of the first
    segment. *)
Ltac first_segment_turn fr0 bad k Hbad :=
  cbv zeta;
  apply hoare_pure; intros Hlocals; rewrite Hlocals;
  apply hoare_pure; intros Hturn;
  eapply hoare_bind;
    [ apply (hoare_first_segment_test fr0 k bad); [done | lia | intros ?; lia] |];
  intros segment_ends; cbv beta;
  apply hoare_pure; intros Hlast;
  destruct segment_ends;
    [ eapply hoare_bind; [|intros ?; apply hoare_impossible];
      eapply hoare_bind; [|intros ?; apply hoare_impossible];
      apply (hoare_patch_at_outside fr0 _ bad); [exact Hbad | by intros ? (? & _)]
    | rewrite (Hlast eq_refl); cbn [negb];
      apply hoare_bind_ret;
      eapply hoare_bind; [apply hoare_next_sample | intros ?];
      apply hoare_ret; intros fr Hfr;
      split; [reflexivity|]; split; [lia|];
      match goal with
      | H : in_first_segment _ ?a _ |- in_first_segment _ ?b _ =>
          replace b with a by lia; exact H
      end ].

Lemma bottom_edge_outside (pPatch : ptr) (box : PatchBox) (fr0 : Frame) (bad : Z) :
  GetAInteriorBegin box <= GetAInteriorEnd box ->
  0 <= ix fr0 ->
  vecPatch fr0 !! Z.to_nat (ix fr0) = Some bad ->
  bad < 0 \/ size (m_vecGridPatches (fr_grid fr0)) <= bad ->
  ix fr0 + (GetAInteriorEnd box - GetAInteriorBegin box) <= size (vecPatch fr0) ->
  hoare (fun fr => fr = fr0) (connect_bottom_edge pPatch box)
    (fun _ _ => False) (outside_patches fr0).
Proof.
  intros Hw Hix Hfirst Hbad Hlen. unfold connect_bottom_edge.
  set (lo := GetAInteriorBegin box) in *. set (hi := GetAInteriorEnd box) in *.
  eapply hoare_bind; [by apply hoare_first_sample | intros iCurrentPatch; cbv beta].
  apply hoare_pure; intros ->.
  eapply hoare_bind; [|intros ?; apply hoare_impossible].
  eapply hoare_conseq.
  - apply (hoare_for_upto lo (hi + 1) _
             (fun i locals fr =>
                locals.2 = bad /\ (i <= hi /\ in_first_segment fr0 (i - lo) fr))
             (outside_patches fr0) ltac:(lia)).
    intros i locals Hi.
    first_segment_turn fr0 bad (i - lo) Hbad.
  - intros fr Hfr. cbn. split; [done|]. split; [lia|]. by rewrite Z.sub_diag.
  - intros ? fr (_ & ? & _). lia.
  - done.
Qed.

Lemma right_edge_outside (pPatch : ptr) (box : PatchBox) (fr0 : Frame) (bad : Z) :
  GetBInteriorBegin box <= GetBInteriorEnd box ->
  0 <= ix fr0 ->
  vecPatch fr0 !! Z.to_nat (ix fr0) = Some bad ->
  bad < 0 \/ size (m_vecGridPatches (fr_grid fr0)) <= bad ->
  ix fr0 + (GetBInteriorEnd box - GetBInteriorBegin box) <= size (vecPatch fr0) ->
  hoare (fun fr => fr = fr0) (connect_right_edge pPatch box)
    (fun _ _ => False) (outside_patches fr0).
Proof.
  intros Hw Hix Hfirst Hbad Hlen. unfold connect_right_edge.
  set (lo := GetBInteriorBegin box) in *. set (hi := GetBInteriorEnd box) in *.
  eapply hoare_bind; [by apply hoare_first_sample | intros iCurrentPatch; cbv beta].
  apply hoare_pure; intros ->.
  eapply hoare_bind; [|intros ?; apply hoare_impossible].
  eapply hoare_conseq.
  - apply (hoare_for_upto lo (hi + 1) _
             (fun j locals fr =>
                locals.2 = bad /\ (j <= hi /\ in_first_segment fr0 (j - lo) fr))
             (outside_patches fr0) ltac:(lia)).
    intros j locals Hj.
    first_segment_turn fr0 bad (j - lo) Hbad.
  - intros fr Hfr. cbn. split; [done|]. split; [lia|]. by rewrite Z.sub_diag.
  - intros ? fr (_ & ? & _). lia.
  - done.
Qed.

Lemma top_edge_outside (pPatch : ptr) (box : PatchBox) (fr0 : Frame) (bad : Z) :
  GetAInteriorBegin box <= GetAInteriorEnd box ->
  0 <= ix fr0 ->
  vecPatch fr0 !! Z.to_nat (ix fr0) = Some bad ->
  bad < 0 \/ size (m_vecGridPatches (fr_grid fr0)) <= bad ->
  ix fr0 + (GetAInteriorEnd box - GetAInteriorBegin box) <= size (vecPatch fr0) ->
  hoare (fun fr => fr = fr0) (connect_top_edge pPatch box)
    (fun _ _ => False) (outside_patches fr0).
Proof.
  intros Hw Hix Hfirst Hbad Hlen. unfold connect_top_edge.
  set (lo := GetAInteriorBegin box) in *. set (hi := GetAInteriorEnd box) in *.
  eapply hoare_bind; [by apply hoare_first_sample | intros iCurrentPatch; cbv beta].
  apply hoare_pure; intros ->.
  eapply hoare_bind; [|intros ?; apply hoare_impossible].
  eapply hoare_conseq.
  - apply (hoare_for_downto (hi - 1) (lo - 1) _
             (fun i locals fr =>
                locals.2 = bad /\ (lo - 1 <= i /\ in_first_segment fr0 (hi - 1 - i) fr))
             (outside_patches fr0) ltac:(lia)).
    intros i locals Hi.
    first_segment_turn fr0 bad (hi - 1 - i) Hbad.
  - intros fr Hfr. cbn. split; [done|]. split; [lia|].
    by replace (hi - 1 - (hi - 1)) with 0 by lia.
  - intros ? fr (_ & ? & _). lia.
  - done.
Qed.

Lemma left_edge_outside (pPatch : ptr) (box : PatchBox) (fr0 : Frame) (bad : Z) :
  GetBInteriorBegin box <= GetBInteriorEnd box ->
  0 <= ix fr0 ->
  vecPatch fr0 !! Z.to_nat (ix fr0) = Some bad ->
  bad < 0 \/ size (m_vecGridPatches (fr_grid fr0)) <= bad ->
  ix fr0 + (GetBInteriorEnd box - GetBInteriorBegin box) <= size (vecPatch fr0) ->
  hoare (fun fr => fr = fr0) (connect_left_edge pPatch box)
    (fun _ _ => False) (outside_patches fr0).
Proof.
  intros Hw Hix Hfirst Hbad Hlen. unfold connect_left_edge.
  set (lo := GetBInteriorBegin box) in *. set (hi := GetBInteriorEnd box) in *.
  eapply hoare_bind; [by apply hoare_first_sample | intros iCurrentPatch; cbv beta].
  apply hoare_pure; intros ->.
  eapply hoare_bind; [|intros ?; apply hoare_impossible].
  eapply hoare_conseq.
  - apply (hoare_for_downto (hi - 1) (lo - 1) _
             (fun j locals fr =>
                locals.2 = bad /\ (lo - 1 <= j /\ in_first_segment fr0 (hi - 1 - j) fr))
             (outside_patches fr0) ltac:(lia)).
    intros j locals Hj.
    first_segment_turn fr0 bad (hi - 1 - j) Hbad.
  - intros fr Hfr. cbn. split; [done|]. split; [lia|].
    by replace (hi - 1 - (hi - 1)) with 0 by lia.
  - intros ? fr (_ & ? & _). lia.
  - done.
Qed.

(** X19. An edge block of InitializeConnectivity has no test for the
    invalid index.  When the first sample of an edge resolves to an
    index that is no position of m_vecGridPatches (the invalid index of
    an exposed edge, or any index below 0 or not below the number of
    patches), the block reads m_vecGridPatches outside its bounds at the
    end of the first segment: it never returns, and the grid is as
    before.  A corner block skips such a sample; an edge block cannot. *)
Theorem edge_block_reads_outside_patches (block : M Frame unit) (samples : Z)
    (fr : Frame) (unresolved : Z) :
  edge_block block samples ->
  0 <= samples ->
  0 <= ix fr ->
  vecPatch fr !! Z.to_nat (ix fr) = Some unresolved ->
  unresolved < 0 \/ size (m_vecGridPatches (fr_grid fr)) <= unresolved ->
  ix fr + samples <= size (vecPatch fr) ->
  exists fr',
    block fr = (Raises (Undefined "m_vecGridPatches[i]"), fr')
    /\ fr_grid fr' = fr_grid fr.
Proof.
  intros Hblock Hw Hix Hfirst Hbad Hlen.
  assert (Hrun : hoare (fun fr1 => fr1 = fr) block (fun _ _ => False) (outside_patches fr)).
  { destruct Hblock;
      [ apply bottom_edge_outside with (bad := unresolved)
      | apply right_edge_outside with (bad := unresolved)
      | apply top_edge_outside with (bad := unresolved)
      | apply left_edge_outside with (bad := unresolved) ]; first [done | lia]. }
  specialize (Hrun fr eq_refl).
  destruct (block fr) as [[[]|e] fr']; [done|].
  destruct Hrun as [-> Hgrid]. eauto.
Qed.

End EdgeBlocks.

Lemma edge_block_reads_outside_patches_witness :
  exists fr',
    connect_bottom_edge (H := Demo.collaborators) 1%nat (PatchBox_make 0 0 2 10 20 10 20)
      (set_vecPatch [-1; -1; -1; -1; -1; -1; -1; -1; -1; -1; -1; -1]
         (set_ix 1 Demo.centre_frame))
    = (Raises (Undefined "m_vecGridPatches[i]"), fr').
Proof.
  destruct (edge_block_reads_outside_patches (H := Demo.collaborators)
              (connect_bottom_edge (H := Demo.collaborators) 1%nat
                 (PatchBox_make 0 0 2 10 20 10 20)) 10
              (set_vecPatch [-1; -1; -1; -1; -1; -1; -1; -1; -1; -1; -1; -1]
                 (set_ix 1 Demo.centre_frame)) (-1))
    as (fr' & Hrun & _).
  - apply (edge_bottom (H := Demo.collaborators) 1%nat (PatchBox_make 0 0 2 10 20 10 20)).
  - lia.
  - cbn [ix set_vecPatch set_ix]. lia.
  - reflexivity.
  - left. lia.
  - cbn [ix vecPatch set_vecPatch set_ix]. unfold size. cbn [length]. lia.
  - by exists fr'.
Defined.

